(* ===== verification/_CoqProject ===== *)
-Q . S2P
Prelude.v
Zone.v
Watermark.v
Buddy.v
BuddyInv.v
BuddyOps.v
BuddySpec.v
Pmm.v
PmmBoot.v
PmmInv.v
PmmOps.v
PmmPcp.v
PmmRefill.v
PmmAlloc.v
PmmFree.v
PmmApi.v
PmmSeed.v
PmmInit.v
PmmReserve.v
PmmTheorems.v
BTree.v
Vma.v
VmaTree.v
VmaTreeInv.v
VmaTreeOps.v
VmaTreeSpec.v
VmaTreeRange.v
VmaTreeEdit.v
TreeRefine.v
Hole.v
Rmap.v
RmapSpec.v
Account.v
AccountSpec.v
AddrSpace.v
AddrSpaceOps.v
Extent.v
AddrSpaceInv.v
AddrSpaceSpec.v
AddrSpaceMmap.v
AddrSpaceView.v
AddrSpaceProt.v
AddrSpaceLock.v
AddrSpaceMove.v
AddrSpaceReach.v
VmmFindings.v
VmmTheorems.v
Words.v
Result.v
FdTable.v
FdTableSpec.v
FdTableInv.v
FdTableRefine.v
FdTableBulk.v
FdTableFork.v
FdTableTheorems.v
FdTableRefs.v
AuditFmt.v
Landlock.v
LandlockDomain.v
LandlockAccess.v
LandlockSpec.v
LandlockCheck.v
LandlockRefer.v
Tsync.v
TsyncProof.v
TsyncLive.v
TsyncTheorems.v
LandlockCalls.v
LandlockWorld.v
LandlockSteps.v
LandlockTrace.v
LandlockNarrow.v
LandlockIds.v
LandlockCreate.v
LandlockSample.v
LandlockTheorems.v
