(* ===== verification/Prelude.v ===== *)
(** * Memory, descriptors and confinement in the oxide kernel

    This library models the physical page allocator, the virtual memory
    manager, the descriptor tables and the Landlock sandbox of oxide
    ([src/crates/kernel/mm-pmm], [mm-vmm], [vfs/src/fdtable], [landlock] and
    the system calls and scheduler code around it) as executable Rocq
    functions and proves what they guarantee.

    ** The parts and how they interact

    The physical allocator owns page frames. Memory is cut into zones; each
    zone has buddy free lists by mobility class and order; single pages are
    cached per CPU; an allocation walks the zones its flags permit, tests
    their watermarks, and falls into a retry machine with reclaim when
    nothing is free. The virtual memory manager owns address spaces: an
    ordered tree of areas, the search for unmapped ranges, the calls of
    [mmap], [munmap], [mprotect], [mremap], [mlock], [mseal] and their
    policies, the reverse maps from files and anonymous families to the
    ranges that map them, and the accounting of bytes and of resident pages
    ([address_space/rss.rs]). Page tables join the two
    halves and are not modelled; an operation that edits them is a parameter.

    A descriptor table maps small numbers to open files: three bitmaps say
    which numbers are taken, closed on exec, and reserved for a file that is
    not published yet. Landlock confines threads: a program builds a ruleset
    behind a descriptor, adds rules on hierarchies and ports, and enforces it
    as one more layer of the domain of a thread, or of every thread of its
    process by a two-barrier protocol; the path, open, rename, socket and
    signal code then asks the domain of the calling thread, which grants only
    what every layer grants, and reports what it refuses to the audit log.

    ** How code is translated

    Integers are [Z] with the wrap-around, saturation and overflow checks of
    the source written out ([wrap64], [sat_add], [add64]). A stateful
    function is a computation of the state-and-panic monad [M S A := S -> res
    (A * S)]: [expect], index, overflow and assertion failures are [Panic].
    [wp m Q s] says the run from [s] ends, without a panic, in [Q]; [wpe E]
    also allows the panics in [E]. A lock is a sequential critical section. A
    reference-counted object is its identity. A [BTreeMap] is the sorted list
    of its entries. Code outside the modelled parts (reclaim, the victim
    killer, page zeroing, the methods of a mapped file, the page-table mover,
    flushing a file, the tree of dentries and mounts, user memory, the
    capabilities of the caller) is an argument, and each theorem names what it
    assumes of it. Objects that are shared (the logs of layers, rulesets,
    files, descriptor tables used by several threads) live in a store and are
    named by their index. Where threads interleave ([Tsync]), one atomic
    access of the code is one action, and a theorem is about all sequences of
    actions.

    ** The files

    Physical memory:
    - [Zone]: [mm-pmm/src/zone/]: zones, spans, fallback lists, mobility
      classes, reserves. [Watermark]: [watermark.rs], [oom_entry.rs].
    - [Buddy]: the free lists, bitmaps and pageblock map ([buddy/inner.rs],
      [pageblock.rs], [free_node.rs], [free.rs]); [BuddyInv], [BuddyOps],
      [BuddySpec]: the abstract state of the free lists, the primitives and
      the split, steal and merge loops against it.
    - [Pmm], [PmmBoot]: the allocator: pagesets, allocation, free, counters,
      construction, reservation ([buddy/pcp.rs], [api.rs], [free.rs],
      [construct.rs], [reserve.rs], [zones.rs]); [PmmInv]: every page has
      exactly one owner and the counters say how many each has; [PmmOps],
      [PmmPcp], [PmmRefill], [PmmAlloc], [PmmFree], [PmmApi], [PmmSeed],
      [PmmInit], [PmmReserve]: the operations keep it. [PmmTheorems]: the
      results.

    Virtual memory:
    - [BTree], [Vma], [VmaTree]: areas, object hooks and the area tree
      ([vma.rs], [vma/clone.rs], [vm_ops.rs], [tree.rs], [tree_ranges.rs],
      [tree/]); [VmaTreeInv]: well-formed trees and the [view] of an address,
      by which everything is specified; [VmaTreeOps], [VmaTreeSpec],
      [VmaTreeRange], [VmaTreeEdit]: the tree operations; [TreeRefine]: an
      abstract memory map and its implementation by the tree.
    - [Hole]: the two searches for a gap ([hole.rs]). [Rmap], [RmapSpec]:
      reverse maps, write seals and memory-deny-write-execute
      ([anon_vma.rs], [file_rmap.rs], [address_space/mdwe.rs]).
    - [Account]: the counters of an address space, the classes of its
      resident set and their aggregate ([address_space/accounting.rs],
      [address_space/rss.rs]); [AccountSpec]: the entries they count.
    - [AddrSpace], [AddrSpaceOps]: the address space and its calls
      ([address_space/], [mmap.rs], [mseal.rs], [mremap.rs]); [Extent],
      [AddrSpaceInv]: byte counting and the invariant; [AddrSpaceSpec],
      [AddrSpaceMmap], [AddrSpaceProt], [AddrSpaceLock], [AddrSpaceMove]:
      mapping, placing, protecting, locking and advising, moving;
      [AddrSpaceView]: section views and flushing; [AddrSpaceReach]: any
      sequence of requests.
    - [VmmTheorems]: the results. [VmmFindings]: runs in which the code does
      not do what it says.

    Descriptors ([Words], [Result]: bit lemmas and errors the rest shares):
    - [FdTable]: the table and its operations ([vfs/src/fdtable/]).
      [FdTableSpec], [FdTableInv]: bits, the word scan, the invariant;
      [FdTableRefine], [FdTableBulk], [FdTableFork]: each operation against
      plain slots, the sweeps of exec and of ranges, the copies and the
      queries; [FdTableTheorems]: every call; [FdTableRefs]: the life of a
      table, its references, and the results.

    Landlock:
    - [Landlock], [LandlockDomain], [LandlockAccess]: argument checks, the
      layer algebra, rulesets, domains, walks, link and rename, opens,
      sockets, denial records ([landlock/src/], [net/src/landlock_addr.rs]);
      [AuditFmt]: [audit/src/fmt.rs].
    - [LandlockSpec], [LandlockCheck], [LandlockRefer]: the masks, the policy
      of a domain ([allows]) and the checks against it.
    - [Tsync]: [sched/src/landlock_tsync.rs] and the exit and creation of
      threads; [TsyncProof], [TsyncLive], [TsyncTheorems]: its invariant,
      progress, and the results.
    - [LandlockCalls]: the three system calls and the hooks
      ([syscalls/src/444_landlock_create_ruleset.rs],
      [445_landlock_add_rule.rs], [446_landlock_restrict_self.rs],
      [landlock.rs], [uaccess/src/]) over a [World] of threads, tables, files,
      rulesets and logs. [LandlockWorld], [LandlockSteps], [LandlockTrace]:
      well-typed worlds, that every call keeps them so, and sequences of
      calls; [LandlockNarrow], [LandlockIds]: how domains change, and what
      their identities stand for; [LandlockCreate]: attributes in user memory;
      [LandlockSample]: concrete runs; [LandlockTheorems]: the results.

    ** What the theorems show

    - The allocator refines a specification that only knows who holds which
      block: blocks are aligned, permitted, never shared, never lost; double
      frees are caught; the counters are exact; boot and reservation set the
      stage ([PmmTheorems], with [Zone] and [Watermark] for the policies).
    - The area tree refines a map from addresses to pages ([TreeRefine]).
      Every call on an address space is specified by the pages before and
      after, errors included; no sequence of requests breaks the invariant or
      panics; sealed pages keep everything but their lock state and advice; no
      page becomes writable and executable once that is denied, by a mapping
      admitted beforehand either; a file sealed against writing gets no page
      to write it through ([VmmTheorems]).
    - The resident-set counters are those of the installed entries, and the
      high-water mark is the largest they ever were, in the run of accounting
      calls of one address space, one after the other.
    - Searches for holes are optimal, walks of reverse maps are complete, the
      read-only checks agree with the operations, retry loops end.
    - A descriptor table behaves like plain slots under any calls, copies
      included; the word scan finds the lowest free number; every reference a
      table takes or is handed is given back exactly once ([FdTableRefs]).
    - Any calls of any threads keep the Landlock state well-typed. A check
      answers yes exactly when every layer grants what is asked, and counts
      and reports what it refuses; a move of a file grants nothing new; a
      thread's own calls never give back an access; identities decide scopes
      correctly; attributes survive the trip through user memory
      ([LandlockTheorems]).
    - Enforcement on every thread is atomic for any interleaving with threads
      created by clone, and completes when no thread exits; an exit at the
      wrong moment blocks it for ever ([TsyncTheorems]), and a sibling's own
      layers are lost ([landlock_tsync_widens]).

    ** Bounds and fuel

    Recursion that is not structural takes fuel, and each use is shown to
    have enough: the merge and split loops of the buddy lists by the maximal
    order, list walks by the number of pages, the square root by 32 halvings,
    the retry machine by its 17 passes, the plan of [mprotect] by the number
    of areas, the walk of a reverse map by the number of intervals, the word
    scan by the number of words, the zero tail of an attribute by its length.
    The walk up the file tree stops after 4096 steps as in the source, and
    the theorem on renames asks that the walks end before. The specifications
    are total: they give a result, not only a property of one.

    ** What is not modelled, and why

    - Page tables, faults, copy-on-write, fork and swap: they work on raw
      pointers and hardware tables; [VmmFindings] models the two lines of the
      fault path that [device_cut_shifts] needs.
    - Concurrency below the granularity of a critical section, memory
      orderings, interrupts, preemption.
    - Histories of an address space do not include registration with
      userfaultfd, anonymous names, NUMA policies, stack growth, device
      mappings of more than a page, and advice over several areas at once:
      the code can panic or break the invariant there, as [VmmFindings]
      shows. They do not include the origins of NT views, fork, the move of a
      device page, and mremap with old size 0 either. The operations
      themselves are modelled (fork apart), and the tree operations behind
      them are specified in [VmaTreeRange] and [VmaTreeEdit].
    - Reclaim and the out-of-memory killer: any computations that keep the
      allocator's invariant and the caller's blocks, with panics of their own.
    - Debug-only poisoning and audits of the allocator, huge pages,
      hibernation.
    - The world of the Landlock calls takes a whole-process enforcement as one
      step, which [tsync_atomic] justifies for threads created by clone; the
      automatic binding of datagram sockets and the release of a domain's last
      reference are modelled as functions ([Dom.drop_domain]) or left out, and
      are not steps of that world.
    - Every other crate of the kernel (scheduler, file systems, networking,
      drivers). Constants are defined where they are used and follow the
      source one to one. *)

From Stdlib Require Export ZArith Lia Bool String.
From stdpp Require Export base tactics decidable option sets numbers list.

#[global] Open Scope Z_scope.

(** ** Machine integers *)

Definition U64_MAX : Z := 2 ^ 64 - 1.

Definition U32_MAX : Z := 2 ^ 32 - 1.

(** [u64] arithmetic of the atomics ([fetch_add], [fetch_sub]) and of
    [wrapping_*]: modulo 2^64. *)
Definition wrap64 (x : Z) : Z := x mod 2 ^ 64.

(** [saturating_add], [saturating_sub], [saturating_mul]. *)
Definition sat_add (a b : Z) : Z := Z.min (a + b) U64_MAX.
Definition sat_sub (a b : Z) : Z := Z.max (a - b) 0.
Definition sat_mul (a b : Z) : Z := Z.min (a * b) U64_MAX.

(** [checked_add]. *)
Definition checked_add (a b : Z) : option Z :=
  if a + b <=? U64_MAX then Some (a + b) else None.

(** [checked_sub]. *)
Definition checked_sub (a b : Z) : option Z :=
  if b <=? a then Some (a - b) else None.

(** [!x] on [u64]. *)
Definition not64 (x : Z) : Z := Z.lxor x U64_MAX.

(** [x << n] on [u64]: the bits shifted past bit 63 are dropped. *)
Definition shl64 (x n : Z) : Z := wrap64 (Z.shiftl x n).

Lemma wrap64_small x : 0 <= x <= U64_MAX -> wrap64 x = x.
Proof. unfold wrap64, U64_MAX. intros. apply Z.mod_small. lia. Qed.

(** ** Computations that may panic

    The kernel is built with [panic = "abort"]: a failed [kassert!], an
    out-of-range index, [Option::expect] on [None] and (in the profile with
    [overflow-checks = true]) an arithmetic overflow end the computation.
    A computation over a state of type [S] is a function from the state to
    either its result and the new state, or a panic with its message. *)

Inductive res (A : Type) : Type :=
| Done (a : A)
| Panic (msg : string).
Arguments Done {A} a.
Arguments Panic {A} msg.

Definition M (S A : Type) : Type := S -> res (A * S).

Section monad.
Context {S : Type}.

Definition ret {A} (a : A) : M S A := fun s => Done (a, s).

Definition bind {A B} (m : M S A) (k : A -> M S B) : M S B := fun s =>
  match m s with
  | Done (a, s') => k a s'
  | Panic e => Panic e
  end.

Definition panic {A} (msg : string) : M S A := fun _ => Panic msg.

Definition get : M S S := fun s => Done (s, s).

Definition gets {A} (f : S -> A) : M S A := fun s => Done (f s, s).

Definition modify (f : S -> S) : M S unit := fun s => Done (tt, f s).

(** [kassert!(cond, msg)]. *)
Definition kassert (c : bool) (msg : string) : M S unit :=
  if c then ret tt else panic msg.

(** [Option::expect(msg)]. *)
Definition expect {A} (o : option A) (msg : string) : M S A :=
  match o with Some a => ret a | None => panic msg end.

(** [a + b], [a - b] on [u64] with overflow checks. *)
Definition add64 (a b : Z) : M S Z :=
  if a + b <=? U64_MAX then ret (a + b) else panic "attempt to add with overflow".
Definition sub64 (a b : Z) : M S Z :=
  if b <=? a then ret (a - b) else panic "attempt to subtract with overflow".

End monad.

#[global] Instance M_ret S : MRet (M S) := fun A a => ret a.
#[global] Instance M_bind S : MBind (M S) := fun A B k m => bind m k.

(** Run a computation over a part of the state. *)
Definition zoom {S T A} (getter : S -> T) (setter : T -> S -> S) (m : M T A) : M S A := fun s =>
  match m (getter s) with
  | Done (a, t) => Done (a, setter t s)
  | Panic e => Panic e
  end.

(** [for x in l { body }]. *)
Fixpoint for_each {S A} (l : list A) (body : A -> M S unit) : M S unit :=
  match l with
  | [] => ret tt
  | x :: l' => body x ;; for_each l' body
  end.

(** ** Total correctness

    [wp m Q s]: run from [s], [m] does not panic and its result and final
    state satisfy [Q]. *)

Definition wp {S A} (m : M S A) (Q : A -> S -> Prop) (s : S) : Prop :=
  match m s with
  | Done (a, s') => Q a s'
  | Panic _ => False
  end.

Section wp_rules.
Context {S : Type}.

Lemma wp_iff {A} (m : M S A) Q s :
  wp m Q s <-> exists a s', m s = Done (a, s') /\ Q a s'.
Proof.
  unfold wp. split.
  - destruct (m s) as [[a s']|]; [eauto | tauto].
  - intros (a & s' & -> & H). exact H.
Qed.

Lemma wp_ret {A} (a : A) (Q : A -> S -> Prop) s : Q a s -> wp (ret a) Q s.
Proof. done. Qed.

Lemma wp_bind {A B} (m : M S A) (k : A -> M S B) Q s :
  wp m (fun a s' => wp (k a) Q s') s -> wp (m ≫= k) Q s.
Proof. unfold wp, mbind, M_bind, bind. by destruct (m s) as [[a s']|]. Qed.

Lemma wp_bind_inv {A B} (m : M S A) (k : A -> M S B) Q s :
  wp (m ≫= k) Q s -> wp m (fun a s' => wp (k a) Q s') s.
Proof. unfold wp, mbind, M_bind, bind. by destruct (m s) as [[a s']|]. Qed.

Lemma wp_mono {A} (m : M S A) (P Q : A -> S -> Prop) s :
  wp m P s -> (forall a s', P a s' -> Q a s') -> wp m Q s.
Proof. unfold wp. destruct (m s) as [[a s']|]; eauto. Qed.

(** Three steps that belong together, run before [k]. *)
Lemma wp_and {A} (m : M S A) (P Q : A -> S -> Prop) s :
  wp m P s -> wp m Q s -> wp m (fun a s' => P a s' /\ Q a s') s.
Proof. unfold wp. by destruct (m s) as [[a s']|]. Qed.

Lemma wp_seq3 {A B C D} (m1 : M S A) (m2 : M S B) (m3 : M S C) (k : M S D) Q s :
  wp (m1 ;; m2 ;; m3) (fun _ s' => wp k Q s') s -> wp (m1 ;; m2 ;; m3 ;; k) Q s.
Proof.
  unfold wp, mbind, M_bind, bind. destruct (m1 s) as [[? s1]|]; [|done].
  destruct (m2 s1) as [[? s2]|]; [|done]. by destruct (m3 s2) as [[? s3]|].
Qed.

Lemma wp_gets {A} (f : S -> A) (Q : A -> S -> Prop) s : Q (f s) s -> wp (gets f) Q s.
Proof. done. Qed.

Lemma wp_get (Q : S -> S -> Prop) s : Q s s -> wp get Q s.
Proof. done. Qed.

Lemma wp_modify f (Q : unit -> S -> Prop) s : Q tt (f s) -> wp (modify f) Q s.
Proof. done. Qed.

Lemma wp_kassert c msg (Q : unit -> S -> Prop) s :
  c = true -> Q tt s -> wp (kassert c msg) Q s.
Proof. by intros ->. Qed.

Lemma wp_expect {A} (o : option A) msg a (Q : A -> S -> Prop) s :
  o = Some a -> Q a s -> wp (expect o msg) Q s.
Proof. by intros ->. Qed.

Lemma wp_add64 a b (Q : Z -> S -> Prop) s :
  a + b <= U64_MAX -> Q (a + b) s -> wp (add64 a b) Q s.
Proof. unfold add64. intros H HQ. by rewrite (proj2 (Z.leb_le _ _) H). Qed.

Lemma wp_sub64 a b (Q : Z -> S -> Prop) s :
  b <= a -> Q (a - b) s -> wp (sub64 a b) Q s.
Proof. unfold sub64. intros H HQ. by rewrite (proj2 (Z.leb_le _ _) H). Qed.

Lemma wp_done {A} (m : M S A) a s' Q s : m s = Done (a, s') -> Q a s' -> wp m Q s.
Proof. unfold wp. by intros ->. Qed.

Lemma wp_zoom {T A} (getter : S -> T) setter (m : M T A) (Q : A -> S -> Prop) s :
  wp m (fun a t => Q a (setter t s)) (getter s) -> wp (zoom getter setter m) Q s.
Proof. unfold wp, zoom. by destruct (m (getter s)) as [[a t]|]. Qed.

(** A loop over a list keeps an invariant indexed by the part still to do. *)
Lemma wp_for_each {A} (body : A -> M S unit) (I : list A -> S -> Prop) l s :
  I l s ->
  (forall x l' s', I (x :: l') s' -> wp (body x) (fun _ => I l') s') ->
  wp (for_each l body) (fun _ => I []) s.
Proof.
  revert s. induction l as [|x l IH]; intros s HI Hstep; simpl; [done|].
  apply wp_bind. eapply wp_mono; [by apply Hstep|]. intros [] s' HI'. by apply IH.
Qed.

End wp_rules.

(** [wpe E m Q s]: as [wp], but [m] may also panic with a message in [E]. *)
Definition wpe {S A} (E : string -> Prop) (m : M S A) (Q : A -> S -> Prop) (s : S) : Prop :=
  match m s with
  | Done (a, s') => Q a s'
  | Panic msg => E msg
  end.

Section wpe_rules.
Context {S : Type} (E : string -> Prop).

Lemma wpe_wp {A} (m : M S A) Q s : wp m Q s -> wpe E m Q s.
Proof. unfold wp, wpe. by destruct (m s) as [[a s']|]. Qed.

Lemma wp_of_wpe {A} (m : M S A) Q s : (forall msg, ~ E msg) -> wpe E m Q s -> wp m Q s.
Proof. unfold wp, wpe. intros HE. destruct (m s) as [[a s']|msg]; [done|apply HE]. Qed.

Lemma wpe_bind {A B} (m : M S A) (k : A -> M S B) Q s :
  wpe E m (fun a s' => wpe E (k a) Q s') s -> wpe E (m ≫= k) Q s.
Proof. unfold wpe, mbind, M_bind, bind. by destruct (m s) as [[a s']|]. Qed.

Lemma wpe_bind_wp {A B} (m : M S A) (k : A -> M S B) Q s :
  wp m (fun a s' => wpe E (k a) Q s') s -> wpe E (m ≫= k) Q s.
Proof. intros H. by apply wpe_bind, wpe_wp. Qed.

Lemma wpe_mono {A} (m : M S A) (P Q : A -> S -> Prop) s :
  wpe E m P s -> (forall a s', P a s' -> Q a s') -> wpe E m Q s.
Proof. unfold wpe. destruct (m s) as [[a s']|]; eauto. Qed.

Lemma wpe_ret {A} (a : A) (Q : A -> S -> Prop) s : Q a s -> wpe E (ret a) Q s.
Proof. done. Qed.

Lemma wpe_kassert b msg (Q : unit -> S -> Prop) s :
  (b = false -> E msg) -> (b = true -> Q tt s) -> wpe E (kassert b msg) Q s.
Proof. unfold wpe, kassert. destruct b; cbn; auto. Qed.

Lemma wpe_for_each {A} (body : A -> M S unit) (I : list A -> S -> Prop) l s :
  I l s ->
  (forall x l' s', I (x :: l') s' -> wpe E (body x) (fun _ => I l') s') ->
  wpe E (for_each l body) (fun _ => I []) s.
Proof.
  intros H Hbody. revert s H. induction l as [|x l IH]; intros s H; [by apply wpe_ret|].
  cbn. apply wpe_bind. eapply wpe_mono; [by apply Hbody|]. intros [] s' H'. by apply IH.
Qed.

End wpe_rules.

Lemma wpe_weaken {S A} (E E' : string -> Prop) (m : M S A) Q s :
  (forall msg, E msg -> E' msg) -> wpe E m Q s -> wpe E' m Q s.
Proof. unfold wpe. destruct (m s) as [[a s']|]; eauto. Qed.

(** A run that can only end in the panic [msg] does. *)
Lemma wpe_panics {S A} (m : M S A) msg s : wpe (eq msg) m (fun _ _ => False) s -> m s = Panic msg.
Proof. unfold wpe. destruct (m s) as [[a s']|]; [done|]. by intros ->. Qed.

Ltac wp_step :=
  cbn beta iota zeta;
  lazymatch goal with
  | |- wp (_ ≫= _) _ _ => apply wp_bind
  | |- wp (mret _) _ _ => apply wp_ret
  | |- wp (ret _) _ _ => apply wp_ret
  | |- wp (gets _) _ _ => apply wp_gets
  | |- wp get _ _ => apply wp_get
  | |- wp (modify _) _ _ => apply wp_modify
  | |- wp (kassert _ _) _ _ => apply wp_kassert
  | |- wp (add64 _ _) _ _ => apply wp_add64
  | |- wp (sub64 _ _) _ _ => apply wp_sub64
  | |- wp (expect _ _) _ _ => eapply wp_expect; [reflexivity|]
  end.
Ltac wp_steps := repeat (wp_step; cbn beta).

(** Boolean comparisons as propositions, in the hypotheses and the goal. *)
Ltac to_prop :=
  repeat match goal with
  | H : _ && _ = true |- _ => apply andb_true_iff in H as [? ?]
  | H : _ || _ = false |- _ => apply orb_false_iff in H as [? ?]
  | H : negb _ = true |- _ => apply negb_true_iff in H
  | H : negb _ = false |- _ => apply negb_false_iff in H
  | H : (_ <? _) = true |- _ => apply Z.ltb_lt in H
  | H : (_ <? _) = false |- _ => apply Z.ltb_ge in H
  | H : (_ <=? _) = true |- _ => apply Z.leb_le in H
  | H : (_ <=? _) = false |- _ => apply Z.leb_gt in H
  | H : (_ =? _) = true |- _ => apply Z.eqb_eq in H
  | H : (_ =? _) = false |- _ => apply Z.eqb_neq in H
  | H : (_ =? _)%nat = true |- _ => apply Nat.eqb_eq in H
  | H : (_ =? _)%nat = false |- _ => apply Nat.eqb_neq in H
  | H : (_ <? _)%nat = true |- _ => apply Nat.ltb_lt in H
  | H : (_ <? _)%nat = false |- _ => apply Nat.ltb_ge in H
  | H : (_ <=? _)%nat = true |- _ => apply Nat.leb_le in H
  | H : (_ <=? _)%nat = false |- _ => apply Nat.leb_gt in H
  end.

Ltac bool_case e := let E := fresh "E" in destruct e eqn:E; to_prop.

Create HintDb oxide discriminated.

(** ** Sums over lists *)

Definition sumZ {A} (f : A -> Z) (l : list A) : Z := foldr (fun x acc => f x + acc) 0 l.
#[global] Arguments sumZ : simpl never.

Section sums.
Context {A : Type}.
Implicit Types (f g : A -> Z) (l : list A).

Lemma sumZ_nil f : sumZ f [] = 0.
Proof. done. Qed.

Lemma sumZ_cons f x l : sumZ f (x :: l) = f x + sumZ f l.
Proof. done. Qed.

Lemma sumZ_app f l1 l2 : sumZ f (l1 ++ l2) = sumZ f l1 + sumZ f l2.
Proof. induction l1 as [|x l1 IH]; [done|]. cbn [app]. rewrite !sumZ_cons, IH. lia. Qed.

Lemma sumZ_ext f g l : (forall x, x ∈ l -> f x = g x) -> sumZ f l = sumZ g l.
Proof.
  induction l as [|x l IH]; intros H; [done|]. rewrite !sumZ_cons.
  rewrite (H x) by left. rewrite IH; [done|]. intros y Hy. apply H. by right.
Qed.

Lemma sumZ_nonneg f l : (forall x, x ∈ l -> 0 <= f x) -> 0 <= sumZ f l.
Proof.
  induction l as [|x l IH]; intros H; [done|]. rewrite sumZ_cons.
  specialize (H x ltac:(left)) as Hx. assert (0 <= sumZ f l); [|lia].
  apply IH. intros y Hy. apply H. by right.
Qed.

Lemma sumZ_const0 f l : (forall x, x ∈ l -> f x = 0) -> sumZ f l = 0.
Proof.
  intros H. rewrite (sumZ_ext f (fun _ => 0)) by done. clear H.
  induction l as [|x l IH]; [done|]. by rewrite sumZ_cons.
Qed.

Lemma sumZ_const (k : Z) l : sumZ (fun _ => k) l = Z.of_nat (length l) * k.
Proof. induction l as [|x l IH]; [done|]. rewrite sumZ_cons, IH. cbn [length]. lia. Qed.

Lemma sumZ_le f g l : (forall x, x ∈ l -> f x <= g x) -> sumZ f l <= sumZ g l.
Proof.
  induction l as [|x l IH]; intros H; [done|]. rewrite !sumZ_cons.
  pose proof (H x ltac:(left)). specialize (IH ltac:(intros; apply H; by right)). lia.
Qed.

Lemma sumZ_pos_elem f l : 0 < sumZ f l -> exists x, x ∈ l /\ 0 < f x.
Proof.
  induction l as [|x l IH]; [rewrite sumZ_nil; lia|]. rewrite sumZ_cons. intros H.
  destruct (decide (0 < f x)); [exists x; split; [left|done]|]. destruct IH as (y & ? & ?); [lia|]. exists y. split; [by right|done].
Qed.

Lemma sumZ_elem_le f l x :
  (forall y, y ∈ l -> 0 <= f y) -> x ∈ l -> f x <= sumZ f l.
Proof.
  induction l as [|y l IH]; intros Hp Hx; [by apply not_elem_of_nil in Hx|].
  rewrite sumZ_cons. assert (0 <= f y) by (apply Hp; left).
  assert (0 <= sumZ f l) by (apply sumZ_nonneg; intros; apply Hp; by right).
  apply elem_of_cons in Hx as [->|Hx]; [lia|].
  assert (f x <= sumZ f l) by (apply IH; [intros; apply Hp; by right | done]). lia.
Qed.

Lemma sumZ_add f g l : sumZ (fun x => f x + g x) l = sumZ f l + sumZ g l.
Proof. induction l as [|x l IH]; [done|]. rewrite !sumZ_cons, IH. lia. Qed.

Lemma sumZ_perm f l l' : l ≡ₚ l' -> sumZ f l' = sumZ f l.
Proof. induction 1; rewrite ?sumZ_cons in *; (done || lia). Qed.

#[export] Instance sumZ_proper f : Proper (Permutation ==> eq) (sumZ f).
Proof. intros l l' H. symmetry. by apply sumZ_perm. Qed.

(** Changing the summand at one point of a duplicate-free list. *)
Lemma sumZ_update f g l x :
  NoDup l -> x ∈ l -> (forall y, y ∈ l -> y <> x -> g y = f y) ->
  sumZ g l = sumZ f l - f x + g x.
Proof.
  induction l as [|y l IH]; intros Hnd Hx Hfg; [by apply not_elem_of_nil in Hx|].
  apply NoDup_cons in Hnd as [Hy Hnd]. rewrite !sumZ_cons.
  apply elem_of_cons in Hx as [->|Hx].
  - rewrite (sumZ_ext g f l); [lia|]. intros z Hz. apply Hfg; [by right|]. by intros ->.
  - rewrite IH; [|done|done|intros; apply Hfg; [by right|done]].
    rewrite (Hfg y); [lia|left|]. by intros ->.
Qed.

End sums.

Lemma elem_mid {A} (l1 : list A) x l2 : x ∈ l1 ++ x :: l2.
Proof. apply elem_of_app. right. left. Qed.

Lemma sumZ_map {A B} (f : B -> Z) (h : A -> B) l : sumZ f (map h l) = sumZ (fun x => f (h x)) l.
Proof. induction l as [|x l IH]; [done|]. cbn [map]. by rewrite !sumZ_cons, IH. Qed.

Lemma sumZ_one {A} (l : list A) : sumZ (fun _ => 1) l = Z.of_nat (length l).
Proof. induction l as [|x l IH]; [done|]. rewrite sumZ_cons, IH. cbn [length]. lia. Qed.

(** ** Powers of two, alignment and bits *)

Definition pow2 (o : nat) : Z := 2 ^ Z.of_nat o.

Lemma pow2_pos o : 0 < pow2 o.
Proof. unfold pow2. apply Z.pow_pos_nonneg; lia. Qed.

Lemma pow2_S o : pow2 (S o) = 2 * pow2 o.
Proof. unfold pow2. rewrite Nat2Z.inj_succ, Z.pow_succ_r; lia. Qed.

Lemma pow2_0 : pow2 0 = 1.
Proof. done. Qed.

Lemma pow2_le a b : (a <= b)%nat -> pow2 a <= pow2 b.
Proof. unfold pow2. intros. apply Z.pow_le_mono_r; lia. Qed.

Lemma pow2_divide a b : (a <= b)%nat -> (pow2 a | pow2 b).
Proof.
  intros H. exists (pow2 (b - a)). unfold pow2. rewrite <- Z.pow_add_r by lia. f_equal. lia.
Qed.

Lemma shiftl_pow2 o : Z.shiftl 1 (Z.of_nat o) = pow2 o.
Proof. rewrite Z.shiftl_mul_pow2 by lia. unfold pow2. lia. Qed.

Lemma shiftr_pow2 x o : Z.shiftr x (Z.of_nat o) = x / pow2 o.
Proof. rewrite Z.shiftr_div_pow2 by lia. done. Qed.

(** [x & (span - 1) == 0] is alignment to [span]. *)
Lemma land_align x o : Z.land x (pow2 o - 1) = x mod pow2 o.
Proof.
  unfold pow2. rewrite <- Z.land_ones by lia. f_equal. rewrite Z.ones_equiv. lia.
Qed.

Lemma divide_mod x o : (pow2 o | x) <-> x mod pow2 o = 0.
Proof. split; intros H; [by apply Z.mod_divide; [pose proof (pow2_pos o); lia|]
  |by apply Z.mod_divide in H; [|pose proof (pow2_pos o); lia]]. Qed.

Lemma div_pow2_exact x o : (pow2 o | x) -> x / pow2 o * pow2 o = x.
Proof. intros [k ->]. rewrite Z.div_mul; [done|]. pose proof (pow2_pos o); lia. Qed.

(** The buddy of an aligned block: the other half of the enclosing block. *)
Lemma lxor_pow2_aligned p o :
  (pow2 o | p) ->
  ((pow2 (S o) | p) /\ Z.lxor p (pow2 o) = p + pow2 o) \/
  ((pow2 (S o) | p - pow2 o) /\ Z.lxor p (pow2 o) = p - pow2 o).
Proof.
  intros [k ->]. pose proof (pow2_pos o) as Hp.
  assert (Hx : Z.lxor (k * pow2 o) (pow2 o) = Z.lxor k 1 * pow2 o).
  { unfold pow2. rewrite <- !Z.shiftl_mul_pow2 by lia.
    replace (2 ^ Z.of_nat o) with (Z.shiftl 1 (Z.of_nat o))
      by (rewrite Z.shiftl_mul_pow2 by lia; lia).
    by rewrite <- Z.shiftl_lxor. }
  rewrite Hx. destruct (Z.Even_or_Odd k) as [[m ->]|[m ->]].
  - left. split.
    + exists m. rewrite pow2_S. lia.
    + rewrite Z.lxor_comm. replace (Z.lxor 1 (2 * m)) with (2 * m + 1); [lia|].
      rewrite Z.lxor_comm. rewrite <- Z.add_nocarry_lxor; [done|].
      apply Z.bits_inj'. intros n Hn. rewrite Z.land_spec, Z.bits_0.
      destruct (Z.eq_dec n 0) as [->|Hn0].
      * by rewrite Z.testbit_even_0.
      * rewrite (Z.bits_above_log2 1) by (simpl; lia). by rewrite andb_false_r.
  - right. split.
    + exists m. rewrite pow2_S. lia.
    + replace (Z.lxor (2 * m + 1) 1) with (2 * m); [lia|].
      assert (H : 2 * m + 1 = Z.lxor (2 * m) 1).
      { rewrite <- Z.add_nocarry_lxor; [done|].
        apply Z.bits_inj'. intros n Hn. rewrite Z.land_spec, Z.bits_0.
        destruct (Z.eq_dec n 0) as [->|Hn0].
        * by rewrite Z.testbit_even_0.
        * rewrite (Z.bits_above_log2 1) by (simpl; lia). by rewrite andb_false_r. }
      rewrite H, Z.lxor_assoc, Z.lxor_nilpotent, Z.lxor_0_r. done.
Qed.

Lemma testbit_not64 x i : 0 <= i < 64 -> Z.testbit (not64 x) i = negb (Z.testbit x i).
Proof.
  intros Hi. unfold not64. rewrite Z.lxor_spec.
  replace U64_MAX with (Z.ones 64) by done. rewrite Z.ones_spec_low by lia.
  by destruct (Z.testbit x i).
Qed.

Lemma testbit_pow2 n i : 0 <= n -> Z.testbit (Z.shiftl 1 n) i = (i =? n).
Proof.
  intros Hn. rewrite Z.shiftl_mul_pow2, Z.mul_1_l by lia.
  destruct (Z.eqb_spec i n) as [->|Hne]; [by apply Z.pow2_bits_true|].
  apply Z.pow2_bits_false. lia.
Qed.

(** [(w >> b) & 1 == 1] reads bit [b]. *)
Lemma bit_read w b : 0 <= b -> (Z.land (Z.shiftr w b) 1 =? 1) = Z.testbit w b.
Proof.
  intros Hb. change 1 with (Z.ones 1) at 1. rewrite Z.land_ones by lia.
  replace (Z.testbit w b) with (Z.testbit (Z.shiftr w b) 0)
    by (rewrite Z.shiftr_spec by lia; f_equal; lia).
  rewrite Z.bit0_odd, Zmod_odd. by destruct (Z.odd (Z.shiftr w b)).
Qed.
