(* ===== verification/Zone.v ===== *)
(** * Memory zones: the bounded-address partition of the buddy allocator

    Models [crates/kernel/mm-pmm/src/zone/]: the zone identities
    ([types.rs]), the allocation-flag maps ([gfp.rs], [migrate.rs]), the
    boundary derivation and the PFN lookup ([limits.rs], [core.rs]), the
    resolution of a bus-master bound ([dma.rs]), the fallback order
    ([zonelist.rs]), the lowmem reserve ([reserve.rs]) and the allocation gate
    ([wmark.rs]).

    A [u64] page frame number is a [Z]; a zone index ([usize]) and a block
    order ([u8]) are [nat]; a fixed-size array indexed by zone or by order is
    a function on [nat] that is read at indices in range only. *)

From Stdlib Require Import Sorted.
From S2P Require Import Prelude.

(** ** Zone identities ([types.rs]) *)

Definition NR_ZONES : nat := 4.

Inductive ZoneType := Dma | Dma32 | Normal | MovableZone.

#[global] Instance ZoneType_eq_dec : EqDecision ZoneType.
Proof. solve_decision. Defined.

Module ZoneTypes.

Definition index (z : ZoneType) : nat :=
  match z with Dma => 0 | Dma32 => 1 | Normal => 2 | MovableZone => 3 end.

Definition from_index (idx : nat) : option ZoneType :=
  match idx with
  | 0%nat => Some Dma
  | 1%nat => Some Dma32
  | 2%nat => Some Normal
  | 3%nat => Some MovableZone
  | _ => None
  end.

Definition all : list ZoneType := [Dma; Dma32; Normal; MovableZone].

Lemma from_index_index z : from_index (index z) = Some z.
Proof. by destruct z. Qed.

Lemma from_index_lt i : (i < NR_ZONES)%nat -> exists z, from_index i = Some z /\ index z = i.
Proof. intros H. do 4 (destruct i as [|i]; [eexists; split; reflexivity|]). unfold NR_ZONES in H. lia. Qed.

Lemma index_from_index i z : from_index i = Some z -> index z = i.
Proof. destruct i as [|[|[|[|i]]]]; cbn; intros H; by simplify_eq. Qed.

End ZoneTypes.

(** ** Allocation flags ([gfp.rs]) *)

Definition GFP_DMA : Z := 0x01.
Definition GFP_HIGHMEM : Z := 0x02.
Definition GFP_DMA32 : Z := 0x04.
Definition GFP_MOVABLE : Z := 0x08.
Definition GFP_RECLAIMABLE : Z := 0x10.
Definition GFP_ZONEMASK : Z := Z.lor (Z.lor (Z.lor GFP_DMA GFP_HIGHMEM) GFP_DMA32) GFP_MOVABLE.
Definition GFP_HIGH : Z := 0x20.
Definition GFP_KSWAPD_RECLAIM : Z := 0x800.
Definition GFP_ATOMIC : Z := Z.lor GFP_HIGH GFP_KSWAPD_RECLAIM.

Definition grants_min_reserve (flags : Z) : bool := negb (Z.land flags GFP_HIGH =? 0).

(** [None] is [Err(GfpError)]. *)
Definition gfp_zone (flags : Z) : option ZoneType :=
  match Z.land flags GFP_ZONEMASK with
  | 0x0 => Some Normal
  | 0x1 => Some Dma
  | 0x2 => Some Normal
  | 0x4 => Some Dma32
  | 0x8 => Some Normal
  | 0x9 => Some Dma
  | 0xa => Some MovableZone
  | 0xc => Some Dma32
  | _ => None
  end.

(** ** Mobility classes ([migrate.rs]) *)

Definition PAGEBLOCK_ORDER : nat := 9.
Definition PAGEBLOCK_PAGES : Z := Z.shiftl 1 (Z.of_nat PAGEBLOCK_ORDER).
Definition MIGRATE_TYPES : nat := 3.

Inductive MigrateType := Unmovable | Movable | Reclaimable.

#[global] Instance MigrateType_eq_dec : EqDecision MigrateType.
Proof. solve_decision. Defined.

Module MigrateTypes.

Definition index (mt : MigrateType) : nat :=
  match mt with Unmovable => 0 | Movable => 1 | Reclaimable => 2 end.

Definition fallbacks (mt : MigrateType) : list MigrateType :=
  match mt with
  | Unmovable => [Reclaimable; Movable]
  | Movable => [Reclaimable; Unmovable]
  | Reclaimable => [Unmovable; Movable]
  end.

Definition from_index (index : nat) : MigrateType :=
  match index with 1%nat => Movable | 2%nat => Reclaimable | _ => Unmovable end.

Definition eqb (a b : MigrateType) : bool := bool_decide (a = b).

(** The order in which the [0..MIGRATE_TYPES] loops visit the classes. *)
Definition all : list MigrateType := map from_index (seq 0 MIGRATE_TYPES).

Lemma mt_from_index_index mt : from_index (index mt) = mt.
Proof. by destruct mt. Qed.

Lemma elem_of_all mt : mt ∈ all.
Proof. destruct mt; unfold all; simpl; set_solver. Qed.

Lemma elem_of_fallbacks mt fb : fb <> mt -> fb ∈ fallbacks mt.
Proof. intros H. apply list_elem_of_In. destruct mt, fb; cbn; (done || tauto). Qed.

Lemma fallbacks_ne mt fb : fb ∈ fallbacks mt -> fb <> mt.
Proof. rewrite list_elem_of_In. intros H ->. destruct mt; cbn in H; intuition discriminate. Qed.

Lemma NoDup_all : NoDup all.
Proof. by apply (bool_decide_unpack _). Qed.

Lemma eqb_eq a b : eqb a b = true <-> a = b.
Proof. unfold eqb. apply bool_decide_eq_true. Qed.

Lemma eqb_refl a : eqb a a = true.
Proof. by apply eqb_eq. Qed.

End MigrateTypes.

Definition gfp_migratetype (flags : Z) : option MigrateType :=
  let bits := Z.land flags (Z.lor GFP_MOVABLE GFP_RECLAIMABLE) in
  if bits =? 0 then Some Unmovable
  else if bits =? GFP_MOVABLE then Some Movable
  else if bits =? GFP_RECLAIMABLE then Some Reclaimable
  else None.

(** ** Zone boundaries ([limits.rs]) *)

Definition X86_DMA_LIMIT_BYTES : Z := 16 * 1024 * 1024.
Definition DMA32_LIMIT_BYTES : Z := 2 ^ 32.

Record ZoneLimits := mkZoneLimits {
  dma_end_pfn : Z;
  dma32_end_pfn : Z;
  movable_start_pfn : option Z
}.

Record ZoneSpan := mkZoneSpan { start_pfn : Z; end_pfn : Z }.

Definition ZoneSpan_default : ZoneSpan := mkZoneSpan 0 0.

Definition spanned_pages (s : ZoneSpan) : Z := sat_sub (end_pfn s) (start_pfn s).
Definition span_is_empty (s : ZoneSpan) : bool := end_pfn s <=? start_pfn s.
Definition contains (s : ZoneSpan) (pfn : Z) : bool := (start_pfn s <=? pfn) && (pfn <? end_pfn s).

Definition pfn_down (bytes page_bytes : Z) : Z := bytes / page_bytes.

Definition limits_x86_64 (pfn_max page_bytes : Z) : ZoneLimits :=
  {| dma_end_pfn := Z.min (pfn_down X86_DMA_LIMIT_BYTES page_bytes) pfn_max;
     dma32_end_pfn := Z.min (pfn_down DMA32_LIMIT_BYTES page_bytes) pfn_max;
     movable_start_pfn := None |}.

Definition limits_aarch64 (fw_dma_limit_bytes : option Z) (dram_start_bytes pfn_max page_bytes : Z) : ZoneLimits :=
  let dma32_end := Z.min (pfn_down DMA32_LIMIT_BYTES page_bytes) pfn_max in
  let limit := default U64_MAX fw_dma_limit_bytes in
  let limit := if dram_start_bytes <? DMA32_LIMIT_BYTES then Z.min limit (DMA32_LIMIT_BYTES - 1) else limit in
  let dma_end := if limit =? U64_MAX then pfn_max else Z.min (pfn_down limit page_bytes + 1) pfn_max in
  {| dma_end_pfn := dma_end; dma32_end_pfn := dma32_end; movable_start_pfn := None |}.

Record ZoneLayout := mkZoneLayout { spans : list ZoneSpan }.

Module Layout.

(** The loop of [ZoneLayout::new] over the caps, with its running boundary. *)
Fixpoint spans_from (cur : Z) (caps : list Z) : list ZoneSpan :=
  match caps with
  | [] => []
  | cap :: caps' =>
      let e := if cur <? cap then cap else cur in
      mkZoneSpan cur e :: spans_from e caps'
  end.

Definition movable_start (limits : ZoneLimits) (pfn_max : Z) : Z :=
  Z.min
    (default pfn_max
      (start ← movable_start_pfn limits;
       e ← checked_add start (PAGEBLOCK_PAGES - 1);
       Some (e / PAGEBLOCK_PAGES * PAGEBLOCK_PAGES)))
    pfn_max.

Definition caps (limits : ZoneLimits) (pfn_max : Z) : list Z :=
  let ms := movable_start limits pfn_max in
  [Z.min (Z.min (dma_end_pfn limits) pfn_max) ms;
   Z.min (Z.min (dma32_end_pfn limits) pfn_max) ms;
   ms;
   pfn_max].

Definition new (limits : ZoneLimits) (pfn_max : Z) : ZoneLayout :=
  mkZoneLayout (spans_from 0 (caps limits pfn_max)).

Definition single_normal (pfn_max : Z) : ZoneLayout := new (mkZoneLimits 0 0 None) pfn_max.

Definition span_at (l : ZoneLayout) (idx : nat) : ZoneSpan := nth idx (spans l) ZoneSpan_default.

Definition span (l : ZoneLayout) (z : ZoneType) : ZoneSpan := span_at l (ZoneTypes.index z).

(** The scan shared by [zone_of] and [index_of]: the first index from [i]
    whose span contains [pfn], with [n] indices left to try. *)
Fixpoint scan (l : ZoneLayout) (pfn : Z) (i n : nat) : nat :=
  match n with
  | O => NR_ZONES
  | S n' => if contains (span_at l i) pfn then i else scan l pfn (S i) n'
  end.

Definition index_of (l : ZoneLayout) (pfn : Z) : nat := scan l pfn 0 NR_ZONES.

Definition zone_of (l : ZoneLayout) (pfn : Z) : option ZoneType :=
  let i := scan l pfn 0 NR_ZONES in
  if (i <? NR_ZONES)%nat then ZoneTypes.from_index i else None.

Definition layout_pfn_max (l : ZoneLayout) : Z := end_pfn (span_at l (NR_ZONES - 1)).

End Layout.

(** ** Command-line movable-core resolution ([core.rs]) *)

(** The parsed request of [cmdline::memory::memory_core_request]. *)
Inductive CoreValue := Bytes (b : Z) | Percent (p : Z) | Mirror.

#[global] Instance CoreValue_eq_dec : EqDecision CoreValue.
Proof. solve_decision. Defined.

Record CoreRequest := mkCoreRequest { kernelcore : option CoreValue; movablecore : option CoreValue }.

Module MemCore.

Definition pages (value : CoreValue) (total_pages page_bytes : Z) : option Z :=
  match value with
  | Bytes bytes => Some (bytes / page_bytes)
  | Percent percent => Some (sat_mul total_pages percent / 100)
  | Mirror => None
  end.

Definition round_up (value unit : Z) : Z :=
  default U64_MAX (e ← checked_add value (unit - 1); Some (e / unit * unit)).

Definition apply_memory_core_request (limits : ZoneLimits) (request : CoreRequest) (pfn_max page_bytes : Z) : ZoneLimits :=
  if bool_decide (kernelcore request = Some Mirror) then limits else
  let kc := default 0 (v ← kernelcore request; pages v pfn_max page_bytes) in
  let kc :=
    match (v ← movablecore request; pages v pfn_max page_bytes) with
    | Some mc =>
        let mc := Z.min (round_up mc PAGEBLOCK_PAGES) pfn_max in
        Z.max kc (sat_sub pfn_max mc)
    | None => kc
    end in
  if (kc =? 0) || (pfn_max <=? kc) then limits else
  let ordinary_floor := Z.min (Z.max (dma_end_pfn limits) (dma32_end_pfn limits)) pfn_max in
  let start := Z.min (round_up (Z.max kc ordinary_floor) PAGEBLOCK_PAGES) pfn_max in
  if start <? pfn_max
  then mkZoneLimits (dma_end_pfn limits) (dma32_end_pfn limits) (Some start)
  else limits.

End MemCore.

(** ** Bus-master bounds ([dma.rs]) *)

Definition gfp_for_pfn_limit (layout : ZoneLayout) (limit_pfn : Z) : Z :=
  if limit_pfn <=? end_pfn (Layout.span layout Dma) then GFP_DMA
  else if limit_pfn <=? end_pfn (Layout.span layout Dma32) then GFP_DMA32
  else 0.

(** [!GFP_ZONEMASK] on [u32]. *)
Definition narrow_zone_bits (gfp : Z) : option Z :=
  let rest := Z.land gfp (Z.lxor GFP_ZONEMASK U32_MAX) in
  if Z.land gfp (Z.lor GFP_DMA32 GFP_DMA) =? 0 then Some (Z.lor rest GFP_DMA32)
  else if Z.land gfp GFP_DMA =? 0 then Some (Z.lor rest GFP_DMA)
  else None.

(** ** Fallback order ([zonelist.rs]) *)

(** [entries[..len]]. *)
Record Zonelist := mkZonelist { entries : list nat }.

Definition Zonelist_default : Zonelist := mkZonelist [].

Module Zonelists.

(** The descending loop of [build], with [i] indices left to visit. *)
Fixpoint build_from (populated : nat -> bool) (i : nat) : list nat :=
  match i with
  | O => []
  | S i' => if populated i' then i' :: build_from populated i' else build_from populated i'
  end.

Definition build (populated : nat -> bool) : Zonelist := mkZonelist (build_from populated NR_ZONES).

(** The items the [ZonelistWalk] iterator yields. *)
Fixpoint walk_from (es : list nat) (highest_zoneidx : nat) : list ZoneType :=
  match es with
  | [] => []
  | idx :: es' =>
      if (idx <=? highest_zoneidx)%nat then
        match ZoneTypes.from_index idx with
        | Some z => z :: walk_from es' highest_zoneidx
        | None => []
        end
      else walk_from es' highest_zoneidx
  end.

Definition walk (l : Zonelist) (highest_zoneidx : nat) : list ZoneType := walk_from (entries l) highest_zoneidx.

Definition entry (l : Zonelist) (pos : nat) : option nat := entries l !! pos.

End Zonelists.

(** ** Lowmem reserve ([reserve.rs]) *)

Definition DEFAULT_LOWMEM_RESERVE_RATIO (i : nat) : Z :=
  match i with 0%nat => 256 | 1%nat => 256 | 2%nat => 32 | _ => 0 end.

(** [out[i][j]] after the loops: the inner loop has accumulated
    [managed[i+1..=j]] into [upper] when it writes column [j]. *)
Definition lowmem_reserve (managed ratio : nat -> Z) (i j : nat) : Z :=
  if (i <? NR_ZONES - 1)%nat && (i <? j)%nat && (j <? NR_ZONES)%nat then
    let upper := foldl (fun acc k => sat_add acc (managed k)) 0 (seq (i + 1) (j - i)) in
    if (ratio i =? 0) || (managed i =? 0) then 0 else upper / ratio i
  else 0.

(** ** The allocation gate ([wmark.rs]) *)

Definition MAX_ORDER : nat := 20.
Definition ORDERS : nat := MAX_ORDER + 1.

Inductive AllocWmark := Low | Min | MinReserve | MinNonBlock.

Definition slowpath_wmark (grants_min_reserve can_block : bool) : AllocWmark :=
  if negb grants_min_reserve then Min
  else if can_block then MinReserve else MinNonBlock.

Module Wmark.

(** [free_pages]: the area's base pages, saturating. *)
Definition free_pages (area : nat -> Z) : Z :=
  foldl (fun acc o => sat_add acc (shl64 (area o) (Z.of_nat o))) 0 (seq 0 ORDERS).

Definition effective_min (mark : Z) (wmark : AllocWmark) : Z :=
  match wmark with
  | Low | Min => mark
  | MinReserve => mark - mark / 2
  | MinNonBlock => let m := mark - mark / 2 in m - m / 4
  end.

Definition zone_watermark_ok_pages (mark : Z) (wmark : AllocWmark) (reserve free : Z) : bool :=
  sat_add (effective_min mark wmark) reserve <? free.

Definition zone_watermark_ok (zone : ZoneType) (order : nat) (mark : Z) (wmark : AllocWmark)
    (reserve : nat -> nat -> Z) (highest_zoneidx : nat) (area : nat -> Z) : bool :=
  let free := sat_sub (free_pages area) (pow2 order - 1) in
  let idx := if (highest_zoneidx <? NR_ZONES)%nat then highest_zoneidx else (NR_ZONES - 1)%nat in
  if negb (zone_watermark_ok_pages mark wmark (reserve (ZoneTypes.index zone) idx) free) then false
  else if (order =? 0)%nat then true
  else existsb (fun o => 0 <? area o) (seq order (ORDERS - order)).

End Wmark.

(** * Theorems *)

(** ** The partition *)

(** Four contiguous spans in address order that cover [[0, pfn_max)]. *)
Definition layout_wf (l : ZoneLayout) (pfn_max : Z) : Prop :=
  exists e0 e1 e2, 0 <= e0 /\ e0 <= e1 /\ e1 <= e2 /\ e2 <= pfn_max /\
    spans l = [mkZoneSpan 0 e0; mkZoneSpan e0 e1; mkZoneSpan e1 e2; mkZoneSpan e2 pfn_max].

Lemma movable_start_le limits pfn_max : Layout.movable_start limits pfn_max <= pfn_max.
Proof. unfold Layout.movable_start. lia. Qed.

Lemma layout_new_wf limits pfn_max : 0 <= pfn_max -> layout_wf (Layout.new limits pfn_max) pfn_max.
Proof.
  intros Hmax. pose proof (movable_start_le limits pfn_max) as Hm.
  unfold layout_wf, Layout.new, Layout.caps. cbn [spans Layout.spans_from]. cbv zeta.
  generalize dependent (Layout.movable_start limits pfn_max). intros ms Hm.
  set (c0 := Z.min (Z.min (dma_end_pfn limits) pfn_max) ms).
  set (c1 := Z.min (Z.min (dma32_end_pfn limits) pfn_max) ms).
  assert (c0 <= ms /\ c1 <= ms) as [H0 H1] by lia. clearbody c0 c1.
  exists (Z.max 0 c0), (Z.max (Z.max 0 c0) c1), (Z.max (Z.max (Z.max 0 c0) c1) ms).
  split_and!; [lia..|].
  assert (Hif : forall a b : Z, (if a <? b then b else a) = Z.max a b).
  { intros a b. bool_case (a <? b); lia. }
  rewrite !Hif. repeat f_equal; lia.
Qed.

Lemma contains_spec s pfn : contains s pfn = true <-> start_pfn s <= pfn < end_pfn s.
Proof. unfold contains. rewrite andb_true_iff, Z.leb_le, Z.ltb_lt. lia. Qed.

(** Replace a well-formed layout by its four spans. *)
Ltac layout_cases H :=
  let Hs := fresh "Hspans" in
  let sp := fresh "sp" in
  destruct H as (? & ? & ? & ? & ? & ? & ? & Hs);
  match type of Hs with spans ?l = _ => destruct l as [sp] end;
  cbn [spans] in Hs; subst sp;
  unfold Layout.span, Layout.span_at, Layout.index_of, NR_ZONES, contains in *;
  cbn [Layout.scan contains spans nth start_pfn end_pfn ZoneTypes.index] in *.

Tactic Notation "lcbn" :=
  unfold Layout.span_at, contains, NR_ZONES; cbn [spans nth start_pfn end_pfn].
Tactic Notation "lcbn" "in" hyp(H) :=
  unfold Layout.span_at, contains, NR_ZONES in H; cbn [spans nth start_pfn end_pfn] in H.
Ltac split_ifs := repeat match goal with |- context [if ?c then _ else _] => bool_case c end.

Section layout.
Implicit Types (l : ZoneLayout) (pfn pfn_max : Z).

Lemma index_of_range l pfn_max pfn :
  layout_wf l pfn_max -> 0 <= pfn < pfn_max -> (Layout.index_of l pfn < NR_ZONES)%nat.
Proof. intros Hwf Hp. layout_cases Hwf. lcbn. split_ifs; lia. Qed.

Lemma index_of_out l pfn_max pfn :
  layout_wf l pfn_max -> pfn_max <= pfn -> Layout.index_of l pfn = NR_ZONES.
Proof. intros Hwf Hp. layout_cases Hwf. lcbn. split_ifs; lia. Qed.

Lemma index_of_contains l pfn_max pfn :
  layout_wf l pfn_max -> (Layout.index_of l pfn < NR_ZONES)%nat ->
  contains (Layout.span_at l (Layout.index_of l pfn)) pfn = true.
Proof.
  intros Hwf. layout_cases Hwf. lcbn.
  split_ifs; intros; lcbn; try lia; apply andb_true_iff; rewrite Z.leb_le, Z.ltb_lt; lia.
Qed.

Lemma index_of_unique l pfn_max i pfn :
  layout_wf l pfn_max -> (i < NR_ZONES)%nat ->
  contains (Layout.span_at l i) pfn = true -> Layout.index_of l pfn = i.
Proof.
  intros Hwf Hi Hc. layout_cases Hwf. lcbn.
  do 4 (destruct i as [|i]; [lcbn in Hc; to_prop; split_ifs; lia|]). lia.
Qed.

Lemma span_at_le l pfn_max i :
  layout_wf l pfn_max -> (i < NR_ZONES)%nat ->
  0 <= start_pfn (Layout.span_at l i) <= end_pfn (Layout.span_at l i) /\
  end_pfn (Layout.span_at l i) <= pfn_max.
Proof.
  intros Hwf Hi. layout_cases Hwf. do 4 (destruct i as [|i]; [lcbn; lia|]). lia.
Qed.

(** Index order is address order. *)
Lemma span_at_mono l pfn_max i j :
  layout_wf l pfn_max -> (i < j)%nat -> (j < NR_ZONES)%nat ->
  end_pfn (Layout.span_at l i) <= start_pfn (Layout.span_at l j).
Proof.
  intros Hwf Hij Hj. layout_cases Hwf.
  do 4 (destruct i as [|i]; [do 4 (destruct j as [|j]; [lcbn; lia|]); lia|]). lia.
Qed.

End layout.

(** ** The fallback walk *)

Lemma build_from_elem populated n i :
  i ∈ Zonelists.build_from populated n <-> (i < n)%nat /\ populated i = true.
Proof.
  induction n as [|n IH]; simpl.
  - split; [set_solver|lia].
  - destruct (populated n) eqn:E; rewrite ?elem_of_cons, IH; split; intros H.
    + destruct H as [->|[? ?]]; [auto with lia|split; [lia|done]].
    + destruct H as [H1 H2]. destruct (decide (i = n)); [auto|right; split; [lia|done]].
    + split; [lia|apply H].
    + destruct H as [H1 H2]. destruct (decide (i = n)) as [->|]; [congruence|split; [lia|done]].
Qed.

Lemma walk_from_le es hi z : z ∈ Zonelists.walk_from es hi -> (ZoneTypes.index z <= hi)%nat.
Proof.
  induction es as [|i es IH]; cbn [Zonelists.walk_from]; [by intros ?%not_elem_of_nil|].
  destruct (i <=? hi)%nat eqn:E; [|done]. to_prop. destruct (ZoneTypes.from_index i) as [z'|] eqn:Ez;
    [|by intros ?%not_elem_of_nil].
  rewrite elem_of_cons. intros [->|Hz]; [|auto]. by rewrite (ZoneTypes.index_from_index _ _ Ez).
Qed.

Lemma walk_from_elem es hi z :
  Forall (fun i => (i < NR_ZONES)%nat) es ->
  z ∈ Zonelists.walk_from es hi <-> ZoneTypes.index z ∈ es /\ (ZoneTypes.index z <= hi)%nat.
Proof.
  induction 1 as [|i es Hi Hes IH]; simpl.
  { rewrite !elem_of_nil. tauto. }
  destruct (ZoneTypes.from_index_lt i Hi) as (zi & Hfi & <-). rewrite Hfi.
  assert (Hinj : forall a b, ZoneTypes.index a = ZoneTypes.index b -> a = b)
    by (by intros [] []).
  destruct (ZoneTypes.index zi <=? hi)%nat eqn:E; to_prop; rewrite ?elem_of_cons, IH; split.
  - intros [->|[? ?]]; auto.
  - intros [[H|H] Hle]; auto.
  - intros [? ?]; auto.
  - intros [[H|H] Hle]; [apply Hinj in H; subst; lia|auto].
Qed.

Lemma build_walk_elem populated hi z :
  z ∈ Zonelists.walk (Zonelists.build populated) hi <->
  populated (ZoneTypes.index z) = true /\ (ZoneTypes.index z <= hi)%nat.
Proof.
  unfold Zonelists.walk, Zonelists.build. cbn [entries]. rewrite walk_from_elem.
  - rewrite build_from_elem. assert (ZoneTypes.index z < NR_ZONES)%nat
      by (destruct z; unfold NR_ZONES; simpl; lia). tauto.
  - apply Forall_forall. intros i Hi. by apply build_from_elem in Hi as [? _].
Qed.

Definition zone_gt (a b : ZoneType) : Prop := (ZoneTypes.index b < ZoneTypes.index a)%nat.

Lemma build_walk_sorted populated hi :
  StronglySorted zone_gt (Zonelists.walk (Zonelists.build populated) hi).
Proof.
  unfold Zonelists.walk, Zonelists.build, NR_ZONES. cbn [entries Zonelists.build_from].
  destruct (populated 3%nat), (populated 2%nat), (populated 1%nat), (populated 0%nat);
    simpl; do 4 (destruct hi as [|hi]; [simpl; repeat constructor|]); simpl; repeat constructor.
Qed.

(** ** The lowmem reserve *)

Lemma foldl_sat_add_mono (f : nat -> Z) l acc1 acc2 :
  acc1 <= acc2 ->
  foldl (fun acc k => sat_add acc (f k)) acc1 l <= foldl (fun acc k => sat_add acc (f k)) acc2 l.
Proof.
  revert acc1 acc2. induction l as [|k l IH]; intros acc1 acc2 H; simpl; [done|].
  apply IH. unfold sat_add. lia.
Qed.

Lemma foldl_sat_add_le_U64 (f : nat -> Z) l acc :
  acc <= U64_MAX -> foldl (fun acc k => sat_add acc (f k)) acc l <= U64_MAX.
Proof.
  revert acc. induction l as [|k l IH]; intros acc H; simpl; [done|]. apply IH. unfold sat_add. lia.
Qed.

Lemma foldl_sat_add_ge (f : nat -> Z) l acc :
  (forall k, 0 <= f k) -> acc <= U64_MAX ->
  acc <= foldl (fun acc k => sat_add acc (f k)) acc l.
Proof.
  intros Hf. revert acc. induction l as [|k l IH]; intros acc H; simpl; [done|].
  specialize (Hf k). etrans; [|apply IH]; unfold sat_add; lia.
Qed.

(** ** The watermark ladder *)

Lemma effective_min_bounds mark w :
  0 <= mark -> 0 <= Wmark.effective_min mark w <= mark.
Proof.
  intros H. unfold Wmark.effective_min. destruct w; [lia|lia| |].
  - assert (0 <= mark / 2 <= mark) by (split; [apply Z.div_pos; lia|apply Z.div_le_upper_bound; lia]). lia.
  - set (m := mark - mark / 2).
    assert (0 <= mark / 2 <= mark) by (split; [apply Z.div_pos; lia|apply Z.div_le_upper_bound; lia]).
    assert (0 <= m) by (subst m; lia).
    assert (0 <= m / 4 <= m) by (split; [apply Z.div_pos; lia|apply Z.div_le_upper_bound; lia]). lia.
Qed.

(** ** Properties of the zone layer *)

(** C31: whatever limits the platform supplies, the resolved
    layout partitions [[0, pfn_max)]: every frame below [pfn_max] lies in
    exactly one zone, which is the one [index_of] and [zone_of] report; no
    frame at or above [pfn_max] lies in any; and a frame of a lower-indexed
    zone is below every frame of a higher-indexed one. *)
Theorem zone_partition (limits : ZoneLimits) (pfn_max : Z) (Hmax : 0 <= pfn_max) :
  let l := Layout.new limits pfn_max in
  (forall pfn, 0 <= pfn < pfn_max ->
     exists z, Layout.zone_of l pfn = Some z /\ Layout.index_of l pfn = ZoneTypes.index z /\
       forall z', contains (Layout.span l z') pfn = true <-> z' = z) /\
  (forall pfn, pfn_max <= pfn ->
     Layout.zone_of l pfn = None /\ forall z, contains (Layout.span l z) pfn = false) /\
  (forall z z' p p', contains (Layout.span l z) p = true -> contains (Layout.span l z') p' = true ->
     (ZoneTypes.index z < ZoneTypes.index z')%nat -> p < p').
Proof.
  intros l. pose proof (layout_new_wf limits pfn_max Hmax) as Hwf. fold l in Hwf. clearbody l.
  assert (Hlt : forall z, (ZoneTypes.index z < NR_ZONES)%nat)
    by (intros []; unfold NR_ZONES; simpl; lia).
  assert (Hzone : forall pfn, Layout.zone_of l pfn =
            if (Layout.index_of l pfn <? NR_ZONES)%nat then ZoneTypes.from_index (Layout.index_of l pfn) else None) by done.
  split_and!.
  - intros pfn Hp. pose proof (index_of_range _ _ _ Hwf Hp) as Hr.
    destruct (ZoneTypes.from_index_lt _ Hr) as (z & Hfi & Hz).
    exists z. split_and!.
    + rewrite Hzone, (proj2 (Nat.ltb_lt _ _) Hr). done.
    + done.
    + intros z'. unfold Layout.span. split.
      * intros Hc. apply (index_of_unique _ _ _ _ Hwf (Hlt z')) in Hc.
        rewrite <- Hz in Hc. by destruct z, z'.
      * intros ->. rewrite Hz. by eapply index_of_contains.
  - intros pfn Hp. pose proof (index_of_out _ _ _ Hwf Hp) as Hi. split.
    + rewrite Hzone, Hi. done.
    + intros z. destruct (contains (Layout.span l z) pfn) eqn:E; [|done].
      apply (index_of_unique _ _ _ _ Hwf (Hlt z)) in E. specialize (Hlt z). lia.
  - intros z z' p p' Hp Hp' Hlt'. apply contains_spec in Hp, Hp'.
    pose proof (span_at_mono _ _ _ _ Hwf Hlt' (Hlt z')). unfold Layout.span in *. lia.
Qed.

(** C32: the fallback walk of a bounded request visits exactly the
    populated zones at or below its highest permitted zone, in strictly
    descending index order, so every frame it can reach is below the end of
    the highest permitted zone. *)
Theorem bounded_walk (l : ZoneLayout) (pfn_max : Z) (Hwf : layout_wf l pfn_max)
    (populated : nat -> bool) (hi : nat) (Hhi : (hi < NR_ZONES)%nat) :
  let w := Zonelists.walk (Zonelists.build populated) hi in
  (forall z, z ∈ w <-> populated (ZoneTypes.index z) = true /\ (ZoneTypes.index z <= hi)%nat) /\
  StronglySorted zone_gt w /\
  (forall z p, z ∈ w -> contains (Layout.span l z) p = true -> p < end_pfn (Layout.span_at l hi)).
Proof.
  intros w. split_and!.
  - intros z. apply build_walk_elem.
  - apply build_walk_sorted.
  - intros z p Hz Hp. apply build_walk_elem in Hz as [_ Hz]. apply contains_spec in Hp.
    unfold Layout.span in Hp.
    destruct (decide (ZoneTypes.index z = hi)) as [Heq|]; [rewrite Heq in Hp; lia|].
    pose proof (span_at_mono _ _ (ZoneTypes.index z) hi Hwf ltac:(lia) Hhi).
    pose proof (span_at_le _ _ hi Hwf Hhi). lia.
Qed.

(** C37: the reserve a zone keeps back never shrinks as
    the caller's choice of zones widens, it is zero for callers confined to
    the zone itself, and it never exceeds what a [u64] holds. *)
Theorem lowmem_reserve_monotone (managed ratio : nat -> Z)
    (Hm : forall k, 0 <= managed k) (Hr : forall k, 0 <= ratio k) :
  (forall i j j', (j <= j')%nat -> (j' < NR_ZONES)%nat ->
     lowmem_reserve managed ratio i j <= lowmem_reserve managed ratio i j') /\
  (forall i j, (j <= i)%nat -> lowmem_reserve managed ratio i j = 0) /\
  (forall i j, 0 <= lowmem_reserve managed ratio i j <= U64_MAX).
Proof.
  set (up i j := foldl (fun acc k => sat_add acc (managed k)) 0 (seq (i + 1) (j - i))).
  assert (Hup : forall i j, 0 <= up i j <= U64_MAX).
  { intros i j. split; [by apply foldl_sat_add_ge|by apply foldl_sat_add_le_U64]. }
  assert (Hpos : forall i j, 0 <= lowmem_reserve managed ratio i j <= U64_MAX).
  { intros i j. unfold lowmem_reserve. fold (up i j). specialize (Hup i j). specialize (Hr i).
    destruct (_ && _); [|done]. destruct ((_ =? 0) || _) eqn:E; [done|]. to_prop. split.
    - apply Z.div_pos; lia.
    - etrans; [apply Z.div_le_upper_bound with (q := up i j); nia|lia]. }
  split_and!; [|intros i j H|exact Hpos].
  - intros i j j' Hjj Hj'. destruct (decide (i < j)%nat) as [Hij|Hij].
    + unfold lowmem_reserve. fold (up i j) (up i j').
      rewrite (proj2 (Nat.ltb_lt i j)), (proj2 (Nat.ltb_lt i j')) by lia.
      rewrite (proj2 (Nat.ltb_lt j NR_ZONES)), (proj2 (Nat.ltb_lt j' NR_ZONES)) by lia.
      destruct (i <? NR_ZONES - 1)%nat; [|done]. cbn [andb].
      destruct ((_ =? 0) || _) eqn:E; [done|]. to_prop. specialize (Hr i).
      apply Z.div_le_mono; [lia|]. unfold up.
      replace (j' - i)%nat with ((j - i) + (j' - j))%nat by lia.
      rewrite List.seq_app, foldl_app. apply foldl_sat_add_ge; [done|apply (Hup i j)].
    + replace (lowmem_reserve managed ratio i j) with 0; [apply Hpos|].
      unfold lowmem_reserve. rewrite (proj2 (Nat.ltb_ge i j)) by lia.
      by rewrite andb_false_r.
  - unfold lowmem_reserve. rewrite (proj2 (Nat.ltb_ge i j)) by lia. by rewrite andb_false_r.
Qed.

Lemma lowmem_reserve_monotone_witness :
  lowmem_reserve (fun _ => 1000) DEFAULT_LOWMEM_RESERVE_RATIO 0 1
    <= lowmem_reserve (fun _ => 1000) DEFAULT_LOWMEM_RESERVE_RATIO 0 3.
Proof.
  apply (proj1 (lowmem_reserve_monotone (fun _ => 1000) DEFAULT_LOWMEM_RESERVE_RATIO
    ltac:(lia) ltac:(intros [|[|[|k]]]; simpl; lia))); [lia|unfold NR_ZONES; lia].
Defined.

Lemma zone_partition_witness :
  exists z, Layout.zone_of (Layout.new (limits_x86_64 2097152 4096) 2097152) 5000 = Some z.
Proof.
  destruct (zone_partition (limits_x86_64 2097152 4096) 2097152 ltac:(lia)) as [H _].
  destruct (H 5000 ltac:(lia)) as (z & Hz & _). by exists z.
Defined.

Lemma bounded_walk_witness :
  5000 < end_pfn (Layout.span_at (Layout.new (limits_x86_64 2097152 4096) 2097152) 1).
Proof.
  refine (proj2 (proj2 (bounded_walk (Layout.new (limits_x86_64 2097152 4096) 2097152) 2097152
    (layout_new_wf (limits_x86_64 2097152 4096) 2097152 ltac:(lia))
    (fun _ => true) 1%nat ltac:(unfold NR_ZONES; lia))) Dma32 5000 _ eq_refl).
  apply build_walk_elem. split; [done|simpl; lia].
Defined.
