(* ===== verification/Watermark.v ===== *)
(** * Zone watermarks and the allocator slowpath

    Models [crates/kernel/mm-pmm/src/watermark.rs] (the derivation of the
    min/low/high/promo marks and the reclaim policy read from them) and
    [crates/kernel/mm-pmm/src/oom_entry.rs] (the retry machine an allocation
    enters when the free lists cannot serve it). *)

From S2P Require Import Prelude Zone.

(** ** Watermark derivation ([watermark.rs]) *)

Definition WATERMARK_SCALE_DENOMINATOR : Z := 10000.
Definition DEFAULT_WATERMARK_SCALE_FACTOR : Z := 10.
Definition MIN_FREE_KBYTES_FLOOR : Z := 128.
Definition MIN_FREE_KBYTES_CEILING : Z := 262144.
Definition KIB_BYTES : Z := 1024.
Definition CAPPED_MIN_SHARE : Z := 1024.
Definition CAPPED_MIN_FLOOR : Z := 32.
Definition CAPPED_MIN_CEILING : Z := 128.

Record WatermarkTunables := mkTunables {
  min_free_kbytes : option Z;
  watermark_scale_factor : Z
}.

Definition WatermarkTunables_default : WatermarkTunables :=
  mkTunables None DEFAULT_WATERMARK_SCALE_FACTOR.

Record ZoneWatermarks := mkMarks { wm_min : Z; wm_low : Z; wm_high : Z; wm_promo : Z }.

Definition ZoneWatermarks_default : ZoneWatermarks := mkMarks 0 0 0 0.

Inductive AllocationPolicy := Allow | WakeBackground | DirectReclaim.

Definition direct_reclaim_allowed (in_atomic io_flusher : bool) : bool := negb in_atomic && negb io_flusher.

(** [Ord::clamp]. *)
Definition clamp (x lo hi : Z) : Z := if x <? lo then lo else if hi <? x then hi else x.

Module Marks.

(** The bisection loop of [integer_sqrt], bounded by [fuel]; [None] when the
    fuel runs out with the interval still open. *)
Fixpoint sqrt_loop (fuel : nat) (value left right answer : Z) : option Z :=
  if right <? left then Some answer else
  match fuel with
  | O => None
  | S fuel' =>
      let middle := left + (right - left) / 2 in
      if middle <=? value / middle
      then sqrt_loop fuel' value (middle + 1) right middle
      else sqrt_loop fuel' value left (middle - 1) answer
  end.

(** The interval starts within [1, 2^32 - 1] and each pass at least halves it. *)
Definition sqrt_fuel : nat := 32.

Definition integer_sqrt (value : Z) : option Z :=
  if value <? 2 then Some value else
  sqrt_loop sqrt_fuel value 1 (Z.min value U32_MAX) 1.

(** [integer_sqrt] as the total function it is (see [integer_sqrt_exact]). *)
Definition isqrt (value : Z) : Z := default 0 (integer_sqrt value).

Definition default_min_free_kbytes (managed_pages page_bytes : Z) : Z :=
  let lowmem_kbytes := sat_mul managed_pages page_bytes / KIB_BYTES in
  let target := isqrt (sat_mul lowmem_kbytes 16) in
  clamp target MIN_FREE_KBYTES_FLOOR MIN_FREE_KBYTES_CEILING.

Definition derive_zone_watermarks (managed_pages total_managed_pages : Z) (tunables : WatermarkTunables)
    (page_bytes : Z) (cap_min : bool) : ZoneWatermarks :=
  if (managed_pages =? 0) || (total_managed_pages =? 0) || (page_bytes =? 0) then ZoneWatermarks_default else
  let min_kbytes := match min_free_kbytes tunables with
                    | Some k => k
                    | None => default_min_free_kbytes total_managed_pages page_bytes
                    end in
  let total_min_pages := sat_mul min_kbytes KIB_BYTES / page_bytes in
  let proportional := sat_mul total_min_pages managed_pages / total_managed_pages in
  let scale := sat_mul managed_pages (watermark_scale_factor tunables) / WATERMARK_SCALE_DENOMINATOR in
  let gap := Z.max (proportional / 4) scale in
  let min := if cap_min then clamp (managed_pages / CAPPED_MIN_SHARE) CAPPED_MIN_FLOOR CAPPED_MIN_CEILING
             else proportional in
  {| wm_min := min;
     wm_low := sat_add min gap;
     wm_high := sat_add min (sat_mul gap 2);
     wm_promo := sat_add min (sat_mul gap 3) |}.

(** [published] is the aggregate last stored by [publish]: the managed total
    and the summed marks. *)
Definition allocation_policy (published : option (Z * ZoneWatermarks)) (free_pages requested_pages : Z) : AllocationPolicy :=
  match published with
  | None => Allow
  | Some (_, zone) =>
      let remaining := sat_sub free_pages requested_pages in
      if remaining <? wm_min zone then DirectReclaim
      else if remaining <? wm_low zone then WakeBackground
      else Allow
  end.

End Marks.

(** ** The slowpath retry machine ([oom_entry.rs]) *)

Definition PAGE_ALLOC_COSTLY_ORDER : nat := 3.
Definition MAX_RECLAIM_RETRIES : Z := 16.

Inductive Step := Retry | InvokeOom | Fail_.

Inductive OomOutcome := Progress | Contended | NoKillable.

Record RetryState := mkRetry { no_progress_loops : Z; oom_attempts : Z }.

Definition RetryState_default : RetryState := mkRetry 0 0.

(** [saturating_add(1)] on [u32]. *)
Definition sat_inc32 (x : Z) : Z := Z.min (x + 1) U32_MAX.

Module Oom.

Definition note_reclaim (st : RetryState) (did_some_progress : bool) (order : nat) : RetryState :=
  if did_some_progress && (order <=? PAGE_ALLOC_COSTLY_ORDER)%nat
  then mkRetry 0 (oom_attempts st)
  else mkRetry (sat_inc32 (no_progress_loops st)) (oom_attempts st).

Definition should_reclaim_retry (st : RetryState) : bool := no_progress_loops st <=? MAX_RECLAIM_RETRIES.

Definition slowpath_allowed (in_atomic : bool) : bool := negb in_atomic.

Definition may_invoke_oom (order : nat) : bool := (order <=? PAGE_ALLOC_COSTLY_ORDER)%nat.

Definition next_step (st : RetryState) (order : nat) (did_some_progress : bool) : Step * RetryState :=
  let st := note_reclaim st did_some_progress order in
  if should_reclaim_retry st then (Retry, st)
  else if negb (may_invoke_oom order) then (Fail_, st)
  else (InvokeOom, st).

Definition after_oom (st : RetryState) (outcome : OomOutcome) : Step * RetryState :=
  match outcome with
  | NoKillable => (Fail_, st)
  | _ => (Retry, mkRetry 0 (sat_inc32 (oom_attempts st)))
  end.

Section run.
Context {S T : Type} (order : nat) (alloc : M S (option T)) (reclaim : M S bool) (oom : M S OomOutcome).

(** The loop of [run_slowpath]; [fuel] bounds the passes and the outer [None]
    reports that it ran out with the loop still going. *)
Fixpoint slowpath_loop (fuel : nat) (st : RetryState) : M S (option (option T)) :=
  match fuel with
  | O => ret None
  | Datatypes.S fuel' =>
      did_some_progress ← reclaim;
      let '(step, st1) := next_step st order did_some_progress in
      match step with
      | Fail_ => ret (Some None)
      | Retry =>
          v ← alloc;
          match v with
          | Some value => ret (Some (Some value))
          | None => slowpath_loop fuel' st1
          end
      | InvokeOom =>
          outcome ← oom;
          let '(step2, st2) := after_oom st1 outcome in
          match step2 with
          | Fail_ => ret (Some None)
          | _ =>
              v ← alloc;
              match v with
              | Some value => ret (Some (Some value))
              | None => slowpath_loop fuel' st2
              end
          end
      end
  end.

Definition run_slowpath (fuel : nat) (allowed : bool) : M S (option (option T)) :=
  if negb allowed then ret (Some None) else slowpath_loop fuel RetryState_default.

End run.

End Oom.

(** * Theorems *)

(** ** The integer square root *)

Section sqrt.
Implicit Types (value left right answer : Z).

(** [middle <= value / middle] is [middle^2 <= value]. *)
Lemma sqrt_test value m : 0 < m -> (m <=? value / m) = (m * m <=? value).
Proof.
  intros Hm. destruct (m * m <=? value) eqn:E; to_prop.
  - apply Z.leb_le, Z.div_le_lower_bound; lia.
  - apply Z.leb_gt, Z.div_lt_upper_bound; lia.
Qed.

(** The loop invariant: [answer] is the largest root found below [left], no
    root lies above [right]. *)
Lemma sqrt_loop_spec fuel value left right answer :
  0 <= value -> 1 <= left -> right - left + 1 < 2 ^ Z.of_nat fuel ->
  0 <= answer -> answer * answer <= value -> answer = left - 1 \/ (left = 1 /\ answer = 1) ->
  value < (right + 1) * (right + 1) -> left <= right + 1 ->
  Marks.sqrt_loop fuel value left right answer = Some (Z.sqrt value).
Proof.
  intros Hv. revert left right answer.
  induction fuel as [|fuel IH]; intros left right answer Hl Hf Ha Haa Hal Hr Hlr; simpl.
  - change (2 ^ Z.of_nat 0) with 1 in Hf.
    rewrite (proj2 (Z.ltb_lt right left)) by lia. f_equal. symmetry. apply Z.sqrt_unique.
    assert (right + 1 = left) by lia. destruct Hal as [->|[-> ->]]; [nia|].
    assert (right = 0) by lia. subst. nia.
  - destruct (right <? left) eqn:E; to_prop.
    { f_equal. symmetry. apply Z.sqrt_unique. assert (right + 1 = left) by lia.
      destruct Hal as [->|[-> ->]]; [nia|]. assert (right = 0) by lia. subst. nia. }
    set (mid := left + (right - left) / 2).
    assert (Hmid : left <= mid <= right /\ 2 * (mid - left) <= right - left /\ right - left <= 2 * (mid - left) + 1).
    { unfold mid. pose proof (Z.div_mod (right - left) 2 ltac:(lia)).
      pose proof (Z.mod_pos_bound (right - left) 2 ltac:(lia)). lia. }
    assert (Hf' : right - left + 1 < 2 * 2 ^ Z.of_nat fuel)
      by (rewrite Nat2Z.inj_succ, Z.pow_succ_r in Hf by lia; done).
    rewrite sqrt_test by lia. destruct (mid * mid <=? value) eqn:E2; to_prop.
    + apply IH; try nia.
    + apply IH; try nia.
Qed.

Lemma integer_sqrt_spec value :
  0 <= value <= U64_MAX -> Marks.integer_sqrt value = Some (Z.sqrt value).
Proof.
  intros Hv. unfold Marks.integer_sqrt. destruct (value <? 2) eqn:E; to_prop.
  - assert (value = 0 \/ value = 1) as [->| ->] by lia; done.
  - apply sqrt_loop_spec; try lia.
    + unfold Marks.sqrt_fuel, U32_MAX in *. change (2 ^ Z.of_nat 32) with (2 ^ 32). lia.
    + unfold U64_MAX, U32_MAX in *. destruct (Z.min_spec value (2 ^ 32 - 1)) as [[? ->]|[? ->]]; nia.
    + unfold U32_MAX. lia.
Qed.

End sqrt.

(** ** The retry machine *)

Section retry.
Context {S T : Type} (order : nat) (alloc : M S (option T)) (reclaim : M S bool) (oom : M S OomOutcome).

(** [m] answers from every state: it neither panics nor diverges. *)
Definition answers {A} (m : M S A) : Prop := forall s, wp m (fun _ _ => True) s.

Lemma note_reclaim_costly st b :
  (PAGE_ALLOC_COSTLY_ORDER < order)%nat ->
  no_progress_loops (Oom.note_reclaim st b order) = sat_inc32 (no_progress_loops st).
Proof.
  intros H. unfold Oom.note_reclaim. rewrite (proj2 (Nat.leb_gt _ _) H). by rewrite andb_false_r.
Qed.

Lemma slowpath_costly fuel st s :
  (PAGE_ALLOC_COSTLY_ORDER < order)%nat -> answers alloc -> answers reclaim ->
  0 <= no_progress_loops st <= MAX_RECLAIM_RETRIES ->
  MAX_RECLAIM_RETRIES - no_progress_loops st < Z.of_nat fuel ->
  wp (Oom.slowpath_loop order alloc reclaim oom fuel st) (fun r _ => r <> None) s.
Proof.
  intros Ho Ha Hr. revert st s. induction fuel as [|fuel IH]; intros st s Hn Hf; [lia|].
  cbn [Oom.slowpath_loop]. wp_step. eapply wp_mono; [apply Hr|]. intros b s' _.
  unfold Oom.next_step. set (st1 := Oom.note_reclaim st b order).
  assert (Hst1 : no_progress_loops st1 = no_progress_loops st + 1).
  { unfold st1. rewrite note_reclaim_costly by done. unfold sat_inc32, U32_MAX, MAX_RECLAIM_RETRIES in *. lia. }
  unfold Oom.should_reclaim_retry. bool_case (no_progress_loops st1 <=? MAX_RECLAIM_RETRIES).
  - wp_step. eapply wp_mono; [apply Ha|]. intros [v|] s'' _; [by wp_step|]. apply IH; lia.
  - unfold Oom.may_invoke_oom. rewrite (proj2 (Nat.leb_gt _ _) Ho). cbn [negb]. by wp_step.
Qed.

(** The loop keeps what its callbacks keep, and ends for a costly order. *)
Lemma slowpath_inv E (I : S -> Prop) (Qa : T -> S -> Prop) fuel st s :
  I s -> (forall s, I s -> wpe E reclaim (fun _ => I) s) -> (forall s, I s -> wpe E oom (fun _ => I) s) ->
  (forall s, I s -> wpe E alloc (fun r s' => match r with Some v => Qa v s' | None => I s' end) s) ->
  wpe E (Oom.slowpath_loop order alloc reclaim oom fuel st) (fun r s' =>
    match r with Some (Some v) => Qa v s' | _ => I s' end /\
    ((PAGE_ALLOC_COSTLY_ORDER < order)%nat -> 0 <= no_progress_loops st <= MAX_RECLAIM_RETRIES ->
      MAX_RECLAIM_RETRIES - no_progress_loops st < Z.of_nat fuel -> r <> None)) s.
Proof.
  intros HI Hr Ho Ha. revert st s HI. induction fuel as [|fuel IH]; intros st s HI; cbn [Oom.slowpath_loop].
  { apply wpe_ret. split; [done|lia]. }
  apply wpe_bind. eapply wpe_mono; [by apply Hr|]. cbn beta. intros b s1 HI1.
  unfold Oom.next_step. set (st1 := Oom.note_reclaim st b order).
  assert (Htry : forall st2 s2, I s2 -> ((PAGE_ALLOC_COSTLY_ORDER < order)%nat -> st2 = st1 /\
      no_progress_loops st1 <= MAX_RECLAIM_RETRIES) ->
    wpe E (v ← alloc; match v with Some value => ret (Some (Some value))
                              | None => Oom.slowpath_loop order alloc reclaim oom fuel st2 end) (fun r s' =>
    match r with Some (Some v) => Qa v s' | _ => I s' end /\
    ((PAGE_ALLOC_COSTLY_ORDER < order)%nat -> 0 <= no_progress_loops st <= MAX_RECLAIM_RETRIES ->
      MAX_RECLAIM_RETRIES - no_progress_loops st < Z.of_nat (Datatypes.S fuel) -> r <> None)) s2).
  { intros st2 s2 HI2 Hst. apply wpe_bind. eapply wpe_mono; [by apply Ha|]. cbn beta. intros [v|] s3 H3; [by apply wpe_ret|].
    eapply wpe_mono; [by apply (IH st2)|]. cbn beta. intros r s4 [H4 Hend]. split; [done|].
    intros Hc Hn Hf. destruct (Hst Hc) as [-> Hle]. apply Hend; [done| |];
      unfold st1 in *; rewrite note_reclaim_costly in * by done; unfold sat_inc32, U32_MAX, MAX_RECLAIM_RETRIES in *; lia. }
  unfold Oom.should_reclaim_retry. bool_case (no_progress_loops st1 <=? MAX_RECLAIM_RETRIES); [by apply Htry|].
  bool_case (Oom.may_invoke_oom order); cbn [negb]; [|by apply wpe_ret].
  apply wpe_bind. eapply wpe_mono; [by apply Ho|]. cbn beta. intros out s2 HI2. unfold Oom.may_invoke_oom in *. to_prop.
  destruct out; cbn [Oom.after_oom]; [apply Htry; [done|lia]..|by apply wpe_ret].
Qed.

(** With no progress at all the machine asks for a victim on pass 17 and fails
    when nothing is killable. *)
Lemma slowpath_no_progress fuel st s :
  answers alloc ->
  (forall s, wp reclaim (fun b _ => b = false) s) ->
  (forall s, wp oom (fun o _ => o = NoKillable) s) ->
  0 <= no_progress_loops st <= MAX_RECLAIM_RETRIES ->
  MAX_RECLAIM_RETRIES - no_progress_loops st < Z.of_nat fuel ->
  wp (Oom.slowpath_loop order alloc reclaim oom fuel st) (fun r _ => r <> None) s.
Proof.
  intros Ha Hr Ho. revert st s. induction fuel as [|fuel IH]; intros st s Hn Hf; [lia|].
  cbn [Oom.slowpath_loop]. wp_step. eapply wp_mono; [apply Hr|]. intros b s' ->.
  unfold Oom.next_step, Oom.note_reclaim. cbn [andb]. set (st1 := mkRetry _ _).
  assert (Hst1 : no_progress_loops st1 = no_progress_loops st + 1).
  { unfold st1, sat_inc32, U32_MAX, MAX_RECLAIM_RETRIES in *. cbn [no_progress_loops]. lia. }
  unfold Oom.should_reclaim_retry. bool_case (no_progress_loops st1 <=? MAX_RECLAIM_RETRIES).
  - wp_step. eapply wp_mono; [apply Ha|]. intros [v|] s'' _; [by wp_step|]. apply IH; lia.
  - destruct (Oom.may_invoke_oom order); cbn [negb]; [|by wp_step].
    wp_step. eapply wp_mono; [apply Ho|]. intros o s'' ->. by apply wp_ret.
Qed.

End retry.

(** ** Properties *)

(** C34: for every [u64] the bisection ends within its 32
    passes and returns the exact integer square root. *)
Theorem integer_sqrt_exact (value : Z) (Hv : 0 <= value <= U64_MAX) :
  Marks.integer_sqrt value = Some (Z.sqrt value).
Proof. by apply integer_sqrt_spec. Qed.

Lemma integer_sqrt_exact_witness : Marks.integer_sqrt U64_MAX = Some 4294967295.
Proof. rewrite (integer_sqrt_exact U64_MAX ltac:(unfold U64_MAX; lia)). reflexivity. Defined.

Lemma clamp_bounds x lo hi : lo <= hi -> lo <= clamp x lo hi <= hi.
Proof. intros H. unfold clamp. bool_case (x <? lo); [lia|]. bool_case (hi <? x); lia. Qed.

Lemma default_min_free_kbytes_bounds managed page_bytes :
  MIN_FREE_KBYTES_FLOOR <= Marks.default_min_free_kbytes managed page_bytes <= MIN_FREE_KBYTES_CEILING.
Proof. apply clamp_bounds. done. Qed.

(** C35: the marks derived for a zone are ordered
    min <= low <= high <= promo within [u64], whatever the tunables; a zone
    that manages nothing has no marks; and a capped zone's minimum stays
    between its floor and its ceiling. *)
Theorem watermark_ladder (managed total : Z) (t : WatermarkTunables) (page_bytes : Z) (cap : bool)
    (Hm : 0 <= managed) (Ht : 0 <= total) (Hp : 0 <= page_bytes)
    (Hk : match min_free_kbytes t with Some k => 0 <= k | None => True end)
    (Hs : 0 <= watermark_scale_factor t) :
  let w := Marks.derive_zone_watermarks managed total t page_bytes cap in
  (0 <= wm_min w /\ wm_min w <= wm_low w /\ wm_low w <= wm_high w /\ wm_high w <= wm_promo w /\ wm_promo w <= U64_MAX) /\
  (managed = 0 -> w = ZoneWatermarks_default) /\
  (cap = true -> managed <> 0 -> total <> 0 -> page_bytes <> 0 ->
     CAPPED_MIN_FLOOR <= wm_min w <= CAPPED_MIN_CEILING).
Proof.
  intros w. unfold w, Marks.derive_zone_watermarks.
  destruct (_ || _ || _) eqn:E.
  { split_and!; try done. intros _ ? ? ?.
    apply orb_true_iff in E as [E|E]; [apply orb_true_iff in E as [E|E]|]; to_prop; done. }
  to_prop. cbn zeta.
  set (mk := match min_free_kbytes t with Some k => k | None => _ end).
  assert (Hmk : 0 <= mk).
  { subst mk. destruct (min_free_kbytes t); [done|].
    pose proof (default_min_free_kbytes_bounds total page_bytes). unfold MIN_FREE_KBYTES_FLOOR in *. lia. }
  assert (Hsat : forall a b, 0 <= a -> 0 <= b -> 0 <= sat_mul a b <= U64_MAX)
    by (intros; unfold sat_mul, U64_MAX; nia).
  set (tmp := sat_mul mk KIB_BYTES / page_bytes).
  assert (Htmp : 0 <= tmp) by (apply Z.div_pos; [apply Hsat; unfold KIB_BYTES; lia|lia]).
  set (prop := sat_mul tmp managed / total).
  assert (Hprop : 0 <= prop <= U64_MAX).
  { pose proof (Hsat tmp managed Htmp Hm). split; [apply Z.div_pos; lia|].
    etrans; [apply Z.div_le_upper_bound with (q := sat_mul tmp managed); nia|lia]. }
  set (gap := Z.max (prop / 4) _).
  assert (Hgap : 0 <= gap) by (subst gap; assert (0 <= prop / 4) by (apply Z.div_pos; lia); lia).
  set (mn := if cap then _ else _).
  assert (Hcl : CAPPED_MIN_FLOOR <= clamp (managed / CAPPED_MIN_SHARE) CAPPED_MIN_FLOOR CAPPED_MIN_CEILING
                <= CAPPED_MIN_CEILING) by (by apply clamp_bounds).
  assert (Hmn : 0 <= mn <= U64_MAX)
    by (subst mn; destruct cap; [unfold CAPPED_MIN_FLOOR, CAPPED_MIN_CEILING, U64_MAX in *; lia|done]).
  cbn [wm_min wm_low wm_high wm_promo]. split_and!; try done; try (unfold sat_add, sat_mul, U64_MAX in *; lia).
  intros -> _ _ _. exact Hcl.
Qed.

Lemma watermark_ladder_witness :
  let w := Marks.derive_zone_watermarks 1000000 2000000 WatermarkTunables_default 4096 false in
  wm_min w = 1414 /\ wm_min w <= wm_low w.
Proof.
  split; [vm_compute; reflexivity|].
  exact (proj1 (proj2 (proj1 (watermark_ladder 1000000 2000000 WatermarkTunables_default 4096 false
    ltac:(done) ltac:(done) ltac:(done) I ltac:(done))))).
Defined.

(** C36: the retry loop of the allocator slowpath ends. A
    context that may not sleep fails at once without touching any state; a
    costly-order request ends within 17 passes however much reclaim reports
    and never asks for a victim (the victim selector may be any computation,
    even one that panics); and when reclaim never makes progress and nothing
    is killable every request ends within 17 passes. *)
Theorem slowpath_terminates {S T : Type} (order : nat) (alloc : M S (option T)) (reclaim : M S bool)
    (oom : M S OomOutcome) (s : S) (Ha : answers alloc) (Hr : answers reclaim) :
  (forall fuel, Oom.run_slowpath order alloc reclaim oom fuel false s = Done (Some None, s)) /\
  ((PAGE_ALLOC_COSTLY_ORDER < order)%nat ->
     exists r s', Oom.run_slowpath order alloc reclaim oom 17 true s = Done (Some r, s')) /\
  ((forall s, wp reclaim (fun b _ => b = false) s) -> (forall s, wp oom (fun o _ => o = NoKillable) s) ->
     exists r s', Oom.run_slowpath order alloc reclaim oom 17 true s = Done (Some r, s')).
Proof.
  assert (Hex : wp (Oom.slowpath_loop order alloc reclaim oom 17 RetryState_default) (fun r _ => r <> None) s ->
    exists r s', Oom.run_slowpath order alloc reclaim oom 17 true s = Done (Some r, s')).
  { intros (r & s' & Hrun & Hne)%wp_iff. destruct r as [r|]; [|done]. by exists r, s'. }
  split_and!; [done| |]; intros; apply Hex.
  - by apply slowpath_costly.
  - by apply slowpath_no_progress.
Qed.

Lemma slowpath_terminates_witness :
  exists r s', Oom.run_slowpath 4 (fun n : nat => Done (@None Z, S n)) (fun n => Done (true, n))
    (panic "no victim may be selected") 17 true 0%nat = Done (Some r, s').
Proof.
  refine (proj1 (proj2 (slowpath_terminates 4 (fun n : nat => Done (@None Z, S n)) (fun n => Done (true, n))
    (panic "no victim may be selected") 0%nat _ _)) _); [done|done|unfold PAGE_ALLOC_COSTLY_ORDER; lia].
Defined.
