(* ===== verification/Buddy.v ===== *)
(** * The buddy lists: state and primitives

    Models [crates/kernel/mm-pmm/src/buddy/inner.rs] (the lock-protected
    [PmmInner] and the free-list primitives), [buddy/pageblock.rs] (the packed
    mobility map), [buddy/free_node.rs] (the intrusive header) and the
    coalescer of [buddy/free.rs].

    The state of the primitives is [Core]: the per-order bitmaps and the
    pageblock map as their [u64] words, the list heads and counts as the
    arrays [free_heads[zone][mt][order]] and [free_count[zone][mt][order]],
    and the header each page holds while it is free. [bitmaps] and
    [pageblocks] are [&'static] slices that [PmmInner] and [Pmm] share; the
    model keeps the one copy. [pfn_max], [layout] and [zonelist] never change
    after construction and are the [Topology] the operations read.

    An index past the end of a slice or an array panics, as does a failed
    [kassert!] and an addition or a subtraction that overflows. *)

From S2P Require Import Prelude Zone.

(** ** State *)

Definition POISON_MAGIC : Z := 0xDEADBEEFCAFEBABE.
Definition PFN_NULL : Z := U64_MAX.
Definition PAGE_SIZE_BYTES : Z := 4096.

(** The 32-byte header at the start of a free page: [poison] at offset 0, the
    [order] byte with its seven bytes of zero padding at 8, [next] at 16 and
    [prev] at 24. *)
Record FreeNode := mkNode { n_poison : Z; n_order : Z; n_next : Z; n_prev : Z }.

(** The header of a zeroed page. *)
Definition zero_node : FreeNode := mkNode 0 0 0 0.

Record Core := mkCore {
  bitmaps : nat -> Z -> Z;
  pageblocks : Z -> Z;
  free_heads : nat -> MigrateType -> nat -> Z;
  free_count : nat -> MigrateType -> nat -> Z;
  pages : Z -> FreeNode
}.

Record Topology := mkTopology { pfn_max : Z; layout : ZoneLayout; zonelist : Zonelist }.

Definition set_bitmaps b c := mkCore b (pageblocks c) (free_heads c) (free_count c) (pages c).
Definition set_pageblocks b c := mkCore (bitmaps c) b (free_heads c) (free_count c) (pages c).
Definition set_free_heads h c := mkCore (bitmaps c) (pageblocks c) h (free_count c) (pages c).
Definition set_free_count n c := mkCore (bitmaps c) (pageblocks c) (free_heads c) n (pages c).
Definition set_pages p c := mkCore (bitmaps c) (pageblocks c) (free_heads c) (free_count c) p.

(** Update of a memory, of a table of words and of a three-dimensional array. *)
Definition upd {A} (f : Z -> A) (i : Z) (v : A) : Z -> A := fun j => if j =? i then v else f j.

Definition updn {A} (f : nat -> A) (i : nat) (v : A) : nat -> A := fun j => if (j =? i)%nat then v else f j.

Definition upd3 {A} (f : nat -> MigrateType -> nat -> A) (z : nat) (m : MigrateType) (o : nat) (v : A)
    : nat -> MigrateType -> nat -> A :=
  fun z' m' o' => if (z' =? z)%nat && MigrateTypes.eqb m' m && (o' =? o)%nat then v else f z' m' o'.

(** ** Headers ([free_node.rs]) *)

Definition read_node (pfn : Z) : M Core FreeNode := gets (fun c => pages c pfn).

Definition write_node (pfn : Z) (n : FreeNode) : M Core unit :=
  modify (fun c => set_pages (upd (pages c) pfn n) c).

Definition write_next (pfn v : Z) : M Core unit :=
  modify (fun c => let n := pages c pfn in
    set_pages (upd (pages c) pfn (mkNode (n_poison n) (n_order n) v (n_prev n))) c).

Definition write_prev (pfn v : Z) : M Core unit :=
  modify (fun c => let n := pages c pfn in
    set_pages (upd (pages c) pfn (mkNode (n_poison n) (n_order n) (n_next n) v)) c).

(** ** The pageblock map ([pageblock.rs]) *)

Definition TYPES_PER_WORD : Z := 32.
Definition TYPE_BITS : Z := 2.
Definition TYPE_MASK : Z := 3.

Module Pageblock.

Definition words_for (pfn_max : Z) : Z :=
  let blocks := Z.shiftr (sat_add pfn_max (pow2 PAGEBLOCK_ORDER - 1)) (Z.of_nat PAGEBLOCK_ORDER) in
  sat_add blocks (TYPES_PER_WORD - 1) / TYPES_PER_WORD.

Section pageblock.
Context (t : Topology).

Definition check_word (word : Z) : M Core unit :=
  kassert ((0 <=? word) && (word <? words_for (pfn_max t))) "index out of bounds".

Definition type_shift (block : Z) : Z := block mod TYPES_PER_WORD * TYPE_BITS.

Definition get (pfn : Z) : M Core MigrateType :=
  let block := Z.shiftr pfn (Z.of_nat PAGEBLOCK_ORDER) in
  let word := block / TYPES_PER_WORD in
  let shift := type_shift block in
  check_word word ;;
  w ← gets (fun c => pageblocks c word);
  let value := Z.land (Z.shiftr w shift) TYPE_MASK in
  ret (MigrateTypes.from_index (Z.to_nat value)).

(** The compare-exchange loop of [set] stores [(old & !mask) | value] for the
    word it last read. *)
Definition set_block (block : Z) (mt : MigrateType) : M Core unit :=
  let word := block / TYPES_PER_WORD in
  let shift := type_shift block in
  let mask := Z.shiftl TYPE_MASK shift in
  let value := Z.shiftl (Z.of_nat (MigrateTypes.index mt)) shift in
  check_word word ;;
  modify (fun c =>
    set_pageblocks (upd (pageblocks c) word (Z.lor (Z.land (pageblocks c word) (not64 mask)) value)) c).

(** [for block in first..=last]: [n] blocks from [first]. *)
Fixpoint set_blocks (first : Z) (n : nat) (mt : MigrateType) : M Core unit :=
  match n with
  | O => ret tt
  | S n' => set_block first mt ;; set_blocks (first + 1) n' mt
  end.

Definition set_range (start_pfn end_pfn : Z) (mt : MigrateType) : M Core unit :=
  if end_pfn <=? start_pfn then ret tt else
  let first := Z.shiftr start_pfn (Z.of_nat PAGEBLOCK_ORDER) in
  let last := Z.shiftr (sat_sub end_pfn 1) (Z.of_nat PAGEBLOCK_ORDER) in
  set_blocks first (Z.to_nat (last - first + 1)) mt.

End pageblock.

End Pageblock.

(** ** Free-list primitives ([inner.rs]) *)

Module Buddy.
Section buddy.
Context (t : Topology).

(** The zone slot owning [pfn], with a terminal slot for malformed callers. *)
Definition zi (pfn : Z) : nat :=
  let index := Layout.index_of (layout t) pfn in
  if (index <? NR_ZONES)%nat then index else (NR_ZONES - 1)%nat.

Definition migratetype (pfn : Z) : M Core MigrateType := Pageblock.get t pfn.

(** The length of [bitmaps[order]], as construction requests it. *)
Definition bitmap_words (order : nat) : Z :=
  let blocks := Z.shiftr (pfn_max t + pow2 order - 1) (Z.of_nat order) in
  Z.shiftr (blocks + 63) 6.

Definition check_bitmap (order : nat) (word : Z) : M Core unit :=
  kassert ((order <? ORDERS)%nat && (0 <=? word) && (word <? bitmap_words order)) "index out of bounds".

Definition bitmap_get (order : nat) (index : Z) : M Core bool :=
  let word := Z.shiftr index 6 in
  let bit := Z.land index 63 in
  check_bitmap order word ;;
  w ← gets (fun c => bitmaps c order word);
  ret (Z.land (Z.shiftr w bit) 1 =? 1).

Definition bitmap_store (order : nat) (word v : Z) : M Core unit :=
  modify (fun c => set_bitmaps (updn (bitmaps c) order (upd (bitmaps c order) word v)) c).

Definition bitmap_set (order : nat) (index : Z) : M Core unit :=
  let word := Z.shiftr index 6 in
  let bit := Z.land index 63 in
  check_bitmap order word ;;
  w ← gets (fun c => bitmaps c order word);
  bitmap_store order word (Z.lor w (Z.shiftl 1 bit)).

Definition bitmap_clear (order : nat) (index : Z) : M Core unit :=
  let word := Z.shiftr index 6 in
  let bit := Z.land index 63 in
  check_bitmap order word ;;
  w ← gets (fun c => bitmaps c order word);
  bitmap_store order word (Z.land w (not64 (Z.shiftl 1 bit))).

(** [free_heads[zone][mt.index()][order]] and [free_count[..][..][..]]. *)
Definition check_slot (zone order : nat) : M Core unit :=
  kassert ((zone <? NR_ZONES)%nat && (order <? ORDERS)%nat) "index out of bounds".

Definition head_get (zone : nat) (mt : MigrateType) (order : nat) : M Core Z :=
  check_slot zone order ;; gets (fun c => free_heads c zone mt order).

Definition head_put (zone : nat) (mt : MigrateType) (order : nat) (v : Z) : M Core unit :=
  check_slot zone order ;;
  modify (fun c => set_free_heads (upd3 (free_heads c) zone mt order v) c).

Definition count_get (zone : nat) (mt : MigrateType) (order : nat) : M Core Z :=
  check_slot zone order ;; gets (fun c => free_count c zone mt order).

Definition count_put (zone : nat) (mt : MigrateType) (order : nat) (v : Z) : M Core unit :=
  modify (fun c => set_free_count (upd3 (free_count c) zone mt order v) c).

(** [free_count[..] += 1] and [free_count[..] -= 1]. *)
Definition count_inc (zone : nat) (mt : MigrateType) (order : nat) : M Core unit :=
  n ← count_get zone mt order; n' ← add64 n 1; count_put zone mt order n'.
Definition count_dec (zone : nat) (mt : MigrateType) (order : nat) : M Core unit :=
  n ← count_get zone mt order; n' ← sub64 n 1; count_put zone mt order n'.

Definition stamp_block (pfn : Z) (order : nat) (next prev : Z) : M Core unit :=
  write_node pfn (mkNode POISON_MAGIC (Z.of_nat order) next prev).

Definition push_free (pfn : Z) (order : nat) (mt : MigrateType) : M Core unit :=
  let zone := zi pfn in
  pmt ← migratetype pfn;
  kassert (MigrateTypes.eqb pmt mt) "pmm free block wrong migratetype" ;;
  head ← head_get zone mt order;
  stamp_block pfn order head PFN_NULL ;;
  (if negb (head =? PFN_NULL) then write_prev head pfn else ret tt) ;;
  head_put zone mt order pfn.

Definition pop_free (zone : nat) (order : nat) (mt : MigrateType) : M Core Z :=
  head ← head_get zone mt order;
  kassert (negb (head =? PFN_NULL)) "assertion failed: head != PFN_NULL" ;;
  node ← read_node head;
  let next := n_next node in
  let prev := n_prev node in
  kassert (prev =? PFN_NULL) "pmm free-list head prev mismatch" ;;
  kassert ((next =? PFN_NULL) || (next <? pfn_max t)) "pmm free-list next out of range" ;;
  (if negb (next =? PFN_NULL) then
     kassert (negb (next =? head)) "pmm free-list self link" ;;
     kassert (zi next =? zone)%nat "pmm free-list next wrong zone" ;;
     nmt ← migratetype next;
     kassert (MigrateTypes.eqb nmt mt) "pmm free-list next wrong migratetype" ;;
     nn ← read_node next;
     kassert (n_prev nn =? head) "pmm free-list next back-link mismatch" ;;
     write_prev next PFN_NULL
   else ret tt) ;;
  head_put zone mt order next ;;
  ret head.

(** [self.zi(p) == zone && self.migratetype(p) == mt]. *)
Definition same_class (p : Z) (zone : nat) (mt : MigrateType) : M Core bool :=
  if (zi p =? zone)%nat then pmt ← migratetype p; ret (MigrateTypes.eqb pmt mt) else ret false.

Definition unlink_free (pfn : Z) (order : nat) (mt : MigrateType) : M Core unit :=
  let zone := zi pfn in
  pmt ← migratetype pfn;
  kassert (MigrateTypes.eqb pmt mt) "pmm unlink wrong migratetype" ;;
  node ← read_node pfn;
  let next := n_next node in
  let prev := n_prev node in
  kassert ((next =? PFN_NULL) || (next <? pfn_max t)) "pmm free-list next out of range" ;;
  kassert ((prev =? PFN_NULL) || (prev <? pfn_max t)) "pmm free-list prev out of range" ;;
  (if prev =? PFN_NULL then
     head ← head_get zone mt order;
     kassert (head =? pfn) "pmm free-list head mismatch" ;;
     head_put zone mt order next
   else
     ok ← same_class prev zone mt;
     kassert ok "pmm free-list prev wrong class" ;;
     write_next prev next) ;;
  (if negb (next =? PFN_NULL) then
     ok ← same_class next zone mt;
     kassert ok "pmm free-list next wrong class" ;;
     write_prev next prev
   else ret tt).

Definition verify_poison (pfn : Z) : M Core unit :=
  node ← read_node pfn;
  kassert (n_poison node =? POISON_MAGIC) "pmm poison mismatch on alloc".

(** The split loop of [take_from_order] and [claim_fallback]: from [split]
    down to [order],
    publish each upper half. *)
Fixpoint split_down (pfn : Z) (zone : nat) (order split : nat) (mt : MigrateType) : M Core unit :=
  match split with
  | O => ret tt
  | S split' =>
      if (order <? S split')%nat then
        buddy ← add64 pfn (pow2 split');
        push_free buddy split' mt ;;
        bitmap_set split' (Z.shiftr buddy (Z.of_nat split')) ;;
        count_inc zone mt split' ;;
        split_down pfn zone order split' mt
      else ret tt
  end.

Definition take_from_order (zone : nat) (order current_order : nat) (mt : MigrateType) : M Core Z :=
  pfn ← pop_free zone current_order mt;
  bitmap_clear current_order (Z.shiftr pfn (Z.of_nat current_order)) ;;
  count_dec zone mt current_order ;;
  split_down pfn zone order current_order mt ;;
  ret pfn.

Fixpoint claim_loop (orders : list nat) (zone : nat) (order : nat) (requested fallback : MigrateType)
    : M Core (option Z) :=
  match orders with
  | [] => ret None
  | current_order :: orders' =>
      head ← head_get zone fallback current_order;
      if head =? PFN_NULL then claim_loop orders' zone order requested fallback else
      pfn ← pop_free zone current_order fallback;
      bitmap_clear current_order (Z.shiftr pfn (Z.of_nat current_order)) ;;
      count_dec zone fallback current_order ;;
      e ← add64 pfn (pow2 current_order);
      Pageblock.set_range t pfn e requested ;;
      split_down pfn zone order current_order requested ;;
      ret (Some pfn)
  end.

(** [(minimum..=MAX_ORDER).rev()]. *)
Definition claim_fallback (zone : nat) (order : nat) (requested fallback : MigrateType) : M Core (option Z) :=
  let minimum := Nat.max order PAGEBLOCK_ORDER in
  claim_loop (rev (seq minimum (MAX_ORDER + 1 - minimum))) zone order requested fallback.

(** [for current_order in order..=MAX_ORDER { if non-empty { take } }]. *)
Fixpoint take_loop (orders : list nat) (zone : nat) (order : nat) (mt : MigrateType) : M Core (option Z) :=
  match orders with
  | [] => ret None
  | current_order :: orders' =>
      head ← head_get zone mt current_order;
      if negb (head =? PFN_NULL)
      then pfn ← take_from_order zone order current_order mt; ret (Some pfn)
      else take_loop orders' zone order mt
  end.

Definition orders_from (order : nat) : list nat := seq order (MAX_ORDER + 1 - order).

(** Try each computation in turn until one answers. *)
Fixpoint first_some {A} (l : list (M Core (option A))) : M Core (option A) :=
  match l with
  | [] => ret None
  | m :: l' => r ← m; match r with Some a => ret (Some a) | None => first_some l' end
  end.

Definition take_block (zone : nat) (order : nat) (requested : MigrateType) : M Core (option Z) :=
  r ← take_loop (orders_from order) zone order requested;
  match r with
  | Some pfn => ret (Some pfn)
  | None =>
      r ← first_some (map (fun fallback => claim_fallback zone order requested fallback)
                          (MigrateTypes.fallbacks requested));
      match r with
      | Some pfn => ret (Some pfn)
      | None =>
          first_some (map (fun fallback => take_loop (orders_from order) zone order fallback)
                          (MigrateTypes.fallbacks requested))
      end
  end.

(** The coalescing loop of [return_to_buddy]; [k] is [MAX_ORDER - o], so the
    base case is the loop's [o == MAX_ORDER] exit. *)
Fixpoint merge_loop (k : nat) (zone : nat) (mt : MigrateType) (p : Z) (o : nat) : M Core (Z * nat) :=
  match k with
  | O => ret (p, o)
  | S k' =>
      let buddy := Z.lxor p (pow2 o) in
      e ← add64 buddy (pow2 o);
      if pfn_max t <? e then ret (p, o) else
      if negb (zi buddy =? zone)%nat then ret (p, o) else
      bmt ← migratetype buddy;
      if negb (MigrateTypes.eqb bmt mt) then ret (p, o) else
      set ← bitmap_get o (Z.shiftr buddy (Z.of_nat o));
      if negb set then ret (p, o) else
      unlink_free buddy o mt ;;
      bitmap_clear o (Z.shiftr buddy (Z.of_nat o)) ;;
      count_dec zone mt o ;;
      merge_loop k' zone mt (if buddy <? p then buddy else p) (S o)
  end.

Definition return_to_buddy (pfn : Z) (order : nat) : M Core unit :=
  let zone := zi pfn in
  mt ← migratetype pfn;
  '(p, o) ← merge_loop (MAX_ORDER - order) zone mt pfn order;
  push_free p o mt ;;
  bitmap_set o (Z.shiftr p (Z.of_nat o)) ;;
  count_inc zone mt o.

(** Aggregate free blocks by order across mobility classes. *)
Definition free_area (c : Core) (zone : nat) (order : nat) : Z :=
  sumZ (fun mt => free_count c zone mt order) MigrateTypes.all.

Definition zone_free_pages (c : Core) (zone : nat) : Z :=
  sumZ (fun mt => sumZ (fun o => free_count c zone mt o * pow2 o) (seq 0 ORDERS)) MigrateTypes.all.

End buddy.
End Buddy.
