(* ===== verification/BuddyInv.v ===== *)
(** * The buddy lists: representation invariant

    [core_inv t c F] relates the concrete state [c] of the buddy lists (words
    of bitmaps, intrusive doubly-linked lists threaded through the free pages,
    counts) to an abstract state [F]: for each zone, mobility class and order,
    the list of the free blocks. It is the allocator's own list of invariants
    (the comment at the top of [crates/kernel/mm-pmm/src/lib.rs]): the bitmap
    says which blocks are free (I1, I3), blocks are aligned (I4), do not
    overlap (I2, I5), carry the poisoned header (I7) and lie in one zone (I9)
    on the list of their pageblock's mobility class.

    The lemmas of this file evaluate each primitive of [Buddy] on a state that
    satisfies the invariant: it does not panic and its result is the abstract
    operation. *)

From S2P Require Import Prelude Zone Buddy.

Definition blocks : Type := nat -> MigrateType -> nat -> list Z.

Definition topo_wf (t : Topology) : Prop :=
  0 <= pfn_max t <= 2 ^ 52 /\ layout_wf (layout t) (pfn_max t).

(** ** Updates *)

Section updates.

Lemma upd_eq {A} (f : Z -> A) i v : upd f i v i = v.
Proof. unfold upd. by rewrite Z.eqb_refl. Qed.

Lemma upd_ne {A} (f : Z -> A) i j v : j <> i -> upd f i v j = f j.
Proof. unfold upd. intros H. by rewrite (proj2 (Z.eqb_neq j i) H). Qed.

Lemma updn_eq {A} (f : nat -> A) i v : updn f i v i = v.
Proof. unfold updn. by rewrite Nat.eqb_refl. Qed.

Lemma updn_ne {A} (f : nat -> A) i j v : j <> i -> updn f i v j = f j.
Proof. unfold updn. intros H. by rewrite (proj2 (Nat.eqb_neq j i) H). Qed.

Lemma upd3_eq {A} (f : nat -> MigrateType -> nat -> A) z m o v : upd3 f z m o v z m o = v.
Proof. unfold upd3. by rewrite !Nat.eqb_refl, MigrateTypes.eqb_refl. Qed.

Lemma upd3_ne {A} (f : nat -> MigrateType -> nat -> A) z m o v z' m' o' :
  (z', m', o') <> (z, m, o) -> upd3 f z m o v z' m' o' = f z' m' o'.
Proof.
  intros H. unfold upd3. destruct (_ && _) eqn:E; [|done]. to_prop.
  match goal with H : MigrateTypes.eqb _ _ = true |- _ => apply MigrateTypes.eqb_eq in H end.
  congruence.
Qed.

Lemma class_dec (a b : nat * MigrateType * nat) : {a = b} + {a <> b}.
Proof. apply (decide (a = b)). Qed.

End updates.

(** ** Sums over the abstract state *)

(** [g p o] summed over the blocks [(p, o)] of a list, a row and the state; the
    third index ranges below [N]. *)
Definition osumN (N : nat) (g : Z -> nat -> Z) (F : blocks) (z : nat) (m : MigrateType) : Z :=
  sumZ (fun o => sumZ (fun p => g p o) (F z m o)) (seq 0 N).
Definition zsumN (N : nat) (g : Z -> nat -> Z) (F : blocks) (z : nat) : Z :=
  sumZ (osumN N g F z) MigrateTypes.all.
Definition fsumN (N : nat) (g : Z -> nat -> Z) (F : blocks) : Z :=
  sumZ (zsumN N g F) (seq 0 NR_ZONES).

(** The free lists are indexed by order. *)
Abbreviation zsum := (zsumN ORDERS).
Abbreviation fsum := (fsumN ORDERS).

(** 1 when the block [(p, o)] covers page [x]. *)
Definition cov (x : Z) (p : Z) (o : nat) : Z := if (p <=? x) && (x <? p + pow2 o) then 1 else 0.

(** How many free blocks cover page [x]. *)
Definition fcov (F : blocks) (x : Z) : Z := fsum (cov x) F.

Lemma fsumN_elem N g F :
  0 < fsumN N g F -> exists z m o p, (z < NR_ZONES)%nat /\ (o < N)%nat /\ p ∈ F z m o /\ 0 < g p o.
Proof.
  intros H. apply sumZ_pos_elem in H as (z & Hz & H). apply sumZ_pos_elem in H as (m & _ & H).
  apply sumZ_pos_elem in H as (o & Ho & H). apply sumZ_pos_elem in H as (p & Hp & H).
  apply elem_of_seq in Hz, Ho. exists z, m, o, p. split_and!; (done || lia).
Qed.

Lemma cov_range x p o : 0 <= cov x p o <= 1.
Proof. unfold cov. destruct (_ && _); lia. Qed.

Lemma cov_in x p o : p <= x < p + pow2 o -> cov x p o = 1.
Proof. intros H. unfold cov. by rewrite (proj2 (Z.leb_le _ _)), (proj2 (Z.ltb_lt _ _)) by lia. Qed.

Lemma cov_out x p o : ~ (p <= x < p + pow2 o) -> cov x p o = 0.
Proof. intros H. unfold cov. destruct (_ && _) eqn:E; [|done]. to_prop. lia. Qed.

Lemma cov_base p o : cov p p o = 1.
Proof. apply cov_in. pose proof (pow2_pos o). lia. Qed.

(** Splitting a block in its two halves. *)
Lemma cov_split x p o : cov x p (S o) = cov x p o + cov x (p + pow2 o) o.
Proof.
  pose proof (pow2_pos o). pose proof (pow2_S o).
  destruct (decide (p <= x < p + pow2 o)), (decide (p + pow2 o <= x < p + pow2 (S o))).
  - lia.
  - rewrite (cov_in x p o), (cov_out x (p + pow2 o) o), cov_in by lia. lia.
  - rewrite (cov_out x p o), (cov_in x (p + pow2 o) o), cov_in by lia. lia.
  - rewrite (cov_out x p o), (cov_out x (p + pow2 o) o), cov_out by lia. lia.
Qed.

Section fsums.
Context (N : nat) (g : Z -> nat -> Z).

Lemma zsum_upd F z m o l z' :
  (z' < NR_ZONES)%nat -> (o < N)%nat ->
  zsumN N g (upd3 F z m o l) z' =
    zsumN N g F z' + if (z' =? z)%nat then sumZ (fun p => g p o) l - sumZ (fun p => g p o) (F z m o) else 0.
Proof.
  intros Hz Ho. destruct (z' =? z)%nat eqn:E; to_prop.
  - subst z'. unfold zsumN.
    rewrite (sumZ_update (osumN N g F z) _ _ m).
    + unfold osumN at 3. rewrite (sumZ_update (fun o' => sumZ (fun p => g p o') (F z m o')) _ _ o).
      * rewrite upd3_eq. fold (osumN N g F z m). lia.
      * apply NoDup_ListNoDup, List.seq_NoDup.
      * apply elem_of_seq. lia.
      * intros o' _ Hne. by rewrite upd3_ne by congruence.
    + apply MigrateTypes.NoDup_all.
    + apply MigrateTypes.elem_of_all.
    + intros m' _ Hne. unfold osumN. apply sumZ_ext. intros o' _. by rewrite upd3_ne by congruence.
  - rewrite Z.add_0_r. unfold zsumN. apply sumZ_ext. intros m' _. unfold osumN.
    apply sumZ_ext. intros o' _. by rewrite upd3_ne by congruence.
Qed.

Lemma fsum_upd F z m o l :
  (z < NR_ZONES)%nat -> (o < N)%nat ->
  fsumN N g (upd3 F z m o l) = fsumN N g F - sumZ (fun p => g p o) (F z m o) + sumZ (fun p => g p o) l.
Proof.
  intros Hz Ho. unfold fsumN. rewrite (sumZ_update (zsumN N g F) _ _ z).
  - rewrite zsum_upd, Nat.eqb_refl by done. lia.
  - apply NoDup_ListNoDup, List.seq_NoDup.
  - apply elem_of_seq. lia.
  - intros z' Hz' Hne. apply elem_of_seq in Hz'.
    rewrite zsum_upd, (proj2 (Nat.eqb_neq z' z)) by (done || lia). lia.
Qed.

Lemma osum_nonneg F z m : (forall p o, 0 <= g p o) -> 0 <= osumN N g F z m.
Proof. intros H. unfold osumN. apply sumZ_nonneg. intros o _. by apply sumZ_nonneg. Qed.

Lemma zsum_nonneg F z : (forall p o, 0 <= g p o) -> 0 <= zsumN N g F z.
Proof. intros H. unfold zsumN. apply sumZ_nonneg. intros m _. by apply osum_nonneg. Qed.

Lemma fsum_nonneg F : (forall p o, 0 <= g p o) -> 0 <= fsumN N g F.
Proof. intros H. unfold fsumN. apply sumZ_nonneg. intros z _. by apply zsum_nonneg. Qed.

Lemma fsum_class_le F z m o :
  (forall p o, 0 <= g p o) -> (z < NR_ZONES)%nat -> (o < N)%nat ->
  sumZ (fun p => g p o) (F z m o) <= fsumN N g F.
Proof.
  intros H Hz Ho.
  pose proof (fsum_upd F z m o [] Hz Ho) as Hu. cbn in Hu.
  pose proof (fsum_nonneg (upd3 F z m o []) H). unfold sumZ at 2 in Hu. cbn [foldr] in Hu. lia.
Qed.

(** Two different classes contribute separately. *)
Lemma fsum_two_le F z m o z' m' o' :
  (forall p o, 0 <= g p o) -> (z < NR_ZONES)%nat -> (o < N)%nat ->
  (z' < NR_ZONES)%nat -> (o' < N)%nat -> (z', m', o') <> (z, m, o) ->
  sumZ (fun p => g p o) (F z m o) + sumZ (fun p => g p o') (F z' m' o') <= fsumN N g F.
Proof.
  intros H Hz Ho Hz' Ho' Hne.
  pose proof (fsum_upd F z m o [] Hz Ho) as Hu. unfold sumZ at 2 in Hu. cbn [foldr] in Hu.
  pose proof (fsum_class_le (upd3 F z m o []) z' m' o' H Hz' Ho') as Hc.
  rewrite upd3_ne in Hc by done. lia.
Qed.

End fsums.

Lemma fcov_nonneg F x : 0 <= fcov F x.
Proof. apply fsum_nonneg. intros. apply cov_range. Qed.

Lemma fcov_upd F z m o l x :
  (z < NR_ZONES)%nat -> (o < ORDERS)%nat ->
  fcov (upd3 F z m o l) x =
    fcov F x - sumZ (fun p => cov x p o) (F z m o) + sumZ (fun p => cov x p o) l.
Proof. apply fsum_upd. Qed.

(** ** Intrusive lists *)

(** The nodes of [l] are linked in order, between [prev] and [nxt], with the
    header of a free block of order [o]. *)
Fixpoint dseg (mem : Z -> FreeNode) (o : nat) (prev : Z) (l : list Z) (nxt : Z) : Prop :=
  match l with
  | [] => True
  | p :: l' => mem p = mkNode POISON_MAGIC (Z.of_nat o) (List.hd nxt l') prev /\ dseg mem o p l' nxt
  end.

Section dseg.
Implicit Types (mem : Z -> FreeNode) (l : list Z).

Lemma dseg_frame mem mem' o prev l nxt :
  (forall p, p ∈ l -> mem' p = mem p) -> dseg mem o prev l nxt -> dseg mem' o prev l nxt.
Proof.
  revert prev. induction l as [|p l IH]; intros prev Hf H; [done|]. destruct H as [H1 H2].
  split; [rewrite Hf by left; done|]. apply IH; [|done]. intros q Hq. apply Hf. by right.
Qed.

Lemma last_default (q : Z) l d d' : List.last (q :: l) d = List.last (q :: l) d'.
Proof. revert q. induction l as [|r l IH]; intros q; [done|]. apply (IH r). Qed.

Lemma dseg_app mem o prev l1 l2 nxt :
  dseg mem o prev (l1 ++ l2) nxt <->
  dseg mem o prev l1 (List.hd nxt l2) /\ dseg mem o (List.last l1 prev) l2 nxt.
Proof.
  revert prev. induction l1 as [|p l1 IH]; intros prev; [simpl; tauto|].
  cbn [app dseg]. rewrite IH. destruct l1 as [|q l1]; [simpl; tauto|].
  rewrite (last_default q l1 p prev). cbn [app List.hd List.last]. tauto.
Qed.

Lemma dseg_set_prev mem o prev prev' x l nxt :
  x ∉ l -> dseg mem o prev (x :: l) nxt ->
  dseg (upd mem x (mkNode (n_poison (mem x)) (n_order (mem x)) (n_next (mem x)) prev')) o prev' (x :: l) nxt.
Proof.
  intros Hx [H1 H2]. split; [by rewrite upd_eq, H1|].
  eapply dseg_frame; [|exact H2]. intros p Hp. apply upd_ne. by intros ->.
Qed.

Lemma dseg_set_next mem o prev l x nxt nxt' :
  x ∉ l -> dseg mem o prev (l ++ [x]) nxt ->
  dseg (upd mem x (mkNode (n_poison (mem x)) (n_order (mem x)) nxt' (n_prev (mem x)))) o prev (l ++ [x]) nxt'.
Proof.
  intros Hx H. apply dseg_app in H as [H1 [H2 _]]. apply dseg_app. split.
  - eapply dseg_frame; [|exact H1]. intros p Hp. apply upd_ne. by intros ->.
  - split; [|done]. rewrite upd_eq, H2. done.
Qed.

End dseg.

Lemma NoDup_length_bound (l : list Z) (n : Z) :
  0 <= n -> NoDup l -> (forall x, x ∈ l -> 0 <= x < n) -> Z.of_nat (length l) <= n.
Proof.
  intros Hn Hnd Hl. assert (Hs : l ⊆+ seqZ 0 n).
  { apply NoDup_submseteq; [done|]. intros x Hx. apply elem_of_seqZ. specialize (Hl x Hx). lia. }
  apply submseteq_length in Hs. rewrite length_seqZ in Hs. lia.
Qed.

(** ** Bitmaps *)

(** The bit of block [i] in the bitmap of order [o]. *)
Definition bit (c : Core) (o : nat) (i : Z) : bool :=
  Z.testbit (bitmaps c o (Z.shiftr i 6)) (Z.land i 63).

Definition with_bit (c : Core) (o : nat) (i : Z) (b : bool) : Core :=
  let word := Z.shiftr i 6 in
  let w := bitmaps c o word in
  let w' := if b then Z.lor w (Z.shiftl 1 (Z.land i 63)) else Z.land w (not64 (Z.shiftl 1 (Z.land i 63))) in
  set_bitmaps (updn (bitmaps c) o (upd (bitmaps c o) word w')) c.

Lemma land63 i : Z.land i 63 = i mod 64.
Proof. change 63 with (Z.ones 6). by rewrite Z.land_ones by lia. Qed.

Lemma land63_range i : 0 <= Z.land i 63 < 64.
Proof. rewrite land63. apply Z.mod_pos_bound. lia. Qed.

Lemma shiftr6 i : Z.shiftr i 6 = i / 64.
Proof. by rewrite Z.shiftr_div_pow2 by lia. Qed.

Lemma bit_index_inj i j : Z.shiftr i 6 = Z.shiftr j 6 -> Z.land i 63 = Z.land j 63 -> i = j.
Proof.
  rewrite !shiftr6, !land63. intros H1 H2.
  rewrite (Z.div_mod i 64), (Z.div_mod j 64) by lia. lia.
Qed.

Lemma bit_with_bit c o i b o' i' :
  bit (with_bit c o i b) o' i' = if (o' =? o)%nat && (i' =? i) then b else bit c o' i'.
Proof.
  unfold bit, with_bit, set_bitmaps. cbn [bitmaps].
  destruct (o' =? o)%nat eqn:Eo; to_prop; cbn [andb]; [|by rewrite updn_ne].
  subst o'. rewrite updn_eq.
  destruct (decide (Z.shiftr i' 6 = Z.shiftr i 6)) as [Hw|Hw].
  - rewrite Hw, upd_eq. pose proof (land63_range i) as Hr. pose proof (land63_range i') as Hr'.
    assert (Hbit : (Z.land i' 63 =? Z.land i 63) = (i' =? i)).
    { destruct (i' =? i) eqn:E; to_prop; [subst; apply Z.eqb_refl|].
      apply Z.eqb_neq. intros Hl. apply E. by apply bit_index_inj. }
    destruct b.
    + rewrite Z.lor_spec, testbit_pow2, Hbit by lia. destruct (i' =? i); [by rewrite orb_true_r|by rewrite orb_false_r].
    + rewrite Z.land_spec, testbit_not64, testbit_pow2, Hbit by lia.
      destruct (i' =? i); simpl; [by rewrite andb_false_r|by rewrite andb_true_r].
  - rewrite upd_ne by done. destruct (i' =? i) eqn:E; to_prop; [subst; done|done].
Qed.

(** Index [i] of order [o] names a block that starts inside the managed span. *)
Definition bit_in_range (t : Topology) (o : nat) (i : Z) : Prop :=
  (o < ORDERS)%nat /\ 0 <= i /\ i * pow2 o < pfn_max t.

Lemma check_bitmap_ok t o i c :
  bit_in_range t o i -> Buddy.check_bitmap t o (Z.shiftr i 6) c = Done (tt, c).
Proof.
  intros (Ho & Hi & Hlt). unfold Buddy.check_bitmap, kassert.
  assert (H0 : 0 <= Z.shiftr i 6) by (by apply Z.shiftr_nonneg).
  assert (H1 : Z.shiftr i 6 < Buddy.bitmap_words t o).
  { unfold Buddy.bitmap_words. rewrite shiftr_pow2, !shiftr6. pose proof (pow2_pos o) as Hp.
    assert (i + 1 <= (pfn_max t + pow2 o - 1) / pow2 o) by (apply Z.div_le_lower_bound; lia).
    assert (i / 64 + 1 <= ((pfn_max t + pow2 o - 1) / pow2 o + 63) / 64); [|lia].
    apply Z.div_le_lower_bound; [lia|]. pose proof (Z.mul_div_le i 64 ltac:(lia)). lia. }
  by rewrite (proj2 (Nat.ltb_lt _ _) Ho), (proj2 (Z.leb_le _ _) H0), (proj2 (Z.ltb_lt _ _) H1).
Qed.

Section bitmap_ops.
Context (t : Topology) (o : nat) (i : Z) (c : Core) (Hr : bit_in_range t o i).

Lemma bitmap_get_run : Buddy.bitmap_get t o i c = Done (bit c o i, c).
Proof.
  unfold Buddy.bitmap_get, mbind, M_bind, bind. rewrite check_bitmap_ok by done.
  unfold gets, ret. rewrite bit_read by apply land63_range. done.
Qed.

Lemma bitmap_set_run : Buddy.bitmap_set t o i c = Done (tt, with_bit c o i true).
Proof. unfold Buddy.bitmap_set, mbind, M_bind, bind. by rewrite check_bitmap_ok. Qed.

Lemma bitmap_clear_run : Buddy.bitmap_clear t o i c = Done (tt, with_bit c o i false).
Proof. unfold Buddy.bitmap_clear, mbind, M_bind, bind. by rewrite check_bitmap_ok. Qed.

End bitmap_ops.

(** ** The pageblock map *)

Definition block_of (pfn : Z) : Z := Z.shiftr pfn (Z.of_nat PAGEBLOCK_ORDER).

Definition type_at (c : Core) (block : Z) : MigrateType :=
  MigrateTypes.from_index (Z.to_nat
    (Z.land (Z.shiftr (pageblocks c (block / TYPES_PER_WORD)) (Pageblock.type_shift block)) TYPE_MASK)).

(** The mobility class of a page. *)
Definition mt_of (c : Core) (pfn : Z) : MigrateType := type_at c (block_of pfn).

Definition with_type (c : Core) (block : Z) (mt : MigrateType) : Core :=
  let word := block / TYPES_PER_WORD in
  let shift := Pageblock.type_shift block in
  set_pageblocks (upd (pageblocks c) word
    (Z.lor (Z.land (pageblocks c word) (not64 (Z.shiftl TYPE_MASK shift)))
           (Z.shiftl (Z.of_nat (MigrateTypes.index mt)) shift))) c.

Lemma block_of_div pfn : block_of pfn = pfn / PAGEBLOCK_PAGES.
Proof. unfold block_of. rewrite shiftr_pow2. done. Qed.

Lemma type_shift_range b : 0 <= Pageblock.type_shift b <= 62.
Proof.
  unfold Pageblock.type_shift, TYPES_PER_WORD, TYPE_BITS.
  pose proof (Z.mod_pos_bound b 32 ltac:(lia)). lia.
Qed.

Lemma land3_ext a b :
  Z.testbit a 0 = Z.testbit b 0 -> Z.testbit a 1 = Z.testbit b 1 ->
  Z.land a TYPE_MASK = Z.land b TYPE_MASK.
Proof.
  intros H0 H1. apply Z.bits_inj'. intros n Hn. rewrite !Z.land_spec.
  destruct (decide (n = 0)) as [->|]; [by rewrite H0|].
  destruct (decide (n = 1)) as [->|]; [by rewrite H1|].
  rewrite (Z.bits_above_log2 TYPE_MASK) by (unfold TYPE_MASK; simpl; lia). by rewrite !andb_false_r.
Qed.

Lemma testbit_mask n : Z.testbit TYPE_MASK n = (n =? 0) || (n =? 1).
Proof.
  destruct (decide (n = 0)) as [->|]; [done|]. destruct (decide (n = 1)) as [->|]; [done|].
  rewrite (proj2 (Z.eqb_neq n 0)), (proj2 (Z.eqb_neq n 1)) by done. simpl.
  destruct (decide (n < 0)); [by apply Z.testbit_neg_r|].
  apply Z.bits_above_log2; unfold TYPE_MASK; simpl; lia.
Qed.

Lemma testbit_index_high mt n : 2 <= n -> Z.testbit (Z.of_nat (MigrateTypes.index mt)) n = false.
Proof. intros Hn. destruct mt; apply Z.bits_above_log2; simpl; lia. Qed.

Lemma type_at_with_type c b mt b' :
  type_at (with_type c b mt) b' = if b' =? b then mt else type_at c b'.
Proof.
  unfold type_at, with_type, set_pageblocks. cbn [pageblocks].
  destruct (decide (b' / TYPES_PER_WORD = b / TYPES_PER_WORD)) as [Hw|Hw].
  2:{ rewrite upd_ne by done. destruct (b' =? b) eqn:E; to_prop; [subst; done|done]. }
  rewrite Hw, upd_eq. set (w := pageblocks c _).
  set (s := Pageblock.type_shift b). set (s' := Pageblock.type_shift b').
  assert (Hs : 0 <= s <= 62) by apply type_shift_range.
  assert (Hs' : 0 <= s' <= 62) by apply type_shift_range.
  assert (Hbits : forall n, 0 <= n < 2 ->
    Z.testbit (Z.shiftr (Z.lor (Z.land w (not64 (Z.shiftl TYPE_MASK s)))
                 (Z.shiftl (Z.of_nat (MigrateTypes.index mt)) s)) s') n =
    (Z.testbit w (n + s') && negb (Z.testbit TYPE_MASK (n + s' - s)))
    || Z.testbit (Z.of_nat (MigrateTypes.index mt)) (n + s' - s)).
  { intros n Hn. rewrite Z.shiftr_spec, Z.lor_spec, Z.land_spec by lia.
    rewrite testbit_not64 by lia. by rewrite !Z.shiftl_spec by lia. }
  destruct (b' =? b) eqn:E; to_prop.
  - subst b'. fold s in s'. subst s'.
    erewrite (land3_ext _ (Z.of_nat (MigrateTypes.index mt))).
    + destruct mt; reflexivity.
    + rewrite Hbits by lia. rewrite testbit_mask. replace (0 + s - s) with 0 by lia.
      simpl. rewrite andb_false_r. done.
    + rewrite Hbits by lia. rewrite testbit_mask. replace (1 + s - s) with 1 by lia.
      simpl. rewrite andb_false_r. done.
  - assert (Hne : s' - s <= -2 \/ 2 <= s' - s).
    { unfold s', s, Pageblock.type_shift, TYPE_BITS, TYPES_PER_WORD in *.
      assert (b' mod 32 <> b mod 32); [|lia]. intros Hm. apply E.
      rewrite (Z.div_mod b' 32), (Z.div_mod b 32) by lia. lia. }
    do 2 f_equal. apply land3_ext; rewrite Hbits by lia; rewrite Z.shiftr_spec by lia;
      rewrite testbit_mask, !(proj2 (Z.eqb_neq _ _)) by lia; simpl; rewrite andb_true_r;
      (destruct Hne; [rewrite (Z.testbit_neg_r (Z.of_nat _)) by lia|rewrite testbit_index_high by lia]);
      by rewrite orb_false_r.
Qed.

Lemma mt_of_with_type c b mt pfn :
  mt_of (with_type c b mt) pfn = if block_of pfn =? b then mt else mt_of c pfn.
Proof. apply type_at_with_type. Qed.

Lemma check_word_ok t b c :
  0 <= pfn_max t <= 2 ^ 52 -> 0 <= b -> b * PAGEBLOCK_PAGES < pfn_max t ->
  Pageblock.check_word t (b / TYPES_PER_WORD) c = Done (tt, c).
Proof.
  intros Hmax Hb Hlt. unfold Pageblock.check_word, kassert.
  assert (H0 : 0 <= b / TYPES_PER_WORD) by (apply Z.div_pos; unfold TYPES_PER_WORD; lia).
  assert (H1 : b / TYPES_PER_WORD < Pageblock.words_for (pfn_max t)).
  { unfold Pageblock.words_for. rewrite shiftr_pow2.
    change (pow2 PAGEBLOCK_ORDER) with PAGEBLOCK_PAGES. change PAGEBLOCK_PAGES with 512 in *.
    unfold sat_add at 2. rewrite Z.min_l by (unfold U64_MAX; lia).
    set (n := (pfn_max t + (512 - 1)) / 512).
    assert (b + 1 <= n) by (apply Z.div_le_lower_bound; lia).
    assert (n <= pfn_max t + 512) by (apply Z.div_le_upper_bound; lia).
    unfold sat_add, TYPES_PER_WORD. rewrite Z.min_l by (unfold U64_MAX; lia).
    assert (b / 32 + 1 <= (n + (32 - 1)) / 32); [|lia].
    apply Z.div_le_lower_bound; [lia|]. pose proof (Z.mul_div_le b 32 ltac:(lia)). lia. }
  by rewrite (proj2 (Z.leb_le _ _) H0), (proj2 (Z.ltb_lt _ _) H1).
Qed.

Lemma block_of_range pfn : 0 <= pfn -> 0 <= block_of pfn /\ block_of pfn * PAGEBLOCK_PAGES <= pfn.
Proof.
  intros H. rewrite block_of_div. change PAGEBLOCK_PAGES with 512. split; [apply Z.div_pos; lia|].
  rewrite Z.mul_comm. apply Z.mul_div_le. lia.
Qed.

Lemma migratetype_run t pfn c :
  topo_wf t -> 0 <= pfn < pfn_max t -> Buddy.migratetype t pfn c = Done (mt_of c pfn, c).
Proof.
  intros [Hmax _] Hp. pose proof (block_of_range pfn ltac:(lia)) as [Hb Hle].
  unfold Buddy.migratetype, Pageblock.get, mbind, M_bind, bind. fold (block_of pfn).
  rewrite check_word_ok by lia. done.
Qed.

Lemma set_block_run t b mt c :
  topo_wf t -> 0 <= b -> b * PAGEBLOCK_PAGES < pfn_max t ->
  Pageblock.set_block t b mt c = Done (tt, with_type c b mt).
Proof.
  intros [Hmax _] Hb Hlt. unfold Pageblock.set_block, mbind, M_bind, bind.
  rewrite check_word_ok by lia. done.
Qed.

(** [c'] differs from [c] only in the pageblock map. *)
Definition same_but_types (c c' : Core) : Prop :=
  bitmaps c' = bitmaps c /\ free_heads c' = free_heads c /\ free_count c' = free_count c /\ pages c' = pages c.

Lemma set_blocks_run t first n mt c :
  topo_wf t -> 0 <= first -> (first + Z.of_nat n - 1) * PAGEBLOCK_PAGES < pfn_max t ->
  exists c', Pageblock.set_blocks t first n mt c = Done (tt, c') /\ same_but_types c c' /\
    forall b, type_at c' b = if (first <=? b) && (b <? first + Z.of_nat n) then mt else type_at c b.
Proof.
  intros Ht. revert first c. induction n as [|n IH]; intros first c Hf Hlt.
  - exists c. split_and!; [done|done|]. intros b. destruct (_ && _) eqn:E; [to_prop; lia|done].
  - change PAGEBLOCK_PAGES with 512 in *. cbn [Pageblock.set_blocks]. unfold mbind, M_bind, bind.
    rewrite set_block_run by (done || (change PAGEBLOCK_PAGES with 512; lia)).
    destruct (IH (first + 1) (with_type c first mt)) as (c' & Hrun & Hsame & Hty); [lia|lia|].
    exists c'. rewrite Hrun. split_and!; [done|done|]. intros b. rewrite Hty, type_at_with_type.
    destruct (b =? first) eqn:E1; to_prop.
    + subst b. replace (_ && _) with false by (symmetry; apply andb_false_iff; left; apply Z.leb_gt; lia).
      rewrite (proj2 (Z.leb_le first first)), (proj2 (Z.ltb_lt first (first + Z.of_nat (S n)))) by lia. done.
    + replace ((first + 1 <=? b) && (b <? first + 1 + Z.of_nat n))
        with ((first <=? b) && (b <? first + Z.of_nat (S n))); [done|].
      destruct (first <=? b) eqn:?, (b <? first + Z.of_nat (S n)) eqn:?,
        (first + 1 <=? b) eqn:?, (b <? first + 1 + Z.of_nat n) eqn:?; to_prop; (done || lia).
Qed.

(** Retyping a whole free block of at least pageblock size. *)
Lemma set_range_run t p o mt c :
  topo_wf t -> (PAGEBLOCK_ORDER <= o)%nat -> (pow2 o | p) -> 0 <= p -> p + pow2 o <= pfn_max t ->
  exists c', Pageblock.set_range t p (p + pow2 o) mt c = Done (tt, c') /\ same_but_types c c' /\
    forall x, 0 <= x -> mt_of c' x = if (p <=? x) && (x <? p + pow2 o) then mt else mt_of c x.
Proof.
  intros Ht Ho Hal Hp Hmax. pose proof (pow2_pos o) as Hpos.
  assert (Hd : (512 | pow2 o)) by (change 512 with (pow2 9); by apply pow2_divide).
  destruct (Z.divide_trans _ _ _ Hd Hal) as [q Hq]. destruct Hd as [k Hk].
  unfold Pageblock.set_range. rewrite (proj2 (Z.leb_gt _ _)) by lia.
  unfold sat_sub. rewrite Z.max_l by lia. rewrite !shiftr_pow2. change (pow2 PAGEBLOCK_ORDER) with 512.
  assert (H1 : p / 512 = q) by (rewrite Hq, Z.div_mul; lia).
  assert (H2 : (p + pow2 o - 1) / 512 = q + k - 1).
  { replace (p + pow2 o - 1) with ((q + k - 1) * 512 + 511) by lia.
    rewrite Z.div_add_l by lia. rewrite Z.div_small by lia. lia. }
  rewrite H1, H2. replace (q + k - 1 - q + 1) with k by lia.
  destruct (set_blocks_run t q (Z.to_nat k) mt c) as (c' & Hrun & Hsame & Hty); [done|lia| |].
  { change PAGEBLOCK_PAGES with 512. rewrite Z2Nat.id by lia. lia. }
  exists c'. split_and!; [done|done|]. intros x Hx. unfold mt_of. rewrite Hty, Z2Nat.id by lia.
  rewrite block_of_div. change PAGEBLOCK_PAGES with 512.
  pose proof (Z.div_mod x 512 ltac:(lia)). pose proof (Z.mod_pos_bound x 512 ltac:(lia)).
  replace ((q <=? x / 512) && (x / 512 <? q + k)) with ((p <=? x) && (x <? p + pow2 o)); [done|].
  destruct (p <=? x) eqn:?, (x <? p + pow2 o) eqn:?, (q <=? x / 512) eqn:?, (x / 512 <? q + k) eqn:?;
    to_prop; (done || lia).
Qed.

(** ** The invariant *)

Definition span_of (t : Topology) (z : nat) : ZoneSpan := Layout.span_at (layout t) z.

(** Block [(p, o)] is aligned, lies inside zone [z], and all its pages are of
    mobility class [m]. *)
Record placed (t : Topology) (c : Core) (z : nat) (m : MigrateType) (p : Z) (o : nat) : Prop := {
  pl_zone : (z < NR_ZONES)%nat;
  pl_order : (o < ORDERS)%nat;
  pl_align : (pow2 o | p);
  pl_lo : start_pfn (span_of t z) <= p;
  pl_hi : p + pow2 o <= end_pfn (span_of t z);
  pl_type : forall x, p <= x < p + pow2 o -> mt_of c x = m
}.

Record core_inv (t : Topology) (c : Core) (F : blocks) : Prop := {
  inv_heads : forall z m o, (z < NR_ZONES)%nat -> (o < ORDERS)%nat ->
    free_heads c z m o = List.hd PFN_NULL (F z m o);
  inv_links : forall z m o, (z < NR_ZONES)%nat -> (o < ORDERS)%nat ->
    dseg (pages c) o PFN_NULL (F z m o) PFN_NULL;
  inv_count : forall z m o, (z < NR_ZONES)%nat -> (o < ORDERS)%nat ->
    free_count c z m o = Z.of_nat (length (F z m o));
  inv_bits : forall o i, (o < ORDERS)%nat -> 0 <= i ->
    bit c o i = true <-> exists z m, (z < NR_ZONES)%nat /\ i * pow2 o ∈ F z m o;
  inv_placed : forall z m o p, (z < NR_ZONES)%nat -> (o < ORDERS)%nat ->
    p ∈ F z m o -> placed t c z m p o;
  inv_disjoint : forall x, fcov F x <= 1
}.

Section placed_facts.
Context (t : Topology) (Ht : topo_wf t).

Lemma placed_range c z m p o : placed t c z m p o -> 0 <= p /\ p + pow2 o <= pfn_max t.
Proof.
  intros []. destruct Ht as [_ Hl]. pose proof (span_at_le _ _ z Hl pl_zone0).
  unfold span_of in *. lia.
Qed.

Lemma index_of_span z x :
  (z < NR_ZONES)%nat -> start_pfn (span_of t z) <= x < end_pfn (span_of t z) ->
  Layout.index_of (layout t) x = z.
Proof.
  intros Hz Hx. destruct Ht as [_ Hl]. eapply index_of_unique; [done|done|].
  apply contains_spec. unfold span_of in Hx. lia.
Qed.

Lemma zi_span z x :
  (z < NR_ZONES)%nat -> start_pfn (span_of t z) <= x < end_pfn (span_of t z) -> Buddy.zi t x = z.
Proof.
  intros Hz Hx. unfold Buddy.zi. rewrite (index_of_span z x) by done.
  by rewrite (proj2 (Nat.ltb_lt _ _) Hz).
Qed.

Lemma placed_zi c z m p o : placed t c z m p o -> Buddy.zi t p = z.
Proof. intros []. apply zi_span; [done|]. pose proof (pow2_pos o). lia. Qed.

Lemma placed_mt c z m p o : placed t c z m p o -> mt_of c p = m.
Proof. intros []. apply pl_type0. pose proof (pow2_pos o). lia. Qed.

Lemma placed_null c z m p o : placed t c z m p o -> p <> PFN_NULL.
Proof.
  intros H. apply placed_range in H as [? ?]. destruct Ht as [? _]. pose proof (pow2_pos o).
  unfold PFN_NULL, U64_MAX. lia.
Qed.

Lemma placed_bit c z m p o :
  placed t c z m p o -> bit_in_range t o (Z.shiftr p (Z.of_nat o)) /\ Z.shiftr p (Z.of_nat o) * pow2 o = p.
Proof.
  intros H. pose proof (placed_range _ _ _ _ _ H) as [? ?]. destruct H.
  rewrite shiftr_pow2, div_pow2_exact by done. pose proof (pow2_pos o). split; [|done].
  unfold bit_in_range. rewrite div_pow2_exact by done. split_and!; [done|apply Z.div_pos; lia|lia].
Qed.

Lemma placed_types c c' z m p o :
  (forall x, p <= x < p + pow2 o -> mt_of c' x = mt_of c x) -> placed t c z m p o -> placed t c' z m p o.
Proof. intros Hx []. split; try done. intros x Hr. rewrite Hx by done. auto. Qed.

(** The two halves of a placed block are placed. *)
Lemma placed_split c z m p o :
  placed t c z m p (S o) -> placed t c z m p o /\ placed t c z m (p + pow2 o) o.
Proof.
  intros []. pose proof (pow2_S o) as HS. pose proof (pow2_pos o).
  assert (Hd : (pow2 o | p)) by (etrans; [apply (pow2_divide o (S o)); lia|done]).
  split; split; try done; try lia.
  - intros x Hx. apply pl_type0. lia.
  - apply Z.divide_add_r; [done|reflexivity].
  - intros x Hx. apply pl_type0. lia.
Qed.

(** Two placed buddies of the same class make a placed block. *)
Lemma placed_merge c z m p o :
  (S o < ORDERS)%nat -> (pow2 (S o) | p) ->
  placed t c z m p o -> placed t c z m (p + pow2 o) o -> placed t c z m p (S o).
Proof.
  intros Ho Hal H1 H2. destruct H1, H2. pose proof (pow2_S o) as HS.
  split; try done; try lia. intros x Hx.
  destruct (decide (x < p + pow2 o)); [apply pl_type0; lia|apply pl_type1; lia].
Qed.

End placed_facts.

(** ** Consequences of disjointness *)

Section disjoint.
Context (t : Topology) (c : Core) (F : blocks) (Hinv : core_inv t c F).

Lemma cov_list_le x z m o :
  (z < NR_ZONES)%nat -> (o < ORDERS)%nat -> sumZ (fun p => cov x p o) (F z m o) <= fcov F x.
Proof. intros. apply (fsum_class_le ORDERS (cov x)); [|done|done]. intros. apply cov_range. Qed.

Lemma fcov_zero x z m o p :
  fcov F x = 0 -> (z < NR_ZONES)%nat -> (o < ORDERS)%nat -> p ∈ F z m o -> ~ (p <= x < p + pow2 o).
Proof.
  intros Hx Hz Ho Hp Hr. pose proof (cov_list_le x z m o Hz Ho).
  pose proof (sumZ_elem_le (fun p => cov x p o) (F z m o) p) as Hle. cbn in Hle.
  rewrite cov_in in Hle by done. specialize (Hle ltac:(intros; apply cov_range) Hp). lia.
Qed.

Lemma class_NoDup z m o : (z < NR_ZONES)%nat -> (o < ORDERS)%nat -> NoDup (F z m o).
Proof.
  intros Hz Ho. assert (H : forall x, sumZ (fun p => cov x p o) (F z m o) <= 1).
  { intros x. etrans; [by apply cov_list_le|apply (inv_disjoint _ _ _ Hinv)]. }
  induction (F z m o) as [|p l IH]; [constructor|]. apply NoDup_cons. split.
  - intros Hp. specialize (H p). rewrite sumZ_cons, cov_base in H.
    pose proof (sumZ_elem_le (fun q => cov p q o) l p ltac:(intros; apply cov_range) Hp) as Hle.
    cbn in Hle. rewrite cov_base in Hle. lia.
  - apply IH. intros x. specialize (H x). rewrite sumZ_cons in H. pose proof (cov_range x p o). lia.
Qed.

(** A page lies in at most one free block. *)
Lemma class_unique z m o p z' m' o' p' x :
  (z < NR_ZONES)%nat -> (o < ORDERS)%nat -> (z' < NR_ZONES)%nat -> (o' < ORDERS)%nat ->
  p ∈ F z m o -> p' ∈ F z' m' o' -> p <= x < p + pow2 o -> p' <= x < p' + pow2 o' ->
  (z', m', o') = (z, m, o).
Proof.
  intros Hz Ho Hz' Ho' Hp Hp' Hx Hx'.
  destruct (decide ((z', m', o') = (z, m, o))) as [|Hne]; [done|exfalso].
  pose proof (fsum_two_le ORDERS (cov x) F z m o z' m' o' ltac:(intros; apply cov_range) Hz Ho Hz' Ho' Hne).
  pose proof (sumZ_elem_le (fun p => cov x p o) (F z m o) p ltac:(intros; apply cov_range) Hp) as H1.
  pose proof (sumZ_elem_le (fun p => cov x p o') (F z' m' o') p' ltac:(intros; apply cov_range) Hp') as H2.
  cbn in H1, H2. rewrite cov_in in H1, H2 by done.
  pose proof (inv_disjoint _ _ _ Hinv x). unfold fcov in *. lia.
Qed.

Lemma head_unique z m o p z' m' o' :
  (z < NR_ZONES)%nat -> (o < ORDERS)%nat -> (z' < NR_ZONES)%nat -> (o' < ORDERS)%nat ->
  p ∈ F z m o -> p ∈ F z' m' o' -> (z', m', o') = (z, m, o).
Proof.
  intros Hz Ho Hz' Ho' Hp Hp'. pose proof (pow2_pos o). pose proof (pow2_pos o').
  eapply (class_unique z m o p z' m' o' p p); (done || lia).
Qed.

Lemma class_length_bound z m o :
  topo_wf t -> (z < NR_ZONES)%nat -> (o < ORDERS)%nat -> Z.of_nat (length (F z m o)) <= pfn_max t.
Proof.
  intros Ht Hz Ho. apply NoDup_length_bound; [apply Ht|by apply class_NoDup|].
  intros x Hx. pose proof (inv_placed _ _ _ Hinv z m o x Hz Ho Hx) as Hpl.
  apply placed_range in Hpl; [|done]. pose proof (pow2_pos o). lia.
Qed.

End disjoint.
