(* ===== verification/BuddyOps.v ===== *)
(** * The buddy lists: the primitives on the abstract state

    Each primitive of [crates/kernel/mm-pmm/src/buddy/inner.rs] is evaluated
    on a state that satisfies [core_inv]: pushing a block on its list and
    setting its bit and count is [publish], the inverse is [retract], and both
    keep the invariant. Every assertion of the source ([kassert!], index
    bounds, overflow) is discharged on the way. *)

From S2P Require Import Prelude Zone Buddy BuddyInv.

(** ** The states the primitives reach *)

Definition with_head (c : Core) (z : nat) (m : MigrateType) (o : nat) (v : Z) : Core :=
  set_free_heads (upd3 (free_heads c) z m o v) c.

Definition with_count (c : Core) (z : nat) (m : MigrateType) (o : nat) (n : Z) : Core :=
  set_free_count (upd3 (free_count c) z m o n) c.

Definition with_prev (c : Core) (p v : Z) : Core :=
  set_pages (upd (pages c) p (mkNode (n_poison (pages c p)) (n_order (pages c p)) (n_next (pages c p)) v)) c.

Definition with_next (c : Core) (p v : Z) : Core :=
  set_pages (upd (pages c) p (mkNode (n_poison (pages c p)) (n_order (pages c p)) v (n_prev (pages c p)))) c.

Definition with_node (c : Core) (p : Z) (n : FreeNode) : Core := set_pages (upd (pages c) p n) c.

Definition pushed (c : Core) (z : nat) (m : MigrateType) (o : nat) (p : Z) : Core :=
  let h := free_heads c z m o in
  let c1 := with_node c p (mkNode POISON_MAGIC (Z.of_nat o) h PFN_NULL) in
  let c2 := if negb (h =? PFN_NULL) then with_prev c1 h p else c1 in
  with_head c2 z m o p.

Definition unlinked (c : Core) (z : nat) (m : MigrateType) (o : nat) (p : Z) : Core :=
  let next := n_next (pages c p) in
  let prev := n_prev (pages c p) in
  let c1 := if prev =? PFN_NULL then with_head c z m o next else with_next c prev next in
  if negb (next =? PFN_NULL) then with_prev c1 next prev else c1.

Definition publish (c : Core) (z : nat) (m : MigrateType) (o : nat) (p : Z) : Core :=
  with_count (with_bit (pushed c z m o p) o (Z.shiftr p (Z.of_nat o)) true) z m o (free_count c z m o + 1).

Definition retract (c : Core) (z : nat) (m : MigrateType) (o : nat) (p : Z) : Core :=
  with_count (with_bit (unlinked c z m o p) o (Z.shiftr p (Z.of_nat o)) false) z m o (free_count c z m o - 1).

(** ** Projections *)

Lemma pushed_bitmaps c z m o p : bitmaps (pushed c z m o p) = bitmaps c.
Proof. unfold pushed. by destruct (negb _). Qed.
Lemma pushed_pageblocks c z m o p : pageblocks (pushed c z m o p) = pageblocks c.
Proof. unfold pushed. by destruct (negb _). Qed.
Lemma pushed_count c z m o p : free_count (pushed c z m o p) = free_count c.
Proof. unfold pushed. by destruct (negb _). Qed.
Lemma pushed_heads c z m o p : free_heads (pushed c z m o p) = upd3 (free_heads c) z m o p.
Proof. unfold pushed. by destruct (negb _). Qed.
Lemma pushed_pages c z m o p :
  pages (pushed c z m o p) =
    let h := free_heads c z m o in
    let mem := upd (pages c) p (mkNode POISON_MAGIC (Z.of_nat o) h PFN_NULL) in
    if h =? PFN_NULL then mem
    else upd mem h (mkNode (n_poison (mem h)) (n_order (mem h)) (n_next (mem h)) p).
Proof. unfold pushed. cbn zeta. by destruct (_ =? _). Qed.

Lemma unlinked_bitmaps c z m o p : bitmaps (unlinked c z m o p) = bitmaps c.
Proof. unfold unlinked. cbn zeta. by destruct (n_prev _ =? _), (n_next _ =? _). Qed.
Lemma unlinked_pageblocks c z m o p : pageblocks (unlinked c z m o p) = pageblocks c.
Proof. unfold unlinked. cbn zeta. by destruct (n_prev _ =? _), (n_next _ =? _). Qed.
Lemma unlinked_count c z m o p : free_count (unlinked c z m o p) = free_count c.
Proof. unfold unlinked. cbn zeta. by destruct (n_prev _ =? _), (n_next _ =? _). Qed.
Lemma unlinked_heads c z m o p :
  free_heads (unlinked c z m o p) =
    if n_prev (pages c p) =? PFN_NULL then upd3 (free_heads c) z m o (n_next (pages c p)) else free_heads c.
Proof. unfold unlinked. cbn zeta. by destruct (n_prev _ =? _), (n_next _ =? _). Qed.
Lemma unlinked_pages c z m o p :
  pages (unlinked c z m o p) =
    let next := n_next (pages c p) in
    let prev := n_prev (pages c p) in
    let mem := if prev =? PFN_NULL then pages c else
      upd (pages c) prev (mkNode (n_poison (pages c prev)) (n_order (pages c prev)) next (n_prev (pages c prev))) in
    if next =? PFN_NULL then mem
    else upd mem next (mkNode (n_poison (mem next)) (n_order (mem next)) (n_next (mem next)) prev).
Proof. unfold unlinked. cbn zeta. by destruct (n_prev _ =? _), (n_next _ =? _). Qed.

Lemma mt_of_pageblocks c c' x : pageblocks c' = pageblocks c -> mt_of c' x = mt_of c x.
Proof. intros H. unfold mt_of, type_at. by rewrite H. Qed.

Lemma bit_bitmaps c c' o i : bitmaps c' = bitmaps c -> bit c' o i = bit c o i.
Proof. intros H. unfold bit. by rewrite H. Qed.

Lemma publish_pageblocks c z m o p : pageblocks (publish c z m o p) = pageblocks c.
Proof. apply pushed_pageblocks. Qed.
Lemma publish_pages c z m o p : pages (publish c z m o p) = pages (pushed c z m o p).
Proof. done. Qed.
Lemma retract_pageblocks c z m o p : pageblocks (retract c z m o p) = pageblocks c.
Proof. apply unlinked_pageblocks. Qed.
Lemma retract_pages c z m o p : pages (retract c z m o p) = pages (unlinked c z m o p).
Proof. done. Qed.

(** ** Evaluation of the primitives *)

Lemma check_slot_ok z o c : (z < NR_ZONES)%nat -> (o < ORDERS)%nat -> Buddy.check_slot z o c = Done (tt, c).
Proof.
  intros Hz Ho. unfold Buddy.check_slot, kassert.
  by rewrite (proj2 (Nat.ltb_lt _ _) Hz), (proj2 (Nat.ltb_lt _ _) Ho).
Qed.

Lemma wp_head_get z m o c (Q : Z -> Core -> Prop) :
  (z < NR_ZONES)%nat -> (o < ORDERS)%nat -> Q (free_heads c z m o) c -> wp (Buddy.head_get z m o) Q c.
Proof. intros. unfold Buddy.head_get. wp_step. eapply wp_done; [by apply check_slot_ok|]. by apply wp_gets. Qed.

Lemma wp_head_put z m o v c (Q : unit -> Core -> Prop) :
  (z < NR_ZONES)%nat -> (o < ORDERS)%nat -> Q tt (with_head c z m o v) -> wp (Buddy.head_put z m o v) Q c.
Proof. intros. unfold Buddy.head_put. wp_step. eapply wp_done; [by apply check_slot_ok|]. by apply wp_modify. Qed.

Lemma wp_count_inc z m o c (Q : unit -> Core -> Prop) :
  (z < NR_ZONES)%nat -> (o < ORDERS)%nat -> free_count c z m o + 1 <= U64_MAX ->
  Q tt (with_count c z m o (free_count c z m o + 1)) -> wp (Buddy.count_inc z m o) Q c.
Proof.
  intros. unfold Buddy.count_inc, Buddy.count_get. repeat wp_step.
  eapply wp_done; [by apply check_slot_ok|]. by repeat wp_step.
Qed.

Lemma wp_count_dec z m o c (Q : unit -> Core -> Prop) :
  (z < NR_ZONES)%nat -> (o < ORDERS)%nat -> 1 <= free_count c z m o ->
  Q tt (with_count c z m o (free_count c z m o - 1)) -> wp (Buddy.count_dec z m o) Q c.
Proof.
  intros. unfold Buddy.count_dec, Buddy.count_get. repeat wp_step.
  eapply wp_done; [by apply check_slot_ok|]. by repeat wp_step.
Qed.

(** ** Membership after an update *)

Lemma elem_upd_cons (F : blocks) z m o p z' m' o' q :
  q ∈ upd3 F z m o (p :: F z m o) z' m' o' <->
  ((z', m', o') = (z, m, o) /\ q = p) \/ q ∈ F z' m' o'.
Proof.
  destruct (class_dec (z', m', o') (z, m, o)) as [Heq|Hne].
  - simplify_eq. rewrite upd3_eq, elem_of_cons. tauto.
  - rewrite upd3_ne by done. tauto.
Qed.

Lemma elem_upd_del (F : blocks) z m o l1 p l2 z' m' o' q :
  F z m o = l1 ++ p :: l2 -> NoDup (F z m o) ->
  q ∈ upd3 F z m o (l1 ++ l2) z' m' o' <->
  q ∈ F z' m' o' /\ ~ ((z', m', o') = (z, m, o) /\ q = p).
Proof.
  intros HF Hnd. destruct (class_dec (z', m', o') (z, m, o)) as [Heq|Hne].
  - simplify_eq. rewrite upd3_eq, HF in *. apply NoDup_app in Hnd as (_ & H1 & H2).
    apply NoDup_cons in H2 as [H2 _]. rewrite !elem_of_app, elem_of_cons.
    assert (p ∉ l1) by (intros Hp; apply (H1 p Hp); left).
    split; [intros [Hq|Hq]; (split; [tauto|]; intros [_ ->]; tauto)|].
    intros [[Hq|[->|Hq]] Hn]; [tauto|by destruct Hn|tauto].
  - rewrite upd3_ne by done. tauto.
Qed.

Lemma fcov_cons F z m o p x :
  (z < NR_ZONES)%nat -> (o < ORDERS)%nat ->
  fcov (upd3 F z m o (p :: F z m o)) x = fcov F x + cov x p o.
Proof. intros. rewrite fcov_upd, sumZ_cons by done. lia. Qed.

Lemma fcov_del F z m o l1 p l2 x :
  (z < NR_ZONES)%nat -> (o < ORDERS)%nat -> F z m o = l1 ++ p :: l2 ->
  fcov (upd3 F z m o (l1 ++ l2)) x = fcov F x - cov x p o.
Proof. intros ? ? HF. rewrite fcov_upd, HF, !sumZ_app, sumZ_cons by done. lia. Qed.

Lemma fcov_tl F z m o p l x :
  (z < NR_ZONES)%nat -> (o < ORDERS)%nat -> F z m o = p :: l ->
  fcov (upd3 F z m o l) x = fcov F x - cov x p o.
Proof. apply (fcov_del F z m o []). Qed.

(** ** The list neighbours of a free block *)

Section neighbours.
Context (t : Topology) (Ht : topo_wf t) (c : Core) (F : blocks) (Hinv : core_inv t c F).
Context (z : nat) (m : MigrateType) (o : nat) (Hz : (z < NR_ZONES)%nat) (Ho : (o < ORDERS)%nat).

Lemma node_at l1 p l2 :
  F z m o = l1 ++ p :: l2 ->
  pages c p = mkNode POISON_MAGIC (Z.of_nat o) (List.hd PFN_NULL l2) (List.last l1 PFN_NULL).
Proof.
  intros HF. pose proof (inv_links _ _ _ Hinv z m o Hz Ho) as Hd. rewrite HF in Hd.
  by apply dseg_app in Hd as [_ [Hp _]].
Qed.

Lemma elem_not_null q : q ∈ F z m o -> q <> PFN_NULL.
Proof. intros Hq. eapply placed_null; [done|]. by eapply inv_placed. Qed.

(** Every page of a listed block is covered once. *)
Lemma block_cov q x : q ∈ F z m o -> q <= x < q + pow2 o -> fcov F x = 1.
Proof.
  intros Hq Hx. pose proof (inv_disjoint _ _ _ Hinv x). pose proof (fcov_nonneg F x).
  destruct (decide (fcov F x = 0)) as [Hc|]; [|lia]. by destruct (fcov_zero F x z m o q Hc Hz Ho Hq).
Qed.

Lemma elem_cov q : q ∈ F z m o -> fcov F q = 1.
Proof. intros Hq. apply (block_cov q); [done|]. pose proof (pow2_pos o). lia. Qed.

Lemma hd_cases l1 p l2 : F z m o = l1 ++ p :: l2 ->
  (l2 = [] /\ List.hd PFN_NULL l2 = PFN_NULL) \/ (List.hd PFN_NULL l2 ∈ l2 /\ List.hd PFN_NULL l2 <> PFN_NULL).
Proof.
  intros HF. destruct l2 as [|q l2]; [by left|right]. split; [left|].
  apply elem_not_null. rewrite HF. set_solver.
Qed.

Lemma last_snoc (l : list Z) (q d : Z) : List.last (l ++ [q]) d = q.
Proof. apply List.last_last. Qed.

Lemma last_cases l1 p l2 : F z m o = l1 ++ p :: l2 ->
  (l1 = [] /\ List.last l1 PFN_NULL = PFN_NULL) \/
  (exists l1', l1 = l1' ++ [List.last l1 PFN_NULL]) /\ List.last l1 PFN_NULL <> PFN_NULL.
Proof.
  intros HF. destruct l1 as [|q l1 _] using rev_ind; [by left|right]. rewrite last_snoc.
  split; [by exists l1|]. apply elem_not_null. rewrite HF. set_solver.
Qed.

(** A listed block passes the class and range checks of the list surgery. *)
Lemma elem_class q : q ∈ F z m o -> Buddy.zi t q = z /\ mt_of c q = m /\ 0 <= q < pfn_max t.
Proof.
  intros Hq. pose proof (inv_placed _ _ _ Hinv z m o q Hz Ho Hq) as Hpl.
  pose proof (placed_range _ Ht _ _ _ _ _ Hpl). pose proof (pow2_pos o).
  split_and!; [by eapply placed_zi|by eapply placed_mt|lia|lia].
Qed.

End neighbours.

(** ** Publishing a block *)

Section publish.
Context (t : Topology) (Ht : topo_wf t) (c : Core) (F : blocks) (Hinv : core_inv t c F).
Context (z : nat) (m : MigrateType) (o : nat) (p : Z) (Hpl : placed t c z m p o).
Context (Hfree : forall x, p <= x < p + pow2 o -> fcov F x = 0).

Let Hz : (z < NR_ZONES)%nat := pl_zone _ _ _ _ _ _ Hpl.
Let Ho : (o < ORDERS)%nat := pl_order _ _ _ _ _ _ Hpl.

Lemma fresh_not_listed z' m' o' : (z' < NR_ZONES)%nat -> (o' < ORDERS)%nat -> p ∉ F z' m' o'.
Proof.
  intros Hz' Ho' Hp. pose proof (pow2_pos o). pose proof (pow2_pos o').
  eapply (fcov_zero F p z' m' o' p); [apply Hfree; lia|done|done|done|lia].
Qed.

Lemma head_cases :
  (F z m o = [] /\ free_heads c z m o = PFN_NULL) \/
  (exists h l, F z m o = h :: l /\ free_heads c z m o = h /\ h <> PFN_NULL /\ h <> p).
Proof.
  rewrite (inv_heads _ _ _ Hinv) by done.
  destruct (F z m o) as [|h l] eqn:E; [by left|right]. exists h, l. split_and!; [done|done| |].
  - eapply (elem_not_null t Ht c F Hinv z m o Hz Ho). rewrite E. left.
  - intros ->. eapply (fresh_not_listed z m o Hz Ho). rewrite E. left.
Qed.

Lemma pushed_pages_ne q : q <> p -> (forall l, F z m o <> q :: l) -> pages (pushed c z m o p) q = pages c q.
Proof.
  intros Hq Hh. rewrite pushed_pages. cbn zeta.
  destruct head_cases as [[_ ->]|(h & l & HF & -> & Hn & Hp)].
  - rewrite Z.eqb_refl. by apply upd_ne.
  - rewrite (proj2 (Z.eqb_neq _ _) Hn). rewrite upd_ne by (intros ->; by eapply Hh). by apply upd_ne.
Qed.

Lemma pushed_links : dseg (pages (pushed c z m o p)) o PFN_NULL (p :: F z m o) PFN_NULL.
Proof.
  pose proof (inv_links _ _ _ Hinv z m o Hz Ho) as Hd.
  pose proof (class_NoDup _ _ _ Hinv z m o Hz Ho) as Hnd.
  rewrite pushed_pages. cbn zeta. destruct head_cases as [[HF ->]|(h & l & HF & -> & Hn & Hp)].
  - rewrite HF, Z.eqb_refl. split; [by rewrite upd_eq|done].
  - rewrite (proj2 (Z.eqb_neq _ _) Hn). rewrite HF in *. apply NoDup_cons in Hnd as [Hh Hnd]. split.
    + by rewrite upd_ne, upd_eq by congruence.
    + apply (dseg_set_prev _ o PFN_NULL); [done|]. eapply dseg_frame; [|exact Hd].
      intros q Hq. apply upd_ne. intros ->. eapply (fresh_not_listed z m o Hz Ho). by rewrite HF.
Qed.

Lemma publish_placed z' m' o' q : placed t c z' m' q o' -> placed t (publish c z m o p) z' m' q o'.
Proof. apply placed_types. intros x _. apply mt_of_pageblocks, publish_pageblocks. Qed.

Lemma publish_inv : core_inv t (publish c z m o p) (upd3 F z m o (p :: F z m o)).
Proof.
  split.
  - intros z' m' o' Hz' Ho'. change (free_heads (publish c z m o p)) with (free_heads (pushed c z m o p)).
    rewrite pushed_heads. destruct (class_dec (z', m', o') (z, m, o)) as [Heq|Hne].
    + simplify_eq. by rewrite !upd3_eq.
    + rewrite !upd3_ne by done. by apply (inv_heads _ _ _ Hinv).
  - intros z' m' o' Hz' Ho'. rewrite publish_pages. destruct (class_dec (z', m', o') (z, m, o)) as [Heq|Hne].
    + simplify_eq. rewrite upd3_eq. apply pushed_links.
    + rewrite upd3_ne by done. eapply dseg_frame; [|by apply (inv_links _ _ _ Hinv)].
      intros q Hq. apply pushed_pages_ne; [intros ->; by eapply fresh_not_listed|].
      intros l HF. apply Hne. eapply (head_unique t c F Hinv z m o q); try done. rewrite HF. left.
  - intros z' m' o' Hz' Ho'. unfold publish, with_count. cbn [free_count set_free_count].
    change (free_count (with_bit (pushed c z m o p) o (Z.shiftr p (Z.of_nat o)) true))
      with (free_count (pushed c z m o p)). rewrite pushed_count.
    destruct (class_dec (z', m', o') (z, m, o)) as [Heq|Hne].
    + simplify_eq. rewrite !upd3_eq, (inv_count _ _ _ Hinv) by done. cbn [length]. lia.
    + rewrite !upd3_ne by done. by apply (inv_count _ _ _ Hinv).
  - intros o' i Ho' Hi. change (bit (publish c z m o p) o' i)
      with (bit (with_bit (pushed c z m o p) o (Z.shiftr p (Z.of_nat o)) true) o' i).
    rewrite bit_with_bit, (bit_bitmaps _ _ _ _ (pushed_bitmaps c z m o p)).
    destruct (placed_bit _ Ht _ _ _ _ _ Hpl) as [_ Hp]. destruct (_ && _) eqn:E.
    + to_prop. subst. split; [|done]. intros _. exists z, m. split; [done|].
      apply elem_upd_cons. left. by rewrite Hp.
    + rewrite (inv_bits _ _ _ Hinv) by done. setoid_rewrite elem_upd_cons.
      split; [intros (z' & m' & ? & ?); eauto|].
      intros (z' & m' & Hz' & [[Heq Hq]|Hq]); [|eauto]. injection Heq as -> -> ->. exfalso.
      rewrite Nat.eqb_refl in E. cbn [andb] in E. to_prop. apply E.
      rewrite shiftr_pow2, <- Hq, Z.div_mul; [done|]. pose proof (pow2_pos o). lia.
  - intros z' m' o' q Hz' Ho' Hq. apply elem_upd_cons in Hq as [[Heq ->]|Hq].
    + simplify_eq. by apply publish_placed.
    + apply publish_placed. by apply (inv_placed _ _ _ Hinv).
  - intros x. rewrite fcov_cons by done. destruct (decide (p <= x < p + pow2 o)) as [Hx|Hx].
    + rewrite Hfree by done. pose proof (cov_range x p o). lia.
    + rewrite cov_out by done. pose proof (inv_disjoint _ _ _ Hinv x). lia.
Qed.

(** Publishing writes to no page outside the free blocks but the block's own. *)
Lemma publish_frame q : fcov F q = 0 -> q <> p -> pages (publish c z m o p) q = pages c q.
Proof.
  intros Hq Hne. rewrite publish_pages. apply pushed_pages_ne; [done|].
  intros l HF. pose proof (elem_cov t c F Hinv z m o Hz Ho q) as H. rewrite HF in H.
  specialize (H ltac:(left)). lia.
Qed.

Lemma publish_run (Q : unit -> Core -> Prop) :
  Q tt (publish c z m o p) ->
  wp (Buddy.push_free t p o m ;; Buddy.bitmap_set t o (Z.shiftr p (Z.of_nat o)) ;; Buddy.count_inc z m o) Q c.
Proof.
  intros HQ. unfold Buddy.push_free. rewrite (placed_zi t Ht _ _ _ _ _ Hpl).
  pose proof (placed_range t Ht _ _ _ _ _ Hpl) as Hr. pose proof (pow2_pos o).
  repeat wp_step. eapply wp_done; [apply migratetype_run; [done|lia]|].
  rewrite (placed_mt _ _ _ _ _ _ Hpl). wp_step. wp_step; [apply MigrateTypes.eqb_refl|].
  wp_step. apply wp_head_get; [done|done|]. wp_step. unfold Buddy.stamp_block, write_node. repeat wp_step.
  assert (Hpush : wp (if negb (free_heads c z m o =? PFN_NULL) then write_prev (free_heads c z m o) p else ret tt)
    (fun _ s => with_head s z m o p = pushed c z m o p)
    (with_node c p (mkNode POISON_MAGIC (Z.of_nat o) (free_heads c z m o) PFN_NULL))).
  { unfold pushed. cbn zeta. by destruct (negb _). }
  eapply wp_mono; [exact Hpush|]. intros [] s Hs. apply wp_head_put; [done|done|]. rewrite Hs.
  wp_step. eapply wp_done; [apply bitmap_set_run; by eapply placed_bit|].
  apply wp_count_inc; [done|done| |];
    change (free_count (with_bit (pushed c z m o p) o (Z.shiftr p (Z.of_nat o)) true))
      with (free_count (pushed c z m o p)); rewrite pushed_count; [|done].
  rewrite (inv_count _ _ _ Hinv) by done. pose proof (class_length_bound t c F Hinv z m o Ht Hz Ho).
  destruct Ht as [? _]. unfold U64_MAX. lia.
Qed.

End publish.

(** ** Retracting a block *)

Section retract.
Context (t : Topology) (Ht : topo_wf t) (c : Core) (F : blocks) (Hinv : core_inv t c F).
Context (z : nat) (m : MigrateType) (o : nat) (Hz : (z < NR_ZONES)%nat) (Ho : (o < ORDERS)%nat).
Context (l1 : list Z) (p : Z) (l2 : list Z) (HF : F z m o = l1 ++ p :: l2).

Lemma retract_NoDup : NoDup l1 /\ NoDup l2 /\ (p ∉ l1) /\ (p ∉ l2) /\ (forall q, q ∈ l1 -> q ∉ l2).
Proof.
  pose proof (class_NoDup _ _ _ Hinv z m o Hz Ho) as Hnd. rewrite HF in Hnd.
  apply NoDup_app in Hnd as (? & H1 & H2). apply NoDup_cons in H2 as [? ?].
  split_and!; try done; [intros Hp; apply (H1 p Hp); left|].
  intros q Hq Hq2. apply (H1 q Hq). by right.
Qed.

Lemma retract_elem : p ∈ F z m o.
Proof. rewrite HF. apply elem_mid. Qed.

Lemma unlinked_pages_ne q : q ∉ l1 -> q ∉ l2 -> pages (unlinked c z m o p) q = pages c q.
Proof.
  intros Hq1 Hq2. rewrite unlinked_pages. cbn zeta.
  rewrite (node_at t c F Hinv z m o Hz Ho l1 p l2 HF). cbn [n_next n_prev].
  destruct (last_cases t Ht c F Hinv z m o Hz Ho l1 p l2 HF) as [[_ ->]|[[l1' Hl] Hn]].
  - rewrite Z.eqb_refl. destruct (hd_cases t Ht c F Hinv z m o Hz Ho l1 p l2 HF) as [[_ ->]|[Hh Hn']].
    + by rewrite Z.eqb_refl.
    + rewrite (proj2 (Z.eqb_neq _ _) Hn'). apply upd_ne. congruence.
  - rewrite (proj2 (Z.eqb_neq _ _) Hn).
    assert (Hne : q <> List.last l1 PFN_NULL) by (intros ->; apply Hq1; rewrite Hl at 2; set_solver).
    destruct (hd_cases t Ht c F Hinv z m o Hz Ho l1 p l2 HF) as [[_ ->]|[Hh Hn']].
    + rewrite Z.eqb_refl. by apply upd_ne.
    + rewrite (proj2 (Z.eqb_neq _ _) Hn'). rewrite upd_ne by congruence. by apply upd_ne.
Qed.

Lemma unlinked_links : dseg (pages (unlinked c z m o p)) o PFN_NULL (l1 ++ l2) PFN_NULL.
Proof.
  destruct retract_NoDup as (Hnd1 & Hnd2 & Hp1 & Hp2 & Hdis).
  pose proof (inv_links _ _ _ Hinv z m o Hz Ho) as Hd. rewrite HF in Hd.
  apply dseg_app in Hd as [Hd1 [Hp Hd2]]. cbn [List.hd] in Hd1.
  rewrite unlinked_pages. cbn zeta. rewrite Hp. cbn [n_next n_prev].
  set (mem1 := if List.last l1 PFN_NULL =? PFN_NULL then pages c else _).
  assert (Hm1 : dseg mem1 o PFN_NULL l1 (List.hd PFN_NULL l2) /\ dseg mem1 o p l2 PFN_NULL).
  { unfold mem1. destruct (last_cases t Ht c F Hinv z m o Hz Ho l1 p l2 HF) as [[-> ->]|[[l1' Hl] Hn]];
      [by rewrite Z.eqb_refl|].
    rewrite (proj2 (Z.eqb_neq _ _) Hn). set (q := List.last l1 PFN_NULL) in *. split.
    - rewrite Hl in Hd1 |- *. rewrite Hl in Hnd1. apply NoDup_app in Hnd1 as (_ & Hq & _).
      eapply dseg_set_next; [|exact Hd1]. intros Hin. apply (Hq q Hin). left.
    - eapply dseg_frame; [|exact Hd2]. intros r Hr. apply upd_ne. intros ->.
      apply (Hdis q); [rewrite Hl; set_solver|done]. }
  destruct Hm1 as [Hs1 Hs2]. apply dseg_app.
  destruct (hd_cases t Ht c F Hinv z m o Hz Ho l1 p l2 HF) as [[-> Hh]|[Hh Hn]].
  - rewrite Hh, Z.eqb_refl. by rewrite Hh in Hs1.
  - rewrite (proj2 (Z.eqb_neq _ _) Hn). destruct l2 as [|r l2']; [by apply not_elem_of_nil in Hh|].
    cbn [List.hd] in *. split.
    + eapply dseg_frame; [|exact Hs1]. intros q Hq. apply upd_ne. intros ->. apply (Hdis r Hq). left.
    + apply NoDup_cons in Hnd2 as [? _]. by apply (dseg_set_prev _ o p).
Qed.

Lemma unlinked_head : free_heads (unlinked c z m o p) z m o = List.hd PFN_NULL (l1 ++ l2).
Proof.
  rewrite unlinked_heads, (node_at t c F Hinv z m o Hz Ho l1 p l2 HF). cbn [n_next n_prev].
  destruct (last_cases t Ht c F Hinv z m o Hz Ho l1 p l2 HF) as [[-> ->]|[[l1' Hl] Hn]].
  - by rewrite Z.eqb_refl, upd3_eq.
  - rewrite (proj2 (Z.eqb_neq _ _) Hn), (inv_heads _ _ _ Hinv), HF by done.
    destruct l1; [by destruct l1'|done].
Qed.

Lemma retract_placed z' m' o' q : placed t c z' m' q o' -> placed t (retract c z m o p) z' m' q o'.
Proof. apply placed_types. intros x _. apply mt_of_pageblocks, retract_pageblocks. Qed.

Lemma retract_inv : core_inv t (retract c z m o p) (upd3 F z m o (l1 ++ l2)).
Proof.
  pose proof (class_NoDup _ _ _ Hinv z m o Hz Ho) as Hnd.
  split.
  - intros z' m' o' Hz' Ho'. change (free_heads (retract c z m o p)) with (free_heads (unlinked c z m o p)).
    destruct (class_dec (z', m', o') (z, m, o)) as [Heq|Hne].
    + simplify_eq. rewrite upd3_eq. apply unlinked_head.
    + rewrite unlinked_heads. rewrite (upd3_ne F) by done. rewrite <- (inv_heads _ _ _ Hinv) by done.
      destruct (_ =? _); [by rewrite upd3_ne|done].
  - intros z' m' o' Hz' Ho'. rewrite retract_pages. destruct (class_dec (z', m', o') (z, m, o)) as [Heq|Hne].
    + simplify_eq. rewrite upd3_eq. apply unlinked_links.
    + rewrite upd3_ne by done. eapply dseg_frame; [|by apply (inv_links _ _ _ Hinv)].
      intros q Hq. apply unlinked_pages_ne; intros Hin; apply Hne;
        (eapply (head_unique t c F Hinv z m o q); try done; rewrite HF; set_solver).
  - intros z' m' o' Hz' Ho'. unfold retract, with_count. cbn [free_count set_free_count].
    change (free_count (with_bit (unlinked c z m o p) o (Z.shiftr p (Z.of_nat o)) false))
      with (free_count (unlinked c z m o p)). rewrite unlinked_count.
    destruct (class_dec (z', m', o') (z, m, o)) as [Heq|Hne].
    + simplify_eq. rewrite !upd3_eq, (inv_count _ _ _ Hinv), HF, !length_app by done. cbn [length]. lia.
    + rewrite !upd3_ne by done. by apply (inv_count _ _ _ Hinv).
  - intros o' i Ho' Hi. change (bit (retract c z m o p) o' i)
      with (bit (with_bit (unlinked c z m o p) o (Z.shiftr p (Z.of_nat o)) false) o' i).
    rewrite bit_with_bit, (bit_bitmaps _ _ _ _ (unlinked_bitmaps c z m o p)).
    pose proof (inv_placed _ _ _ Hinv z m o p Hz Ho retract_elem) as Hpl.
    destruct (placed_bit _ Ht _ _ _ _ _ Hpl) as [_ Hp].
    setoid_rewrite (elem_upd_del F z m o l1 p l2 _ _ _ _ HF Hnd). destruct (_ && _) eqn:E.
    + to_prop. subst. rewrite Hp. split; [done|]. intros (z' & m' & Hz' & Hin & Hn). exfalso. apply Hn.
      split; [|done]. apply (head_unique t c F Hinv z m o p); try done. apply retract_elem.
    + rewrite (inv_bits _ _ _ Hinv) by done. split; [|intros (z' & m' & ? & ? & _); eauto].
      intros (z' & m' & Hz' & Hin). exists z', m'. split_and!; [done|done|]. intros [Heq Hq].
      injection Heq as -> -> ->. rewrite Nat.eqb_refl in E. cbn [andb] in E. to_prop. apply E.
      rewrite shiftr_pow2, <- Hq, Z.div_mul; [done|]. pose proof (pow2_pos o). lia.
  - intros z' m' o' q Hz' Ho' Hq. apply (elem_upd_del F z m o l1 p l2 _ _ _ _ HF Hnd) in Hq as [Hq _].
    apply retract_placed. by apply (inv_placed _ _ _ Hinv).
  - intros x. rewrite (fcov_del F z m o l1 p l2) by done.
    pose proof (cov_range x p o). pose proof (inv_disjoint _ _ _ Hinv x). lia.
Qed.

(** The pages of a retracted block are no longer covered, and no header
    outside the other free blocks changes. *)
Lemma retract_uncovered x : p <= x < p + pow2 o -> fcov (upd3 F z m o (l1 ++ l2)) x = 0.
Proof.
  intros Hx. rewrite (fcov_del F z m o l1 p l2), cov_in by done.
  pose proof (inv_disjoint _ _ _ Hinv x). pose proof (cov_list_le F x z m o Hz Ho).
  pose proof (sumZ_elem_le (fun p => cov x p o) (F z m o) p ltac:(intros; apply cov_range) retract_elem) as Hle.
  cbn in Hle. rewrite cov_in in Hle by done. lia.
Qed.

Lemma retract_frame q : q = p \/ fcov F q = 0 -> pages (retract c z m o p) q = pages c q.
Proof.
  destruct retract_NoDup as (_ & _ & Hp1 & Hp2 & _).
  intros [->|Hq]; rewrite retract_pages; apply unlinked_pages_ne; try done; intros Hin;
    (assert (H : q ∈ F z m o) by (rewrite HF; set_solver));
    apply (elem_cov t c F Hinv z m o Hz Ho) in H; lia.
Qed.

Lemma retract_count_pos : 1 <= free_count c z m o.
Proof. rewrite (inv_count _ _ _ Hinv), HF, length_app by done. cbn [length]. lia. Qed.

(** Clearing the bit and decrementing the count after the unlink. *)
Lemma retract_tail {A} (k : M Core A) (Q : A -> Core -> Prop) :
  wp k Q (retract c z m o p) ->
  wp (Buddy.bitmap_clear t o (Z.shiftr p (Z.of_nat o)) ;; Buddy.count_dec z m o ;; k) Q (unlinked c z m o p).
Proof.
  intros Hk. wp_step. eapply wp_done; [apply bitmap_clear_run; eapply placed_bit;
    [done|apply (inv_placed _ _ _ Hinv z m o p Hz Ho retract_elem)]|].
  wp_step. apply wp_count_dec; [done|done| |];
    change (free_count (with_bit (unlinked c z m o p) o (Z.shiftr p (Z.of_nat o)) false))
      with (free_count (unlinked c z m o p)); rewrite unlinked_count; [apply retract_count_pos|done].
Qed.

End retract.

(** The range check of the list surgery. *)
Lemma range_check t q : q = PFN_NULL \/ 0 <= q < pfn_max t -> (q =? PFN_NULL) || (q <? pfn_max t) = true.
Proof.
  intros [->|Hq]; [by rewrite Z.eqb_refl|]. rewrite (proj2 (Z.ltb_lt q _)) by lia. apply orb_true_r.
Qed.

(** ** The list surgery of the source reaches [unlinked] *)

Section surgery.
Context (t : Topology) (Ht : topo_wf t) (c : Core) (F : blocks) (Hinv : core_inv t c F).
Context (z : nat) (m : MigrateType) (o : nat) (Hz : (z < NR_ZONES)%nat) (Ho : (o < ORDERS)%nat).

Lemma wp_migratetype q s (Q : MigrateType -> Core -> Prop) :
  0 <= q < pfn_max t -> Q (mt_of s q) s -> wp (Buddy.migratetype t q) Q s.
Proof. intros Hq HQ. eapply wp_done; [by apply migratetype_run|done]. Qed.

Lemma wp_same_class q s (Q : bool -> Core -> Prop) :
  q ∈ F z m o -> pageblocks s = pageblocks c -> Q true s -> wp (Buddy.same_class t q z m) Q s.
Proof.
  intros Hq Hs HQ. destruct (elem_class t Ht c F Hinv z m o Hz Ho q Hq) as (Hzi & Hmt & Hr).
  unfold Buddy.same_class. rewrite Hzi, Nat.eqb_refl. wp_step. apply wp_migratetype; [done|].
  rewrite (mt_of_pageblocks c s) by done. rewrite Hmt, MigrateTypes.eqb_refl. by wp_step.
Qed.

Lemma unlink_run l1 p l2 (Q : unit -> Core -> Prop) :
  F z m o = l1 ++ p :: l2 -> Q tt (unlinked c z m o p) -> wp (Buddy.unlink_free t p o m) Q c.
Proof.
  intros HF HQ. pose proof (node_at t c F Hinv z m o Hz Ho l1 p l2 HF) as Hnode.
  pose proof (last_cases t Ht c F Hinv z m o Hz Ho l1 p l2 HF) as Hlast.
  pose proof (hd_cases t Ht c F Hinv z m o Hz Ho l1 p l2 HF) as Hhd.
  assert (Hin : forall q, q ∈ l1 \/ q = p \/ q ∈ l2 -> q ∈ F z m o) by (intros q; rewrite HF, elem_of_app, elem_of_cons; tauto).
  assert (Hl : List.last l1 PFN_NULL <> PFN_NULL -> List.last l1 PFN_NULL ∈ F z m o).
  { intros Hn. destruct Hlast as [[_ ?]|[[l1' E] _]]; [done|]. apply Hin. left. rewrite E at 2.
    apply elem_of_app. right. left. }
  assert (Hh : List.hd PFN_NULL l2 <> PFN_NULL -> List.hd PFN_NULL l2 ∈ F z m o).
  { intros Hn. destruct Hhd as [[_ ?]|[? _]]; [done|]. apply Hin. by right; right. }
  assert (Hcls : forall q, q ∈ F z m o -> 0 <= q < pfn_max t).
  { intros q Hq. by apply (elem_class t Ht c F Hinv z m o Hz Ho q Hq). }
  destruct (elem_class t Ht c F Hinv z m o Hz Ho p) as (Hzi & Hmt & Hr); [apply Hin; tauto|].
  unfold Buddy.unlink_free. rewrite Hzi. wp_step. apply wp_migratetype; [done|]. rewrite Hmt.
  wp_step. wp_step; [apply MigrateTypes.eqb_refl|]. unfold read_node. repeat wp_step.
  - apply range_check. rewrite Hnode. cbn [n_next]. destruct (decide (List.hd PFN_NULL l2 = PFN_NULL)); auto.
  - apply range_check. rewrite Hnode. cbn [n_prev]. destruct (decide (List.last l1 PFN_NULL = PFN_NULL)); auto.
  - revert HQ. unfold unlinked. cbn zeta. rewrite Hnode. cbn [n_next n_prev]. intros HQ.
    eapply (wp_mono _ (fun _ s => s = if List.last l1 PFN_NULL =? PFN_NULL
      then with_head c z m o (List.hd PFN_NULL l2) else with_next c (List.last l1 PFN_NULL) (List.hd PFN_NULL l2))).
    + bool_case (List.last l1 PFN_NULL =? PFN_NULL).
      * wp_step. apply wp_head_get; [done|done|]. wp_step. wp_step.
        -- apply Z.eqb_eq. rewrite (inv_heads _ _ _ Hinv), HF by done.
           destruct Hlast as [[-> _]|[_ ?]]; done.
        -- by apply wp_head_put.
      * wp_step. apply wp_same_class; [by apply Hl|done|]. wp_step. wp_step; [done|]. by apply wp_modify.
    + intros [] s ->. bool_case (List.hd PFN_NULL l2 =? PFN_NULL); cbn [negb] in *; [by wp_step|].
      wp_step. apply wp_same_class; [by apply Hh|by destruct (_ =? _)|]. wp_step. wp_step; [done|].
      by apply wp_modify.
Qed.

Lemma pop_run p l (Q : Z -> Core -> Prop) :
  F z m o = p :: l -> Q p (unlinked c z m o p) -> wp (Buddy.pop_free t z o m) Q c.
Proof.
  intros HF HQ. pose proof (node_at t c F Hinv z m o Hz Ho [] p l HF) as Hnode.
  pose proof (hd_cases t Ht c F Hinv z m o Hz Ho [] p l HF) as Hhd.
  assert (Hin : forall q, q ∈ l -> q ∈ F z m o) by (intros; rewrite HF; by right).
  pose proof (class_NoDup _ _ _ Hinv z m o Hz Ho) as Hnd. rewrite HF in Hnd. apply NoDup_cons in Hnd as [Hp _].
  unfold Buddy.pop_free. wp_step. apply wp_head_get; [done|done|].
  rewrite (inv_heads _ _ _ Hinv), HF by done. cbn [List.hd].
  assert (Hnp : p <> PFN_NULL) by (apply (elem_not_null t Ht c F Hinv z m o Hz Ho); rewrite HF; left).
  wp_step. wp_step; [by rewrite (proj2 (Z.eqb_neq _ _) Hnp)|]. unfold read_node. wp_step. wp_step.
  revert HQ. unfold unlinked. cbn zeta. rewrite Hnode. cbn [n_next n_prev List.last]. rewrite Z.eqb_refl.
  intros HQ. wp_step. wp_step; [done|]. destruct Hhd as [[-> Hh]|[Hh Hn]].
  - rewrite Hh, Z.eqb_refl in *. cbn [negb orb]. wp_step. wp_step; [done|]. wp_step. wp_step.
    wp_step. apply wp_head_put; [done|done|]. by wp_step.
  - destruct (elem_class t Ht c F Hinv z m o Hz Ho _ (Hin _ Hh)) as (Hzi & Hmt & Hr).
    rewrite (proj2 (Z.eqb_neq _ _) Hn) in *. cbn [negb orb] in *. wp_step. wp_step; [apply Z.ltb_lt; lia|].
    wp_step. wp_step. wp_step; [apply negb_true_iff, Z.eqb_neq; congruence|].
    wp_step. wp_step; [by apply Nat.eqb_eq|]. wp_step. apply wp_migratetype; [done|]. rewrite Hmt.
    wp_step. wp_step; [apply MigrateTypes.eqb_refl|]. wp_step. wp_step. wp_step. wp_step.
    + destruct l as [|q l]; [by apply not_elem_of_nil in Hh|]. cbn [List.hd].
      rewrite (node_at t c F Hinv z m o Hz Ho [p] q l HF). apply Z.eqb_refl.
    + apply wp_modify. wp_step. apply wp_head_put; [done|done|]. by wp_step.
Qed.

End surgery.
