(* ===== verification/BuddySpec.v ===== *)
(** * The buddy lists: splitting, stealing and coalescing

    The loops of [crates/kernel/mm-pmm/src/buddy/inner.rs] ([take_from_order],
    [claim_fallback], [take_block]) and [buddy/free.rs] ([return_to_buddy])
    against the abstract state: they never panic on a state that satisfies
    [core_inv], keep it, and move exactly the pages of the block between the
    free lists and the caller. *)

From S2P Require Import Prelude Zone Buddy BuddyInv BuddyOps.

(** A weight that splitting a block preserves: the pages of a block that lie
    in a set, the number of its pages. *)
Definition additive (g : Z -> nat -> Z) : Prop := forall p o, g p (S o) = g p o + g (p + pow2 o) o.

Definition at_zone (z z' : nat) (w : Z) : Z := if (z' =? z)%nat then w else 0.

Lemma cov_additive x : additive (cov x).
Proof. intros p o. apply cov_split. Qed.

Lemma size_additive : additive (fun _ o => pow2 o).
Proof. intros p o. rewrite pow2_S. lia. Qed.

Lemma at_zone_add z z' a b : at_zone z z' a + at_zone z z' b = at_zone z z' (a + b).
Proof. unfold at_zone. destruct (_ =? _)%nat; lia. Qed.

Lemma at_zone_sum z w : (z < NR_ZONES)%nat -> sumZ (fun z' => at_zone z z' w) (seq 0 NR_ZONES) = w.
Proof.
  unfold at_zone, NR_ZONES, sumZ. intros Hz.
  do 4 (destruct z as [|z]; [cbn [seq foldr Nat.eqb]; lia|]). lia.
Qed.

Section weights.
Context (g : Z -> nat -> Z) (F : blocks) (z : nat) (m : MigrateType) (o : nat).
Context (Ho : (o < ORDERS)%nat).

Lemma zsum_cons p z' : (z' < NR_ZONES)%nat ->
  zsum g (upd3 F z m o (p :: F z m o)) z' = zsum g F z' + at_zone z z' (g p o).
Proof. intros Hz'. rewrite zsum_upd, sumZ_cons by done. unfold at_zone. destruct (_ =? _)%nat; lia. Qed.

Lemma zsum_del l1 p l2 z' : (z' < NR_ZONES)%nat -> F z m o = l1 ++ p :: l2 ->
  zsum g (upd3 F z m o (l1 ++ l2)) z' = zsum g F z' - at_zone z z' (g p o).
Proof.
  intros Hz' HF. rewrite zsum_upd, HF, !sumZ_app, sumZ_cons by done.
  unfold at_zone. destruct (_ =? _)%nat; lia.
Qed.

Lemma zsum_tl p l z' : (z' < NR_ZONES)%nat -> F z m o = p :: l ->
  zsum g (upd3 F z m o l) z' = zsum g F z' - at_zone z z' (g p o).
Proof. apply (zsum_del []). Qed.

End weights.

(** [F'] has, zone by zone and for every additive weight, the weight of [F]
    plus [w g] in zone [z]. *)
Definition moved (F F' : blocks) (z : nat) (w : (Z -> nat -> Z) -> Z) : Prop :=
  forall g, additive g -> forall z', (z' < NR_ZONES)%nat -> zsum g F' z' = zsum g F z' + at_zone z z' (w g).

Lemma moved_trans F1 F2 F3 z w1 w2 w :
  moved F1 F2 z w1 -> moved F2 F3 z w2 -> (forall g, additive g -> w g = w1 g + w2 g) -> moved F1 F3 z w.
Proof.
  intros H1 H2 Hw g Hg z' Hz'. rewrite (H2 g Hg z' Hz'), (H1 g Hg z' Hz'), (Hw g Hg), <- at_zone_add. lia.
Qed.

Lemma moved_fsum F F' z w g :
  (z < NR_ZONES)%nat -> additive g -> moved F F' z w -> fsum g F' = fsum g F + w g.
Proof.
  intros Hz Hg Hm. unfold fsumN.
  rewrite (sumZ_ext (zsum g F') (fun z' => zsum g F z' + at_zone z z' (w g))).
  - rewrite sumZ_add. by rewrite at_zone_sum.
  - intros z' Hz'. apply elem_of_seq in Hz'. apply Hm; [done|lia].
Qed.

Lemma moved_fcov F F' z w x :
  (z < NR_ZONES)%nat -> moved F F' z w -> fcov F' x = fcov F x + w (cov x).
Proof. intros Hz. apply moved_fsum; [done|apply cov_additive]. Qed.

Section spec.
Context (t : Topology) (Ht : topo_wf t).

(** ** Splitting *)

(** [F'] differs from [F] only in the lists of class [m] of zone [z] of order
    below [n]. *)
Definition only_below (F F' : blocks) (z : nat) (m : MigrateType) (n : nat) : Prop :=
  forall z' m' o', (z', m') <> (z, m) \/ (n <= o')%nat -> F' z' m' o' = F z' m' o'.

Lemma split_down_spec z m pfn order split c F :
  core_inv t c F -> placed t c z m pfn split -> (order <= split)%nat ->
  (forall x, pfn <= x < pfn + pow2 split -> fcov F x = 0) ->
  wp (Buddy.split_down t pfn z order split m) (fun _ c' => exists F',
    core_inv t c' F' /\ placed t c' z m pfn order /\ pageblocks c' = pageblocks c /\
    moved F F' z (fun g => g pfn split - g pfn order) /\ only_below F F' z m split /\
    (forall q, fcov F q = 0 -> ~ (pfn < q < pfn + pow2 split) -> pages c' q = pages c q)) c.
Proof.
  revert c F. induction split as [|s IH]; intros c F Hinv Hpl Hle Hfree.
  - assert (order = 0%nat) as -> by lia. cbn [Buddy.split_down]. wp_step. exists F.
    split_and!; try done. intros g _ z' _. unfold at_zone. destruct (_ =? _)%nat; lia.
  - cbn [Buddy.split_down]. destruct (order <? S s)%nat eqn:E; to_prop.
    + destruct (placed_split t _ _ _ _ _ Hpl) as [Hlo Hhi]. pose proof (pow2_pos s). pose proof (pow2_S s).
      pose proof (placed_range t Ht _ _ _ _ _ Hhi).
      assert (Hf : forall x, pfn + pow2 s <= x < pfn + pow2 s + pow2 s -> fcov F x = 0) by (intros; apply Hfree; lia).
      wp_step. wp_step; [destruct Ht as [? _]; unfold U64_MAX; lia|].
      apply wp_seq3, (publish_run t Ht c F Hinv z m s _ Hhi).
      set (F1 := upd3 F z m s ((pfn + pow2 s) :: F z m s)).
      assert (Hz : (z < NR_ZONES)%nat) by apply Hpl. assert (Hs : (s < ORDERS)%nat) by apply Hlo.
      assert (Hcov1 : forall q, fcov F1 q = fcov F q + cov q (pfn + pow2 s) s) by (intros; by apply fcov_cons).
      eapply wp_mono; [apply (IH _ F1)|].
      * by apply publish_inv.
      * by apply publish_placed.
      * lia.
      * intros x Hx. rewrite Hcov1, cov_out, Hfree by lia. done.
      * intros [] c' (F' & Hinv' & Hpl' & Hpb & Hmv & Hob & Hfr). exists F'. split_and!; [done|done| | | |].
        -- by rewrite Hpb, publish_pageblocks.
        -- eapply (moved_trans F F1 F' z (fun g => g (pfn + pow2 s) s)); [|exact Hmv|].
           ++ intros g _ z' Hz'. by apply zsum_cons.
           ++ intros g Hg. rewrite (Hg pfn s). lia.
        -- intros z' m' o' Hne. rewrite Hob by (destruct Hne; [by left|right; lia]).
           apply upd3_ne. intros Heq. injection Heq as -> -> ->. destruct Hne; [done|lia].
        -- intros q Hq Hout. rewrite Hfr; [|rewrite Hcov1, Hq, cov_out; lia|lia].
           apply (publish_frame t Ht c F); try done. lia.
    + assert (order = S s) as -> by lia. wp_step. exists F. split_and!; try done.
      intros g _ z' _. unfold at_zone. destruct (_ =? _)%nat; lia.
Qed.

(** ** Taking a block *)

(** No block of order at least [order] on the lists of class [req] in zone
    [z], and none of any class that a claim could retype. *)
Definition starved (F : blocks) (z : nat) (req : MigrateType) (order : nat) : Prop :=
  forall m o, (order <= o < ORDERS)%nat -> m = req \/ (PAGEBLOCK_ORDER <= o)%nat -> F z m o = [].

(** What a successful take leaves: [p] of order [order] is out of the lists
    of zone [z], nothing else moved, and the pages outside the free blocks
    keep their headers and their mobility class. The block is of the requested
    class, unless the zone is starved of it. *)
Definition taken (c : Core) (F : blocks) (z : nat) (order : nat) (req : MigrateType) (p : Z) (c' : Core) : Prop :=
  exists F' m,
    core_inv t c' F' /\ placed t c' z m p order /\ moved F F' z (fun g => - g p order) /\
    n_poison (pages c' p) = POISON_MAGIC /\
    (forall q, fcov F q = 0 -> pages c' q = pages c q) /\
    (forall x, 0 <= x -> mt_of c' x = mt_of c x \/ (mt_of c' x = req /\ fcov F x = 1)) /\
    ((m = req /\ ~ starved F z req order) \/ (m <> req /\ starved F z req order /\ starved F' z req order)).

(** The pages of a taken block were free and are not free any more. *)
Lemma taken_cov c F z order p c' F' m :
  core_inv t c F -> core_inv t c' F' -> placed t c' z m p order -> moved F F' z (fun g => - g p order) ->
  forall x, p <= x < p + pow2 order -> fcov F x = 1 /\ fcov F' x = 0.
Proof.
  intros Hinv Hinv' Hpl Hmv x Hx. pose proof (moved_fcov _ _ _ _ x (pl_zone _ _ _ _ _ _ Hpl) Hmv) as H.
  cbn beta in H. rewrite cov_in in H by done.
  pose proof (inv_disjoint _ _ _ Hinv x). pose proof (fcov_nonneg F' x). lia.
Qed.

(** [split_down] from a state where the block has just been retracted (and
    possibly retyped). *)
Lemma take_split z m m0 order req cur p l c F c1 :
  core_inv t c F -> (z < NR_ZONES)%nat -> (cur < ORDERS)%nat -> F z m0 cur = p :: l -> (order <= cur)%nat ->
  core_inv t c1 (upd3 F z m0 cur l) -> placed t c1 z m p cur ->
  pages c1 = pages (retract c z m0 cur p) ->
  (forall x, 0 <= x -> mt_of c1 x = mt_of c x \/ (mt_of c1 x = req /\ fcov F x = 1)) ->
  (m = req /\ (m0 = req \/ (PAGEBLOCK_ORDER <= cur)%nat)) \/ (m <> req /\ m = m0 /\ starved F z req order) ->
  wp (Buddy.split_down t p z order cur m) (fun _ c' => taken c F z order req p c' /\ pageblocks c' = pageblocks c1) c1.
Proof.
  intros Hinv Hz Hcur HF Hle Hinv1 Hpl1 Hpg Hmt Hreq.
  pose proof (retract_uncovered t c F Hinv z m0 cur Hz Hcur [] p l HF) as Hunc. cbn [app] in Hunc.
  eapply wp_mono; [by apply split_down_spec|].
  intros [] c' (F' & Hinv' & Hpl' & Hpb & Hmv & Hob & Hfr). split; [|done]. exists F', m. split_and!; [done|done| | | | |].
  - eapply (moved_trans F _ F' z (fun g => - g p cur)); [|exact Hmv|intros g _; cbn beta; lia].
    intros g _ z' Hz'. rewrite (zsum_tl g F z m0 cur Hcur p l z' Hz' HF).
    unfold at_zone. destruct (_ =? _)%nat; lia.
  - pose proof (pow2_pos cur). rewrite Hfr, Hpg, (retract_frame t Ht c F Hinv z m0 cur Hz Hcur [] p l HF);
      [|by left|apply Hunc; lia|lia].
    by rewrite (node_at t c F Hinv z m0 cur Hz Hcur [] p l HF).
  - intros q Hq. assert (Hc : fcov (upd3 F z m0 cur l) q = 0).
    { pose proof (fcov_nonneg (upd3 F z m0 cur l) q) as Hn. pose proof (cov_range q p cur).
      rewrite (fcov_tl F z m0 cur p l) in * by done. lia. }
    rewrite Hfr, Hpg, (retract_frame t Ht c F Hinv z m0 cur Hz Hcur [] p l HF); [done|by right|done|].
    intros Hin. eapply (fcov_zero F q z m0 cur p); try done; [rewrite HF; left|lia].
  - intros x Hx. rewrite (mt_of_pageblocks c1) by done. by apply Hmt.
  - destruct Hreq as [[-> Hm0]|(Hne & -> & Hst)]; [left|right]; (split; [done|]).
    + intros Hst. specialize (Hst m0 cur ltac:(lia) Hm0). by rewrite HF in Hst.
    + split; [done|]. intros m' o Ho Hm'. pose proof (Hst m' o Ho Hm') as He.
      destruct (class_dec (z, m', o) (z, m0, cur)) as [Heq|Hne']; [injection Heq as -> ->; by rewrite HF in He|].
      rewrite Hob; [by rewrite upd3_ne|]. destruct (decide (m' = m0)) as [->|]; [right|left; congruence].
      destruct Hm' as [|Hm']; [done|]. destruct (decide (PAGEBLOCK_ORDER <= cur)%nat); [|lia].
      specialize (Hst m0 cur ltac:(lia) ltac:(by right)). by rewrite HF in Hst.
Qed.

Lemma take_from_order_spec z m order req cur p l c F :
  core_inv t c F -> (z < NR_ZONES)%nat -> (cur < ORDERS)%nat -> F z m cur = p :: l -> (order <= cur)%nat ->
  m = req \/ (m <> req /\ starved F z req order) ->
  wp (Buddy.take_from_order t z order cur m) (fun r c' =>
    r = p /\ taken c F z order req p c' /\ pageblocks c' = pageblocks c) c.
Proof.
  intros Hinv Hz Hcur HF Hle Hreq. unfold Buddy.take_from_order. wp_step.
  apply (pop_run t Ht c F Hinv z m cur Hz Hcur p l _ HF).
  apply (retract_tail t Ht c F Hinv z m cur Hz Hcur [] p l HF).
  wp_step. eapply wp_mono; [eapply (take_split z m m order req cur p l c F); try done|].
  - by apply (retract_inv t Ht c F Hinv z m cur Hz Hcur [] p l HF).
  - apply retract_placed. apply (inv_placed _ _ _ Hinv); [done|done|]. rewrite HF. left.
  - intros x _. left. apply mt_of_pageblocks, retract_pageblocks.
  - destruct Hreq as [->|[? ?]]; [left; auto|right; auto].
  - intros [] c' [Htk Hpb]. wp_step. split_and!; [done|done|]. by rewrite Hpb, retract_pageblocks.
Qed.

(** Retyping a block that is on no list changes no other block. *)
Lemma retype_inv c c' F z m m' p o :
  core_inv t c F -> placed t c z m p o -> (forall x, p <= x < p + pow2 o -> fcov F x = 0) ->
  same_but_types c c' ->
  (forall x, 0 <= x -> mt_of c' x = if (p <=? x) && (x <? p + pow2 o) then m' else mt_of c x) ->
  core_inv t c' F /\ placed t c' z m' p o.
Proof.
  intros Hinv Hpl Hfree (Hb & Hh & Hn & Hg) Hty. pose proof (placed_range t Ht _ _ _ _ _ Hpl) as Hr. split.
  - split.
    + intros. rewrite Hh. by apply (inv_heads _ _ _ Hinv).
    + intros. rewrite Hg. by apply (inv_links _ _ _ Hinv).
    + intros. rewrite Hn. by apply (inv_count _ _ _ Hinv).
    + intros o' i Ho' Hi. rewrite (bit_bitmaps c c' o' i Hb). by apply (inv_bits _ _ _ Hinv).
    + intros z0 m0 o0 q Hz0 Ho0 Hq. pose proof (inv_placed _ _ _ Hinv z0 m0 o0 q Hz0 Ho0 Hq) as Hq0.
      eapply placed_types; [|exact Hq0]. intros x Hx. pose proof (placed_range t Ht _ _ _ _ _ Hq0).
      rewrite Hty by lia. destruct (_ && _) eqn:E; [|done]. to_prop. exfalso.
      eapply (fcov_zero F x z0 m0 o0 q); [apply Hfree; lia|done..].
    + apply (inv_disjoint _ _ _ Hinv).
  - destruct Hpl. split; try done. intros x Hx. rewrite Hty by lia.
    by rewrite (proj2 (Z.leb_le _ _)), (proj2 (Z.ltb_lt _ _)) by lia.
Qed.

(** Whether zone [z] has a free block of class [m] and order at least [order]. *)
Definition class_empty (F : blocks) (z : nat) (m : MigrateType) (order : nat) : Prop :=
  forall o, (order <= o < ORDERS)%nat -> F z m o = [].

Lemma head_null c F z m o :
  core_inv t c F -> (z < NR_ZONES)%nat -> (o < ORDERS)%nat ->
  (free_heads c z m o =? PFN_NULL) = true <-> F z m o = [].
Proof.
  intros Hinv Hz Ho. rewrite (inv_heads _ _ _ Hinv) by done. destruct (F z m o) as [|p l] eqn:E; [done|].
  cbn [List.hd]. split; [|done]. intros Hp. to_prop. exfalso.
  eapply (elem_not_null t Ht c F Hinv z m o Hz Ho p); [rewrite E; left|done].
Qed.

(** The first block on the first list of [l] that has one. *)
Fixpoint first_block (F : blocks) (z : nat) (l : list (MigrateType * nat)) : option (MigrateType * nat * Z) :=
  match l with
  | [] => None
  | (m, o) :: l' => match F z m o with p :: _ => Some (m, o, p) | [] => first_block F z l' end
  end.

Lemma first_block_app F z l1 l2 :
  first_block F z (l1 ++ l2) = match first_block F z l1 with Some b => Some b | None => first_block F z l2 end.
Proof. induction l1 as [|[m o] l1 IH]; [done|]. cbn. by destruct (F z m o). Qed.

Lemma first_block_none F z m orders :
  (forall o, o ∈ orders -> F z m o = []) -> first_block F z (map (pair m) orders) = None.
Proof.
  induction orders as [|o orders IH]; intros Hn; [done|]. cbn. rewrite Hn by left. apply IH. intros. apply Hn. by right.
Qed.

Lemma first_block_in F z l m o p : first_block F z l = Some (m, o, p) -> exists l', F z m o = p :: l'.
Proof.
  induction l as [|[m1 o1] l IH]; [done|]. cbn. destruct (F z m1 o1) as [|q l'] eqn:E; [done|].
  intros [= -> -> ->]. by exists l'.
Qed.

Lemma first_block_split {B} F z (g : B -> list (MigrateType * nat)) l1 b l2 :
  (forall b', b' ∈ l1 -> first_block F z (g b') = None) -> first_block F z (g b) <> None ->
  first_block F z (flat_map g (l1 ++ b :: l2)) = first_block F z (g b).
Proof.
  intros Hn Hb. induction l1 as [|b1 l1 IH]; cbn [app flat_map]; rewrite first_block_app.
  - by destruct (first_block F z (g b)).
  - rewrite Hn by left. apply IH. intros. apply Hn. by right.
Qed.

Lemma first_block_empty {B} F z (g : B -> list (MigrateType * nat)) l :
  (forall b, b ∈ l -> first_block F z (g b) = None) -> first_block F z (flat_map g l) = None.
Proof.
  induction l as [|b l IH]; intros Hn; [done|]. cbn [flat_map]. rewrite first_block_app, Hn by left.
  apply IH. intros. apply Hn. by right.
Qed.

Lemma take_loop_spec orders z m order req c F :
  core_inv t c F -> (z < NR_ZONES)%nat -> (forall o, o ∈ orders -> (order <= o < ORDERS)%nat) ->
  m = req \/ (m <> req /\ starved F z req order) ->
  wp (Buddy.take_loop t orders z order m) (fun r c' =>
    match r with
    | Some p => taken c F z order req p c' /\ pageblocks c' = pageblocks c /\
        exists o, o ∈ orders /\ first_block F z (map (pair m) orders) = Some (m, o, p)
    | None => c' = c /\ forall o, o ∈ orders -> F z m o = []
    end) c.
Proof.
  intros Hinv Hz Hos Hreq. induction orders as [|cur orders IH]; cbn [Buddy.take_loop].
  - wp_step. split; [done|]. intros o Ho. by apply not_elem_of_nil in Ho.
  - assert (Hc : (order <= cur < ORDERS)%nat) by (apply Hos; left). wp_step. apply wp_head_get; [done|lia|].
    destruct (free_heads c z m cur =? PFN_NULL) eqn:E; cbn [negb].
    + apply (head_null c F) in E; [|done|done|lia]. eapply wp_mono; [apply IH; intros; apply Hos; by right|].
      intros [p|] c'.
      { intros (Htk & Hpb & o & Ho & Hfb). split_and!; [done|done|]. exists o. split; [by right|]. cbn. by rewrite E. }
      intros [-> Hnone]. split; [done|]. intros o Ho. apply elem_of_cons in Ho as [->|Ho]; auto.
    + destruct (F z m cur) as [|p l] eqn:HF; [apply (head_null c F) in HF; [congruence|done|done|lia]|].
      wp_step. eapply wp_mono; [apply (take_from_order_spec z m order req cur p l); (done || lia)|].
      intros r c' (-> & Htk & Hpb). wp_step. split_and!; [done|done|]. exists cur. split; [left|]. cbn. by rewrite HF.
Qed.

(** The types after a claim of the whole block [(p, o)]. *)
Definition claimed (c c' : Core) (req : MigrateType) (p : Z) (o : nat) : Prop :=
  forall x, 0 <= x -> mt_of c' x = if (p <=? x) && (x <? p + pow2 o) then req else mt_of c x.

Lemma claim_loop_spec orders z requested fallback order c F :
  core_inv t c F -> (z < NR_ZONES)%nat ->
  (forall o, o ∈ orders -> (order <= o < ORDERS)%nat /\ (PAGEBLOCK_ORDER <= o)%nat) ->
  wp (Buddy.claim_loop t orders z order requested fallback) (fun r c' =>
    match r with
    | Some p => taken c F z order requested p c' /\
        exists o, o ∈ orders /\ claimed c c' requested p o /\
          first_block F z (map (pair fallback) orders) = Some (fallback, o, p)
    | None => c' = c /\ forall o, o ∈ orders -> F z fallback o = []
    end) c.
Proof.
  intros Hinv Hz Hos. induction orders as [|cur orders IH]; cbn [Buddy.claim_loop].
  { wp_step. split; [done|]. intros o Ho. by apply not_elem_of_nil in Ho. }
  destruct (Hos cur ltac:(left)) as [Hc Hpb]. assert (Hcur : (cur < ORDERS)%nat) by lia.
  wp_step. apply wp_head_get; [done|done|]. destruct (free_heads c z fallback cur =? PFN_NULL) eqn:E.
  { apply (head_null c F) in E; [|done..]. eapply wp_mono; [apply IH; intros; apply Hos; by right|].
    intros [p|] c'.
    { intros (Htk & o & Ho & Hcl & Hfb). split; [done|]. exists o. split_and!; [by right|done|]. cbn. by rewrite E. }
    intros [-> Hnone]. split; [done|]. intros o Ho. apply elem_of_cons in Ho as [->|Ho]; auto. }
  destruct (F z fallback cur) as [|p l] eqn:HF; [apply (head_null c F) in HF; [congruence|done..]|].
  wp_step. apply (pop_run t Ht c F Hinv z fallback cur Hz Hcur p l _ HF).
  apply (retract_tail t Ht c F Hinv z fallback cur Hz Hcur [] p l HF).
  assert (Hin : p ∈ F z fallback cur) by (rewrite HF; left).
  pose proof (inv_placed _ _ _ Hinv z fallback cur p Hz Hcur Hin) as Hpl.
  pose proof (placed_range t Ht _ _ _ _ _ Hpl) as Hr.
  wp_step. wp_step; [destruct Ht as [? _]; unfold U64_MAX; lia|].
  destruct (set_range_run t p cur requested (retract c z fallback cur p)) as (c1 & Hrun & Hsame & Hty);
    [done|done|apply Hpl|lia|lia|].
  wp_step. eapply wp_done; [exact Hrun|]. wp_step.
  destruct (retype_inv (retract c z fallback cur p) c1 (upd3 F z fallback cur l) z fallback requested p cur)
    as [Hinv1 Hpl1]; [by apply (retract_inv t Ht c F Hinv z fallback cur Hz Hcur [] p l HF)
    |by apply retract_placed|by apply (retract_uncovered t c F Hinv z fallback cur Hz Hcur [] p l HF)|done|done|].
  eapply wp_mono; [apply (take_split z requested fallback order requested cur p l c F); try done;
    [lia|apply Hsame| |left; auto]|].
  2:{ intros [] c' [Htk Hpb']. wp_step. split; [done|]. exists cur. split_and!; [left| |cbn; by rewrite HF].
      intros x Hx. rewrite (mt_of_pageblocks c1 c') by done. rewrite Hty by done. destruct (_ && _); [done|].
      apply mt_of_pageblocks, retract_pageblocks. }
  intros x Hx. rewrite Hty by done. destruct (_ && _) eqn:Ein; [right|left; apply mt_of_pageblocks, retract_pageblocks].
  split; [done|]. to_prop. by apply (block_cov t c F Hinv z fallback cur Hz Hcur p).
Qed.

Lemma first_some_spec {B} (f : B -> M Core (option Z)) (P : B -> Z -> Core -> Prop) (N : B -> Prop) l c :
  (forall b, b ∈ l -> wp (f b) (fun r c' => match r with Some p => P b p c' | None => c' = c /\ N b end) c) ->
  wp (Buddy.first_some (map f l)) (fun r c' =>
    match r with
    | Some p => exists l1 b l2, l = l1 ++ b :: l2 /\ (forall b', b' ∈ l1 -> N b') /\ P b p c'
    | None => c' = c /\ forall b, b ∈ l -> N b
    end) c.
Proof.
  induction l as [|b l IH]; intros Hf; cbn [map Buddy.first_some].
  - wp_step. split; [done|]. intros b Hb. by apply not_elem_of_nil in Hb.
  - wp_step. eapply wp_mono; [apply Hf; left|]. intros [p|] c'.
    { intros HP. wp_step. exists [], b, l. split_and!; [done| |done]. intros b' Hb'. by apply not_elem_of_nil in Hb'. }
    intros [-> HN]. cbn beta iota. eapply wp_mono; [apply IH; intros; apply Hf; by right|].
    intros [p|] c'.
    { intros (l1 & b' & l2 & -> & Hn & HP). exists (b :: l1), b', l2. split_and!; [done| |done].
      intros b2 Hb2. apply elem_of_cons in Hb2 as [->|Hb2]; auto. }
    intros [-> Hl]. split; [done|]. intros b' Hb. apply elem_of_cons in Hb as [->|Hb]; auto.
Qed.

Lemma elem_orders_from order o : o ∈ Buddy.orders_from order <-> (order <= o < ORDERS)%nat.
Proof. unfold Buddy.orders_from. rewrite elem_of_seq. unfold ORDERS, MAX_ORDER. lia. Qed.

Lemma elem_claim_orders order o :
  o ∈ rev (seq (Nat.max order PAGEBLOCK_ORDER) (MAX_ORDER + 1 - Nat.max order PAGEBLOCK_ORDER)) <->
  (order <= o < ORDERS)%nat /\ (PAGEBLOCK_ORDER <= o)%nat.
Proof.
  rewrite list_elem_of_In, <- List.in_rev, <- list_elem_of_In, elem_of_seq. unfold ORDERS, MAX_ORDER. lia.
Qed.

(** ** The order of the search *)

Definition claim_orders (order : nat) : list nat :=
  rev (seq (Nat.max order PAGEBLOCK_ORDER) (MAX_ORDER + 1 - Nat.max order PAGEBLOCK_ORDER)).

(** The lists in the order they are tried: the requested class from the
    smallest order up; then the whole pageblocks of each fallback class, from
    the largest order down; then each fallback class from the smallest up. *)
Definition search (order : nat) (requested : MigrateType) : list (MigrateType * nat) :=
  map (pair requested) (Buddy.orders_from order) ++
  flat_map (fun fb => map (pair fb) (claim_orders order)) (MigrateTypes.fallbacks requested) ++
  flat_map (fun fb => map (pair fb) (Buddy.orders_from order)) (MigrateTypes.fallbacks requested).

(** The first block of the search is the one taken. A fallback block of at
    least a pageblock changes class as a whole; otherwise no page changes
    class. *)
Definition chosen (c : Core) (F : blocks) (z order : nat) (requested : MigrateType) (p : Z) (c' : Core) : Prop :=
  exists m o, first_block F z (search order requested) = Some (m, o, p) /\
    if decide (m <> requested /\ (PAGEBLOCK_ORDER <= o)%nat) then claimed c c' requested p o
    else forall x, mt_of c' x = mt_of c x.

Lemma take_fallback_spec z requested order c F :
  core_inv t c F -> (z < NR_ZONES)%nat -> starved F z requested order ->
  wp (Buddy.first_some (map (fun fb => Buddy.take_loop t (Buddy.orders_from order) z order fb)
        (MigrateTypes.fallbacks requested))) (fun r c' =>
    match r with
    | Some p => taken c F z order requested p c' /\ chosen c F z order requested p c'
    | None => c' = c /\ forall fb, fb ∈ MigrateTypes.fallbacks requested -> class_empty F z fb order
    end) c.
Proof.
  intros Hinv Hz Hst.
  eapply wp_mono; [apply (first_some_spec _ (fun fb p c' => taken c F z order requested p c' /\
    pageblocks c' = pageblocks c /\ exists o, o ∈ Buddy.orders_from order /\
      first_block F z (map (pair fb) (Buddy.orders_from order)) = Some (fb, o, p)) (fun fb => class_empty F z fb order))|].
  { intros fb Hfb. eapply wp_mono; [apply (take_loop_spec _ z fb order requested c F Hinv Hz);
      [by intros; apply elem_orders_from|right; split; [by apply MigrateTypes.fallbacks_ne in Hfb|done]]|].
    intros [p|] c'; [done|]. intros [-> He]. split; [done|]. intros o Ho. by apply He, elem_orders_from. }
  intros [p|] c'; [|done]. intros (l1 & fb & l2 & Hl & Hn & Htk & Hpb & o & Ho%elem_orders_from & Hfb).
  assert (Hin : fb ∈ MigrateTypes.fallbacks requested) by (rewrite Hl; apply elem_of_app; right; left).
  assert (Hnone : forall b, first_block F z (map (pair b) (claim_orders order)) = None).
  { intros b. apply first_block_none. intros o' Ho'. apply elem_claim_orders in Ho' as [? ?]. apply Hst; [done|by right]. }
  split; [done|]. exists fb, o. unfold search. rewrite !first_block_app, first_block_none, first_block_empty by
    (done || (intros o' Ho'%elem_orders_from; apply Hst; [done|by left])).
  rewrite Hl, (first_block_split F z (fun fb => map (pair fb) (Buddy.orders_from order)) l1 fb l2), Hfb.
  - split; [done|]. case_decide as Hd; [|intros x; by apply mt_of_pageblocks].
    destruct (first_block_in F z _ _ _ _ Hfb) as (l & HF). rewrite (Hst fb o) in HF; [done|done|right; apply Hd].
  - intros b Hb. apply first_block_none. intros o' Ho'%elem_orders_from. by apply (Hn b Hb).
  - by rewrite Hfb.
Qed.

(** [take_block]: a block of exactly the order asked for, or the zone has no
    block of that order or above and the state is unchanged. *)
Lemma take_block_choice z requested order c F :
  core_inv t c F -> (z < NR_ZONES)%nat ->
  wp (Buddy.take_block t z order requested) (fun r c' =>
    match r with
    | Some p => taken c F z order requested p c' /\ chosen c F z order requested p c'
    | None => c' = c /\ forall m, class_empty F z m order
    end) c.
Proof.
  intros Hinv Hz. unfold Buddy.take_block. wp_step.
  eapply wp_mono; [apply (take_loop_spec _ z requested order requested c F Hinv Hz);
    [by intros; apply elem_orders_from|by left]|].
  intros [p|] c'.
  { intros (Htk & Hpb & o & Ho & Hfb). wp_step. split; [done|]. exists requested, o.
    unfold search. rewrite first_block_app, Hfb. split; [done|].
    rewrite decide_False by (intros [? _]; done). intros x. by apply mt_of_pageblocks. }
  intros [-> Hreq]. wp_step.
  eapply wp_mono; [apply (first_some_spec _ (fun fb p c' => taken c F z order requested p c' /\
      exists o, o ∈ claim_orders order /\ claimed c c' requested p o /\
        first_block F z (map (pair fb) (claim_orders order)) = Some (fb, o, p))
    (fun fb => forall o, (order <= o < ORDERS)%nat -> (PAGEBLOCK_ORDER <= o)%nat -> F z fb o = []))|].
  { intros fb _. eapply wp_mono; [apply (claim_loop_spec _ z requested fb order c F Hinv Hz);
      by intros; apply elem_claim_orders|].
    intros [p|] c'; [done|]. intros [-> Hfb]. split; [done|]. intros. by apply Hfb, elem_claim_orders. }
  intros [p|] c'.
  { intros (l1 & fb & l2 & Hl & Hn & Htk & o & Ho%elem_claim_orders & Hcl & Hfb). wp_step. split; [done|].
    assert (Hin : fb ∈ MigrateTypes.fallbacks requested) by (rewrite Hl; apply elem_of_app; right; left).
    exists fb, o. unfold search. rewrite !first_block_app, first_block_none by done.
    rewrite Hl, (first_block_split F z (fun fb => map (pair fb) (claim_orders order)) l1 fb l2), Hfb.
    - split; [done|]. apply MigrateTypes.fallbacks_ne in Hin. by rewrite decide_True by (split; [done|apply Ho]).
    - intros b Hb. apply first_block_none. intros o' [? ?]%elem_claim_orders. by apply (Hn b Hb).
    - by rewrite Hfb. }
  intros [-> Hclaim]. cbn beta iota.
  assert (Hst : starved F z requested order).
  { intros m o Ho Hm. destruct (decide (m = requested)) as [->|Hne]; [by apply Hreq, elem_orders_from|].
    destruct Hm; [done|]. by apply Hclaim; [apply MigrateTypes.elem_of_fallbacks|..]. }
  eapply wp_mono; [by apply take_fallback_spec|].
  intros [p|] c'; [done|]. intros [-> Hfbs]. split; [done|]. intros m.
  destruct (decide (m = requested)) as [->|Hne]; [intros o Ho; by apply Hreq, elem_orders_from|].
  by apply Hfbs, MigrateTypes.elem_of_fallbacks.
Qed.

Lemma take_block_spec z requested order c F :
  core_inv t c F -> (z < NR_ZONES)%nat ->
  wp (Buddy.take_block t z order requested) (fun r c' =>
    match r with
    | Some p => taken c F z order requested p c'
    | None => c' = c /\ forall m, class_empty F z m order
    end) c.
Proof.
  intros Hinv Hz. eapply wp_mono; [by apply take_block_choice|]. intros [p|] c'; [intros [? _]|]; done.
Qed.

(** ** Coalescing *)

(** A mergeable buddy is on the list of the class the coalescer unlinks it from. *)
Lemma buddy_listed c F z m o b :
  core_inv t c F -> (o < ORDERS)%nat -> 0 <= b -> (pow2 o | b) -> Buddy.zi t b = z -> mt_of c b = m ->
  bit c o (Z.shiftr b (Z.of_nat o)) = true -> b ∈ F z m o.
Proof.
  intros Hinv Ho Hb Hal Hzi Hmt Hbit. apply (inv_bits _ _ _ Hinv) in Hbit as (z' & m' & Hz' & Hin);
    [|done|rewrite shiftr_pow2; apply Z.div_pos; [lia|apply pow2_pos]].
  rewrite shiftr_pow2, div_pow2_exact in Hin by done.
  destruct (elem_class t Ht c F Hinv z' m' o Hz' Ho b Hin) as (Hzi' & Hmt' & _). congruence.
Qed.

Lemma listed_bit c F z m o b :
  core_inv t c F -> (z < NR_ZONES)%nat -> (o < ORDERS)%nat -> 0 <= b -> (pow2 o | b) -> b ∈ F z m o ->
  bit c o (Z.shiftr b (Z.of_nat o)) = true.
Proof.
  intros Hinv Hz Ho Hb Hal Hin. apply (inv_bits _ _ _ Hinv); [done|by apply Z.shiftr_nonneg|].
  exists z, m. split; [done|]. by rewrite shiftr_pow2, div_pow2_exact.
Qed.

(** The two halves of the enclosing block. *)
Lemma buddy_merge c z m p o :
  (S o < ORDERS)%nat -> placed t c z m p o -> placed t c z m (Z.lxor p (pow2 o)) o ->
  let b := Z.lxor p (pow2 o) in
  let p' := if b <? p then b else p in
  placed t c z m p' (S o) /\ (forall g, additive g -> g p' (S o) = g p o + g b o) /\ (p' = p \/ p' = b) /\
  (forall x, p' <= x < p' + pow2 (S o) -> p <= x < p + pow2 o \/ b <= x < b + pow2 o) /\
  p' <= p /\ p + pow2 o <= p' + pow2 (S o).
Proof.
  intros Ho Hp Hb b p'. pose proof (pow2_pos o).
  destruct (lxor_pow2_aligned p o (pl_align _ _ _ _ _ _ Hp)) as [[Hal Hx]|[Hal Hx]];
    unfold p', b in *; rewrite Hx in *.
  - rewrite (proj2 (Z.ltb_ge _ _)) by lia. rewrite pow2_S.
    split_and!; [by apply placed_merge|intros g Hg; apply Hg|by left|lia|lia|lia].
  - rewrite (proj2 (Z.ltb_lt _ _)) by lia. rewrite pow2_S. split_and!; [| |by right|lia|lia|lia].
    + apply placed_merge; [done|done|done|]. by replace (p - pow2 o + pow2 o) with p by lia.
    + intros g Hg. rewrite Hg. replace (p - pow2 o + pow2 o) with p by lia. lia.
Qed.

Lemma buddy_align p o : (pow2 o | p) -> 0 <= p -> (pow2 o | Z.lxor p (pow2 o)) /\ 0 <= Z.lxor p (pow2 o) <= p + pow2 o.
Proof.
  intros Hal Hp. pose proof (pow2_pos o) as Hpos. pose proof (pow2_S o) as HS.
  destruct (lxor_pow2_aligned p o Hal) as [[_ ->]|[[k Hk] ->]]; (split; [|try lia]).
  - apply Z.divide_add_r; [done|reflexivity].
  - apply Z.divide_sub_r; [done|reflexivity].
  - assert (0 <= k) by nia. nia.
Qed.

(** Block [(p, o)] can grow no further: its buddy is not a free block of the
    same order, zone and class. *)
Definition stuck (c : Core) (F : blocks) (z : nat) (m : MigrateType) (p : Z) (o : nat) : Prop :=
  let b := Z.lxor p (pow2 o) in
  o = MAX_ORDER \/ pfn_max t < b + pow2 o \/ Buddy.zi t b <> z \/ mt_of c b <> m \/ b ∉ F z m o.

(** What the coalescer leaves of the block [(p, o)]: the enclosing block
    [(p', o')] is off the lists, the pages it gained left them, and its base
    is [p] or the base of a block that was free. *)
Definition merged (c : Core) (F : blocks) (z : nat) (m : MigrateType) (p : Z) (o : nat) (r : Z * nat)
    (c' : Core) : Prop :=
  let '(p', o') := r in
  exists F',
    core_inv t c' F' /\ placed t c' z m p' o' /\ pageblocks c' = pageblocks c /\
    (forall x, p' <= x < p' + pow2 o' -> fcov F' x = 0) /\
    moved F F' z (fun g => g p o - g p' o') /\
    (p' = p \/ fcov F p' = 1) /\ (forall q, fcov F q = 0 -> pages c' q = pages c q) /\
    ((o <= o')%nat /\ p' <= p /\ p + pow2 o <= p' + pow2 o') /\ stuck c' F' z m p' o'.

Lemma merged_refl c F z m p o :
  core_inv t c F -> placed t c z m p o -> (forall x, p <= x < p + pow2 o -> fcov F x = 0) ->
  stuck c F z m p o -> merged c F z m p o (p, o) c.
Proof.
  intros. exists F. split_and!; try done; [|by left].
  intros g _ z' _. unfold at_zone. destruct (_ =? _)%nat; lia.
Qed.

Lemma merged_step c F z m p o l1 l2 b p1 r c' :
  core_inv t c F -> (z < NR_ZONES)%nat -> (o < ORDERS)%nat -> F z m o = l1 ++ b :: l2 ->
  (forall g, additive g -> g p1 (S o) = g p o + g b o) -> (p1 = p \/ p1 = b) ->
  p1 <= p -> p + pow2 o <= p1 + pow2 (S o) ->
  merged (retract c z m o b) (upd3 F z m o (l1 ++ l2)) z m p1 (S o) r c' -> merged c F z m p o r c'.
Proof.
  intros Hinv Hz Ho HF Hadd Hp1 Hle1 Hle2. destruct r as [p' o'].
  intros (F' & Hinv' & Hpl & Hpb & Hunc & Hmv & Hsub & Hfr & Hin & Hst). exists F'.
  set (F1 := upd3 F z m o (l1 ++ l2)) in *.
  assert (Hcov1 : forall x, fcov F1 x = fcov F x - cov x b o) by (intros; by apply fcov_del).
  split_and!; [done|done|by rewrite Hpb, retract_pageblocks|done| | | |lia|lia|lia|done].
  - eapply (moved_trans F F1 F' z (fun g => - g b o)); [|exact Hmv|intros g Hg; cbn beta; rewrite Hadd by done; lia].
    intros g _ z' Hz'. unfold F1. rewrite (zsum_del g F z m o Ho l1 b l2 z' Hz' HF).
    unfold at_zone. destruct (_ =? _)%nat; lia.
  - assert (Hbc : fcov F b = 1) by (apply (elem_cov t c F Hinv z m o Hz Ho); rewrite HF; apply elem_mid).
    destruct Hsub as [->|Hsub]; [destruct Hp1 as [-> | ->]; tauto|].
    rewrite Hcov1 in Hsub. pose proof (inv_disjoint _ _ _ Hinv p'). pose proof (cov_range p' b o). right. lia.
  - intros q Hq. assert (Hq1 : fcov F1 q = 0).
    { pose proof (fcov_nonneg F1 q) as Hn. rewrite Hcov1 in *. pose proof (cov_range q b o). lia. }
    rewrite Hfr by done. apply (retract_frame t Ht c F Hinv z m o Hz Ho l1 b l2 HF). by right.
Qed.

Lemma merge_loop_spec k z m p o c F :
  core_inv t c F -> placed t c z m p o -> (k + o = MAX_ORDER)%nat ->
  (forall x, p <= x < p + pow2 o -> fcov F x = 0) ->
  wp (Buddy.merge_loop t k z m p o) (merged c F z m p o) c.
Proof.
  revert p o c F. induction k as [|k IH]; intros p o c F Hinv Hpl Hk Hfree; cbn [Buddy.merge_loop];
    pose proof (merged_refl c F z m p o Hinv Hpl Hfree) as Hstop; [apply Hstop; left; lia|].
  set (b := Z.lxor p (pow2 o)) in *.
  pose proof (placed_range t Ht _ _ _ _ _ Hpl) as Hr. pose proof (pow2_pos o) as Hpos.
  assert (Ho : (o < ORDERS)%nat) by apply Hpl. assert (Hz : (z < NR_ZONES)%nat) by apply Hpl.
  destruct (buddy_align p o (pl_align _ _ _ _ _ _ Hpl) ltac:(lia)) as [Hbal Hb]. fold b in Hbal, Hb.
  wp_step. wp_step; [destruct Ht as [? _]; unfold U64_MAX; lia|].
  bool_case (pfn_max t <? b + pow2 o); [apply Hstop; by right; left|].
  destruct (Buddy.zi t b =? z)%nat eqn:Ezi; cbn [negb]; to_prop; [|apply Hstop; by right; right; left].
  wp_step. apply wp_migratetype; [done|lia|].
  destruct (MigrateTypes.eqb (mt_of c b) m) eqn:Emt; cbn [negb];
    [|apply Hstop; right; right; right; left; intros Heq%MigrateTypes.eqb_eq; unfold b in *; congruence].
  apply MigrateTypes.eqb_eq in Emt.
  wp_step. eapply wp_done; [apply bitmap_get_run; split_and!; [done|apply Z.shiftr_nonneg; lia|]|].
  { rewrite shiftr_pow2, div_pow2_exact by done. lia. }
  destruct (bit c o (Z.shiftr b (Z.of_nat o))) eqn:Ebit; cbn [negb];
    [|apply Hstop; do 4 right; intros Hin; apply (listed_bit c F z m o b Hinv Hz Ho) in Hin; [congruence|lia|done]].
  pose proof (buddy_listed c F z m o b Hinv Ho ltac:(lia) Hbal Ezi Emt Ebit) as Hin.
  pose proof (inv_placed _ _ _ Hinv z m o b Hz Ho Hin) as Hplb.
  apply list_elem_of_split in Hin as (l1 & l2 & HF).
  wp_step. apply (unlink_run t Ht c F Hinv z m o Hz Ho l1 b l2 _ HF).
  apply (retract_tail t Ht c F Hinv z m o Hz Ho l1 b l2 HF).
  destruct (buddy_merge c z m p o ltac:(unfold ORDERS, MAX_ORDER in *; lia) Hpl Hplb) as (Hpl' & Hadd & Hp1 & Hx & Hle1 & Hle2).
  fold b in Hpl', Hadd, Hp1, Hx, Hle1, Hle2. set (p1 := if b <? p then b else p) in *.
  eapply wp_mono; [|intros r c'; by apply (merged_step c F z m p o l1 l2 b p1)].
  apply IH; [by apply retract_inv|by apply retract_placed|lia|].
  intros x Hin. apply Hx in Hin as [Hin|Hin]; [|by apply (retract_uncovered t c F Hinv z m o Hz Ho l1 b l2 HF)].
  pose proof (fcov_nonneg (upd3 F z m o (l1 ++ l2)) x) as Hn. rewrite (fcov_del F z m o l1 b l2) in * by done.
  rewrite Hfree in * by done. pose proof (cov_range x b o). lia.
Qed.

(** Block [(p, o)] lies in a free block that can grow no further. *)
Definition settled (c : Core) (F : blocks) (z : nat) (p : Z) (o : nat) : Prop :=
  exists m p' o', p' ∈ F z m o' /\ (o' < ORDERS)%nat /\ ((o <= o')%nat /\ p' <= p /\ p + pow2 o <= p' + pow2 o') /\
    stuck c F z m p' o'.

(** Returning a block to the lists: its pages enter the free lists inside a
    block that can grow no further. *)
Definition returned (c : Core) (F : blocks) (z : nat) (p : Z) (o : nat) (c' : Core) : Prop :=
  exists F',
    core_inv t c' F' /\ moved F F' z (fun g => g p o) /\ pageblocks c' = pageblocks c /\
    (forall q, fcov F q = 0 -> ~ (p <= q < p + pow2 o) -> pages c' q = pages c q) /\
    settled c' F' z p o.

Lemma stuck_publish c F z m p o l :
  stuck c F z m p o -> l = p :: F z m o -> stuck (publish c z m o p) (upd3 F z m o l) z m p o.
Proof.
  intros Hst ->. unfold stuck in *. rewrite upd3_eq.
  rewrite (mt_of_pageblocks c (publish c z m o p)) by apply publish_pageblocks.
  destruct Hst as [?|[?|[?|[?|Hb]]]]; [tauto..|]. do 4 right. rewrite not_elem_of_cons. split; [|done].
  intros Heq. apply (f_equal (Z.lxor p)) in Heq. rewrite Z.lxor_nilpotent, <- Z.lxor_assoc, Z.lxor_nilpotent, Z.lxor_0_l in Heq.
  pose proof (pow2_pos o). lia.
Qed.

Lemma return_to_buddy_spec z m p o c F :
  core_inv t c F -> placed t c z m p o -> (forall x, p <= x < p + pow2 o -> fcov F x = 0) ->
  wp (Buddy.return_to_buddy t p o) (fun _ c' => returned c F z p o c') c.
Proof.
  intros Hinv Hpl Hfree. pose proof (placed_range t Ht _ _ _ _ _ Hpl) as Hr. pose proof (pow2_pos o).
  assert (Ho : (o < ORDERS)%nat) by apply Hpl. assert (Hz : (z < NR_ZONES)%nat) by apply Hpl.
  unfold Buddy.return_to_buddy. rewrite (placed_zi t Ht _ _ _ _ _ Hpl).
  wp_step. apply wp_migratetype; [done|lia|]. rewrite (placed_mt _ _ _ _ _ _ Hpl).
  wp_step. eapply wp_mono; [apply (merge_loop_spec _ z m p o c F Hinv Hpl); [|done]|].
  { unfold ORDERS, MAX_ORDER in *. lia. }
  intros [p' o'] c1 (F1 & Hinv1 & Hpl1 & Hpb & Hunc & Hmv & Hsub & Hfr & Hin & Hst).
  apply (publish_run t Ht c1 F1 Hinv1 z m o' p' Hpl1).
  exists (upd3 F1 z m o' (p' :: F1 z m o')). split_and!.
  - by apply publish_inv.
  - eapply (moved_trans F F1 _ z _ (fun g => g p' o')); [exact Hmv| |intros g _; cbn beta; lia].
    intros g _ z' Hz'. apply zsum_cons; [apply Hpl1|done].
  - by rewrite publish_pageblocks.
  - intros q Hq Hout. rewrite (publish_frame t Ht c1 F1 Hinv1 z m o' p' Hpl1 Hunc); [by apply Hfr| |].
    + pose proof (moved_fcov _ _ _ _ q Hz Hmv) as Hc. cbn beta in Hc. rewrite Hq, (cov_out q p o) in Hc by done.
      pose proof (fcov_nonneg F1 q). pose proof (cov_range q p' o'). lia.
    + intros ->. destruct Hsub as [-> | Hsub]; lia.
  - exists m, p', o'. rewrite upd3_eq. split; [left|]. split; [apply Hpl1|]. split; [done|]. eapply stuck_publish; done.
Qed.

End spec.
