(* ===== verification/Pmm.v ===== *)
(** * The physical page allocator

    Models the allocator of [crates/kernel/mm-pmm/src/buddy]: the state
    ([inner.rs], [api.rs]), the per-CPU pagesets ([pcp.rs]), allocation
    ([api.rs]), freeing ([free.rs]) and the watermark refresh ([zones.rs]).

    A value of [Pmm] is the whole allocator: the lock-protected [Inner], the
    pageset lists and their ownership bitmap, the atomic counters, and the
    published watermark aggregate ([watermark/cell.rs], a static). Operations
    run one after the other; each critical section of the source is one part
    of the operation that contains it.

    What the operations read of the running machine is [Env]: the current CPU,
    the number of CPUs online, whether the context may sleep, and the reclaim
    and out-of-memory entry points, which are computations over the same
    state. Diagnostics (the double-free ring of [double_free.rs], the poison
    watchdog of [poison.rs], [hal::zerotrap]) change no allocator state and
    are left out. The event counters wrap, as they do in the release profile. *)

From S2P Require Import Prelude Zone Watermark Buddy.

(** ** State *)

Inductive Error := InvalidOrder | NoMem | OutOfRange | Corrupt | Overlap.

Inductive KResult (A : Type) : Type :=
| Ok (a : A)
| Err (e : Error).
Arguments Ok {A} a.
Arguments Err {A} e.

(** [alloc_events], [alloc_event_pages], [free_events], [free_event_pages]. *)
Record Events := mkEvents { allocs : Z; alloc_pages : Z; frees : Z; free_pages_ev : Z }.

Definition note_alloc (n : Z) (e : Events) : Events :=
  mkEvents (wrap64 (allocs e + 1)) (wrap64 (alloc_pages e + n)) (frees e) (free_pages_ev e).
Definition note_free (n : Z) (e : Events) : Events :=
  mkEvents (allocs e) (alloc_pages e) (wrap64 (frees e + 1)) (wrap64 (free_pages_ev e + n)).

(** The lock-protected state. *)
Record Inner := mkInner {
  core : Core;
  managed : nat -> Z;
  present : nat -> Z;
  spanned : nat -> Z;
  reserve : nat -> nat -> Z;
  wmark : nat -> ZoneWatermarks;
  tunables : option WatermarkTunables;
  allocated : Z;
  reserved : Z;
  initial_free : Z;
  events : Events
}.

Definition set_core v s := mkInner v (managed s) (present s) (spanned s) (reserve s) (wmark s) (tunables s)
  (allocated s) (reserved s) (initial_free s) (events s).
Definition set_managed v s := mkInner (core s) v (present s) (spanned s) (reserve s) (wmark s) (tunables s)
  (allocated s) (reserved s) (initial_free s) (events s).
Definition set_present v s := mkInner (core s) (managed s) v (spanned s) (reserve s) (wmark s) (tunables s)
  (allocated s) (reserved s) (initial_free s) (events s).
Definition set_reserve v s := mkInner (core s) (managed s) (present s) (spanned s) v (wmark s) (tunables s)
  (allocated s) (reserved s) (initial_free s) (events s).
Definition set_wmark v s := mkInner (core s) (managed s) (present s) (spanned s) (reserve s) v (tunables s)
  (allocated s) (reserved s) (initial_free s) (events s).
Definition set_tunables v s := mkInner (core s) (managed s) (present s) (spanned s) (reserve s) (wmark s) v
  (allocated s) (reserved s) (initial_free s) (events s).
Definition set_allocated v s := mkInner (core s) (managed s) (present s) (spanned s) (reserve s) (wmark s)
  (tunables s) v (reserved s) (initial_free s) (events s).
Definition set_reserved v s := mkInner (core s) (managed s) (present s) (spanned s) (reserve s) (wmark s)
  (tunables s) (allocated s) v (initial_free s) (events s).
Definition set_events v s := mkInner (core s) (managed s) (present s) (spanned s) (reserve s) (wmark s)
  (tunables s) (allocated s) (reserved s) (initial_free s) v.

(** The header of a pageset list; the pages are linked through [n_next]. *)
Record PcpList := mkPcpList { head : Z; count : Z }.

Record PcpZoneConfig := mkPcpZoneConfig {
  cfg_low : Z;
  cfg_min : Z;
  cfg_reserve : nat -> Z;
  batch : Z
}.

Record Pmm := mkPmm {
  inner : Inner;
  pcp : nat -> PcpList;
  pcp_bitmap : Z -> Z;
  hibernate_forbidden : Z -> Z;
  zone_free : nat -> Z;
  pcp_free : nat -> Z;
  pcp_zone : nat -> PcpZoneConfig;
  pcp_events : Events;
  published : option (Z * ZoneWatermarks)
}.

Definition set_inner v s := mkPmm v (pcp s) (pcp_bitmap s) (hibernate_forbidden s) (zone_free s) (pcp_free s)
  (pcp_zone s) (pcp_events s) (published s).
Definition set_pcp v s := mkPmm (inner s) v (pcp_bitmap s) (hibernate_forbidden s) (zone_free s) (pcp_free s)
  (pcp_zone s) (pcp_events s) (published s).
Definition set_pcp_bitmap v s := mkPmm (inner s) (pcp s) v (hibernate_forbidden s) (zone_free s) (pcp_free s)
  (pcp_zone s) (pcp_events s) (published s).
Definition set_hibernate_forbidden v s := mkPmm (inner s) (pcp s) (pcp_bitmap s) v (zone_free s) (pcp_free s)
  (pcp_zone s) (pcp_events s) (published s).
Definition set_zone_free v s := mkPmm (inner s) (pcp s) (pcp_bitmap s) (hibernate_forbidden s) v (pcp_free s)
  (pcp_zone s) (pcp_events s) (published s).
Definition set_pcp_free v s := mkPmm (inner s) (pcp s) (pcp_bitmap s) (hibernate_forbidden s) (zone_free s) v
  (pcp_zone s) (pcp_events s) (published s).
Definition set_pcp_zone v s := mkPmm (inner s) (pcp s) (pcp_bitmap s) (hibernate_forbidden s) (zone_free s)
  (pcp_free s) v (pcp_events s) (published s).
Definition set_pcp_events v s := mkPmm (inner s) (pcp s) (pcp_bitmap s) (hibernate_forbidden s) (zone_free s)
  (pcp_free s) (pcp_zone s) v (published s).
Definition set_published v s := mkPmm (inner s) (pcp s) (pcp_bitmap s) (hibernate_forbidden s) (zone_free s)
  (pcp_free s) (pcp_zone s) (pcp_events s) v.

Record Env := mkEnv {
  current_cpu : nat;
  online_count : Z;
  in_atomic : bool;
  io_flusher : bool;
  slowpath_context : bool;
  direct_reclaim_once : M Pmm bool;
  invoke_oom : M Pmm OomOutcome
}.

(** Computations over the parts of the state. *)
Definition on_core {A} (m : M Core A) : M Inner A := zoom core set_core m.
Definition on_inner {A} (m : M Inner A) : M Pmm A := zoom inner set_inner m.
Definition with_core {A} (m : M Core A) : M Pmm A := on_inner (on_core m).

(** [fetch_add] and [fetch_sub] on the per-zone counters. *)
Definition zone_free_add (zone : nat) (n : Z) : M Pmm unit :=
  modify (fun s => set_zone_free (updn (zone_free s) zone (wrap64 (zone_free s zone + n))) s).
Definition zone_free_sub (zone : nat) (n : Z) : M Pmm unit :=
  modify (fun s => set_zone_free (updn (zone_free s) zone (wrap64 (zone_free s zone - n))) s).
Definition pcp_free_add (zone : nat) (n : Z) : M Pmm unit :=
  modify (fun s => set_pcp_free (updn (pcp_free s) zone (wrap64 (pcp_free s zone + n))) s).
Definition pcp_free_sub (zone : nat) (n : Z) : M Pmm unit :=
  modify (fun s => set_pcp_free (updn (pcp_free s) zone (wrap64 (pcp_free s zone - n))) s).

(** [allocated += n] and [allocated -= n]. *)
Definition allocated_add (n : Z) : M Inner unit :=
  a ← gets allocated; a' ← add64 a n; modify (set_allocated a').
Definition allocated_sub (n : Z) : M Inner unit :=
  a ← gets allocated; a' ← sub64 a n; modify (set_allocated a').

(** The mark a gate compares against: [low] for the fast path, [min] below it. *)
Definition mark_of (w : ZoneWatermarks) (a : AllocWmark) : Z :=
  match a with Low => wm_low w | _ => wm_min w end.

(** ** Per-CPU pagesets ([pcp.rs]) *)

Definition MAX_CPUS : nat := 256.
Definition PCP_SLOTS : nat := MAX_CPUS * NR_ZONES * MIGRATE_TYPES.

Definition batch_pages (managed : Z) : Z :=
  let batch := Z.min (Z.shiftr managed 12) (256 * 1024 / PAGE_SIZE_BYTES) in
  if batch <=? 1 then 1 else
  let scaled := sat_add batch (batch / 2) in
  Z.max (sat_sub (Z.shiftl 1 (Z.log2 scaled)) 1) 1.

Definition high_pages (online low batch : Z) : Z := Z.max (low / Z.max online 1) (sat_mul batch 4).

Module PcpConfig.

Definition new (w : ZoneWatermarks) (reserve : nat -> Z) (managed : Z) : PcpZoneConfig :=
  mkPcpZoneConfig (wm_low w) (wm_min w) reserve (batch_pages managed).

(** [refresh] stores every cell anew. *)
Definition refresh (_ : PcpZoneConfig) (w : ZoneWatermarks) (reserve : nat -> Z) (managed : Z) : PcpZoneConfig :=
  mkPcpZoneConfig (wm_low w) (wm_min w) reserve (batch_pages managed).

Definition mark (c : PcpZoneConfig) (a : AllocWmark) : Z := match a with Low => cfg_low c | _ => cfg_min c end.

Definition reserve_for (c : PcpZoneConfig) (highest : nat) : Z := cfg_reserve c (Nat.min highest (NR_ZONES - 1)).

Definition high (online : Z) (c : PcpZoneConfig) : Z := high_pages online (cfg_low c) (Z.max (batch c) 1).

End PcpConfig.

(** The list operations take the list header and return the new one; the
    links are written to the pages. *)
Module PcpLists.
Section pcplist.
Context (t : Topology).

Definition empty : PcpList := mkPcpList PFN_NULL 0.

Definition push (l : PcpList) (pfn : Z) : M Core PcpList :=
  write_node pfn (mkNode POISON_MAGIC 0 (head l) PFN_NULL) ;;
  n ← add64 (count l) 1;
  ret (mkPcpList pfn n).

Definition pop (l : PcpList) : M Core (option Z * PcpList) :=
  if count l =? 0 then ret (None, l) else
  let pfn := head l in
  kassert (pfn <? pfn_max t) "pmm pcp head out of range" ;;
  node ← read_node pfn;
  let next := n_next node in
  kassert ((next =? PFN_NULL) || (next <? pfn_max t)) "pmm pcp next out of range" ;;
  kassert (negb (next =? pfn)) "pmm pcp self link" ;;
  n ← sub64 (count l) 1;
  ret (Some pfn, mkPcpList next n).

(** [n] rounds of the loop of [take]: move the head of [l] to [out]. *)
Fixpoint take_loop (n : nat) (l out : PcpList) : M Core (PcpList * PcpList) :=
  match n with
  | O => ret (out, l)
  | S n' =>
      '(r, l') ← pop l;
      pfn ← expect r "pcp count/head mismatch";
      out' ← push out pfn;
      take_loop n' l' out'
  end.

(** Returns the detached list and what is left of [l]. *)
Definition take (l : PcpList) (limit : Z) : M Core (PcpList * PcpList) :=
  take_loop (Z.to_nat (Z.min (count l) limit)) l empty.

End pcplist.
End PcpLists.

Module Pcp.
Section pcp.
Context (t : Topology) (e : Env).

Definition list_slot (cpu zone : nat) (mt : MigrateType) : nat :=
  (Nat.min cpu (MAX_CPUS - 1) * NR_ZONES + zone) * MIGRATE_TYPES + MigrateTypes.index mt.

(** Lock one pageset list and run [f] on its header. *)
Definition with_list {R} (cpu zone : nat) (mt : MigrateType) (f : PcpList -> M Pmm (R * PcpList)) : M Pmm R :=
  let slot := list_slot cpu zone mt in
  kassert (slot <? PCP_SLOTS)%nat "index out of bounds" ;;
  l ← gets (fun s => pcp s slot);
  '(r, l') ← f l;
  modify (fun s => set_pcp (updn (pcp s) slot l') s) ;;
  ret r.

Definition with_current_pcp {R} (zone : nat) (mt : MigrateType) (f : PcpList -> M Pmm (R * PcpList)) : M Pmm R :=
  with_list (current_cpu e) zone mt f.

(** The word of the ownership bitmap that holds [pfn]'s bit. *)
Definition pcp_word (pfn : Z) : M Pmm Z :=
  let word := Z.shiftr pfn 6 in
  kassert ((0 <=? word) && (word <? Z.shiftr (pfn_max t + 63) 6)) "index out of bounds" ;;
  gets (fun s => pcp_bitmap s word).

Definition pcp_bit (pfn : Z) : Z := Z.shiftl 1 (Z.land pfn 63).

Definition pcp_mark (pfn : Z) : M Pmm unit :=
  w ← pcp_word pfn;
  modify (fun s => set_pcp_bitmap (upd (pcp_bitmap s) (Z.shiftr pfn 6) (Z.lor w (pcp_bit pfn))) s) ;;
  kassert (Z.land w (pcp_bit pfn) =? 0) "pmm double free in per-cpu pageset".

Definition pcp_unmark (pfn : Z) : M Pmm unit :=
  w ← pcp_word pfn;
  modify (fun s => set_pcp_bitmap (upd (pcp_bitmap s) (Z.shiftr pfn 6) (Z.land w (not64 (pcp_bit pfn)))) s) ;;
  kassert (negb (Z.land w (pcp_bit pfn) =? 0)) "pmm per-cpu pageset bitmap missing page".

Definition pcp_marked (pfn : Z) : M Pmm bool :=
  w ← pcp_word pfn; ret (negb (Z.land w (pcp_bit pfn) =? 0)).

Definition buddy_marked (pfn : Z) (order : nat) : M Pmm bool :=
  let index := Z.shiftr pfn (Z.of_nat order) in
  let word := Z.shiftr index 6 in
  with_core (Buddy.check_bitmap t order word) ;;
  w ← gets (fun s => bitmaps (core (inner s)) order word);
  ret (negb (Z.land w (Z.shiftl 1 (Z.land index 63)) =? 0)).

Definition pcp_type (pfn : Z) : M Pmm MigrateType := with_core (Pageblock.get t pfn).

Definition pcp_watermark_ok (zone highest : nat) (w : AllocWmark) : M Pmm bool :=
  cfg ← gets (fun s => pcp_zone s zone);
  free ← gets (fun s => zone_free s zone);
  ret (Wmark.zone_watermark_ok_pages (PcpConfig.mark cfg w) w (PcpConfig.reserve_for cfg highest) free).

Definition verify_pcp_node (pfn : Z) (zone : nat) (mt : MigrateType) : M Pmm unit :=
  kassert (Layout.index_of (layout t) pfn =? zone)%nat "pmm pcp page in wrong zone" ;;
  pmt ← pcp_type pfn;
  kassert (MigrateTypes.eqb pmt mt) "pmm pcp page wrong migratetype" ;;
  node ← with_core (read_node pfn);
  kassert (n_poison node =? POISON_MAGIC) "pmm poison mismatch on pcp alloc" ;;
  kassert (n_order node =? 0) "pmm pcp page has nonzero order".

Definition verify_pcp_page (pfn : Z) (zone : nat) (mt : MigrateType) : M Pmm unit :=
  verify_pcp_node pfn zone mt ;;
  b ← pcp_marked pfn;
  kassert b "pmm pcp list page absent from bitmap".

Definition note_pcp_alloc : M Pmm unit := modify (fun s => set_pcp_events (note_alloc 1 (pcp_events s)) s).
Definition note_pcp_free : M Pmm unit := modify (fun s => set_pcp_events (note_free 1 (pcp_events s)) s).

Definition pop_current_pcp (zone : nat) (mt : MigrateType) : M Pmm (option Z) :=
  r ← with_current_pcp zone mt (fun pcp =>
    '(r, pcp') ← with_core (PcpLists.pop t pcp);
    match r with
    | None => ret (None, pcp')
    | Some pfn => verify_pcp_page pfn zone mt ;; pcp_unmark pfn ;; ret (Some pfn, pcp')
    end);
  match r with
  | None => ret None
  | Some pfn =>
      pcp_free_sub zone 1 ;; zone_free_sub zone 1 ;; note_pcp_alloc ;; ret (Some pfn)
  end.

(** The free blocks a gate sees for an order-0 request: the buddy's, with the
    cached pages counted as order-0 blocks. *)
Definition area_with_pcp (s : Pmm) (zone : nat) (o : nat) : Z :=
  let a := Buddy.free_area (core (inner s)) zone o in
  if (o =? 0)%nat then sat_add a (pcp_free s zone) else a.

(** The rounds of the refill loop under the buddy lock. *)
Fixpoint refill_loop (n : nat) (zone highest : nat) (w : AllocWmark) (mt : MigrateType) (refill : PcpList)
    : M Pmm PcpList :=
  match n with
  | O => ret refill
  | S n' =>
      s ← get;
      let mark := mark_of (wmark (inner s) zone) w in
      match ZoneTypes.from_index zone with
      | None => ret refill
      | Some zone_type =>
          if negb (Wmark.zone_watermark_ok zone_type 0 mark w (reserve (inner s)) highest (area_with_pcp s zone))
          then ret refill else
          r ← with_core (Buddy.take_block t zone 0 mt);
          match r with
          | None => ret refill
          | Some pfn =>
              with_core (Buddy.verify_poison pfn) ;;
              refill' ← with_core (PcpLists.push refill pfn);
              on_inner (allocated_add 1) ;;
              refill_loop n' zone highest w mt refill'
          end
      end
  end.

(** Move the pages of [refill] to [pcp], marking each; [n] bounds the rounds. *)
Fixpoint publish_refill (n : nat) (refill pcp : PcpList) : M Pmm PcpList :=
  match n with
  | O => panic "loop bound"
  | S n' =>
      '(r, refill') ← with_core (PcpLists.pop t refill);
      match r with
      | None => ret pcp
      | Some cached =>
          pcp_mark cached ;;
          pcp' ← with_core (PcpLists.push pcp cached);
          publish_refill n' refill' pcp'
      end
  end.

Definition refill_current_pcp (zone highest : nat) (w : AllocWmark) (mt : MigrateType) : M Pmm (option Z) :=
  wanted ← gets (fun s => Z.max (batch (pcp_zone s zone)) 1);
  refill ← refill_loop (Z.to_nat wanted) zone highest w mt PcpLists.empty;
  let n := count refill in
  if n =? 0 then ret None else
  pfn ← with_current_pcp zone mt (fun pcp =>
    '(r, refill') ← with_core (PcpLists.pop t refill);
    pfn ← expect r "pcp refill lost its head";
    pcp' ← publish_refill (S (Z.to_nat (count refill'))) refill' pcp;
    pcp_free_add zone (n - 1) ;; zone_free_sub zone 1 ;;
    ret (pfn, pcp'));
  verify_pcp_node pfn zone mt ;;
  note_pcp_alloc ;;
  ret (Some pfn).

Fixpoint alloc_from_zones (zones : list ZoneType) (highest : nat) (w : AllocWmark) (mt : MigrateType)
    : M Pmm (option Z) :=
  match zones with
  | [] => ret None
  | zone :: zones' =>
      let zi := ZoneTypes.index zone in
      ok ← pcp_watermark_ok zi highest w;
      if negb ok then alloc_from_zones zones' highest w mt else
      r ← pop_current_pcp zi mt;
      match r with
      | Some pfn => ret (Some pfn)
      | None =>
          r ← refill_current_pcp zi highest w mt;
          match r with
          | Some pfn => ret (Some pfn)
          | None => alloc_from_zones zones' highest w mt
          end
      end
  end.

Definition alloc_from_pcp (highest : nat) (w : AllocWmark) (mt : MigrateType) : M Pmm (option Z) :=
  alloc_from_zones (Zonelists.walk (zonelist t) highest) highest w mt.

(** The rounds of [release_pcp_batch]. *)
Fixpoint release_loop (n : nat) (zone : nat) (mt : MigrateType) (list private : PcpList) : M Pmm PcpList :=
  match n with
  | O => panic "loop bound"
  | S n' =>
      '(r, list') ← with_core (PcpLists.pop t list);
      match r with
      | None => ret private
      | Some pfn =>
          verify_pcp_page pfn zone mt ;;
          pcp_unmark pfn ;;
          private' ← with_core (PcpLists.push private pfn);
          release_loop n' zone mt list' private'
      end
  end.

Definition release_pcp_batch (zone : nat) (mt : MigrateType) (list : PcpList) : M Pmm PcpList :=
  release_loop (S (Z.to_nat (count list))) zone mt list PcpLists.empty.

(** The rounds of [drain_pcp_list]. *)
Fixpoint drain_loop (n : nat) (zone : nat) (mt : MigrateType) (list : PcpList) : M Pmm unit :=
  match n with
  | O => panic "loop bound"
  | S n' =>
      '(r, list') ← with_core (PcpLists.pop t list);
      match r with
      | None => ret tt
      | Some pfn =>
          verify_pcp_node pfn zone mt ;;
          with_core (Buddy.return_to_buddy t pfn 0) ;;
          drain_loop n' zone mt list'
      end
  end.

Definition drain_pcp_list (zone : nat) (mt : MigrateType) (list : PcpList) : M Pmm unit :=
  drain_loop (S (Z.to_nat (count list))) zone mt list ;;
  on_inner (allocated_sub (count list)).

Fixpoint check_not_buddy (orders : list nat) (pfn : Z) : M Pmm unit :=
  match orders with
  | [] => ret tt
  | order :: orders' =>
      b ← buddy_marked pfn order;
      kassert (negb b) "pmm double free detected by bitmap" ;;
      check_not_buddy orders' pfn
  end.

Definition free_to_pcp (pfn : Z) : M Pmm unit :=
  let zone := Layout.index_of (layout t) pfn in
  mt ← pcp_type pfn;
  kassert (zone <? NR_ZONES)%nat "pmm pcp free pfn outside zone layout" ;;
  check_not_buddy (seq 0 ORDERS) pfn ;;
  high ← gets (fun s => PcpConfig.high (online_count e) (pcp_zone s zone));
  batch ← gets (fun s => Z.max (batch (pcp_zone s zone)) 1);
  drain ← with_current_pcp zone mt (fun pcp =>
    pcp_mark pfn ;;
    pcp1 ← with_core (PcpLists.push pcp pfn);
    '(drain, pcp2) ←
      (if high <? count pcp1 then
         '(list, pcp2) ← with_core (PcpLists.take t pcp1 batch);
         drain ← release_pcp_batch zone mt list;
         ret (drain, pcp2)
       else ret (PcpLists.empty, pcp1));
    zone_free_add zone 1 ;; pcp_free_add zone 1 ;; pcp_free_sub zone (count drain) ;;
    ret (drain, pcp2));
  note_pcp_free ;;
  if negb (count drain =? 0) then drain_pcp_list zone mt drain else ret tt.

(** One list of [drain_pcp_below]. *)
Definition drain_slot (zi : nat) (mt : MigrateType) (cpu : nat) : M Pmm bool :=
  list ← with_list cpu zi mt (fun pcp =>
    '(list, pcp') ← with_core (PcpLists.take t pcp U64_MAX);
    list' ← release_pcp_batch zi mt list;
    ret (list', pcp'));
  if count list =? 0 then ret false else
  pcp_free_sub zi (count list) ;;
  drain_pcp_list zi mt list ;;
  ret true.

Fixpoint drain_slots (slots : list (nat * MigrateType * nat)) (drained : bool) : M Pmm bool :=
  match slots with
  | [] => ret drained
  | (zi, mt, cpu) :: slots' =>
      d ← drain_slot zi mt cpu;
      drain_slots slots' (drained || d)
  end.

(** [for mt_index in 0..MIGRATE_TYPES { for cpu in 0..MAX_CPUS { .. } }]. *)
Definition zone_slots (zi : nat) : list (nat * MigrateType * nat) :=
  flat_map (fun mt_index => map (fun cpu => (zi, MigrateTypes.from_index mt_index, cpu)) (seq 0 MAX_CPUS))
    (seq 0 MIGRATE_TYPES).

Definition drain_pcp_below (highest : nat) : M Pmm bool :=
  drain_slots (flat_map (fun zone => zone_slots (ZoneTypes.index zone)) (Zonelists.walk (zonelist t) highest)) false.

End pcp.
End Pcp.

(** ** Allocation and freeing ([api.rs], [free.rs]) *)

Module Api.
Section api.
Context (t : Topology) (e : Env).

(** [sum += self.zone_free[zi]] over the zones. *)
Fixpoint sum_zones (zones : list nat) (f : Pmm -> nat -> Z) (sum : Z) : M Pmm Z :=
  match zones with
  | [] => ret sum
  | zi :: zones' => v ← gets (fun s => f s zi); sum' ← add64 sum v; sum_zones zones' f sum'
  end.

Definition free_pages : M Pmm Z := sum_zones (seq 0 NR_ZONES) zone_free 0.

(** [before_allocation] of [watermark.rs]: [wake_kswapd] only signals another
    thread. *)
Definition before_allocation (free requested : Z) : M Pmm unit :=
  p ← gets published;
  match Marks.allocation_policy p free requested with
  | Allow | WakeBackground => ret tt
  | DirectReclaim =>
      if direct_reclaim_allowed (in_atomic e) (io_flusher e)
      then _ ← direct_reclaim_once e; ret tt else ret tt
  end.

(** The header of each page of the block; the rest of the page is zeroed too. *)
Fixpoint zero_loop (n : nat) (pfn : Z) : M Core unit :=
  match n with
  | O => ret tt
  | S n' => write_node pfn zero_node ;; zero_loop n' (pfn + 1)
  end.

Definition zero_allocation (pfn : Z) (order : nat) : M Pmm unit :=
  with_core (zero_loop (Z.to_nat (pow2 order)) pfn).

(** The zonelist walk under the buddy lock. *)
Fixpoint take_from_entries (es : list nat) (o hi : nat) (w : AllocWmark) (mt : MigrateType)
    : M Pmm (option (Z * nat)) :=
  match es with
  | [] => ret None
  | zi :: es' =>
      if (hi <? zi)%nat then take_from_entries es' o hi w mt else
      match ZoneTypes.from_index zi with
      | None => take_from_entries es' o hi w mt
      | Some zone =>
          s ← get;
          let mark := mark_of (wmark (inner s) zi) w in
          let area := if (o =? 0)%nat then Pcp.area_with_pcp s zi else Buddy.free_area (core (inner s)) zi in
          if negb (Wmark.zone_watermark_ok zone o mark w (reserve (inner s)) hi area)
          then take_from_entries es' o hi w mt else
          r ← with_core (Buddy.take_block t zi o mt);
          match r with
          | Some pfn => ret (Some (pfn, zi))
          | None => take_from_entries es' o hi w mt
          end
      end
  end.

(** One pass of the loop of [alloc_inner_zoned]: take and account a block. *)
Definition take_global (o hi : nat) (w : AllocWmark) (mt : MigrateType) : M Pmm (option (Z * nat)) :=
  taken ← take_from_entries (entries (zonelist t)) o hi w mt;
  match taken with
  | None => ret None
  | Some (pfn, zi) =>
      with_core (Buddy.verify_poison pfn) ;;
      let pages := pow2 o in
      on_inner (allocated_add pages ;; modify (fun g => set_events (note_alloc pages (events g)) g)) ;;
      ret (Some (pfn, zi))
  end.

(** The loop runs at most twice: the second pass has [drained] set. *)
Fixpoint alloc_loop (fuel : nat) (drained : bool) (o hi : nat) (w : AllocWmark) (mt : MigrateType)
    : M Pmm (KResult Z) :=
  match fuel with
  | O => panic "loop bound"
  | S fuel' =>
      taken ← take_global o hi w mt;
      match taken with
      | Some (pfn, zi) =>
          zone_free_sub zi (pow2 o) ;;
          zero_allocation pfn o ;;
          ret (Ok pfn)
      | None =>
          if drained then ret (Err NoMem) else
          d ← Pcp.drain_pcp_below t hi;
          if negb d then ret (Err NoMem) else alloc_loop fuel' true o hi w mt
      end
  end.

Definition alloc_inner_zoned (order hi : nat) (w : AllocWmark) (mt : MigrateType) : M Pmm (KResult Z) :=
  if (MAX_ORDER <? order)%nat then ret (Err InvalidOrder) else
  r ← (if (order =? 0)%nat then Pcp.alloc_from_pcp t e hi w mt else ret None);
  match r with
  | Some pfn => zero_allocation pfn order ;; ret (Ok pfn)
  | None => alloc_loop 2 false order hi w mt
  end.

Definition ok_of {A} (r : KResult A) : option A := match r with Ok a => Some a | Err _ => None end.

(** [None] reports that the slowpath is still retrying after [fuel] passes. *)
Definition alloc_slowpath (fuel : nat) (order hi : nat) (gfp : Z) (mt : MigrateType) : M Pmm (option (KResult Z)) :=
  let allowed := slowpath_context e in
  let w := slowpath_wmark (grants_min_reserve gfp) allowed in
  r ← alloc_inner_zoned order hi w mt;
  match r with
  | Ok pfn => ret (Some (Ok pfn))
  | Err _ =>
      r ← Oom.run_slowpath order (r ← alloc_inner_zoned order hi w mt; ret (ok_of r))
            (direct_reclaim_once e) (invoke_oom e) fuel allowed;
      match r with
      | None => ret None
      | Some (Some pfn) => ret (Some (Ok pfn))
      | Some None => ret (Some (Err NoMem))
      end
  end.

Definition alloc_gfp_args (gfp : Z) : KResult (nat * MigrateType) :=
  match gfp_zone gfp with
  | None => Err InvalidOrder
  | Some zone =>
      match gfp_migratetype gfp with
      | None => Err InvalidOrder
      | Some mt => Ok (ZoneTypes.index zone, mt)
      end
  end.

Definition alloc_gfp_prepare (order : nat) (gfp : Z) : M Pmm (KResult (nat * MigrateType)) :=
  match alloc_gfp_args gfp with
  | Err er => ret (Err er)
  | Ok (hi, mt) =>
      (if (order <=? MAX_ORDER)%nat
       then free ← free_pages; before_allocation free (pow2 order) else ret tt) ;;
      ret (Ok (hi, mt))
  end.

(** [after_allocation] only signals the background reclaimer; what is left of
    [finish_allocation] is the sum it reads. *)
Definition finish_allocation (r : KResult Z) : M Pmm (KResult Z) :=
  match r with
  | Ok pfn => _ ← free_pages; ret (Ok pfn)
  | Err er => ret (Err er)
  end.

Definition alloc_gfp (fuel : nat) (order : nat) (gfp : Z) : M Pmm (option (KResult Z)) :=
  args ← alloc_gfp_prepare order gfp;
  match args with
  | Err er => ret (Some (Err er))
  | Ok (hi, mt) =>
      r ← alloc_inner_zoned order hi Low mt;
      r ← match r with
          | Err NoMem => alloc_slowpath fuel order hi gfp mt
          | r => ret (Some r)
          end;
      match r with
      | None => ret None
      | Some r => r ← finish_allocation r; ret (Some r)
      end
  end.

Definition alloc (fuel order : nat) : M Pmm (option (KResult Z)) := alloc_gfp fuel order 0.

Definition alloc_gfp_nowait (order : nat) (gfp : Z) : M Pmm (KResult Z) :=
  match alloc_gfp_args gfp with
  | Err er => ret (Err er)
  | Ok (hi, mt) => alloc_inner_zoned order hi Low mt
  end.

(** The bitmap check of [free] for [ck] in [order..=MAX_ORDER]. *)
Fixpoint check_not_free (orders : list nat) (pfn : Z) : M Core unit :=
  match orders with
  | [] => ret tt
  | ck :: orders' =>
      b ← Buddy.bitmap_get t ck (Z.shiftr pfn (Z.of_nat ck));
      kassert (negb b) "pmm double free detected by bitmap" ;;
      check_not_free orders' pfn
  end.

Definition free (pfn : Z) (order : nat) : M Pmm unit :=
  kassert (order <=? MAX_ORDER)%nat "pmm free invalid order" ;;
  kassert (pfn <? pfn_max t) "pmm free pfn out of range" ;;
  kassert (Z.land pfn (pow2 order - 1) =? 0) "pmm free pfn misaligned for order" ;;
  if (order =? 0)%nat then Pcp.free_to_pcp t e pfn else
  let zi := Layout.index_of (layout t) pfn in
  kassert (zi <? NR_ZONES)%nat "pmm free pfn outside zone layout" ;;
  with_core (check_not_free (Buddy.orders_from order) pfn) ;;
  with_core (Buddy.return_to_buddy t pfn order) ;;
  let pages := pow2 order in
  on_inner (allocated_sub pages ;; modify (fun g => set_events (note_free pages (events g)) g)) ;;
  zone_free_add zi pages.

(** The descent of [alloc_below]; [rungs] bounds it and [narrow_zone_bits]
    ends it after three. *)
Fixpoint below_loop (rungs fuel : nat) (order : nat) (limit gfp : Z) : M Pmm (option (KResult Z)) :=
  match rungs with
  | O => panic "loop bound"
  | S rungs' =>
      r ← alloc_gfp fuel order gfp;
      match r with
      | None => ret None
      | Some (Err er) => ret (Some (Err er))
      | Some (Ok pfn) =>
          let fits := match checked_add pfn (pow2 order) with Some end_ => end_ <=? limit | None => false end in
          if fits then ret (Some (Ok pfn)) else
          free pfn order ;;
          match narrow_zone_bits gfp with
          | None => ret (Some (Err NoMem))
          | Some next => below_loop rungs' fuel order limit next
          end
      end
  end.

Definition alloc_below (fuel : nat) (order : nat) (limit : Z) : M Pmm (option (KResult Z)) :=
  if (MAX_ORDER <? order)%nat then ret (Some (Err InvalidOrder)) else
  if limit <? pow2 order then ret (Some (Err NoMem)) else
  below_loop 3 fuel order limit (gfp_for_pfn_limit (layout t) limit).

(** Free blocks by order over every zone and class. *)
Definition free_orders : M Pmm (nat -> Z) :=
  gets (fun s o => sumZ (fun zi => sumZ (fun mt => free_count (core (inner s)) zi mt o) MigrateTypes.all) (seq 0 NR_ZONES)).

Definition allocated_pages : M Pmm Z :=
  cached ← sum_zones (seq 0 NR_ZONES) pcp_free 0;
  a ← gets (fun s => allocated (inner s));
  ret (sat_sub a cached).

Record PmmSnapshot := mkSnapshot {
  managed_pages : Z;
  snap_free_pages : Z;
  snap_allocated_pages : Z;
  reserved_pages : Z;
  snap_events : Events
}.

Definition snapshot : M Pmm PmmSnapshot :=
  free ← sum_zones (seq 0 NR_ZONES) zone_free 0;
  cached ← sum_zones (seq 0 NR_ZONES) pcp_free 0;
  s ← get;
  let g := inner s in
  let a := events g in
  let b := pcp_events s in
  ret (mkSnapshot (initial_free g) free (sat_sub (sat_sub (allocated g) cached) (reserved g)) (reserved g)
    (mkEvents (wrap64 (allocs a + allocs b)) (wrap64 (alloc_pages a + alloc_pages b))
              (wrap64 (frees a + frees b)) (wrap64 (free_pages_ev a + free_pages_ev b)))).

Record ZoneStat := mkZoneStat {
  zs_zone : ZoneType;
  zs_start_pfn : Z;
  zs_spanned_pages : Z;
  zs_present_pages : Z;
  zs_managed_pages : Z;
  zs_free_pages : Z;
  zs_free_orders : nat -> Z;
  zs_wmark : ZoneWatermarks;
  zs_lowmem_reserve : nat -> Z
}.

Definition zone_stat (s : Pmm) (zi : nat) : ZoneStat :=
  mkZoneStat (match ZoneTypes.from_index zi with Some z => z | None => MovableZone end)
    (start_pfn (Layout.span_at (layout t) zi)) (spanned (inner s) zi) (present (inner s) zi) (managed (inner s) zi)
    (zone_free s zi) (Buddy.free_area (core (inner s)) zi) (wmark (inner s) zi) (reserve (inner s) zi).

Definition zone_snapshot : M Pmm (list ZoneStat) := gets (fun s => map (zone_stat s) (seq 0 NR_ZONES)).

End api.
End Api.
