(* ===== verification/PmmBoot.v ===== *)
(** * Construction, early reservation and watermark refresh

    Models the boot side of the allocator: [seed_range] and
    [recompute_derived] of [crates/kernel/mm-pmm/src/buddy/inner.rs],
    [init_zoned_in_place] of [buddy/construct.rs], [reserve_early*] of
    [buddy/reserve.rs] and [refresh_watermarks] of [buddy/zones.rs].

    The backing ([PageBacking]) supplies zeroed bitmaps, as its contract says,
    an empty pageset table, and pages with whatever headers they hold. *)

From S2P Require Import Prelude Zone Watermark Buddy Pmm.

Record UsableRegion := mkRegion { region_start : Z; len_pfn : Z }.

(** [arch_default] of [limits.rs], by target architecture. *)
Inductive Arch := X86_64 | Aarch64.

Definition arch_default (a : Arch) (pfn_max page_bytes : Z) : ZoneLimits :=
  match a with
  | X86_64 => limits_x86_64 pfn_max page_bytes
  | Aarch64 => limits_aarch64 None 0 pfn_max page_bytes
  end.

Module Boot.
Section boot.
Context (t : Topology).

(** ** Derived thresholds *)

(** [self.managed.iter().sum()]. *)
Fixpoint sum_managed (zones : list nat) (sum : Z) : M Inner Z :=
  match zones with
  | [] => ret sum
  | zi :: zones' => v ← gets (fun g => managed g zi); sum' ← add64 sum v; sum_managed zones' sum'
  end.

Fixpoint derive_marks (zones : list nat) (total : Z) (tun : WatermarkTunables) (agg : ZoneWatermarks)
    : M Inner ZoneWatermarks :=
  match zones with
  | [] => ret agg
  | zi :: zones' =>
      let cap := (zi =? ZoneTypes.index MovableZone)%nat in
      m ← gets (fun g => managed g zi);
      let w := Marks.derive_zone_watermarks m total tun PAGE_SIZE_BYTES cap in
      modify (fun g => set_wmark (updn (wmark g) zi w) g) ;;
      mn ← add64 (wm_min agg) (wm_min w);
      lo ← add64 (wm_low agg) (wm_low w);
      hi ← add64 (wm_high agg) (wm_high w);
      pr ← add64 (wm_promo agg) (wm_promo w);
      derive_marks zones' total tun (mkMarks mn lo hi pr)
  end.

Definition recompute_derived : M Inner (option (Z * ZoneWatermarks)) :=
  modify (fun g => set_reserve (lowmem_reserve (managed g) DEFAULT_LOWMEM_RESERVE_RATIO) g) ;;
  total ← sum_managed (seq 0 NR_ZONES) 0;
  tun ← gets tunables;
  match tun with
  | None => ret None
  | Some tun => agg ← derive_marks (seq 0 NR_ZONES) total tun ZoneWatermarks_default; ret (Some (total, agg))
  end.

Definition refresh_pcp : M Pmm unit :=
  for_each (seq 0 NR_ZONES) (fun zi =>
    modify (fun s => set_pcp_zone (updn (pcp_zone s) zi
      (PcpConfig.refresh (pcp_zone s zi) (wmark (inner s) zi) (reserve (inner s) zi) (managed (inner s) zi))) s)).

(** [publish] of [watermark/cell.rs]; [load] reads a zero total as unpublished. *)
Definition publish_derived (d : option (Z * ZoneWatermarks)) : M Pmm unit :=
  match d with
  | None => ret tt
  | Some (total, agg) => modify (set_published (if total =? 0 then None else Some (total, agg)))
  end.

Definition refresh_watermarks (tun : WatermarkTunables) : M Pmm unit :=
  on_inner (modify (set_tunables (Some tun))) ;;
  d ← on_inner recompute_derived;
  refresh_pcp ;;
  publish_derived d.

(** ** Seeding *)

(** The largest order at [cur] that is aligned and fits before [end_]. *)
Fixpoint seed_order (order : nat) (cur end_ : Z) : nat :=
  match order with
  | O => O
  | S order' =>
      let span := pow2 order in
      if (Z.land cur (span - 1) =? 0) && (span <=? end_ - cur) then order else seed_order order' cur end_
  end.

(** [managed[zone] += n] and [present[zone] += n]. *)
Definition managed_add (zone : nat) (n : Z) : M Inner unit :=
  v ← gets (fun g => managed g zone); v' ← add64 v n;
  modify (fun g => set_managed (updn (managed g) zone v') g).
Definition present_add (zone : nat) (n : Z) : M Inner unit :=
  v ← gets (fun g => present g zone); v' ← add64 v n;
  modify (fun g => set_present (updn (present g) zone v') g).
Definition managed_sub (zone : nat) (n : Z) : M Inner unit :=
  v ← gets (fun g => managed g zone); v' ← sub64 v n;
  modify (fun g => set_managed (updn (managed g) zone v') g).

(** Each round seeds at least one page: [fuel] is the number of pages. *)
Fixpoint seed_loop (fuel : nat) (zone : nat) (cur end_ : Z) : M Inner unit :=
  if cur <? end_ then
    match fuel with
    | O => panic "loop bound"
    | S fuel' =>
        let order := seed_order MAX_ORDER cur end_ in
        let span := pow2 order in
        mt ← on_core (Buddy.migratetype t cur);
        on_core (Buddy.push_free t cur order mt) ;;
        on_core (Buddy.bitmap_set t order (Z.shiftr cur (Z.of_nat order))) ;;
        on_core (Buddy.count_inc zone mt order) ;;
        managed_add zone span ;;
        present_add zone span ;;
        next ← add64 cur span;
        seed_loop fuel' zone next end_
    end
  else ret tt.

Definition seed_within_zone (zone : nat) (cur end_ : Z) : M Inner unit :=
  seed_loop (Z.to_nat (end_ - cur)) zone cur end_.

Definition seed_range (start_ end_ : Z) : M Inner unit :=
  for_each (seq 0 NR_ZONES) (fun zone =>
    let span := Layout.span_at (layout t) zone in
    let lo := Z.max start_ (start_pfn span) in
    let hi := Z.min end_ (end_pfn span) in
    if lo <? hi then seed_within_zone zone lo hi else ret tt).

(** ** Early reservation *)

Fixpoint any_bit (orders : list nat) (p : Z) : M Core (option nat) :=
  match orders with
  | [] => ret None
  | o :: orders' =>
      b ← Buddy.bitmap_get t o (Z.shiftr p (Z.of_nat o));
      if (b : bool) then ret (Some o) else any_bit orders' p
  end.

(** The preflight of [reserve_early_exact] over [n] pages from [p]. *)
Fixpoint all_free (n : nat) (p : Z) : M Core bool :=
  match n with
  | O => ret true
  | S n' => r ← any_bit (seq 0 ORDERS) p; match r with None => ret false | Some _o => all_free n' (p + 1) end
  end.

(** Split [(blk, o)] down to the page [p], publishing the other half each time. *)
Fixpoint split_to (o : nat) (blk p : Z) (zi : nat) (mt : MigrateType) : M Core Z :=
  match o with
  | O => ret blk
  | S o' =>
      buddy ← add64 blk (pow2 o');
      if buddy <=? p then
        Buddy.push_free t blk o' mt ;;
        Buddy.bitmap_set t o' (Z.shiftr blk (Z.of_nat o')) ;;
        Buddy.count_inc zi mt o' ;;
        split_to o' buddy p zi mt
      else
        Buddy.push_free t buddy o' mt ;;
        Buddy.bitmap_set t o' (Z.shiftr buddy (Z.of_nat o')) ;;
        Buddy.count_inc zi mt o' ;;
        split_to o' blk p zi mt
  end.

Definition hibernate_forbid (pfn : Z) : M Pmm unit :=
  if pfn_max t <=? pfn then ret tt else
  modify (fun s => set_hibernate_forbidden
    (upd (hibernate_forbidden s) (Z.shiftr pfn 6)
         (Z.lor (hibernate_forbidden s (Z.shiftr pfn 6)) (Z.shiftl 1 (Z.land pfn 63)))) s).

Definition reserved_inc : M Inner unit :=
  r ← gets reserved; r' ← add64 r 1; modify (set_reserved r').

(** One page of [reserve_early_inner]. *)
Definition reserve_page (p : Z) (nosave : bool) : M Pmm unit :=
  k ← with_core (any_bit (seq 0 ORDERS) p);
  match k with
  | None => if nosave then hibernate_forbid p else ret tt
  | Some o =>
      let blk := Z.shiftl (Z.shiftr p (Z.of_nat o)) (Z.of_nat o) in
      let zi := Buddy.zi t blk in
      mt ← with_core (Buddy.migratetype t blk);
      with_core (Buddy.unlink_free t blk o mt) ;;
      with_core (Buddy.bitmap_clear t o (Z.shiftr blk (Z.of_nat o))) ;;
      with_core (Buddy.count_dec zi mt o) ;;
      blk' ← with_core (split_to o blk p zi mt);
      kassert (blk' =? p) "assertion left == right failed" ;;
      on_inner (allocated_add 1 ;; reserved_inc ;; managed_sub zi 1) ;;
      (if nosave then hibernate_forbid p else ret tt) ;;
      zone_free_sub zi 1
  end.

Fixpoint reserve_pages (n : nat) (p : Z) (nosave : bool) : M Pmm unit :=
  match n with
  | O => ret tt
  | S n' => reserve_page p nosave ;; reserve_pages n' (p + 1) nosave
  end.

Definition reserve_early_inner (start_ len : Z) (nosave exact : bool) : M Pmm (KResult unit) :=
  match checked_add start_ len with
  | None => ret (Err OutOfRange)
  | Some end_ =>
      if pfn_max t <? end_ then ret (Err OutOfRange) else
      ok ← (if exact then with_core (all_free (Z.to_nat (end_ - start_)) start_) else ret true);
      if negb ok then ret (Err Overlap) else
      reserve_pages (Z.to_nat (end_ - start_)) start_ nosave ;;
      d ← on_inner recompute_derived;
      refresh_pcp ;;
      publish_derived d ;;
      ret (Ok tt)
  end.

Definition reserve_early (start_ len : Z) := reserve_early_inner start_ len false false.
Definition reserve_early_nosave (start_ len : Z) := reserve_early_inner start_ len true false.
Definition reserve_early_exact (start_ len : Z) := reserve_early_inner start_ len true true.

End boot.

(** ** Construction *)

(** [pfn_max] and [total] over the regions. *)
Fixpoint scan_regions (rs : list UsableRegion) (pfn_max total : Z) : KResult (Z * Z) :=
  match rs with
  | [] => Ok (pfn_max, total)
  | r :: rs' =>
      match checked_add (region_start r) (len_pfn r) with
      | None => Err OutOfRange
      | Some end_ =>
          let pfn_max' := if pfn_max <? end_ then end_ else pfn_max in
          match checked_add total (len_pfn r) with
          | None => Err OutOfRange
          | Some total' => scan_regions rs' pfn_max' total'
          end
      end
  end.

Definition region_end (r : UsableRegion) : Z := region_start r + len_pfn r.

(** Some region of [rs] shares a page with [a]. *)
Definition overlaps_any (a : UsableRegion) (rs : list UsableRegion) : bool :=
  existsb (fun b => negb (len_pfn b =? 0) && (region_start a <? region_end b) && (region_start b <? region_end a)) rs.

Fixpoint any_overlap (rs : list UsableRegion) : bool :=
  match rs with
  | [] => false
  | a :: rs' => (negb (len_pfn a =? 0) && overlaps_any a rs') || any_overlap rs'
  end.

(** The state before seeding: no block is listed and the bitmaps are zero. *)
Definition blank_inner (l : ZoneLayout) (mem : Z -> FreeNode) (total : Z) : Inner :=
  mkInner (mkCore (fun _ _ => 0) (fun _ => 0) (fun _ _ _ => PFN_NULL) (fun _ _ _ => 0) mem)
    (fun _ => 0) (fun _ => 0) (fun zi => spanned_pages (Layout.span_at l zi)) (fun _ _ => 0)
    (fun _ => ZoneWatermarks_default) None 0 0 total (mkEvents 0 0 0 0).

(** [init_zoned_in_place]: on success the topology and the allocator. *)
Definition init_zoned (arch : Arch) (mem : Z -> FreeNode) (regions : list UsableRegion) (limits : option ZoneLimits)
    : res (KResult (Topology * Pmm)) :=
  match regions with
  | [] => Done (Err OutOfRange)
  | _ =>
    match scan_regions regions 0 0 with
    | Err er => Done (Err er)
    | Ok (pfn_max, total) =>
      if any_overlap regions then Done (Err Overlap) else
      let l := Layout.new (match limits with Some lim => lim | None => arch_default arch pfn_max PAGE_SIZE_BYTES end)
                          pfn_max in
      let t0 := mkTopology pfn_max l Zonelist_default in
      let movable := Layout.span l MovableZone in
      let build : M Inner unit :=
        for_each (seq 0 ORDERS) (fun o => n ← add64 pfn_max (pow2 o); _ ← sub64 n 1; ret tt) ;;
        on_core (Pageblock.set_range t0 (start_pfn movable) (end_pfn movable) Movable) ;;
        for_each regions (fun r => seed_range t0 (region_start r) (region_end r)) ;;
        _ ← recompute_derived;
        ret tt in
      match build (blank_inner l mem total) with
      | Panic msg => Panic msg
      | Done (_, g) =>
          let zl := Zonelists.build (fun zi => 0 <? managed g zi) in
          let s := mkPmm g (fun _ => PcpLists.empty) (fun _ => 0) (fun _ => 0)
            (fun zi => Buddy.zone_free_pages (core g) zi) (fun _ => 0)
            (fun zi => PcpConfig.new (wmark g zi) (reserve g zi) (managed g zi))
            (mkEvents 0 0 0 0) None in
          Done (Ok (mkTopology pfn_max l zl, s))
      end
    end
  end.

End Boot.
