(* ===== verification/PmmInv.v ===== *)
(** * The page allocator: ownership and accounting invariant

    Every page handed to the allocator at boot is, at any quiescent point, in
    exactly one place: a free block of the buddy lists, a pageset list, a
    block held by a caller, or a permanent reservation. [own] states it over
    the concrete state, with the representation of the pageset lists and of
    their ownership bitmap; [acct] relates the counters to the sizes of the
    parts. [pmm_inv] is the conjunction. *)

From S2P Require Import Prelude Zone Watermark Buddy BuddyInv BuddyOps BuddySpec Pmm.

#[global] Opaque MAX_CPUS.

(** ** Pageset lists *)

(** The pages of [l] are linked by [n_next] and carry the order-0 free header. *)
Fixpoint pchain (mem : Z -> FreeNode) (l : list Z) : Prop :=
  match l with
  | [] => True
  | p :: l' => mem p = mkNode POISON_MAGIC 0 (List.hd PFN_NULL l') PFN_NULL /\ pchain mem l'
  end.

Definition plist (mem : Z -> FreeNode) (h : PcpList) (l : list Z) : Prop :=
  head h = List.hd PFN_NULL l /\ count h = Z.of_nat (length l) /\ pchain mem l.

Lemma pchain_frame mem mem' l : (forall p, p ∈ l -> mem' p = mem p) -> pchain mem l -> pchain mem' l.
Proof.
  induction l as [|p l IH]; intros Hf; [done|]. intros [Hp Hl]. split; [by rewrite Hf by left|].
  apply IH; [|done]. intros q Hq. apply Hf. by right.
Qed.

Lemma plist_frame mem mem' h l : (forall p, p ∈ l -> mem' p = mem p) -> plist mem h l -> plist mem' h l.
Proof. intros Hf (? & ? & ?). split_and!; [done|done|]. by eapply pchain_frame. Qed.

Lemma pchain_node mem l p : pchain mem l -> p ∈ l -> n_poison (mem p) = POISON_MAGIC /\ n_order (mem p) = 0.
Proof.
  induction l as [|q l IH]; intros Hc Hp; [by apply not_elem_of_nil in Hp|]. destruct Hc as [Hq Hc].
  apply elem_of_cons in Hp as [->|Hp]; [by rewrite Hq|auto].
Qed.

(** [c'] is [c] with other headers on the pages of [l]. *)
Definition stamped (c c' : Core) (l : list Z) : Prop :=
  bitmaps c' = bitmaps c /\ pageblocks c' = pageblocks c /\ free_heads c' = free_heads c /\
  free_count c' = free_count c /\ forall q, q ∉ l -> pages c' q = pages c q.

Lemma stamped_refl c l : stamped c c l.
Proof. done. Qed.

Lemma stamped_trans c1 c2 c3 l : stamped c1 c2 l -> stamped c2 c3 l -> stamped c1 c3 l.
Proof.
  intros (H1 & H2 & H3 & H4 & H5) (J1 & J2 & J3 & J4 & J5). split_and!; try congruence.
  intros q Hq. rewrite J5 by done. auto.
Qed.

Lemma stamped_mono c c' l l' : stamped c c' l -> l ⊆ l' -> stamped c c' l'.
Proof. intros (H1 & H2 & H3 & H4 & H5) Hl. split_and!; try done. intros q Hq. apply H5. auto. Qed.

Lemma stamped_node c p n : stamped c (with_node c p n) [p].
Proof. split_and!; try done. intros q Hq. apply upd_ne. intros ->. apply Hq. left. Qed.

Lemma stamped_mt c c' l x : stamped c c' l -> mt_of c' x = mt_of c x.
Proof. intros (_ & H & _). by apply mt_of_pageblocks. Qed.

Lemma stamped_placed t c c' l z m p o : stamped c c' l -> placed t c z m p o -> placed t c' z m p o.
Proof. intros Hs. apply placed_types. intros x _. by eapply stamped_mt. Qed.

(** The buddy lists do not depend on headers outside the free blocks. *)
Lemma stamped_core_inv t c c' l F :
  stamped c c' l -> (forall q, q ∈ l -> fcov F q = 0) -> core_inv t c F -> core_inv t c' F.
Proof.
  intros Hs Hl Hinv. destruct Hs as (Hb & Hp & Hh & Hn & Hg). split.
  - intros. rewrite Hh. by apply (inv_heads _ _ _ Hinv).
  - intros z m o Hz Ho. eapply dseg_frame; [|by apply (inv_links _ _ _ Hinv)].
    intros q Hq. apply Hg. intros Hin. apply Hl in Hin.
    apply (elem_cov t c F Hinv z m o Hz Ho) in Hq. lia.
  - intros. rewrite Hn. by apply (inv_count _ _ _ Hinv).
  - intros o i Ho Hi. rewrite (bit_bitmaps c c' o i Hb). by apply (inv_bits _ _ _ Hinv).
  - intros z m o q Hz Ho Hq. eapply placed_types; [|by apply (inv_placed _ _ _ Hinv)].
    intros x _. by apply mt_of_pageblocks.
  - apply (inv_disjoint _ _ _ Hinv).
Qed.

Section pcplist.
Context (t : Topology) (Ht : topo_wf t).

Lemma push_run h l p c (Q : PcpList -> Core -> Prop) :
  plist (pages c) h l -> p ∉ l -> Z.of_nat (length l) < U64_MAX ->
  (forall h' c', stamped c c' [p] -> plist (pages c') h' (p :: l) -> Q h' c') ->
  wp (PcpLists.push h p) Q c.
Proof.
  intros (Hh & Hn & Hc) Hp Hlen HQ. unfold PcpLists.push, write_node. repeat wp_step; [lia|].
  apply HQ; [apply stamped_node|]. split_and!; [done|cbn [count length]; lia|].
  split; [cbn [pages set_pages]; by rewrite upd_eq, Hh|].
  eapply pchain_frame; [|exact Hc]. intros q Hq. apply upd_ne. congruence.
Qed.

Lemma pop_run_nil h c (Q : option Z * PcpList -> Core -> Prop) :
  plist (pages c) h [] -> Q (None, h) c -> wp (PcpLists.pop t h) Q c.
Proof. intros (_ & Hn & _) HQ. unfold PcpLists.pop. cbn in Hn. rewrite Hn, Z.eqb_refl. by wp_step. Qed.

Lemma pop_run_cons h p l c (Q : option Z * PcpList -> Core -> Prop) :
  plist (pages c) h (p :: l) -> NoDup (p :: l) -> (forall q, q ∈ p :: l -> 0 <= q < pfn_max t) ->
  (forall h', plist (pages c) h' l -> Q (Some p, h') c) ->
  wp (PcpLists.pop t h) Q c.
Proof.
  intros (Hh & Hn & [Hp Hc]) Hnd Hr HQ. apply NoDup_cons in Hnd as [Hpl _]. unfold PcpLists.pop.
  rewrite Hh. cbn [List.hd]. pose proof (Hr p ltac:(left)).
  rewrite (proj2 (Z.eqb_neq _ _)) by (cbn [length] in Hn; lia).
  assert (Hhd : List.hd PFN_NULL l = PFN_NULL \/ List.hd PFN_NULL l ∈ l).
  { destruct l; [by left|right; left]. }
  wp_step. wp_step; [apply Z.ltb_lt; lia|]. unfold read_node. wp_step. wp_step. rewrite Hp. cbn [n_next].
  wp_step. wp_step.
  { apply range_check. destruct Hhd as [|Hin]; [by left|right]. apply Hr. by right. }
  wp_step. wp_step.
  { apply negb_true_iff, Z.eqb_neq. destruct Hhd as [->|Hin]; [|congruence].
    destruct Ht as [? _]. unfold PFN_NULL, U64_MAX. lia. }
  wp_step. wp_step; [cbn [length] in Hn; lia|]. wp_step. apply HQ.
  split_and!; [done|cbn [count length] in *; lia|done].
Qed.

(** [take]: the first [n] pages move, in reverse, to a detached list. *)
Lemma take_loop_run n h l out lo c (Q : PcpList * PcpList -> Core -> Prop) :
  plist (pages c) h l -> plist (pages c) out lo -> NoDup (l ++ lo) ->
  (forall q, q ∈ l -> 0 <= q < pfn_max t) -> (n <= length l)%nat ->
  Z.of_nat (length lo + n) <= U64_MAX ->
  (forall h' out' c', stamped c c' (take n l) -> plist (pages c') h' (drop n l) ->
    plist (pages c') out' (rev (take n l) ++ lo) -> Q (out', h') c') ->
  wp (PcpLists.take_loop t n h out) Q c.
Proof.
  revert h l out lo c Q. induction n as [|n IH]; intros h l out lo c Q Hl Hlo Hnd Hr Hn Hb HQ.
  { cbn [PcpLists.take_loop]. wp_step. by apply HQ. }
  destruct l as [|p l]; [cbn in Hn; lia|]. cbn [PcpLists.take_loop].
  assert (Hnd' := Hnd). cbn [app] in Hnd'. apply NoDup_cons in Hnd' as [Hp Hnd2].
  rewrite elem_of_app in Hp.
  wp_step. eapply (pop_run_cons h p l); [done|by apply NoDup_app in Hnd as [? _]|done|].
  intros h' Hh'. cbn beta iota. wp_step. wp_step. wp_step. apply (push_run out lo p); [done|tauto|lia|].
  intros out' c1 Hs1 Ho1. cbn [length] in Hn.
  assert (Hl1 : plist (pages c1) h' l).
  { eapply plist_frame; [|exact Hh']. intros q Hq. apply Hs1. rewrite list_elem_of_singleton. intros ->. tauto. }
  apply (IH h' l out' (p :: lo) c1 Q); [done|done| | |lia|cbn [length]; lia|].
  - rewrite NoDup_app in Hnd2 |- *. destruct Hnd2 as (H1 & H2 & H3). split_and!; [done| |].
    + intros q Hq. rewrite not_elem_of_cons. split; [intros ->; tauto|auto].
    + apply NoDup_cons. tauto.
  - intros q Hq. apply Hr. by right.
  - intros h2 out2 c2 Hs2 Hh2 Ho2. apply HQ; cbn [take drop rev]; [|done|by rewrite <- app_assoc].
    eapply stamped_trans; (eapply stamped_mono; [eassumption|]); intros q Hq; rewrite elem_of_cons;
      [rewrite list_elem_of_singleton in Hq; by left|by right].
Qed.

End pcplist.

(** ** Ownership *)

(** The pages cached per zone, mobility class and CPU. *)
Definition pagesets : Type := nat -> MigrateType -> nat -> list Z.

Definition pcov (P : pagesets) (x : Z) : Z := fsumN MAX_CPUS (fun p _ => cov x p 0) P.
Definition acov (A : list (Z * nat)) (x : Z) : Z := sumZ (fun b => cov x b.1 b.2) A.
Definition rcov (R : list Z) (x : Z) : Z := sumZ (fun p => cov x p 0) R.

(** In how many places page [x] is. *)
Definition cover (F : blocks) (P : pagesets) (A : list (Z * nat)) (R : list Z) (x : Z) : Z :=
  fcov F x + pcov P x + acov A x + rcov R x.

Definition pbit (bm : Z -> Z) (i : Z) : bool := Z.testbit (bm (Z.shiftr i 6)) (Z.land i 63).

Record own (t : Topology) (Sd : Z -> Z) (c : Core) (tbl : nat -> PcpList) (bm : Z -> Z)
    (F : blocks) (P : pagesets) (A : list (Z * nat)) (R : list Z) : Prop := {
  own_core : core_inv t c F;
  own_list : forall z m cpu, (z < NR_ZONES)%nat -> (cpu < MAX_CPUS)%nat ->
    plist (pages c) (tbl (Pcp.list_slot cpu z m)) (P z m cpu);
  own_placed : forall z m cpu p, (z < NR_ZONES)%nat -> (cpu < MAX_CPUS)%nat ->
    p ∈ P z m cpu -> placed t c z m p 0;
  own_bits : forall i, 0 <= i ->
    pbit bm i = true <-> exists z m cpu, (z < NR_ZONES)%nat /\ (cpu < MAX_CPUS)%nat /\ i ∈ P z m cpu;
  own_alloc : forall p o, (p, o) ∈ A -> exists z m, placed t c z m p o;
  own_part : forall x, cover F P A R x = Sd x;
  own_seed : forall x, Sd x <= 1
}.

Lemma pcov_nonneg P x : 0 <= pcov P x.
Proof. apply fsum_nonneg. intros. apply cov_range. Qed.

Lemma acov_nonneg A x : 0 <= acov A x.
Proof. apply sumZ_nonneg. intros. apply cov_range. Qed.

Lemma rcov_nonneg R x : 0 <= rcov R x.
Proof. apply sumZ_nonneg. intros. apply cov_range. Qed.

Lemma acov_cons p o A x : acov ((p, o) :: A) x = cov x p o + acov A x.
Proof. done. Qed.

Lemma acov_app A B x : acov (A ++ B) x = acov A x + acov B x.
Proof. apply sumZ_app. Qed.

Lemma pcov_upd P z m cpu l x :
  (z < NR_ZONES)%nat -> (cpu < MAX_CPUS)%nat ->
  pcov (upd3 P z m cpu l) x = pcov P x - sumZ (fun p => cov x p 0) (P z m cpu) + sumZ (fun p => cov x p 0) l.
Proof. intros. unfold pcov. by rewrite fsum_upd. Qed.

Lemma pcov_cons P z m cpu p x :
  (z < NR_ZONES)%nat -> (cpu < MAX_CPUS)%nat ->
  pcov (upd3 P z m cpu (p :: P z m cpu)) x = pcov P x + cov x p 0.
Proof. intros. rewrite pcov_upd, sumZ_cons by done. lia. Qed.

Lemma pcov_tl P z m cpu p l x :
  (z < NR_ZONES)%nat -> (cpu < MAX_CPUS)%nat -> P z m cpu = p :: l ->
  pcov (upd3 P z m cpu l) x = pcov P x - cov x p 0.
Proof. intros ? ? HP. rewrite pcov_upd, HP, sumZ_cons by done. lia. Qed.

Lemma cov0 x p : cov x p 0 = if x =? p then 1 else 0.
Proof.
  bool_case (x =? p); [subst; apply cov_base|]. apply cov_out. rewrite pow2_0. lia.
Qed.

Section own_facts.
Context (t : Topology) (Ht : topo_wf t) (Sd : Z -> Z) (c : Core) (tbl : nat -> PcpList) (bm : Z -> Z).
Context (F : blocks) (P : pagesets) (A : list (Z * nat)) (R : list Z).
Context (Hown : own t Sd c tbl bm F P A R).

Lemma own_cases x :
  0 <= fcov F x /\ 0 <= pcov P x /\ 0 <= acov A x /\ 0 <= rcov R x /\
  fcov F x + pcov P x + acov A x + rcov R x <= 1.
Proof.
  pose proof (fcov_nonneg F x). pose proof (pcov_nonneg P x). pose proof (acov_nonneg A x).
  pose proof (rcov_nonneg R x). pose proof (own_part _ _ _ _ _ _ _ _ _ Hown x) as H3.
  pose proof (own_seed _ _ _ _ _ _ _ _ _ Hown x). unfold cover in H3. lia.
Qed.

Lemma cached_cov z m cpu p :
  (z < NR_ZONES)%nat -> (cpu < MAX_CPUS)%nat -> p ∈ P z m cpu -> pcov P p = 1 /\ fcov F p = 0 /\ acov A p = 0.
Proof.
  intros Hz Hc Hp. pose proof (own_cases p).
  assert (1 <= pcov P p); [|lia].
  pose proof (fsum_class_le MAX_CPUS (fun q _ => cov p q 0) P z m cpu ltac:(intros; apply cov_range) Hz Hc) as Hle.
  pose proof (sumZ_elem_le (fun q => cov p q 0) (P z m cpu) p ltac:(intros; apply cov_range) Hp) as Hle2.
  cbn in Hle2. rewrite cov_base in Hle2. unfold pcov. cbn beta in Hle. lia.
Qed.

Lemma cached_NoDup z m cpu : (z < NR_ZONES)%nat -> (cpu < MAX_CPUS)%nat -> NoDup (P z m cpu).
Proof.
  intros Hz Hc. assert (H : forall x, sumZ (fun p => cov x p 0) (P z m cpu) <= 1).
  { intros x. pose proof (own_cases x).
    pose proof (fsum_class_le MAX_CPUS (fun q _ => cov x q 0) P z m cpu ltac:(intros; apply cov_range) Hz Hc).
    unfold pcov in *. cbn beta in *. lia. }
  induction (P z m cpu) as [|p l IH]; [constructor|]. apply NoDup_cons. split.
  - intros Hp. specialize (H p). rewrite sumZ_cons, cov_base in H.
    pose proof (sumZ_elem_le (fun q => cov p q 0) l p ltac:(intros; apply cov_range) Hp) as Hle.
    cbn in Hle. rewrite cov_base in Hle. lia.
  - apply IH. intros x. specialize (H x). rewrite sumZ_cons in H. pose proof (cov_range x p 0). lia.
Qed.

Lemma cached_unique z m cpu z' m' cpu' p :
  (z < NR_ZONES)%nat -> (cpu < MAX_CPUS)%nat -> (z' < NR_ZONES)%nat -> (cpu' < MAX_CPUS)%nat ->
  p ∈ P z m cpu -> p ∈ P z' m' cpu' -> (z', m', cpu') = (z, m, cpu).
Proof.
  intros Hz Hc Hz' Hc' Hp Hp'. destruct (class_dec (z', m', cpu') (z, m, cpu)) as [|Hne]; [done|exfalso].
  pose proof (fsum_two_le MAX_CPUS (fun q _ => cov p q 0) P z m cpu z' m' cpu'
    ltac:(intros; apply cov_range) Hz Hc Hz' Hc' Hne) as Hle.
  pose proof (sumZ_elem_le (fun q => cov p q 0) (P z m cpu) p ltac:(intros; apply cov_range) Hp) as H1.
  pose proof (sumZ_elem_le (fun q => cov p q 0) (P z' m' cpu') p ltac:(intros; apply cov_range) Hp') as H2.
  cbn in H1, H2. rewrite cov_base in H1, H2. pose proof (own_cases p). unfold pcov in *.
  cbn beta in Hle. lia.
Qed.

Lemma cached_range z m cpu p :
  (z < NR_ZONES)%nat -> (cpu < MAX_CPUS)%nat -> p ∈ P z m cpu -> 0 <= p < pfn_max t.
Proof.
  intros Hz Hc Hp. pose proof (own_placed _ _ _ _ _ _ _ _ _ Hown z m cpu p Hz Hc Hp) as Hpl.
  apply placed_range in Hpl; [|done]. pose proof (pow2_pos 0). lia.
Qed.

Lemma held_cov p o x : (p, o) ∈ A -> p <= x < p + pow2 o -> acov A x = 1 /\ fcov F x = 0 /\ pcov P x = 0.
Proof.
  intros Hp Hx. pose proof (own_cases x).
  pose proof (sumZ_elem_le (fun b => cov x b.1 b.2) A (p, o) ltac:(intros; apply cov_range) Hp) as Hle.
  cbn in Hle. rewrite cov_in in Hle by done. unfold acov in *. lia.
Qed.

(** Headers of pages that are neither free nor cached do not matter. *)
Lemma own_stamped c' l :
  stamped c c' l -> (forall q, q ∈ l -> fcov F q = 0 /\ pcov P q = 0) -> own t Sd c' tbl bm F P A R.
Proof.
  intros Hs Hl. split.
  - eapply stamped_core_inv; [done| |apply Hown]. intros q Hq. exact (proj1 (Hl q Hq)).
  - intros z m cpu Hz Hc. eapply plist_frame; [|by apply (own_list _ _ _ _ _ _ _ _ _ Hown)].
    intros p Hp. apply Hs. intros Hin. apply Hl in Hin as [_ Hin].
    apply (cached_cov z m cpu p Hz Hc) in Hp as [Hp _]. lia.
  - intros z m cpu p Hz Hc Hp. eapply stamped_placed; [done|]. by eapply (own_placed _ _ _ _ _ _ _ _ _ Hown).
  - apply Hown.
  - intros p o Hp. destruct (own_alloc _ _ _ _ _ _ _ _ _ Hown p o Hp) as (z & m & Hpl).
    exists z, m. by eapply stamped_placed.
  - apply Hown.
  - apply Hown.
Qed.

Lemma own_tbl_ext tbl' : (forall s, tbl' s = tbl s) -> own t Sd c tbl' bm F P A R.
Proof. intros Heq. destruct Hown. split; try done. intros z m cpu Hz Hc. rewrite Heq. auto. Qed.

(** The order of the blocks held does not matter. *)
Lemma own_perm A' : A ≡ₚ A' -> own t Sd c tbl bm F P A' R.
Proof.
  intros Hp. assert (Hc : forall x, acov A' x = acov A x) by (intros; by apply sumZ_perm).
  destruct Hown. split; try done.
  - intros p o Hin. apply own_alloc0. by rewrite Hp.
  - intros x. rewrite <- own_part0. unfold cover. by rewrite Hc.
Qed.

End own_facts.
