(* ===== verification/PmmOps.v ===== *)
(** * The page allocator: transitions between owners

    The moves of a page between the buddy lists, the pagesets and the callers,
    as lemmas on [own], and the evaluation of the pageset operations of
    [crates/kernel/mm-pmm/src/buddy/pcp.rs] on states that satisfy it. *)

From S2P Require Import Prelude Zone Watermark Buddy BuddyInv BuddyOps BuddySpec Pmm PmmInv.

Abbreviation cr s := (core (inner s)).

(** [s] with other buddy lists, pagesets, ownership bitmap and allocated
    count; the counters and the configuration are those of [s]. *)
Definition put (s : Pmm) (c : Core) (tbl : nat -> PcpList) (bm : Z -> Z) (a : Z) : Pmm :=
  mkPmm (set_allocated a (set_core c (inner s))) tbl bm (hibernate_forbidden s)
    (zone_free s) (pcp_free s) (pcp_zone s) (pcp_events s) (published s).

Definition putc (s : Pmm) (c : Core) (bm : Z -> Z) : Pmm := put s c (pcp s) bm (allocated (inner s)).

(** Compute the fields of an updated state. *)
Ltac fields :=
  cbn [put putc inner pcp pcp_bitmap hibernate_forbidden zone_free pcp_free pcp_zone pcp_events published
       core managed present spanned reserve wmark tunables allocated reserved initial_free events
       set_inner set_pcp set_pcp_bitmap set_hibernate_forbidden set_zone_free set_pcp_free set_pcp_zone
       set_pcp_events set_published set_core set_managed set_present set_reserve set_wmark set_tunables
       set_allocated set_reserved set_events] in *.

Lemma putc_id s : putc s (cr s) (pcp_bitmap s) = s.
Proof. by destruct s as [[]]. Qed.

Lemma wp_with_core {A} (m : M Core A) (Q : A -> Pmm -> Prop) s :
  wp m (fun a c' => Q a (putc s c' (pcp_bitmap s))) (cr s) -> wp (with_core m) Q s.
Proof. intros H. by apply wp_zoom, wp_zoom. Qed.

Lemma wpe_with_core {A} E (m : M Core A) (Q : A -> Pmm -> Prop) s :
  wp m (fun a c' => Q a (putc s c' (pcp_bitmap s))) (cr s) -> wpe E (with_core m) Q s.
Proof. intros H. by apply wpe_wp, wp_with_core. Qed.

Lemma wp_allocated_add n (Q : unit -> Pmm -> Prop) s :
  allocated (inner s) + n <= U64_MAX -> Q tt (put s (cr s) (pcp s) (pcp_bitmap s) (allocated (inner s) + n)) ->
  wp (on_inner (allocated_add n)) Q s.
Proof. intros Hb HQ. apply wp_zoom. unfold allocated_add. by repeat wp_step. Qed.

Lemma wp_allocated_sub n (Q : unit -> Pmm -> Prop) s :
  n <= allocated (inner s) -> Q tt (put s (cr s) (pcp s) (pcp_bitmap s) (allocated (inner s) - n)) ->
  wp (on_inner (allocated_sub n)) Q s.
Proof. intros Hb HQ. apply wp_zoom. unfold allocated_sub. by repeat wp_step. Qed.

(** ** Slots of the pageset table *)

Lemma list_slot_bound cpu z m : (z < NR_ZONES)%nat -> (Pcp.list_slot cpu z m < PCP_SLOTS)%nat.
Proof.
  unfold Pcp.list_slot, PCP_SLOTS, NR_ZONES, MIGRATE_TYPES. intros Hz.
  assert (MigrateTypes.index m < 3)%nat by (destruct m; cbn; lia).
  assert (MAX_CPUS = 256)%nat as -> by done. lia.
Qed.

Lemma list_slot_inj cpu z m cpu' z' m' :
  (z < NR_ZONES)%nat -> (z' < NR_ZONES)%nat -> (cpu < MAX_CPUS)%nat -> (cpu' < MAX_CPUS)%nat ->
  Pcp.list_slot cpu z m = Pcp.list_slot cpu' z' m' -> (z', m', cpu') = (z, m, cpu).
Proof.
  unfold Pcp.list_slot, NR_ZONES, MIGRATE_TYPES. intros Hz Hz' Hc Hc' Heq.
  assert (MAX_CPUS = 256)%nat as Hm by done.
  assert (Hi : forall m, (MigrateTypes.index m < 3)%nat) by (intros []; cbn; lia).
  pose proof (Hi m). pose proof (Hi m').
  assert (MigrateTypes.index m = MigrateTypes.index m' /\ z = z' /\ cpu = cpu') as (Hx & -> & ->) by lia.
  assert (m = m') as -> by (destruct m, m'; cbn in Hx; (done || lia)). done.
Qed.

(** The slot of a CPU number past the table is the last one. *)
Definition cpu_of (cpu : nat) : nat := Nat.min cpu (MAX_CPUS - 1).

Lemma cpu_of_bound cpu : (cpu_of cpu < MAX_CPUS)%nat.
Proof. unfold cpu_of. assert (MAX_CPUS = 256)%nat as -> by done. lia. Qed.

Lemma list_slot_cpu_of cpu z m : Pcp.list_slot (cpu_of cpu) z m = Pcp.list_slot cpu z m.
Proof. unfold Pcp.list_slot, cpu_of. by rewrite <- Nat.min_assoc, Nat.min_id. Qed.

(** [tbl'] is [tbl] with [h] in one slot. *)
Definition slot_set (tbl tbl' : nat -> PcpList) (slot : nat) (h : PcpList) : Prop :=
  tbl' slot = h /\ forall s, s <> slot -> tbl' s = tbl s.

Lemma slot_set_updn tbl slot h : slot_set tbl (updn tbl slot h) slot h.
Proof. split; [apply updn_eq|]. intros. by apply updn_ne. Qed.

(** ** The ownership bitmap *)

(** [bm'] is [bm] with the bits of [l] set to [b]. *)
Definition bits_set (bm bm' : Z -> Z) (l : list Z) (b : bool) : Prop :=
  forall i, 0 <= i -> pbit bm' i = if decide (i ∈ l) then b else pbit bm i.

Lemma land_bit_eqb w p : (Z.land w (Z.shiftl 1 (Z.land p 63)) =? 0) = negb (Z.testbit w (Z.land p 63)).
Proof.
  pose proof (land63_range p) as Hr. set (b := Z.land p 63) in *.
  destruct (Z.testbit w b) eqn:E; cbn [negb].
  - apply Z.eqb_neq. intros H0. assert (Hb : Z.testbit (Z.land w (Z.shiftl 1 b)) b = true).
    { by rewrite Z.land_spec, E, testbit_pow2, Z.eqb_refl by lia. }
    by rewrite H0, Z.bits_0 in Hb.
  - apply Z.eqb_eq, Z.bits_inj'. intros i Hi. rewrite Z.land_spec, Z.bits_0, testbit_pow2 by lia.
    bool_case (i =? b); [subst; by rewrite E|apply andb_false_r].
Qed.

Lemma bits_set_one bm p b w' :
  (forall i, 0 <= i < 64 -> Z.testbit w' i = if i =? Z.land p 63 then b else Z.testbit (bm (Z.shiftr p 6)) i) ->
  bits_set bm (upd bm (Z.shiftr p 6) w') [p] b.
Proof.
  intros Hw i Hi. unfold pbit. pose proof (land63_range i).
  destruct (decide (Z.shiftr i 6 = Z.shiftr p 6)) as [Hs|Hs].
  - rewrite Hs, upd_eq, Hw by done. bool_case (Z.land i 63 =? Z.land p 63).
    + rewrite decide_True; [done|]. apply list_elem_of_singleton. by apply bit_index_inj.
    + rewrite decide_False; [done|]. rewrite list_elem_of_singleton. by intros ->.
  - rewrite upd_ne by done. rewrite decide_False; [done|]. rewrite list_elem_of_singleton. by intros ->.
Qed.

Section bitmap.
Context (t : Topology) (p : Z) (Hp : 0 <= p < pfn_max t).

Lemma wp_pcp_word s (Q : Z -> Pmm -> Prop) :
  Q (pcp_bitmap s (Z.shiftr p 6)) s -> wp (Pcp.pcp_word t p) Q s.
Proof.
  intros HQ. unfold Pcp.pcp_word. wp_step. wp_step; [|by wp_step].
  rewrite !shiftr6. apply andb_true_iff. split; [apply Z.leb_le, Z.div_pos; lia|].
  apply Z.ltb_lt. apply Z.div_lt_upper_bound; [lia|].
  pose proof (Z.div_mod (pfn_max t + 63) 64). pose proof (Z.mod_pos_bound (pfn_max t + 63) 64). lia.
Qed.

Lemma wp_pcp_mark s (Q : unit -> Pmm -> Prop) :
  pbit (pcp_bitmap s) p = false ->
  (forall bm', bits_set (pcp_bitmap s) bm' [p] true -> Q tt (putc s (cr s) bm')) ->
  wp (Pcp.pcp_mark t p) Q s.
Proof.
  intros Hb HQ. unfold Pcp.pcp_mark. wp_step. apply wp_pcp_word. wp_step. wp_step. wp_step.
  - unfold Pcp.pcp_bit. rewrite land_bit_eqb. unfold pbit in Hb. by rewrite Hb.
  - destruct s as [[] ? ? ? ? ? ? ? ?]. apply HQ, bits_set_one. intros i Hi.
    unfold Pcp.pcp_bit. rewrite Z.lor_spec, testbit_pow2 by apply land63_range.
    destruct (_ =? _); [apply orb_true_r|apply orb_false_r].
Qed.

Lemma wp_pcp_unmark s (Q : unit -> Pmm -> Prop) :
  pbit (pcp_bitmap s) p = true ->
  (forall bm', bits_set (pcp_bitmap s) bm' [p] false -> Q tt (putc s (cr s) bm')) ->
  wp (Pcp.pcp_unmark t p) Q s.
Proof.
  intros Hb HQ. unfold Pcp.pcp_unmark. wp_step. apply wp_pcp_word. wp_step. wp_step. wp_step.
  - unfold Pcp.pcp_bit. rewrite land_bit_eqb. unfold pbit in Hb. by rewrite Hb.
  - destruct s as [[] ? ? ? ? ? ? ? ?]. apply HQ, bits_set_one. intros i Hi. pose proof (land63_range p).
    unfold Pcp.pcp_bit. rewrite Z.land_spec, testbit_not64, testbit_pow2 by lia.
    destruct (_ =? _); [apply andb_false_r|apply andb_true_r].
Qed.

Lemma wp_pcp_marked s (Q : bool -> Pmm -> Prop) :
  Q (pbit (pcp_bitmap s) p) s -> wp (Pcp.pcp_marked t p) Q s.
Proof.
  intros HQ. unfold Pcp.pcp_marked. wp_step. apply wp_pcp_word. wp_step.
  unfold Pcp.pcp_bit. by rewrite land_bit_eqb, negb_involutive.
Qed.

End bitmap.

(** ** Moves between owners *)

Section moves.
Context (t : Topology) (Ht : topo_wf t) (Sd : Z -> Z) (tbl : nat -> PcpList).

(** A block leaves the free lists for a caller. *)
Lemma own_take c bm F P A R z o req p c' F' m :
  own t Sd c tbl bm F P A R ->
  core_inv t c' F' -> placed t c' z m p o -> moved F F' z (fun g => - g p o) ->
  (forall q, fcov F q = 0 -> pages c' q = pages c q) ->
  (forall x, 0 <= x -> mt_of c' x = mt_of c x \/ (mt_of c' x = req /\ fcov F x = 1)) ->
  own t Sd c' tbl bm F' P ((p, o) :: A) R.
Proof.
  intros Hown Hinv' Hpl Hmv Hfr Hmt.
  assert (Hty : forall z0 m0 p0 o0, (forall x, p0 <= x < p0 + pow2 o0 -> fcov F x = 0) ->
    placed t c z0 m0 p0 o0 -> placed t c' z0 m0 p0 o0).
  { intros z0 m0 p0 o0 H0 Hp0. eapply placed_types; [|exact Hp0]. intros x Hx.
    pose proof (placed_range t Ht _ _ _ _ _ Hp0). pose proof (H0 x Hx) as Hx0.
    destruct (Hmt x ltac:(lia)) as [|[_ ?]]; [done|lia]. }
  split.
  - done.
  - intros z0 m0 cpu Hz Hc. eapply plist_frame; [|by apply (own_list _ _ _ _ _ _ _ _ _ Hown)].
    intros q Hq. apply Hfr. eapply (cached_cov t Sd c tbl bm F P A R Hown); [..|exact Hq]; done.
  - intros z0 m0 cpu q Hz Hc Hq. apply Hty; [|by eapply (own_placed _ _ _ _ _ _ _ _ _ Hown)].
    intros x Hx. rewrite pow2_0 in Hx. assert (x = q) as -> by lia.
    eapply (cached_cov t Sd c tbl bm F P A R Hown); [..|exact Hq]; done.
  - apply Hown.
  - intros q o' Hq. apply elem_of_cons in Hq as [Heq|Hq]; [injection Heq as -> ->; eauto|].
    destruct (own_alloc _ _ _ _ _ _ _ _ _ Hown q o' Hq) as (z0 & m0 & Hp0). exists z0, m0.
    apply Hty; [|done]. intros x Hx. exact (proj1 (proj2 (held_cov t Sd c tbl bm F P A R Hown q o' x Hq Hx))).
  - intros x. rewrite <- (own_part _ _ _ _ _ _ _ _ _ Hown x). unfold cover.
    rewrite (moved_fcov _ _ _ _ x (pl_zone _ _ _ _ _ _ Hpl) Hmv), acov_cons. lia.
  - apply Hown.
Qed.

(** A block held by a caller returns to the free lists. *)
Lemma own_return c bm F P A R z p o c' F' :
  own t Sd c tbl bm F P ((p, o) :: A) R -> (z < NR_ZONES)%nat ->
  core_inv t c' F' -> moved F F' z (fun g => g p o) -> pageblocks c' = pageblocks c ->
  (forall q, fcov F q = 0 -> ~ (p <= q < p + pow2 o) -> pages c' q = pages c q) ->
  own t Sd c' tbl bm F' P A R.
Proof.
  intros Hown Hz Hinv' Hmv Hpb Hfr. split.
  - done.
  - intros z0 m0 cpu Hz0 Hc. eapply plist_frame; [|by apply (own_list _ _ _ _ _ _ _ _ _ Hown)].
    intros q Hq. destruct (cached_cov t Sd c tbl bm F P _ R Hown z0 m0 cpu q Hz0 Hc Hq) as (Hq1 & Hq2 & _).
    apply Hfr; [done|]. intros Hin.
    pose proof (held_cov t Sd c tbl bm F P _ R Hown p o q ltac:(left) Hin). lia.
  - intros z0 m0 cpu q Hz0 Hc Hq. eapply placed_types; [|by eapply (own_placed _ _ _ _ _ _ _ _ _ Hown)].
    intros. by apply mt_of_pageblocks.
  - apply Hown.
  - intros q o' Hq. destruct (own_alloc _ _ _ _ _ _ _ _ _ Hown q o') as (z0 & m0 & Hp0); [by right|].
    exists z0, m0. eapply placed_types; [|exact Hp0]. intros. by apply mt_of_pageblocks.
  - intros x. rewrite <- (own_part _ _ _ _ _ _ _ _ _ Hown x). unfold cover.
    rewrite (moved_fcov _ _ _ _ x Hz Hmv), acov_cons. lia.
  - apply Hown.
Qed.

Lemma acov_pages l A x : acov (map (fun p => (p, 0%nat)) l ++ A) x = sumZ (fun p => cov x p 0) l + acov A x.
Proof. unfold acov. by rewrite sumZ_app, sumZ_map. Qed.

(** Pages held by a caller enter a pageset. *)
Lemma own_cache c bm F P A R z m cpu l ln c' tbl' bm' h' :
  own t Sd c tbl bm F P (map (fun p => (p, 0%nat)) l ++ A) R -> (z < NR_ZONES)%nat -> (cpu < MAX_CPUS)%nat ->
  (forall p, p ∈ l -> placed t c z m p 0) -> ln ≡ₚ l ++ P z m cpu ->
  stamped c c' l -> plist (pages c') h' ln -> slot_set tbl tbl' (Pcp.list_slot cpu z m) h' ->
  bits_set bm bm' l true ->
  own t Sd c' tbl' bm' F (upd3 P z m cpu ln) A R.
Proof.
  intros Hown Hz Hc Hpl Hln Hst Hh' [Hs1 Hs2] Hbm.
  assert (Hcov : forall p, p ∈ l -> fcov F p = 0 /\ pcov P p = 0).
  { intros p Hp. apply (held_cov t Sd c tbl bm F P _ R Hown p 0 p); [|rewrite pow2_0; lia].
    apply elem_of_app. left. apply list_elem_of_fmap. eauto. }
  pose proof (own_stamped t Sd c tbl bm F P _ R Hown c' l Hst Hcov) as Hown'. clear Hown.
  assert (Helem : forall z0 m0 cpu0 q, q ∈ upd3 P z m cpu ln z0 m0 cpu0 <->
    ((z0, m0, cpu0) = (z, m, cpu) /\ q ∈ l) \/ q ∈ P z0 m0 cpu0).
  { intros z0 m0 cpu0 q. destruct (class_dec (z0, m0, cpu0) (z, m, cpu)) as [Heq|Hne].
    - injection Heq as -> -> ->. rewrite upd3_eq, Hln, elem_of_app. tauto.
    - rewrite upd3_ne by done. tauto. }
  split.
  - apply Hown'.
  - intros z0 m0 cpu0 Hz0 Hc0. destruct (class_dec (z0, m0, cpu0) (z, m, cpu)) as [Heq|Hne].
    + injection Heq as -> -> ->. by rewrite upd3_eq, Hs1.
    + rewrite upd3_ne by done. rewrite Hs2; [by apply (own_list _ _ _ _ _ _ _ _ _ Hown')|].
      intros Heq. apply Hne. eapply list_slot_inj; [done|done|done|done|symmetry; exact Heq].
  - intros z0 m0 cpu0 q Hz0 Hc0 Hq. apply Helem in Hq as [[Heq Hq]|Hq].
    + injection Heq as -> -> ->. eapply stamped_placed; [done|auto].
    + by apply (own_placed _ _ _ _ _ _ _ _ _ Hown' z0 m0 cpu0).
  - intros i Hi. rewrite Hbm by done. setoid_rewrite Helem. destruct (decide (i ∈ l)) as [Hin|Hin].
    + split; [|done]. intros _. exists z, m, cpu. auto.
    + rewrite (own_bits _ _ _ _ _ _ _ _ _ Hown') by done.
      split; intros (z0 & m0 & cpu0 & ? & ? & Hq); exists z0, m0, cpu0; (split_and!; [done|done|]); tauto.
  - intros q o' Hq. apply (own_alloc _ _ _ _ _ _ _ _ _ Hown'). apply elem_of_app. by right.
  - intros x. rewrite <- (own_part _ _ _ _ _ _ _ _ _ Hown' x). unfold cover.
    rewrite pcov_upd, acov_pages, <- (sumZ_perm _ _ _ Hln), sumZ_app by done. lia.
  - apply Hown'.
Qed.

(** The first pages of a pageset leave it for a caller. *)
Lemma own_uncache c bm F P A R z m cpu l1 l2 c' tbl' bm' h' :
  own t Sd c tbl bm F P A R -> (z < NR_ZONES)%nat -> (cpu < MAX_CPUS)%nat -> P z m cpu = l1 ++ l2 ->
  stamped c c' l1 -> plist (pages c') h' l2 -> slot_set tbl tbl' (Pcp.list_slot cpu z m) h' ->
  bits_set bm bm' l1 false ->
  own t Sd c' tbl' bm' F (upd3 P z m cpu l2) (map (fun p => (p, 0%nat)) l1 ++ A) R.
Proof.
  intros Hown Hz Hc HP Hst Hh' [Hs1 Hs2] Hbm.
  pose proof (cached_NoDup t Sd c tbl bm F P A R Hown z m cpu Hz Hc) as Hnd. rewrite HP in Hnd.
  apply NoDup_app in Hnd as (_ & Hdis & _).
  assert (Hl1 : forall q, q ∈ l1 -> q ∈ P z m cpu) by (intros q Hq; rewrite HP, elem_of_app; by left).
  assert (Helem : forall z0 m0 cpu0 q, (z0 < NR_ZONES)%nat -> (cpu0 < MAX_CPUS)%nat ->
    q ∈ upd3 P z m cpu l2 z0 m0 cpu0 <-> q ∈ P z0 m0 cpu0 /\ q ∉ l1).
  { intros z0 m0 cpu0 q Hz0 Hc0. destruct (class_dec (z0, m0, cpu0) (z, m, cpu)) as [Heq|Hne].
    - injection Heq as -> -> ->. rewrite upd3_eq, HP, elem_of_app. naive_solver.
    - rewrite upd3_ne by done. split; [|tauto]. intros Hq. split; [done|]. intros Hin. apply Hne.
      eapply (cached_unique t Sd c tbl bm F P A R Hown z m cpu _ _ _ q); auto. }
  split.
  - eapply stamped_core_inv; [done| |apply Hown]. intros q Hq.
    exact (proj1 (proj2 (cached_cov t Sd c tbl bm F P A R Hown z m cpu q Hz Hc (Hl1 q Hq)))).
  - intros z0 m0 cpu0 Hz0 Hc0. destruct (class_dec (z0, m0, cpu0) (z, m, cpu)) as [Heq|Hne].
    + injection Heq as -> -> ->. by rewrite upd3_eq, Hs1.
    + rewrite upd3_ne by done. rewrite Hs2.
      * eapply plist_frame; [|by apply (own_list _ _ _ _ _ _ _ _ _ Hown)]. intros q Hq. apply Hst.
        intros Hin. apply Hne. eapply (cached_unique t Sd c tbl bm F P A R Hown z m cpu _ _ _ q); auto.
      * intros Heq. apply Hne. eapply list_slot_inj; [done|done|done|done|symmetry; exact Heq].
  - intros z0 m0 cpu0 q Hz0 Hc0 Hq. apply Helem in Hq as [Hq _]; [|done|done].
    eapply stamped_placed; [done|]. by apply (own_placed _ _ _ _ _ _ _ _ _ Hown z0 m0 cpu0).
  - intros i Hi. rewrite Hbm by done. destruct (decide (i ∈ l1)) as [Hin|Hin].
    + split; [done|]. intros (z0 & m0 & cpu0 & Hz0 & Hc0 & Hq). by apply Helem in Hq as [_ Hq].
    + rewrite (own_bits _ _ _ _ _ _ _ _ _ Hown) by done.
      split; intros (z0 & m0 & cpu0 & Hz0 & Hc0 & Hq); exists z0, m0, cpu0; (split_and!; [done|done|]);
        [by apply Helem|by apply Helem in Hq as [? _]].
  - intros q o' Hq. apply elem_of_app in Hq as [Hq|Hq].
    + apply list_elem_of_fmap in Hq as (p & Heq & Hp). injection Heq as -> ->. exists z, m.
      eapply stamped_placed; [done|]. apply (own_placed _ _ _ _ _ _ _ _ _ Hown z m cpu); auto.
    + destruct (own_alloc _ _ _ _ _ _ _ _ _ Hown q o' Hq) as (z0 & m0 & Hp0). exists z0, m0.
      by eapply stamped_placed.
  - intros x. rewrite <- (own_part _ _ _ _ _ _ _ _ _ Hown x). unfold cover.
    rewrite acov_pages, pcov_upd, HP, sumZ_app by done. lia.
  - apply Hown.
Qed.

End moves.

(** ** Accounting *)

Definition psize (P : pagesets) (z : nat) : Z := zsumN MAX_CPUS (fun _ _ => 1) P z.
Definition ptotal (P : pagesets) : Z := fsumN MAX_CPUS (fun _ _ => 1) P.
Definition asize (A : list (Z * nat)) : Z := sumZ (fun b => pow2 b.2) A.
Definition azsize (t : Topology) (A : list (Z * nat)) (z : nat) : Z :=
  sumZ (fun b => at_zone (Buddy.zi t b.1) z (pow2 b.2)) A.
Definition fsize (F : blocks) (z : nat) : Z := zsum (fun _ o => pow2 o) F z.
Definition ftotal (F : blocks) : Z := fsum (fun _ o => pow2 o) F.

Record acct (t : Topology) (s : Pmm) (F : blocks) (P : pagesets) (A : list (Z * nat)) (R : list Z) : Prop := {
  ac_zone_free : forall z, (z < NR_ZONES)%nat -> zone_free s z = fsize F z + psize P z;
  ac_pcp_free : forall z, (z < NR_ZONES)%nat -> pcp_free s z = psize P z;
  ac_managed : forall z, (z < NR_ZONES)%nat -> managed (inner s) z = fsize F z + psize P z + azsize t A z;
  ac_allocated : allocated (inner s) = ptotal P + asize A + Z.of_nat (length R);
  ac_reserved : reserved (inner s) = Z.of_nat (length R);
  ac_total : initial_free (inner s) = ftotal F + ptotal P + asize A + Z.of_nat (length R);
  ac_bound : initial_free (inner s) <= 2 ^ 52
}.

(** The invariant of the allocator between operations. *)
Definition sown t Sd s F P A R := own t Sd (cr s) (pcp s) (pcp_bitmap s) F P A R.
Definition pmm_inv t Sd s F P A R := sown t Sd s F P A R /\ acct t s F P A R.

Section sizes.
Context (F : blocks) (P : pagesets).

Lemma fsize_nonneg z : 0 <= fsize F z.
Proof. apply zsum_nonneg. intros. pose proof (pow2_pos o). lia. Qed.
Lemma psize_nonneg z : 0 <= psize P z.
Proof. apply zsum_nonneg. lia. Qed.
Lemma ftotal_sum : ftotal F = sumZ (fsize F) (seq 0 NR_ZONES).
Proof. done. Qed.
Lemma ptotal_sum : ptotal P = sumZ (psize P) (seq 0 NR_ZONES).
Proof. done. Qed.

Lemma zone_le_total (f : nat -> Z) z :
  (forall z, 0 <= f z) -> (z < NR_ZONES)%nat -> f z <= sumZ f (seq 0 NR_ZONES).
Proof. intros Hf Hz. apply sumZ_elem_le; [auto|]. apply elem_of_seq. lia. Qed.

Lemma fsize_le z : (z < NR_ZONES)%nat -> fsize F z <= ftotal F.
Proof. rewrite ftotal_sum. apply zone_le_total, fsize_nonneg. Qed.
Lemma psize_le z : (z < NR_ZONES)%nat -> psize P z <= ptotal P.
Proof. rewrite ptotal_sum. apply zone_le_total, psize_nonneg. Qed.

Lemma ftotal_nonneg : 0 <= ftotal F.
Proof. apply fsum_nonneg. intros. pose proof (pow2_pos o). lia. Qed.
Lemma ptotal_nonneg : 0 <= ptotal P.
Proof. apply fsum_nonneg. lia. Qed.

Lemma psize_upd z m cpu l z' :
  (z' < NR_ZONES)%nat -> (cpu < MAX_CPUS)%nat ->
  psize (upd3 P z m cpu l) z' = psize P z' + at_zone z z' (Z.of_nat (length l) - Z.of_nat (length (P z m cpu))).
Proof. intros. unfold psize, at_zone. by rewrite zsum_upd, !sumZ_one. Qed.

Lemma ptotal_upd z m cpu l :
  (z < NR_ZONES)%nat -> (cpu < MAX_CPUS)%nat ->
  ptotal (upd3 P z m cpu l) = ptotal P - Z.of_nat (length (P z m cpu)) + Z.of_nat (length l).
Proof. intros. unfold ptotal. by rewrite fsum_upd, !sumZ_one. Qed.

Lemma plen_le z m cpu : (z < NR_ZONES)%nat -> (cpu < MAX_CPUS)%nat -> Z.of_nat (length (P z m cpu)) <= psize P z.
Proof.
  intros Hz Hc. pose proof (psize_upd z m cpu [] z Hz Hc) as H. pose proof (zsum_nonneg MAX_CPUS (fun _ _ => 1)
    (upd3 P z m cpu []) z ltac:(lia)) as Hn. fold (psize (upd3 P z m cpu []) z) in Hn.
  unfold at_zone in H. rewrite Nat.eqb_refl in H. cbn [length] in H. lia.
Qed.

End sizes.

Lemma asize_nonneg A : 0 <= asize A.
Proof. apply sumZ_nonneg. intros [p o] _. cbn. pose proof (pow2_pos o). lia. Qed.

Lemma asize_cons p o A : asize ((p, o) :: A) = pow2 o + asize A.
Proof. done. Qed.

Lemma azsize_cons t p o A z : azsize t ((p, o) :: A) z = at_zone (Buddy.zi t p) z (pow2 o) + azsize t A z.
Proof. done. Qed.

Lemma azsize_nonneg t A z : 0 <= azsize t A z.
Proof. apply sumZ_nonneg. intros [p o] _. cbn. pose proof (pow2_pos o). unfold at_zone. destruct (_ =? _)%nat; lia. Qed.

Lemma azsize_le t A z : azsize t A z <= asize A.
Proof.
  apply sumZ_le. intros [p o] _. unfold at_zone. pose proof (pow2_pos o). destruct (_ =? _)%nat; cbn; lia.
Qed.

Lemma moved_fsize F F' z w : moved F F' z w -> forall z', (z' < NR_ZONES)%nat ->
  fsize F' z' = fsize F z' + at_zone z z' (w (fun _ o => pow2 o)).
Proof. intros Hm z' Hz'. apply Hm; [apply size_additive|done]. Qed.

Lemma moved_ftotal F F' z w : (z < NR_ZONES)%nat -> moved F F' z w -> ftotal F' = ftotal F + w (fun _ o => pow2 o).
Proof. intros Hz. apply moved_fsum; [done|apply size_additive]. Qed.

(** Every counter stays far from the width of a word. *)
Lemma acct_bounds t s F P A R :
  acct t s F P A R ->
  (forall z, (z < NR_ZONES)%nat ->
    0 <= psize P z /\ 0 <= fsize F z /\ fsize F z + psize P z <= 2 ^ 52 /\ psize P z <= ptotal P) /\
  0 <= ptotal P /\ 0 <= ftotal F /\ 0 <= asize A /\
  ftotal F + ptotal P + asize A + Z.of_nat (length R) <= 2 ^ 52.
Proof.
  intros Ha. pose proof (ac_total _ _ _ _ _ _ Ha). pose proof (ac_bound _ _ _ _ _ _ Ha).
  pose proof (ptotal_nonneg P). pose proof (ftotal_nonneg F). pose proof (asize_nonneg A). split; [|lia].
  intros z Hz. pose proof (fsize_nonneg F z). pose proof (psize_nonneg P z).
  pose proof (fsize_le F z Hz). pose proof (psize_le P z Hz). lia.
Qed.

(** [n] pages of zone [z] more in each part of the state. *)
Definition grows (f f' : nat -> Z) (tot tot' : Z) (z : nat) (n : Z) : Prop :=
  (forall z', (z' < NR_ZONES)%nat -> f' z' = f z' + at_zone z z' n) /\ tot' = tot + n.

Lemma grows_moved F F' z w : (z < NR_ZONES)%nat -> moved F F' z w ->
  grows (fsize F) (fsize F') (ftotal F) (ftotal F') z (w (fun _ o => pow2 o)).
Proof. intros Hz Hm. split; [by apply moved_fsize|by apply (moved_ftotal F F' z)]. Qed.

Lemma grows_refl f tot z : grows f f tot tot z 0.
Proof. split; [|lia]. intros. unfold at_zone. destruct (_ =? _)%nat; lia. Qed.

Lemma grows_trans f1 f2 f3 t1 t2 t3 z n1 n2 n :
  grows f1 f2 t1 t2 z n1 -> grows f2 f3 t2 t3 z n2 -> n = n1 + n2 -> grows f1 f3 t1 t3 z n.
Proof.
  intros [H1 H2] [H3 H4] ->. split; [|lia]. intros z' Hz'. rewrite H3, H1 by done.
  unfold at_zone. destruct (_ =? _)%nat; lia.
Qed.

Lemma grows_upd P z m cpu l : (z < NR_ZONES)%nat -> (cpu < MAX_CPUS)%nat ->
  grows (psize P) (psize (upd3 P z m cpu l)) (ptotal P) (ptotal (upd3 P z m cpu l)) z
    (Z.of_nat (length l) - Z.of_nat (length (P z m cpu))).
Proof. intros Hz Hc. split; [intros; by apply psize_upd|rewrite ptotal_upd by done; lia]. Qed.

Lemma grows_held t p o A z : Buddy.zi t p = z ->
  grows (azsize t A) (azsize t ((p, o) :: A)) (asize A) (asize ((p, o) :: A)) z (pow2 o).
Proof. intros <-. split; [intros; rewrite azsize_cons; lia|rewrite asize_cons; lia]. Qed.

Lemma grows_unheld t p o A z : Buddy.zi t p = z ->
  grows (azsize t ((p, o) :: A)) (azsize t A) (asize ((p, o) :: A)) (asize A) z (- pow2 o).
Proof.
  intros <-. split; [intros; rewrite azsize_cons|rewrite asize_cons; lia].
  unfold at_zone. destruct (_ =? _)%nat; lia.
Qed.

(** Pages of zone [z] move between the parts and the counters follow. *)
Lemma acct_step t s s' F P A R F' P' A' z df dp da :
  acct t s F P A R ->
  grows (fsize F) (fsize F') (ftotal F) (ftotal F') z df ->
  grows (psize P) (psize P') (ptotal P) (ptotal P') z dp ->
  grows (azsize t A) (azsize t A') (asize A) (asize A') z da ->
  df + dp + da = 0 ->
  (forall z', (z' < NR_ZONES)%nat -> zone_free s' z' = zone_free s z' + at_zone z z' (df + dp)) ->
  (forall z', (z' < NR_ZONES)%nat -> pcp_free s' z' = pcp_free s z' + at_zone z z' dp) ->
  managed (inner s') = managed (inner s) -> allocated (inner s') = allocated (inner s) - df ->
  reserved (inner s') = reserved (inner s) -> initial_free (inner s') = initial_free (inner s) ->
  acct t s' F' P' A' R.
Proof.
  intros [Zf Pf Mg Al Rs Tt Bd] [Hf HF] [Hp HP] [Ha HA] H0 Hz Hc Hm Hal Hr Hi.
  split; rewrite ?Hm, ?Hr, ?Hi; try lia.
  - intros z' Hz'. rewrite Hz, Zf, Hf, Hp by done. unfold at_zone. destruct (_ =? _)%nat; lia.
  - intros z' Hz'. rewrite Hc, Pf, Hp by done. lia.
  - intros z' Hz'. rewrite Mg, Hf, Hp, Ha by done. unfold at_zone. destruct (_ =? _)%nat; lia.
Qed.
