(* ===== verification/PmmPcp.v ===== *)
(** * The page allocator: the pagesets

    The operations of [crates/kernel/mm-pmm/src/buddy/pcp.rs] on states that
    satisfy [pmm_inv]: popping a cached page, refilling from the buddy lists,
    freeing into a pageset with its drain, and draining every pageset. The
    only panic a refill can reach is the class check on a page stolen from
    another mobility class. *)

From S2P Require Import Prelude Zone Watermark Buddy BuddyInv BuddyOps BuddySpec Pmm PmmInv PmmOps.

(** What the operations never change. *)
Definition cfg (s : Pmm) :=
  (pcp_zone s, wmark (inner s), reserve (inner s), tunables (inner s), published s, initial_free (inner s)).

Section counters.
Context (s : Pmm) (z : nat) (n : Z) (Q : unit -> Pmm -> Prop).

Lemma wp_zone_free_sub :
  0 <= zone_free s z - n <= U64_MAX -> Q tt (set_zone_free (updn (zone_free s) z (zone_free s z - n)) s) ->
  wp (zone_free_sub z n) Q s.
Proof. intros H HQ. apply wp_modify. by rewrite wrap64_small. Qed.
Lemma wp_zone_free_add :
  0 <= zone_free s z + n <= U64_MAX -> Q tt (set_zone_free (updn (zone_free s) z (zone_free s z + n)) s) ->
  wp (zone_free_add z n) Q s.
Proof. intros H HQ. apply wp_modify. by rewrite wrap64_small. Qed.
Lemma wp_pcp_free_sub :
  0 <= pcp_free s z - n <= U64_MAX -> Q tt (set_pcp_free (updn (pcp_free s) z (pcp_free s z - n)) s) ->
  wp (pcp_free_sub z n) Q s.
Proof. intros H HQ. apply wp_modify. by rewrite wrap64_small. Qed.
Lemma wp_pcp_free_add :
  0 <= pcp_free s z + n <= U64_MAX -> Q tt (set_pcp_free (updn (pcp_free s) z (pcp_free s z + n)) s) ->
  wp (pcp_free_add z n) Q s.
Proof. intros H HQ. apply wp_modify. by rewrite wrap64_small. Qed.

End counters.

(** A per-zone counter after an update, next to [at_zone]. *)
Lemma updn_at_zone (f : nat -> Z) z z' d : updn f z (f z + d) z' = f z' + at_zone z z' d.
Proof.
  unfold at_zone. destruct (z' =? z)%nat eqn:E; to_prop; [subst; by rewrite updn_eq|].
  rewrite updn_ne by done. lia.
Qed.

Lemma updn_at_zone_sub (f : nat -> Z) z z' d : updn f z (f z - d) z' = f z' - at_zone z z' d.
Proof.
  unfold at_zone. destruct (z' =? z)%nat eqn:E; to_prop; [subst; by rewrite updn_eq|].
  rewrite updn_ne by done. lia.
Qed.

Lemma updn_self {B} (f : nat -> B) i j : updn f i (f i) j = f j.
Proof. unfold updn. destruct (j =? i)%nat eqn:E; [|done]. by apply Nat.eqb_eq in E as ->. Qed.

Lemma at_zone_same z w : at_zone z z w = w.
Proof. unfold at_zone. by rewrite Nat.eqb_refl. Qed.

Section pcp.
Context (t : Topology) (Ht : topo_wf t) (Sd : Z -> Z) (e : Env).

Lemma placed_index c z m p o : placed t c z m p o -> Layout.index_of (layout t) p = z.
Proof. intros []. apply index_of_span; [done|done|]. pose proof (pow2_pos o). lia. Qed.

Lemma wp_pcp_type s p (Q : MigrateType -> Pmm -> Prop) :
  0 <= p < pfn_max t -> Q (mt_of (cr s) p) s -> wp (Pcp.pcp_type t p) Q s.
Proof.
  intros Hp HQ. apply wp_with_core. apply (wp_migratetype t Ht p); [done|]. by rewrite putc_id.
Qed.

Lemma wp_verify_node s z m p (Q : unit -> Pmm -> Prop) :
  placed t (cr s) z m p 0 -> n_poison (pages (cr s) p) = POISON_MAGIC -> n_order (pages (cr s) p) = 0 ->
  Q tt s -> wp (Pcp.verify_pcp_node t p z m) Q s.
Proof.
  intros Hpl Hpo Hor HQ. pose proof (placed_range t Ht _ _ _ _ _ Hpl). rewrite pow2_0 in *.
  unfold Pcp.verify_pcp_node. wp_step. wp_step; [apply Nat.eqb_eq; by eapply placed_index|].
  wp_step. apply wp_pcp_type; [lia|]. rewrite (placed_mt _ _ _ _ _ _ Hpl).
  wp_step. wp_step; [apply MigrateTypes.eqb_refl|]. wp_step. apply wp_with_core. unfold read_node. wp_step.
  rewrite putc_id. wp_step. wp_step; [by rewrite Hpo|]. wp_step; [by rewrite Hor|done].
Qed.

Lemma wp_verify_page s z m p (Q : unit -> Pmm -> Prop) :
  placed t (cr s) z m p 0 -> n_poison (pages (cr s) p) = POISON_MAGIC -> n_order (pages (cr s) p) = 0 ->
  pbit (pcp_bitmap s) p = true -> Q tt s -> wp (Pcp.verify_pcp_page t p z m) Q s.
Proof.
  intros Hpl Hpo Hor Hb HQ. pose proof (placed_range t Ht _ _ _ _ _ Hpl). rewrite pow2_0 in *.
  unfold Pcp.verify_pcp_page. wp_step. apply (wp_verify_node s z m p); try done.
  wp_step. apply wp_pcp_marked; [lia|]. by wp_step.
Qed.

Lemma wp_with_list {R} cpu z m (f : PcpList -> M Pmm (R * PcpList)) (Q : R -> Pmm -> Prop) s :
  (z < NR_ZONES)%nat ->
  wp (f (pcp s (Pcp.list_slot cpu z m))) (fun '(r, l') s' =>
    Q r (put s' (cr s') (updn (pcp s') (Pcp.list_slot cpu z m) l') (pcp_bitmap s') (allocated (inner s')))) s ->
  wp (Pcp.with_list cpu z m f) Q s.
Proof.
  intros Hz Hf. unfold Pcp.with_list. wp_step. wp_step; [apply Nat.ltb_lt; by apply list_slot_bound|].
  wp_step. wp_step. wp_step. eapply wp_mono; [exact Hf|]. intros [r l'] s' HQ. cbn beta iota.
  wp_step. wp_step. wp_step. by destruct s' as [[] ? ? ? ? ? ? ? ?].
Qed.

(** ** Popping *)

Lemma pop_current_spec z m s F P A R :
  (z < NR_ZONES)%nat -> pmm_inv t Sd s F P A R ->
  wp (Pcp.pop_current_pcp t e z m) (fun r s' =>
    cfg s' = cfg s /\ cr s' = cr s /\
    match r with
    | None => pmm_inv t Sd s' F P A R
    | Some p => placed t (cr s) z m p 0 /\ exists P', pmm_inv t Sd s' F P' ((p, 0%nat) :: A) R
    end) s.
Proof.
  intros Hz [Hown Hac]. set (cpu := cpu_of (current_cpu e)). pose proof (cpu_of_bound (current_cpu e)) as Hc.
  fold cpu in Hc. unfold Pcp.pop_current_pcp, Pcp.with_current_pcp.
  wp_step. apply wp_with_list; [done|]. rewrite <- (list_slot_cpu_of (current_cpu e)). fold cpu.
  pose proof (own_list _ _ _ _ _ _ _ _ _ Hown z m cpu Hz Hc) as Hl. wp_step. apply wp_with_core.
  destruct (P z m cpu) as [|p l] eqn:HP.
  - eapply pop_run_nil; [done|]. rewrite putc_id. cbn beta iota. wp_step. wp_step. split_and!; [done|done|].
    split; [|by destruct Hac; split]. eapply own_tbl_ext; [exact Hown|]. intros slot. cbn [pcp put].
    apply updn_self.
  - pose proof (cached_range t Ht Sd _ _ _ F P A R Hown z m cpu) as Hr. rewrite HP in Hr.
    pose proof (cached_NoDup t Sd _ _ _ F P A R Hown z m cpu Hz Hc) as Hnd. rewrite HP in Hnd.
    assert (Hin : p ∈ P z m cpu) by (rewrite HP; left).
    pose proof (own_placed _ _ _ _ _ _ _ _ _ Hown z m cpu p Hz Hc Hin) as Hpl.
    eapply (pop_run_cons t Ht); [done|done|auto|]. intros h' Hh'. rewrite putc_id. cbn beta iota.
    assert (Hnode : n_poison (pages (cr s) p) = POISON_MAGIC /\ n_order (pages (cr s) p) = 0).
    { eapply pchain_node; [apply Hl|left]. }
    assert (Hbit : pbit (pcp_bitmap s) p = true).
    { apply (own_bits _ _ _ _ _ _ _ _ _ Hown); [apply Hr; (done || left)|]. eauto 6. }
    wp_step. apply (wp_verify_page s z m p); try done; try apply Hnode.
    wp_step. apply wp_pcp_unmark; [apply Hr; (done || left)|done|]. intros bm' Hbm. wp_step.
    pose proof (acct_bounds _ _ _ _ _ _ Hac) as (Hb & _). destruct (Hb z Hz) as (Hb1 & Hb2 & Hb3 & _).
    pose proof (plen_le P z m cpu Hz Hc) as Hlen. rewrite HP in Hlen. cbn [length] in Hlen.
    pose proof (ac_zone_free _ _ _ _ _ _ Hac z Hz) as Hzf. pose proof (ac_pcp_free _ _ _ _ _ _ Hac z Hz) as Hpf.
    unfold Pcp.note_pcp_alloc.
    wp_step. apply wp_pcp_free_sub; [fields; unfold U64_MAX; lia|].
    wp_step. apply wp_zone_free_sub; [fields; unfold U64_MAX; lia|].
    wp_step. wp_step. wp_step. split_and!; [done|done|done|]. exists (upd3 P z m cpu l). split.
    + eapply (own_uncache t Sd (pcp s) (cr s) (pcp_bitmap s) F P A R z m cpu [p] l); try done.
      apply slot_set_updn.
    + eapply (acct_step t s _ F P A R F _ _ z 0 (-1) 1); [done|apply grows_refl| | |done|..]; fields; try done; try lia.
      * replace (-1) with (Z.of_nat (length l) - Z.of_nat (length (P z m cpu))) by (rewrite HP; cbn [length]; lia).
        by apply grows_upd.
      * apply grows_held. by eapply placed_zi.
      * intros z' _. apply (updn_at_zone (zone_free s) z z' (-1)).
      * intros z' _. apply (updn_at_zone (pcp_free s) z z' (-1)).
Qed.

(** ** Detaching a batch *)

Lemma bits_set_cons bm bm1 bm2 p l b : bits_set bm bm1 [p] b -> bits_set bm1 bm2 l b -> bits_set bm bm2 (p :: l) b.
Proof.
  intros H1 H2 i Hi. rewrite H2, H1 by done.
  destruct (decide (i ∈ l)), (decide (i ∈ [p])) as [Hp|Hp], (decide (i ∈ p :: l)) as [Hc|Hc]; try done;
    rewrite list_elem_of_singleton, ?elem_of_cons in *; tauto.
Qed.

Lemma release_loop_run ll z m list private lp s (Q : PcpList -> Pmm -> Prop) :
  plist (pages (cr s)) list ll -> plist (pages (cr s)) private lp -> NoDup (ll ++ lp) ->
  (forall q, q ∈ ll -> placed t (cr s) z m q 0 /\ pbit (pcp_bitmap s) q = true) ->
  Z.of_nat (length ll + length lp) <= U64_MAX ->
  (forall h c' bm', stamped (cr s) c' ll -> bits_set (pcp_bitmap s) bm' ll false ->
    plist (pages c') h (rev ll ++ lp) -> Q h (putc s c' bm')) ->
  wp (Pcp.release_loop t (S (length ll)) z m list private) Q s.
Proof.
  revert list private lp s Q. induction ll as [|p ll IH]; intros list private lp s Q Hl Hp Hnd Hpl Hb HQ.
  { cbn [length Pcp.release_loop]. wp_step. apply wp_with_core, pop_run_nil; [done|]. rewrite putc_id. wp_step.
    rewrite <- putc_id. apply HQ; [apply stamped_refl| |done].
    intros i _. by rewrite decide_False by apply not_elem_of_nil. }
  assert (Hnd' := Hnd). cbn [app] in Hnd'. apply NoDup_cons in Hnd' as [Hpn Hnd2]. rewrite elem_of_app in Hpn.
  assert (Hr : forall q, q ∈ p :: ll -> 0 <= q < pfn_max t).
  { intros q Hq. destruct (Hpl q Hq) as [Hq0 _]. apply (placed_range t Ht) in Hq0. rewrite pow2_0 in Hq0. lia. }
  destruct (Hpl p ltac:(left)) as [Hp0 Hbit].
  cbn [length Pcp.release_loop]. wp_step. apply wp_with_core.
  apply (pop_run_cons t Ht list p ll); [done|by apply NoDup_app in Hnd as [? _]|done|].
  intros h' Hh'. rewrite putc_id. cbn beta iota.
  destruct (pchain_node (pages (cr s)) (p :: ll) p) as [Hn1 Hn2]; [apply Hl|left|].
  wp_step. apply (wp_verify_page s z m p); try done.
  wp_step. apply wp_pcp_unmark; [apply Hr; left|done|]. intros bm1 Hbm1.
  wp_step. apply wp_with_core. apply (push_run private lp p); [done|tauto|cbn [length] in Hb; lia|].
  intros private' c1 Hs1 Hp1.
  apply (IH h' private' (p :: lp) (putc s c1 bm1) Q); fields.
  - eapply plist_frame; [|exact Hh']. intros q Hq. apply Hs1. rewrite list_elem_of_singleton. intros ->. tauto.
  - done.
  - rewrite NoDup_app in Hnd2 |- *. destruct Hnd2 as (H1 & H2 & H3). split_and!; [done| |apply NoDup_cons; tauto].
    intros q Hq. rewrite not_elem_of_cons. split; [intros ->; tauto|auto].
  - intros q Hq. destruct (Hpl q ltac:(by right)) as [Hq0 Hqb]. split; [by eapply stamped_placed|].
    rewrite Hbm1 by (apply (Hr q); by right).
    rewrite decide_False; [done|]. rewrite list_elem_of_singleton. intros ->. tauto.
  - cbn [length] in *. lia.
  - intros h c' bm' Hs2 Hbm2 Hh. apply (HQ h c' bm').
    + eapply stamped_trans; (eapply stamped_mono; [eassumption|]); intros q Hq; rewrite elem_of_cons;
        [rewrite list_elem_of_singleton in Hq; by left|by right].
    + by eapply bits_set_cons.
    + cbn [rev]. by rewrite <- app_assoc.
Qed.

(** [take] then [release_pcp_batch]: the first [n] pages are detached, in
    their order, and no longer marked. *)
Lemma detach_run h l z m limit s (Q : PcpList * PcpList -> Pmm -> Prop) :
  plist (pages (cr s)) h l -> NoDup l -> 0 <= limit ->
  (forall q, q ∈ l -> placed t (cr s) z m q 0 /\ pbit (pcp_bitmap s) q = true) ->
  Z.of_nat (length l) <= U64_MAX ->
  (forall drain h' c' bm' n, Z.of_nat n = Z.min (Z.of_nat (length l)) limit ->
    stamped (cr s) c' (take n l) -> bits_set (pcp_bitmap s) bm' (take n l) false ->
    plist (pages c') drain (take n l) -> plist (pages c') h' (drop n l) -> Q (drain, h') (putc s c' bm')) ->
  wp ('(list, h') ← with_core (PcpLists.take t h limit);
      drain ← Pcp.release_pcp_batch t z m list;
      ret (drain, h')) Q s.
Proof.
  intros Hl Hnd Hlim Hpl Hb HQ. wp_step. apply wp_with_core. unfold PcpLists.take.
  assert (Hcnt : count h = Z.of_nat (length l)) by apply Hl. rewrite Hcnt.
  set (n := Z.to_nat (Z.min (Z.of_nat (length l)) limit)).
  assert (Hr : forall q, q ∈ l -> 0 <= q < pfn_max t).
  { intros q Hq. destruct (Hpl q Hq) as [Hq0 _]. apply (placed_range t Ht) in Hq0. rewrite pow2_0 in Hq0. lia. }
  apply (take_loop_run t Ht n h l PcpLists.empty []);
    [done|by split_and!|by rewrite app_nil_r|done|lia|cbn [length]; lia|].
  intros h' out' c1 Hs1 Hh' Hout. rewrite app_nil_r in Hout. cbn beta iota. wp_step. unfold Pcp.release_pcp_batch.
  assert (Hco : count out' = Z.of_nat (length (rev (take n l)))) by apply Hout. rewrite Hco, Nat2Z.id.
  assert (Hin : forall q, q ∈ rev (take n l) <-> q ∈ take n l).
  { intros q. by rewrite !list_elem_of_In, <- List.in_rev. }
  assert (Hsub : forall q, q ∈ take n l -> q ∈ l) by (intros q Hq; rewrite <- (take_drop n l), elem_of_app; by left).
  rewrite <- (take_drop n l) in Hnd. apply NoDup_app in Hnd as (Hnd1 & Hnd2 & _).
  apply (release_loop_run (rev (take n l)) z m out' PcpLists.empty []); fields.
  - done.
  - by split_and!.
  - rewrite app_nil_r. apply NoDup_ListNoDup, List.NoDup_rev, NoDup_ListNoDup. done.
  - intros q Hq. rewrite Hin in Hq. destruct (Hpl q (Hsub q Hq)). split; [by eapply stamped_placed|done].
  - rewrite length_rev, length_take. cbn [length]. lia.
  - intros drain c2 bm' Hs2 Hbm Hd. wp_step. rewrite app_nil_r, rev_involutive in Hd.
    assert (Hs2' : stamped c1 c2 (take n l)) by (eapply stamped_mono; [exact Hs2|intros q; apply Hin]).
    apply (HQ drain h' c2 bm' n); [lia|by eapply stamped_trans| |done|].
    + intros i Hi. rewrite Hbm by done. destruct (decide (i ∈ rev (take n l))) as [H1|H1];
        [rewrite decide_True by (by apply Hin)|rewrite decide_False by (by rewrite <- Hin)]; done.
    + eapply plist_frame; [|exact Hh']. intros q Hq. apply Hs2'. intros Hq'. by apply (Hnd2 q).
Qed.

(** ** Draining into the buddy lists *)

Definition pgs (l : list Z) : list (Z * nat) := map (fun p => (p, 0%nat)) l.

(** A page held by its caller returns to the buddy lists. *)
Lemma return_page_run p o z m s tbl F P A R (Q : unit -> Pmm -> Prop) :
  own t Sd (cr s) tbl (pcp_bitmap s) F P ((p, o) :: A) R -> placed t (cr s) z m p o ->
  (forall c' F', own t Sd c' tbl (pcp_bitmap s) F' P A R -> moved F F' z (fun g => g p o) ->
    pageblocks c' = pageblocks (cr s) ->
    (forall q, fcov F q = 0 -> ~ (p <= q < p + pow2 o) -> pages c' q = pages (cr s) q) ->
    settled t c' F' z p o -> Q tt (putc s c' (pcp_bitmap s))) ->
  wp (with_core (Buddy.return_to_buddy t p o)) Q s.
Proof.
  intros Hown Hpl HQ. apply wp_with_core. eapply wp_mono.
  - apply (return_to_buddy_spec t Ht z m p o (cr s) F (own_core _ _ _ _ _ _ _ _ _ Hown) Hpl).
    intros x Hx. exact (proj1 (proj2 (held_cov t Sd _ _ _ F P _ R Hown p o x ltac:(left) Hx))).
  - intros [] c' (F' & Hinv' & Hmv & Hpb & Hfr & Hset). apply (HQ c' F'); try done.
    eapply (own_return t Sd tbl (cr s)); try done. apply Hpl.
Qed.

Lemma drain_loop_run ll z m list s tbl F P A R (Q : unit -> Pmm -> Prop) :
  own t Sd (cr s) tbl (pcp_bitmap s) F P (pgs ll ++ A) R -> plist (pages (cr s)) list ll -> NoDup ll ->
  (forall q, q ∈ ll -> placed t (cr s) z m q 0) -> (z < NR_ZONES)%nat ->
  (forall c' F', own t Sd c' tbl (pcp_bitmap s) F' P A R -> moved F F' z (fun g => sumZ (fun p => g p 0%nat) ll) ->
    pageblocks c' = pageblocks (cr s) -> Q tt (putc s c' (pcp_bitmap s))) ->
  wp (Pcp.drain_loop t (S (length ll)) z m list) Q s.
Proof.
  revert list s F Q. induction ll as [|p ll IH]; intros list s F Q Hown Hl Hnd Hpl Hz HQ.
  { cbn [length Pcp.drain_loop]. wp_step. apply wp_with_core, pop_run_nil; [done|]. rewrite putc_id. wp_step.
    rewrite <- putc_id. apply (HQ (cr s) F); [done| |done].
    intros g _ z' _. rewrite sumZ_nil. unfold at_zone. destruct (_ =? _)%nat; lia. }
  assert (Hr : forall q, q ∈ p :: ll -> 0 <= q < pfn_max t).
  { intros q Hq. pose proof (placed_range t Ht _ _ _ _ _ (Hpl q Hq)) as Hq0. rewrite pow2_0 in Hq0. lia. }
  assert (Hnd' := Hnd). apply NoDup_cons in Hnd' as [Hpn Hnd2].
  cbn [length Pcp.drain_loop]. wp_step. apply wp_with_core. apply (pop_run_cons t Ht list p ll); [done..|].
  intros h' Hh'. rewrite putc_id. cbn beta iota.
  destruct (pchain_node (pages (cr s)) (p :: ll) p) as [Hn1 Hn2]; [apply Hl|left|].
  wp_step. apply (wp_verify_node s z m p); [apply Hpl; left|done|done|].
  wp_step. apply (return_page_run p 0 z m s tbl F P (pgs ll ++ A) R); [done|apply Hpl; left|].
  intros c1 F1 Hown1 Hmv1 Hpb1 Hfr1 _.
  apply (IH h' (putc s c1 (pcp_bitmap s)) F1); fields; [done| |done| |done|].
  - eapply plist_frame; [|exact Hh']. intros q Hq. apply Hfr1; [|rewrite pow2_0; intros Hx; assert (q = p) as -> by lia; done].
    assert (Hin : (q, 0%nat) ∈ pgs (p :: ll) ++ A).
    { apply elem_of_app. left. apply list_elem_of_fmap. exists q. split; [done|by right]. }
    exact (proj1 (proj2 (held_cov t Sd _ _ _ F P _ R Hown q 0 q Hin ltac:(rewrite pow2_0; lia)))).
  - intros q Hq. eapply placed_types; [|apply Hpl; by right]. intros. by apply mt_of_pageblocks.
  - intros c' F' Hown' Hmv' Hpb'. apply (HQ c' F'); [done| |by rewrite Hpb'].
    eapply (moved_trans F F1 F' z); [exact Hmv1|exact Hmv'|]. intros g _. cbn beta. by rewrite sumZ_cons.
Qed.

Lemma sumZ_size ll : sumZ (fun _ : Z => pow2 0) ll = Z.of_nat (length ll).
Proof. rewrite <- sumZ_one. done. Qed.

(** [drain_pcp_list] on a detached batch: the pages enter the buddy lists. *)
Lemma drain_list_run ll z m list s tbl F P A R (Q : unit -> Pmm -> Prop) :
  own t Sd (cr s) tbl (pcp_bitmap s) F P (pgs ll ++ A) R -> plist (pages (cr s)) list ll -> NoDup ll ->
  (forall q, q ∈ ll -> placed t (cr s) z m q 0) -> (z < NR_ZONES)%nat ->
  Z.of_nat (length ll) <= allocated (inner s) ->
  (forall c' F', own t Sd c' tbl (pcp_bitmap s) F' P A R ->
    grows (fsize F) (fsize F') (ftotal F) (ftotal F') z (Z.of_nat (length ll)) ->
    pageblocks c' = pageblocks (cr s) ->
    Q tt (put s c' (pcp s) (pcp_bitmap s) (allocated (inner s) - Z.of_nat (length ll)))) ->
  wp (Pcp.drain_pcp_list t z m list) Q s.
Proof.
  intros Hown Hl Hnd Hpl Hz Hal HQ. unfold Pcp.drain_pcp_list.
  assert (Hcnt : count list = Z.of_nat (length ll)) by apply Hl. rewrite Hcnt, Nat2Z.id.
  wp_step. apply (drain_loop_run ll z m list s tbl F P A R); [done..|].
  intros c' F' Hown' Hmv Hpb. apply wp_allocated_sub; [done|]. apply (HQ c' F'); [done| |done].
  rewrite <- (sumZ_size ll). by apply (grows_moved F F' z) in Hmv.
Qed.

(** ** Draining a pageset *)

Lemma cached_listed s F P A R z m cpu : sown t Sd s F P A R -> (z < NR_ZONES)%nat -> (cpu < MAX_CPUS)%nat ->
  forall q, q ∈ P z m cpu -> placed t (cr s) z m q 0 /\ pbit (pcp_bitmap s) q = true.
Proof.
  intros Hown Hz Hc q Hq. split; [by eapply (own_placed _ _ _ _ _ _ _ _ _ Hown)|].
  apply (own_bits _ _ _ _ _ _ _ _ _ Hown); [|eauto 6].
  by eapply (cached_range t Ht Sd _ _ _ F P A R Hown z m cpu q).
Qed.

Lemma cached_length s F P A R z m cpu : acct t s F P A R -> (z < NR_ZONES)%nat -> (cpu < MAX_CPUS)%nat ->
  Z.of_nat (length (P z m cpu)) <= psize P z /\ psize P z <= 2 ^ 52 /\ psize P z <= allocated (inner s).
Proof.
  intros Hac Hz Hc. pose proof (plen_le P z m cpu Hz Hc). destruct (acct_bounds _ _ _ _ _ _ Hac) as (Hb & ? & ? & ? & ?).
  destruct (Hb z Hz). pose proof (ac_allocated _ _ _ _ _ _ Hac). lia.
Qed.

(** Nothing a watermark gate reads has changed. *)
Definition unmoved (s s' : Pmm) (F F' : blocks) : Prop :=
  free_count (cr s') = free_count (cr s) /\ pcp_free s' = pcp_free s /\ F' = F.

Lemma drain_slot_spec z m cpu s F P A R :
  (z < NR_ZONES)%nat -> (cpu < MAX_CPUS)%nat -> pmm_inv t Sd s F P A R ->
  wp (Pcp.drain_slot t z m cpu) (fun d s' =>
    cfg s' = cfg s /\ pageblocks (cr s') = pageblocks (cr s) /\
    exists F', pmm_inv t Sd s' F' (upd3 P z m cpu []) A R /\ (d = false -> unmoved s s' F F')) s.
Proof.
  intros Hz Hc [Hown Hac]. unfold Pcp.drain_slot. wp_step. apply wp_with_list; [done|].
  pose proof (cached_listed s F P A R z m cpu Hown Hz Hc) as Hpl.
  destruct (cached_length s F P A R z m cpu Hac Hz Hc) as (Hlen & Hps & Hal).
  pose proof (cached_NoDup t Sd _ _ _ F P A R Hown z m cpu Hz Hc) as Hnd.
  apply (detach_run _ (P z m cpu) z m);
    [exact (own_list _ _ _ _ _ _ _ _ _ Hown z m cpu Hz Hc)|done|done|done|unfold U64_MAX; lia|].
  intros drain h' c1 bm1 n Hn Hs1 Hbm Hd Hh'. fields.
  assert (n = length (P z m cpu)) as -> by (unfold U64_MAX in Hn; lia). rewrite firstn_all, drop_all in *.
  set (l := P z m cpu) in *.
  assert (Hown1 : own t Sd c1 (updn (pcp s) (Pcp.list_slot cpu z m) h') bm1 F (upd3 P z m cpu []) (pgs l ++ A) R).
  { eapply (own_uncache t Sd (pcp s) (cr s)); try done; [by rewrite app_nil_r|apply slot_set_updn]. }
  assert (Hcnt : count drain = Z.of_nat (length l)) by apply Hd. rewrite Hcnt.
  bool_case (Z.of_nat (length l) =? 0).
  - assert (Hl : l = []) by (destruct l; [done|cbn [length] in *; lia]). wp_step. split_and!; [done|apply Hs1|].
    exists F. split; [|intros _; split_and!; [apply Hs1|done|done]]. split; fields; [by rewrite Hl in Hown1|].
    eapply (acct_step t s _ F P A R F _ A z 0 0 0); try done; [apply grows_refl| |apply grows_refl| | |by fields; lia];
      try (intros z' _; fields; unfold at_zone; destruct (_ =? _)%nat; lia).
    pose proof (grows_upd P z m cpu [] Hz Hc) as Hg. fold l in Hg. by rewrite Hl in Hg.
  - pose proof (ac_pcp_free _ _ _ _ _ _ Hac z Hz) as Hpf.
    wp_step. apply wp_pcp_free_sub; [fields; unfold U64_MAX; lia|].
    wp_step. apply (drain_list_run l z m drain _ (updn (pcp s) (Pcp.list_slot cpu z m) h') F (upd3 P z m cpu []) A R);
      fields; [done|done|done| |done|lia|].
    + intros q Hq. eapply stamped_placed; [done|]. by apply Hpl.
    + intros c2 F' Hown2 Hg Hpb. wp_step. split_and!; fields; [done|rewrite Hpb; apply Hs1|].
      exists F'. split; [|done]. split; [done|].
      eapply (acct_step t s _ F P A R F' _ A z (Z.of_nat (length l)) (- Z.of_nat (length l)) 0);
        [done|done| |apply grows_refl|lia|..]; fields; try done; try lia.
      * pose proof (grows_upd P z m cpu [] Hz Hc) as Hg2. fold l in Hg2. cbn [length] in Hg2.
        by replace (Z.of_nat 0 - Z.of_nat (length l)) with (- Z.of_nat (length l)) in Hg2 by lia.
      * intros z' _. unfold at_zone. destruct (_ =? _)%nat; lia.
      * intros z' _. apply (updn_at_zone (pcp_free s) z z' (- Z.of_nat (length l))).
Qed.

Lemma drain_slots_spec slots b s F P A R :
  (forall z m cpu, (z, m, cpu) ∈ slots -> (z < NR_ZONES)%nat /\ (cpu < MAX_CPUS)%nat) -> pmm_inv t Sd s F P A R ->
  wp (Pcp.drain_slots t slots b) (fun d s' =>
    cfg s' = cfg s /\ pageblocks (cr s') = pageblocks (cr s) /\
    exists F' P', pmm_inv t Sd s' F' P' A R /\ (d = false -> b = false /\ unmoved s s' F F')) s.
Proof.
  revert b s F P. induction slots as [|[[z m] cpu] slots IH]; intros b s F P Hs Hinv; cbn [Pcp.drain_slots].
  - wp_step. split_and!; [done|done|]. by exists F, P.
  - destruct (Hs z m cpu ltac:(left)) as [Hz Hc]. wp_step.
    eapply wp_mono; [by apply (drain_slot_spec z m cpu s F P A R)|].
    intros d s1 (Hcfg & Hpb & F1 & Hinv1 & Hum).
    assert (Hs1 : forall z m cpu, (z, m, cpu) ∈ slots -> (z < NR_ZONES)%nat /\ (cpu < MAX_CPUS)%nat).
    { intros z0 m0 cpu0 Hin. apply (Hs z0 m0 cpu0). by right. }
    eapply wp_mono; [apply (IH (b || d) s1 F1 (upd3 P z m cpu []) Hs1 Hinv1)|].
    intros d2 s2 (Hcfg2 & Hpb2 & F2 & P2 & Hinv2 & Hum2). split_and!; [congruence|congruence|].
    exists F2, P2. split; [done|]. intros Hd2. destruct (Hum2 Hd2) as [Hbd (Hu1 & Hu2 & ->)]. to_prop.
    destruct (Hum ltac:(done)) as (Hv1 & Hv2 & ->). split; [done|]. split_and!; congruence.
Qed.

Lemma index_lt zt : (ZoneTypes.index zt < NR_ZONES)%nat.
Proof. unfold NR_ZONES. destruct zt; cbn [ZoneTypes.index]; lia. Qed.

Lemma drain_below_spec hi s F P A R :
  pmm_inv t Sd s F P A R ->
  wp (Pcp.drain_pcp_below t hi) (fun d s' =>
    cfg s' = cfg s /\ pageblocks (cr s') = pageblocks (cr s) /\
    exists F' P', pmm_inv t Sd s' F' P' A R /\ (d = false -> unmoved s s' F F')) s.
Proof.
  intros Hinv. unfold Pcp.drain_pcp_below. eapply wp_mono; [apply (drain_slots_spec _ _ _ F P A R); [|done]|].
  - intros z m cpu Hin. apply list_elem_of_In, List.in_flat_map in Hin as (zt & _ & Hin).
    unfold Pcp.zone_slots in Hin. apply List.in_flat_map in Hin as (mi & _ & Hin).
    apply List.in_map_iff in Hin as (cpu' & Heq & Hc). injection Heq as <- <- <-.
    apply List.in_seq in Hc. split; [apply index_lt|lia].
  - intros d s' (H1 & H2 & F' & P' & H3 & H4). split_and!; [done|done|]. exists F', P'. split; [done|].
    intros Hd. by apply H4.
Qed.

(** ** Freeing into a pageset *)

(** A page outside the free blocks has no bit in any bitmap. *)
Lemma uncovered_bit c F o x :
  core_inv t c F -> fcov F x = 0 -> (o < ORDERS)%nat -> 0 <= x -> bit c o (Z.shiftr x (Z.of_nat o)) = false.
Proof.
  intros Hinv Hx Ho Hx0. destruct (bit _ _ _) eqn:E; [|done]. exfalso. rewrite shiftr_pow2 in E.
  pose proof (pow2_pos o). apply (inv_bits _ _ _ Hinv) in E as (z & m & Hz & Hin); [|done|apply Z.div_pos; lia].
  eapply (fcov_zero F x z m o _ Hx Hz Ho Hin).
  pose proof (Z.div_mod x (pow2 o) ltac:(lia)). pose proof (Z.mod_pos_bound x (pow2 o) ltac:(lia)). lia.
Qed.

Lemma index_in_range o x : (o < ORDERS)%nat -> 0 <= x < pfn_max t -> bit_in_range t o (Z.shiftr x (Z.of_nat o)).
Proof.
  intros Ho Hx. rewrite shiftr_pow2. pose proof (pow2_pos o). split_and!; [done|apply Z.div_pos; lia|].
  pose proof (Z.div_mod x (pow2 o) ltac:(lia)). pose proof (Z.mod_pos_bound x (pow2 o) ltac:(lia)). lia.
Qed.

Lemma wp_buddy_marked s o x (Q : bool -> Pmm -> Prop) :
  (o < ORDERS)%nat -> 0 <= x < pfn_max t -> Q (bit (cr s) o (Z.shiftr x (Z.of_nat o))) s ->
  wp (Pcp.buddy_marked t x o) Q s.
Proof.
  intros Ho Hx HQ. unfold Pcp.buddy_marked. wp_step. apply wp_with_core.
  eapply wp_done; [by apply check_bitmap_ok, index_in_range|]. rewrite putc_id. repeat wp_step.
  by rewrite land_bit_eqb, negb_involutive.
Qed.

Lemma wp_check_not_buddy orders s F x (Q : unit -> Pmm -> Prop) :
  core_inv t (cr s) F -> fcov F x = 0 -> 0 <= x < pfn_max t -> (forall o, o ∈ orders -> (o < ORDERS)%nat) ->
  Q tt s -> wp (Pcp.check_not_buddy t orders x) Q s.
Proof.
  intros Hinv Hx Hr Hos HQ. induction orders as [|o orders IH]; cbn [Pcp.check_not_buddy]; [by wp_step|].
  assert (Ho : (o < ORDERS)%nat) by (apply Hos; left).
  wp_step. apply wp_buddy_marked; [done|done|]. wp_step.
  wp_step; [by rewrite (uncovered_bit (cr s) F) by (done || lia)|]. apply IH. intros. apply Hos. by right.
Qed.

(** The drain decision of [free_to_pcp]: a prefix of the list is detached. *)
Lemma maybe_detach_run (b : bool) h l z m limit s (Q : PcpList * PcpList -> Pmm -> Prop) :
  plist (pages (cr s)) h l -> NoDup l -> 0 <= limit ->
  (forall q, q ∈ l -> placed t (cr s) z m q 0 /\ pbit (pcp_bitmap s) q = true) ->
  Z.of_nat (length l) <= U64_MAX ->
  (forall drain h' c' bm' ld lr, l = ld ++ lr -> stamped (cr s) c' ld -> bits_set (pcp_bitmap s) bm' ld false ->
    plist (pages c') drain ld -> plist (pages c') h' lr -> Q (drain, h') (putc s c' bm')) ->
  wp (if b then '(list, h') ← with_core (PcpLists.take t h limit);
                drain ← Pcp.release_pcp_batch t z m list;
                ret (drain, h')
      else ret (PcpLists.empty, h)) Q s.
Proof.
  intros Hl Hnd Hlim Hpl Hb HQ. destruct b.
  - apply (detach_run h l); [done..|]. intros drain h' c' bm' n _ Hs Hbm Hd Hh.
    by apply (HQ drain h' c' bm' (take n l) (drop n l)); [by rewrite take_drop|..].
  - wp_step. rewrite <- (putc_id s). apply (HQ _ h (cr s) (pcp_bitmap s) [] l); [done|apply stamped_refl| |done|done].
    intros i _. by rewrite decide_False by apply not_elem_of_nil.
Qed.

(** Marking a held page and pushing it on a pageset list. *)
Lemma cache_run {B} p z m cpu h tbl s F P A R (k : PcpList -> M Pmm B) (Q : B -> Pmm -> Prop) :
  own t Sd (cr s) tbl (pcp_bitmap s) F P ((p, 0%nat) :: A) R -> placed t (cr s) z m p 0 -> (cpu < MAX_CPUS)%nat ->
  tbl (Pcp.list_slot cpu z m) = h -> Z.of_nat (length (P z m cpu)) < U64_MAX ->
  (forall h' c' bm', stamped (cr s) c' [p] ->
    own t Sd c' (updn tbl (Pcp.list_slot cpu z m) h') bm' F (upd3 P z m cpu (p :: P z m cpu)) A R ->
    wp (k h') Q (putc s c' bm')) ->
  wp (Pcp.pcp_mark t p ;; h' ← with_core (PcpLists.push h p); k h') Q s.
Proof.
  intros Hown Hpl Hc Hh Hlen Hk. assert (Hz : (z < NR_ZONES)%nat) by apply Hpl.
  pose proof (placed_range t Ht _ _ _ _ _ Hpl) as Hr. rewrite pow2_0 in Hr.
  destruct (held_cov t Sd _ _ _ F P _ R Hown p 0 p ltac:(left) ltac:(rewrite pow2_0; lia)) as (_ & _ & Hp0).
  assert (Hpnot : forall z m cpu, (z < NR_ZONES)%nat -> (cpu < MAX_CPUS)%nat -> p ∉ P z m cpu).
  { intros z0 m0 cpu0 Hz0 Hc0 Hin. destruct (cached_cov t Sd _ _ _ F P _ R Hown z0 m0 cpu0 p Hz0 Hc0 Hin). lia. }
  wp_step. apply wp_pcp_mark; [lia| |].
  { destruct (pbit _ _) eqn:E; [|done].
    apply (own_bits _ _ _ _ _ _ _ _ _ Hown) in E as (z0 & m0 & c0 & ? & ? & Hin); [|lia]. by apply Hpnot in Hin. }
  intros bm1 Hbm1. wp_step. apply wp_with_core. subst h.
  apply (push_run _ (P z m cpu) p); [exact (own_list _ _ _ _ _ _ _ _ _ Hown z m cpu Hz Hc)|by apply Hpnot|done|].
  intros h1 c1 Hs1 Hh1. apply (Hk h1 c1 bm1 Hs1).
  eapply (own_cache t Sd tbl (cr s) _ F P A R z m cpu [p]); try done; [|apply slot_set_updn].
  intros q Hq. by apply list_elem_of_singleton in Hq as ->.
Qed.

(** The counters after page [p] entered the pageset and [n] pages of it went
    back to the buddy lists. *)
Lemma cached_acct s s' F P A R F' P' p z n :
  acct t s F P ((p, 0%nat) :: A) R -> Buddy.zi t p = z -> (z < NR_ZONES)%nat ->
  grows (fsize F) (fsize F') (ftotal F) (ftotal F') z n ->
  grows (psize P) (psize P') (ptotal P) (ptotal P') z (1 - n) ->
  zone_free s' = updn (zone_free s) z (zone_free s z + 1) ->
  pcp_free s' = updn (updn (pcp_free s) z (pcp_free s z + 1)) z (pcp_free s z + 1 - n) ->
  managed (inner s') = managed (inner s) -> allocated (inner s') = allocated (inner s) - n ->
  reserved (inner s') = reserved (inner s) -> initial_free (inner s') = initial_free (inner s) ->
  acct t s' F' P' A R.
Proof.
  intros Hac Hzi Hz Hgf Hgp Hzf Hpf Hm Ha Hr Hi.
  eapply (acct_step t s s' F P _ R F' _ A z);
    [done|exact Hgf|exact Hgp|exact (grows_unheld t p 0 A z Hzi)|rewrite pow2_0; lia|..]; try done.
  - intros z' _. rewrite Hzf, updn_at_zone. f_equal. f_equal. lia.
  - intros z' _. rewrite Hpf. unfold at_zone. destruct (z' =? z)%nat eqn:E; to_prop;
      [subst; rewrite updn_eq; lia|rewrite !updn_ne by done; lia].
Qed.

(** The critical section of [free_to_pcp] up to its counters: page [p] joins
    its list, and the pages [ld] detached from it are left with the caller. *)
Lemma cache_detach_run {B} p z m cpu high limit s F P A R (k : PcpList -> PcpList -> M Pmm B) (Q : B -> Pmm -> Prop) :
  let slot := Pcp.list_slot cpu z m in
  pmm_inv t Sd s F P ((p, 0%nat) :: A) R -> placed t (cr s) z m p 0 -> (cpu < MAX_CPUS)%nat -> 0 <= limit ->
  (forall drain h2 c2 bm2 ld P2,
    own t Sd c2 (updn (pcp s) slot h2) bm2 F P2 (pgs ld ++ A) R -> pageblocks c2 = pageblocks (cr s) ->
    plist (pages c2) drain ld -> NoDup ld -> (forall q, q ∈ ld -> placed t c2 z m q 0) ->
    Z.of_nat (length ld) <= Z.of_nat (length (P z m cpu)) + 1 ->
    grows (psize P) (psize P2) (ptotal P) (ptotal P2) z (1 - Z.of_nat (length ld)) ->
    wp (k drain h2) Q (putc s c2 bm2)) ->
  wp (Pcp.pcp_mark t p ;;
      pcp1 ← with_core (PcpLists.push (pcp s slot) p);
      '(drain, pcp2) ←
        (if high <? count pcp1 then
           '(list, pcp2) ← with_core (PcpLists.take t pcp1 limit);
           drain ← Pcp.release_pcp_batch t z m list;
           ret (drain, pcp2)
         else ret (PcpLists.empty, pcp1));
      k drain pcp2) Q s.
Proof.
  intros slot [Hown Hac] Hpl Hc Hlim Hk. assert (Hz : (z < NR_ZONES)%nat) by apply Hpl.
  destruct (cached_length s F P _ R z m cpu Hac Hz Hc) as (Hlen & Hps & Hal).
  apply (cache_run p z m cpu _ (pcp s) s F P A R); [done|done|done|done|unfold U64_MAX; lia|].
  intros h1 c1 bm1 Hs1 Hown1. fold slot in Hown1.
  set (l1 := p :: P z m cpu) in *. set (P1 := upd3 P z m cpu l1) in *.
  assert (HP1 : P1 z m cpu = l1) by apply upd3_eq.
  assert (Hpl1 : forall q, q ∈ l1 -> placed t c1 z m q 0 /\ pbit bm1 q = true).
  { intros q Hq. apply (cached_listed (put s c1 (updn (pcp s) slot h1) bm1 0) F P1 A R z m cpu);
      [exact Hown1|done|done|]. by rewrite HP1. }
  pose proof (cached_NoDup t Sd _ _ _ F P1 A R Hown1 z m cpu Hz Hc) as Hnd1. rewrite HP1 in Hnd1.
  wp_step. apply (maybe_detach_run _ h1 l1 z m); fields; [|done|lia|done|cbn [l1 length]; unfold U64_MAX; lia|].
  { pose proof (own_list _ _ _ _ _ _ _ _ _ Hown1 z m cpu Hz Hc) as Hl. fold slot in Hl.
    by rewrite updn_eq, HP1 in Hl. }
  intros drain h2 c2 bm2 ld lr Hsplit Hs2 Hbm2 Hd Hh2. cbn beta iota.
  assert (Hlen1 : Z.of_nat (length ld) + Z.of_nat (length lr) = Z.of_nat (length (P z m cpu)) + 1).
  { assert (length l1 = length (ld ++ lr)) as Hl by congruence. rewrite length_app in Hl. unfold l1 in Hl.
    cbn [length] in Hl. lia. }
  apply (Hk drain h2 c2 bm2 ld (upd3 P1 z m cpu lr)); try done.
  - eapply (own_uncache t Sd (updn (pcp s) slot h1) c1 bm1); try done; [by rewrite HP1|].
    split; [apply updn_eq|]. intros s0 Hs0. by rewrite !updn_ne.
  - etrans; [apply Hs2|apply Hs1].
  - rewrite Hsplit in Hnd1. by apply NoDup_app in Hnd1 as [? _].
  - intros q Hq. eapply stamped_placed; [done|]. apply Hpl1. rewrite Hsplit, elem_of_app. by left.
  - lia.
  - eapply grows_trans; [by apply (grows_upd P z m cpu l1)|by apply (grows_upd P1 z m cpu lr)|].
    rewrite HP1. cbn [l1 length]. lia.
Qed.

Lemma free_to_pcp_spec p s F P A R :
  pmm_inv t Sd s F P ((p, 0%nat) :: A) R ->
  wp (Pcp.free_to_pcp t e p) (fun _ s' =>
    cfg s' = cfg s /\ pageblocks (cr s') = pageblocks (cr s) /\ exists F' P', pmm_inv t Sd s' F' P' A R) s.
Proof.
  intros Hinv. destruct (Hinv) as [Hown Hac].
  destruct (own_alloc _ _ _ _ _ _ _ _ _ Hown p 0 ltac:(left)) as (z & m & Hpl).
  assert (Hz : (z < NR_ZONES)%nat) by apply Hpl. pose proof (cpu_of_bound (current_cpu e)) as Hc.
  pose proof (placed_range t Ht _ _ _ _ _ Hpl) as Hr. rewrite pow2_0 in Hr.
  destruct (held_cov t Sd _ _ _ F P _ R Hown p 0 p ltac:(left) ltac:(rewrite pow2_0; lia)) as (_ & Hf0 & _).
  unfold Pcp.free_to_pcp. rewrite (placed_index _ _ _ _ _ Hpl).
  wp_step. apply wp_pcp_type; [lia|]. rewrite (placed_mt _ _ _ _ _ _ Hpl).
  wp_step. wp_step; [by apply Nat.ltb_lt|]. wp_step.
  apply (wp_check_not_buddy _ s F); [apply Hown|done|lia|intros o Ho; apply elem_of_seq in Ho; lia|].
  do 5 wp_step. unfold Pcp.with_current_pcp. apply wp_with_list; [done|].
  rewrite <- (list_slot_cpu_of (current_cpu e)).
  apply (cache_detach_run p z m (cpu_of (current_cpu e)) _ _ s F P A R); [done|done|done|lia|].
  intros drain h2 c2 bm2 ld P2 Hown2 Hpb2 Hd Hnd Hpl2 Hlen Hgp.
  pose proof (ac_zone_free _ _ _ _ _ _ Hac z Hz) as Hzf. pose proof (ac_pcp_free _ _ _ _ _ _ Hac z Hz) as Hpf.
  destruct (acct_bounds _ _ _ _ _ _ Hac) as (Hb & _). destruct (Hb z Hz) as (Hb1 & Hb2 & Hb3 & Hb4).
  pose proof (plen_le P z m (cpu_of (current_cpu e)) Hz Hc) as Hpl0.
  assert (Hcnt : count drain = Z.of_nat (length ld)) by apply Hd.
  wp_step. apply wp_zone_free_add; [fields; unfold U64_MAX; lia|].
  wp_step. apply wp_pcp_free_add; [fields; unfold U64_MAX; lia|].
  wp_step. apply wp_pcp_free_sub; [fields; rewrite updn_eq; unfold U64_MAX; lia|].
  wp_step. unfold Pcp.note_pcp_free. wp_step. wp_step. rewrite Hcnt.
  pose proof (cached_acct s) as Hfin. specialize (Hfin) with (1 := Hac) (2 := placed_zi t Ht _ _ _ _ _ Hpl) (3 := Hz).
  bool_case (Z.of_nat (length ld) =? 0); cbn [negb].
  - assert (ld = []) as -> by (destruct ld; [done|cbn [length] in *; lia]). wp_step. fields.
    split_and!; [done|done|]. exists F, P2. split; [done|].
    eapply Hfin; [apply grows_refl|exact Hgp|..]; fields; try done; [by rewrite updn_eq|lia].
  - apply (drain_list_run ld z m drain _ (updn (pcp s) (Pcp.list_slot (cpu_of (current_cpu e)) z m) h2) F P2 A R); fields;
      [done|done|done|done|done| |].
    + pose proof (ac_allocated _ _ _ _ _ _ Hac). rewrite asize_cons, pow2_0 in *. pose proof (asize_nonneg A). lia.
    + intros c3 F' Hown3 Hgf Hpb3. split_and!; fields; [done|congruence|].
      exists F', P2. split; [done|]. eapply Hfin; [exact Hgf|exact Hgp|..]; fields; try done. by rewrite updn_eq.
Qed.

End pcp.
