(* ===== verification/PmmRefill.v ===== *)
(** * The page allocator: refilling a pageset

    [refill_current_pcp] of [crates/kernel/mm-pmm/src/buddy/pcp.rs] takes a
    batch of order-0 pages from the buddy lists, hands one to the caller and
    caches the rest. [take_block] may steal a page of another mobility class
    when the zone is starved of the requested one; the class check on the page
    handed out then fails. The specification allows that panic and no other,
    and only when some page of the zone is of another class. *)

From S2P Require Import Prelude Zone Watermark Buddy BuddyInv BuddyOps BuddySpec Pmm PmmInv PmmOps PmmPcp.

Definition WRONG_CLASS : string := "pmm pcp page wrong migratetype".

Section refill.
Context (t : Topology) (Ht : topo_wf t) (Sd : Z -> Z) (e : Env).

(** The state after types moved only towards [m]. *)
Definition retyped (c c' : Core) (m : MigrateType) : Prop :=
  forall x, 0 <= x -> mt_of c' x = mt_of c x \/ mt_of c' x = m.

Lemma retyped_refl c m : retyped c c m.
Proof. intros x _. by left. Qed.

Lemma retyped_trans c1 c2 c3 m : retyped c1 c2 m -> retyped c2 c3 m -> retyped c1 c3 m.
Proof. intros H1 H2 x Hx. destruct (H2 x Hx) as [->|]; [by apply H1|by right]. Qed.

Lemma retyped_pageblocks c c' m : pageblocks c' = pageblocks c -> retyped c c' m.
Proof. intros Hpb x _. left. by apply mt_of_pageblocks. Qed.

(** Some page of the allocator in a zone at or below [hi] is not of class [m]. *)
Definition mixed (c : Core) (hi : nat) (m : MigrateType) : Prop :=
  exists x, 0 <= x < pfn_max t /\ Sd x = 1 /\ (Buddy.zi t x <= hi)%nat /\ mt_of c x <> m.

Lemma mixed_retyped c c' hi m : retyped c c' m -> mixed c' hi m -> mixed c hi m.
Proof.
  intros Hr (x & Hx & Hs & Hz & Hm). exists x. split_and!; try done; try lia.
  destruct (Hr x ltac:(lia)) as [<-|]; done.
Qed.

(** A batch is of the class asked for, or its last page is stolen and every
    later take steals too. *)
Definition batch_class (c : Core) (F : blocks) (z : nat) (m : MigrateType) (l : list Z) : Prop :=
  (forall q, q ∈ l -> mt_of c q = m) \/
  (starved F z m 0 /\ exists q l', l = q :: l' /\ mt_of c q <> m).

Record staged (c : Core) (tbl : nat -> PcpList) (bm : Z -> Z) (F : blocks) (P : pagesets) (A : list (Z * nat))
    (R : list Z) (z : nat) (m : MigrateType) (refill : PcpList) (l : list Z) : Prop := {
  st_own : own t Sd c tbl bm F P (pgs l ++ A) R;
  st_list : plist (pages c) refill l;
  st_nodup : NoDup l;
  st_zone : forall q, q ∈ l -> exists m', placed t c z m' q 0;
  st_class : batch_class c F z m l
}.

(** One page more in the batch. *)
Lemma staged_take c tbl bm F P A R z m refill l p c1 (Q : PcpList -> Core -> Prop) :
  staged c tbl bm F P A R z m refill l -> taken t c F z 0 m p c1 -> Z.of_nat (length l) < U64_MAX ->
  (forall refill' c2 F', staged c2 tbl bm F' P A R z m refill' (p :: l) -> retyped c c2 m ->
    grows (fsize F) (fsize F') (ftotal F) (ftotal F') z (-1) -> Q refill' c2) ->
  wp (PcpLists.push refill p) Q c1.
Proof.
  intros [Hown Hl Hnd Hzn Hcl] (F1 & m1 & Hinv1 & Hpl1 & Hmv & Hpo & Hfr & Hmt & Hst) Hlen HQ.
  assert (Hheld : forall q, q ∈ l -> fcov F q = 0).
  { intros q Hq. assert (Hin : (q, 0%nat) ∈ pgs l ++ A).
    { apply elem_of_app. left. apply list_elem_of_fmap. eauto. }
    exact (proj1 (proj2 (held_cov t Sd _ _ _ F P _ R Hown q 0 q Hin ltac:(rewrite pow2_0; lia)))). }
  assert (Hpc : fcov F p = 1).
  { exact (proj1 (taken_cov t c F z 0 p c1 F1 m1 (own_core _ _ _ _ _ _ _ _ _ Hown) Hinv1 Hpl1 Hmv p
      ltac:(rewrite pow2_0; lia))). }
  assert (Hp : p ∉ l) by (intros Hin; apply Hheld in Hin; lia).
  assert (Hown1 : own t Sd c1 tbl bm F1 P (pgs (p :: l) ++ A) R).
  { by eapply (own_take t Ht Sd tbl c bm F P (pgs l ++ A) R z 0 m p c1 F1 m1). }
  assert (Hq0 : forall q, q ∈ l -> 0 <= q).
  { intros q Hq. destruct (Hzn q Hq) as [m' Hq']. apply (placed_range t Ht) in Hq'. lia. }
  assert (Hty : forall q, q ∈ l -> mt_of c1 q = mt_of c q).
  { intros q Hq. destruct (Hmt q (Hq0 q Hq)) as [|[_ Hc]]; [done|]. rewrite Hheld in Hc by done. lia. }
  apply (push_run refill l p); [|done|done|].
  { eapply plist_frame; [|exact Hl]. intros q Hq. by apply Hfr, Hheld. }
  intros refill' c2 Hs2 Hl2. apply (HQ refill' c2 F1).
  - split; [|done|by apply NoDup_cons| |].
    + eapply own_stamped; [exact Hown1|exact Hs2|]. intros q Hq. apply list_elem_of_singleton in Hq as ->.
      destruct (held_cov t Sd _ _ _ F1 P _ R Hown1 p 0 p ltac:(left) ltac:(rewrite pow2_0; lia)) as (_ & ? & ?). done.
    + intros q Hq. apply elem_of_cons in Hq as [->|Hq]; [exists m1; by eapply stamped_placed|].
      destruct (Hzn q Hq) as [m' Hq']. exists m'. eapply stamped_placed; [done|].
      eapply placed_types; [|exact Hq']. intros x Hx. rewrite pow2_0 in Hx. assert (x = q) as -> by lia. auto.
    + destruct Hst as [[-> Hns]|(Hne & Hs & Hs')].
      * destruct Hcl as [Hcl|[Hst _]]; [left|done]. intros q Hq. rewrite (stamped_mt c1 c2 _ _ Hs2).
        apply elem_of_cons in Hq as [->|Hq]; [by eapply placed_mt|]. rewrite Hty by done. auto.
      * right. split; [done|]. exists p, l. split; [done|]. rewrite (stamped_mt c1 c2 _ _ Hs2).
        by rewrite (placed_mt _ _ _ _ _ _ Hpl1).
  - intros x Hx. rewrite (stamped_mt c1 c2 _ _ Hs2). destruct (Hmt x Hx) as [|[? _]]; auto.
  - assert (Hz : (z < NR_ZONES)%nat) by apply Hpl1. by apply (grows_moved F F1 z) in Hmv.
Qed.

Lemma refill_loop_spec n z hi w m refill l s F P A R :
  (z < NR_ZONES)%nat ->
  staged (cr s) (pcp s) (pcp_bitmap s) F P A R z m refill l ->
  Z.of_nat (length l) <= allocated (inner s) -> allocated (inner s) + ftotal F <= 2 ^ 52 ->
  wp (Pcp.refill_loop t n z hi w m refill) (fun refill' s' => exists c' F' l' k,
    s' = put s c' (pcp s) (pcp_bitmap s) (allocated (inner s) + k) /\
    Z.of_nat (length l') = Z.of_nat (length l) + k /\
    staged c' (pcp s) (pcp_bitmap s) F' P A R z m refill' l' /\ retyped (cr s) c' m /\
    grows (fsize F) (fsize F') (ftotal F) (ftotal F') z (- k)) s.
Proof.
  intros Hz. revert refill l s F. induction n as [|n IH]; intros refill l s F Hst Hla Hb; cbn [Pcp.refill_loop].
  all: assert (Hstop : exists c' F' l' k,
    s = put s c' (pcp s) (pcp_bitmap s) (allocated (inner s) + k) /\
    Z.of_nat (length l') = Z.of_nat (length l) + k /\
    staged c' (pcp s) (pcp_bitmap s) F' P A R z m refill l' /\ retyped (cr s) c' m /\
    grows (fsize F) (fsize F') (ftotal F) (ftotal F') z (- k)).
  1, 3: exists (cr s), F, l, 0; split_and!; [by rewrite Z.add_0_r; destruct s as [[]]|lia|done|apply retyped_refl
    |apply grows_refl].
  { by wp_step. }
  wp_step. wp_step. destruct (ZoneTypes.from_index z) as [zt|]; [|by wp_step].
  destruct (negb _); [by wp_step|]. wp_step. apply wp_with_core.
  eapply wp_mono; [apply (take_block_spec t Ht z m 0 (cr s) F); [apply Hst|done]|].
  intros [p|] c1; [intros Htk|intros [-> _]; rewrite putc_id; by wp_step].
  pose proof Htk as (F1' & m1 & Hinv1 & Hpl1 & Hmv1 & Hpo & _).
  pose proof (moved_ftotal F F1' z _ Hz Hmv1) as Hft. cbn beta in Hft. pose proof (ftotal_nonneg F1').
  wp_step. apply wp_with_core. unfold Buddy.verify_poison, read_node. wp_step. wp_step. wp_step; [by fields; rewrite Hpo|].
  wp_step. apply wp_with_core. fields. rewrite pow2_0 in Hft.
  apply (staged_take (cr s) (pcp s) (pcp_bitmap s) F P A R z m refill l p c1); [done|done|unfold U64_MAX; lia|].
  intros refill' c2 F2 Hst2 Hrt2 Hg2. wp_step.
  apply wp_allocated_add; [fields; unfold U64_MAX; lia|]. fields.
  eapply wp_mono; [apply (IH refill' (p :: l) _ F2); fields; [done|cbn [length]; lia|destruct Hg2; lia]|].
  intros refill'' s' (c' & F' & l' & k & -> & Hlen & Hst' & Hrt' & Hg'). exists c', F', l', (k + 1). fields.
  split_and!; [f_equal; lia|cbn [length] in Hlen; lia|done|by eapply retyped_trans|].
  eapply grows_trans; [exact Hg2|exact Hg'|lia].
Qed.

(** ** Publishing the batch *)

Lemma publish_refill_run ll refill pcp lp s (Q : PcpList -> Pmm -> Prop) :
  plist (pages (cr s)) refill ll -> plist (pages (cr s)) pcp lp -> NoDup (ll ++ lp) ->
  (forall q, q ∈ ll -> 0 <= q < pfn_max t /\ pbit (pcp_bitmap s) q = false) ->
  Z.of_nat (length ll + length lp) <= U64_MAX ->
  (forall h c' bm', stamped (cr s) c' ll -> bits_set (pcp_bitmap s) bm' ll true ->
    plist (pages c') h (rev ll ++ lp) -> Q h (putc s c' bm')) ->
  wp (Pcp.publish_refill t (S (length ll)) refill pcp) Q s.
Proof.
  revert refill pcp lp s Q. induction ll as [|p ll IH]; intros refill pcp lp s Q Hl Hp Hnd Hpl Hb HQ.
  { cbn [length Pcp.publish_refill]. wp_step. apply wp_with_core, pop_run_nil; [done|]. rewrite putc_id. wp_step.
    rewrite <- putc_id. apply HQ; [apply stamped_refl| |done].
    intros i _. by rewrite decide_False by apply not_elem_of_nil. }
  assert (Hnd' := Hnd). cbn [app] in Hnd'. apply NoDup_cons in Hnd' as [Hpn Hnd2]. rewrite elem_of_app in Hpn.
  destruct (Hpl p ltac:(left)) as [Hp0 Hbit].
  cbn [length Pcp.publish_refill]. wp_step. apply wp_with_core.
  apply (pop_run_cons t Ht refill p ll); [done|by apply NoDup_app in Hnd as [? _]|intros q Hq; by apply Hpl|].
  intros h' Hh'. rewrite putc_id. cbn beta iota.
  wp_step. apply wp_pcp_mark; [done|done|]. intros bm1 Hbm1.
  wp_step. apply wp_with_core. apply (push_run pcp lp p); [done|tauto|cbn [length] in Hb; lia|].
  intros pcp' c1 Hs1 Hp1.
  apply (IH h' pcp' (p :: lp) (putc s c1 bm1) Q); fields.
  - eapply plist_frame; [|exact Hh']. intros q Hq. apply Hs1. rewrite list_elem_of_singleton. intros ->. tauto.
  - done.
  - rewrite NoDup_app in Hnd2 |- *. destruct Hnd2 as (H1 & H2 & H3). split_and!; [done| |apply NoDup_cons; tauto].
    intros q Hq. rewrite not_elem_of_cons. split; [intros ->; tauto|auto].
  - intros q Hq. destruct (Hpl q ltac:(by right)) as [Hq0 Hqb]. split; [done|]. rewrite Hbm1 by lia.
    rewrite decide_False; [done|]. rewrite list_elem_of_singleton. intros ->. tauto.
  - cbn [length] in *. lia.
  - intros h c' bm' Hs2 Hbm2 Hh. apply (HQ h c' bm').
    + eapply stamped_trans; (eapply stamped_mono; [eassumption|]); intros q Hq; rewrite elem_of_cons;
        [rewrite list_elem_of_singleton in Hq; by left|by right].
    + by eapply bits_set_cons.
    + cbn [rev]. by rewrite <- app_assoc.
Qed.

(** Held pages are in range and not marked. *)
Lemma held_unmarked c tbl bm F P A R p o :
  own t Sd c tbl bm F P A R -> (p, o) ∈ A ->
  0 <= p < pfn_max t /\ pbit bm p = false /\
  forall z m cpu, (z < NR_ZONES)%nat -> (cpu < MAX_CPUS)%nat -> p ∉ P z m cpu.
Proof.
  intros Hown Hp. destruct (own_alloc _ _ _ _ _ _ _ _ _ Hown p o Hp) as (z & m & Hpl).
  pose proof (placed_range t Ht _ _ _ _ _ Hpl). pose proof (pow2_pos o).
  destruct (held_cov t Sd c tbl bm F P A R Hown p o p Hp ltac:(lia)) as (_ & _ & Hp0).
  assert (Hn : forall z m cpu, (z < NR_ZONES)%nat -> (cpu < MAX_CPUS)%nat -> p ∉ P z m cpu).
  { intros z0 m0 cpu0 Hz0 Hc0 Hin. destruct (cached_cov t Sd c tbl bm F P A R Hown z0 m0 cpu0 p Hz0 Hc0 Hin). lia. }
  split_and!; [lia|lia| |done]. destruct (pbit bm p) eqn:E; [|done].
  apply (own_bits _ _ _ _ _ _ _ _ _ Hown) in E as (z0 & m0 & c0 & Hz0 & Hc0 & Hin); [|lia].
  by apply (Hn z0 m0 c0) in Hin.
Qed.

(** The critical section that hands out the head of the batch and caches the rest. *)
Lemma refill_publish_run p l z m refill s F P A R (Q : Z -> Pmm -> Prop) :
  (z < NR_ZONES)%nat ->
  staged (cr s) (pcp s) (pcp_bitmap s) F P A R z m refill (p :: l) ->
  let cpu := cpu_of (current_cpu e) in
  Z.of_nat (length l + length (P z m cpu)) <= U64_MAX ->
  1 <= zone_free s z <= U64_MAX -> 0 <= pcp_free s z + Z.of_nat (length l) <= U64_MAX ->
  (forall h c' bm', stamped (cr s) c' l -> bits_set (pcp_bitmap s) bm' l true ->
    plist (pages c') h (rev l ++ P z m cpu) ->
    Q p (set_zone_free (updn (zone_free s) z (zone_free s z - 1))
          (set_pcp_free (updn (pcp_free s) z (pcp_free s z + Z.of_nat (length l)))
            (put s c' (updn (pcp s) (Pcp.list_slot cpu z m) h) bm' (allocated (inner s)))))) ->
  wp (Pcp.with_current_pcp e z m (fun pcp =>
    '(r, refill') ← with_core (PcpLists.pop t refill);
    pfn ← expect r "pcp refill lost its head";
    pcp' ← Pcp.publish_refill t (S (Z.to_nat (count refill'))) refill' pcp;
    pcp_free_add z (count refill - 1) ;; zone_free_sub z 1 ;;
    ret (pfn, pcp'))) Q s.
Proof.
  intros Hz [Hown Hl Hnd Hzn Hcl] cpu Hlen Hzf Hpf HQ. pose proof (cpu_of_bound (current_cpu e)) as Hc. fold cpu in Hc.
  assert (Hheld : forall q, q ∈ p :: l -> (q, 0%nat) ∈ pgs (p :: l) ++ A).
  { intros q Hq. apply elem_of_app. left. apply list_elem_of_fmap. eauto. }
  assert (Hun : forall q, q ∈ p :: l -> 0 <= q < pfn_max t /\ pbit (pcp_bitmap s) q = false /\ q ∉ P z m cpu).
  { intros q Hq. destruct (held_unmarked _ _ _ F P _ R q 0 Hown (Hheld q Hq)) as (? & ? & Hn). auto. }
  unfold Pcp.with_current_pcp. apply wp_with_list; [done|]. rewrite <- (list_slot_cpu_of (current_cpu e)). fold cpu.
  wp_step. apply wp_with_core. apply (pop_run_cons t Ht refill p l); [done|done|intros q Hq; by apply Hun|].
  intros refill' Hl'. rewrite putc_id. cbn beta iota. wp_step. wp_step. wp_step.
  assert (Hcnt : count refill = Z.of_nat (S (length l))) by apply Hl.
  assert (count refill' = Z.of_nat (length l)) as -> by apply Hl'. rewrite Nat2Z.id, Hcnt.
  apply NoDup_cons in Hnd as [Hp Hnd].
  apply (publish_refill_run l refill' _ (P z m cpu)); [done|exact (own_list _ _ _ _ _ _ _ _ _ Hown z m cpu Hz Hc)| | |done|].
  - apply NoDup_app. split_and!; [done| |by apply (cached_NoDup t Sd _ _ _ F P _ R Hown)].
    intros q Hq. apply Hun. by right.
  - intros q Hq. destruct (Hun q ltac:(by right)) as (? & ? & _). done.
  - intros h c' bm' Hs' Hbm' Hh. replace (Z.of_nat (S (length l)) - 1) with (Z.of_nat (length l)) by lia.
    wp_step. apply wp_pcp_free_add; [fields; lia|]. wp_step. apply wp_zone_free_sub; [fields; lia|].
    wp_step. fields. by apply HQ.
Qed.

(** The one panic a refill can reach. *)
Definition class_panic (c : Core) (hi : nat) (m : MigrateType) (msg : string) : Prop :=
  msg = WRONG_CLASS /\ mixed c hi m.

(** The accounting of a refill: [k] pages leave the buddy, [k - 1] are cached
    and one is held. *)
Lemma refill_acct s s' F P A R F' z m cpu ln p k :
  acct t s F P A R -> (z < NR_ZONES)%nat -> (cpu < MAX_CPUS)%nat -> Buddy.zi t p = z ->
  grows (fsize F) (fsize F') (ftotal F) (ftotal F') z (- k) ->
  Z.of_nat (length ln) = Z.of_nat (length (P z m cpu)) + (k - 1) ->
  zone_free s' = updn (zone_free s) z (zone_free s z - 1) ->
  pcp_free s' = updn (pcp_free s) z (pcp_free s z + (k - 1)) ->
  managed (inner s') = managed (inner s) -> allocated (inner s') = allocated (inner s) + k ->
  reserved (inner s') = reserved (inner s) -> initial_free (inner s') = initial_free (inner s) ->
  acct t s' F' (upd3 P z m cpu ln) ((p, 0%nat) :: A) R.
Proof.
  intros Hac Hz Hc Hzi Hgf Hln Hzf Hpf Hm Ha Hr Hi.
  pose proof (grows_upd P z m cpu ln Hz Hc) as Hgp. rewrite Hln in Hgp.
  replace (_ + (k - 1) - _) with (k - 1) in Hgp by lia.
  eapply (acct_step t s s' F P A R F' _ _ z); [done|exact Hgf|exact Hgp|by apply grows_held|rewrite pow2_0; lia|..];
    try done; try lia.
  - intros z' _. rewrite Hzf. replace (- k + (k - 1)) with (-1) by lia. apply (updn_at_zone (zone_free s) z z' (-1)).
  - intros z' _. rewrite Hpf. apply updn_at_zone.
Qed.

(** The check of a stolen page fails, and its page is of another class. *)
Lemma verify_wrong_class (E : string -> Prop) z m m' p Q s :
  placed t (cr s) z m' p 0 -> mt_of (cr s) p <> m -> E WRONG_CLASS -> wpe E (Pcp.verify_pcp_node t p z m) Q s.
Proof.
  intros Hp Hm HE. pose proof (placed_range t Ht _ _ _ _ _ Hp) as Hpr. rewrite pow2_0 in Hpr. unfold Pcp.verify_pcp_node.
  apply wpe_bind_wp. wp_step; [apply Nat.eqb_eq; by eapply placed_index|]. apply wpe_bind_wp, (wp_pcp_type t Ht); [lia|].
  apply wpe_bind, wpe_kassert; [done|]. intros Heq. by apply MigrateTypes.eqb_eq in Heq.
Qed.

Lemma staged_mixed c tbl bm F P A R z m m' p l hi :
  own t Sd c tbl bm F P (pgs (p :: l) ++ A) R -> placed t c z m' p 0 -> (z <= hi)%nat -> mt_of c p <> m -> mixed c hi m.
Proof.
  intros Hown Hp Hhi Hm. pose proof (placed_range t Ht _ _ _ _ _ Hp) as Hpr. rewrite pow2_0 in Hpr.
  exists p. split_and!; [lia|lia| |by rewrite (placed_zi t Ht _ _ _ _ _ Hp)|done].
  pose proof (own_part _ _ _ _ _ _ _ _ _ Hown p) as Hpt. pose proof (own_seed _ _ _ _ _ _ _ _ _ Hown p).
  destruct (held_cov t Sd _ _ _ F P _ R Hown p 0 p ltac:(left) ltac:(rewrite pow2_0; lia)) as (Ha1 & _).
  unfold cover in Hpt. pose proof (fcov_nonneg F p). pose proof (pcov_nonneg P p). pose proof (rcov_nonneg R p). lia.
Qed.

Lemma refill_current_spec z hi w m s F P A R :
  (z < NR_ZONES)%nat -> (z <= hi)%nat -> pmm_inv t Sd s F P A R ->
  wpe (class_panic (cr s) hi m) (Pcp.refill_current_pcp t e z hi w m) (fun r s' =>
    cfg s' = cfg s /\ retyped (cr s) (cr s') m /\
    match r with
    | None => exists F', pmm_inv t Sd s' F' P A R
    | Some p => placed t (cr s') z m p 0 /\ exists F' P', pmm_inv t Sd s' F' P' ((p, 0%nat) :: A) R
    end) s.
Proof.
  intros Hz Hhi [Hown Hac]. set (cpu := cpu_of (current_cpu e)).
  pose proof (cpu_of_bound (current_cpu e)) as Hc. fold cpu in Hc.
  destruct (acct_bounds _ _ _ _ _ _ Hac) as (Hb & Hb1 & Hb2 & Hb3 & Hb4).
  pose proof (ac_allocated _ _ _ _ _ _ Hac) as Hal. pose proof (asize_nonneg A).
  unfold Pcp.refill_current_pcp. apply wpe_bind_wp. wp_step. apply wpe_bind_wp.
  eapply wp_mono; [apply (refill_loop_spec _ z hi w m PcpLists.empty [] s F P A R Hz); [|cbn [length]; lia|lia]|].
  { split; [exact Hown|done|constructor| |left]; intros q Hq; by apply not_elem_of_nil in Hq. }
  intros refill s1 (c1 & F1 & l & k & -> & Hk & Hst & Hrt & Hg). cbn [length] in Hk.
  assert (Hcnt : count refill = Z.of_nat (length l)) by apply Hst. rewrite Hcnt.
  bool_case (Z.of_nat (length l) =? 0).
  { assert (Hl : l = []) by (destruct l; [done|cbn [length] in *; lia]). subst l. cbn [length] in Hk.
    apply wpe_ret. split_and!; [done|done|]. exists F1. split; [exact (st_own _ _ _ _ _ _ _ _ _ _ _ Hst)|].
    eapply (acct_step t s _ F P A R F1 P A z (- k) 0 0); [done|done|apply grows_refl|apply grows_refl|lia|..];
      fields; try done; try lia; intros z' _; unfold at_zone; destruct (_ =? _)%nat; lia. }
  destruct l as [|p l]; [done|]. cbn [length] in Hk.
  destruct (Hb z Hz) as (Hz1 & Hz2 & Hz3 & Hz4). pose proof (plen_le P z m cpu Hz Hc).
  pose proof (ac_zone_free _ _ _ _ _ _ Hac z Hz) as Hzf. pose proof (ac_pcp_free _ _ _ _ _ _ Hac z Hz) as Hpf.
  destruct Hg as [Hg1 Hg2]. pose proof (Hg1 z Hz) as Hg3. rewrite at_zone_same in Hg3.
  pose proof (fsize_nonneg F1 z). assert (Hkl : k - 1 = Z.of_nat (length l)) by lia.
  apply wpe_bind_wp. rewrite <- Hcnt. apply (refill_publish_run p l z m refill _ F1 P A R); fields; [done|done|..];
    try (unfold U64_MAX; fold cpu; lia).
  intros h c' bm' Hs' Hbm' Hh. fold cpu in Hh. destruct Hst as [Hown1 Hl1 Hnd1 Hzn1 Hcl1].
  apply NoDup_cons in Hnd1 as [Hpl Hnd1]. destruct (Hzn1 p ltac:(left)) as [m' Hp1].
  assert (Hp' : placed t c' z m' p 0) by (by eapply stamped_placed).
  destruct (pchain_node (pages c1) (p :: l) p) as [Hn1 Hn2]; [apply Hl1|left|].
  assert (Hpg : pages c' p = pages c1 p) by (by apply Hs').
  destruct (decide (mt_of c1 p = m)) as [Hm|Hm].
  - rewrite (placed_mt _ _ _ _ _ _ Hp1) in Hm. subst m'.
    apply wpe_bind_wp, (wp_verify_node t Ht _ z m p); fields; [done|by rewrite Hpg|by rewrite Hpg|].
    unfold Pcp.note_pcp_alloc. apply wpe_bind_wp. wp_step. apply wpe_ret. fields.
    split_and!; [done| |done|].
    + intros x Hx. rewrite (stamped_mt c1 c' _ _ Hs'). by apply Hrt.
    + exists F1, (upd3 P z m cpu (rev l ++ P z m cpu)). split; fields.
      * eapply (own_cache t Sd (pcp s) c1 (pcp_bitmap s) F1 P ((p, 0%nat) :: A) R z m cpu l); try done;
          [..|apply slot_set_updn].
        -- eapply own_perm; [exact Hown1|]. fold (pgs l). cbn [pgs map app]. by rewrite Permutation_middle.
        -- destruct Hcl1 as [Hcl1|[_ (q & l' & Heq & Hq)]]; [|injection Heq as <- <-; by rewrite (placed_mt _ _ _ _ _ _ Hp1) in Hq].
           intros q Hq. destruct (Hzn1 q ltac:(by right)) as [mq Hq1]. pose proof (Hcl1 q ltac:(by right)) as Hq2.
           rewrite (placed_mt _ _ _ _ _ _ Hq1) in Hq2. by subst mq.
        -- by rewrite (Permutation_rev l) at 2.
      * eapply (refill_acct s _ F P A R F1 z m cpu _ p k); fields; try done.
        -- by eapply placed_zi.
        -- rewrite length_app, length_rev. lia.
        -- by rewrite <- Hkl.
  - apply wpe_bind. apply (verify_wrong_class (class_panic (cr s) hi m) z m m'); fields; [done|by rewrite (stamped_mt c1 c' _ _ Hs')|].
    split; [done|]. apply (mixed_retyped (cr s) c1 hi m Hrt). by eapply staged_mixed.
Qed.

End refill.
