(* ===== verification/PmmAlloc.v ===== *)
(** * The page allocator: allocation and freeing

    The operations of [crates/kernel/mm-pmm/src/buddy/api.rs] and
    [buddy/free.rs] keep [pmm_inv]: an allocation moves one block of the order
    asked for, in a permitted zone, from the free memory to the caller, and a
    free moves it back. *)

From S2P Require Import Prelude Zone Watermark Buddy BuddyInv BuddyOps BuddySpec.
From S2P Require Import Pmm PmmInv PmmOps PmmPcp PmmRefill.

(** The counters of the locked state at the end of an operation. *)
Definition accounted (s : Pmm) (a : Z) (ev : Events) : Pmm :=
  set_inner (set_events ev (set_allocated a (inner s))) s.

Lemma wp_account_alloc n (Q : unit -> Pmm -> Prop) s :
  allocated (inner s) + n <= U64_MAX ->
  Q tt (accounted s (allocated (inner s) + n) (note_alloc n (events (inner s)))) ->
  wp (on_inner (allocated_add n ;; modify (fun g => set_events (note_alloc n (events g)) g))) Q s.
Proof. intros Hb HQ. apply wp_zoom. unfold allocated_add. by repeat wp_step. Qed.

Lemma wp_account_free n (Q : unit -> Pmm -> Prop) s :
  n <= allocated (inner s) ->
  Q tt (accounted s (allocated (inner s) - n) (note_free n (events (inner s)))) ->
  wp (on_inner (allocated_sub n ;; modify (fun g => set_events (note_free n (events g)) g))) Q s.
Proof. intros Hb HQ. apply wp_zoom. unfold allocated_sub. by repeat wp_step. Qed.

Section alloc.
Context (t : Topology) (Ht : topo_wf t) (Sd : Z -> Z) (e : Env).

(** ** Zeroing *)

Lemma zero_loop_run n p c (Q : unit -> Core -> Prop) :
  (forall c', stamped c c' (seqZ p (Z.of_nat n)) ->
    (forall x, p <= x < p + Z.of_nat n -> pages c' x = zero_node) -> Q tt c') ->
  wp (Api.zero_loop n p) Q c.
Proof.
  revert p c Q. induction n as [|n IH]; intros p c Q HQ; cbn [Api.zero_loop].
  - wp_step. apply HQ; [apply stamped_refl|lia].
  - unfold write_node. wp_step. wp_step. apply IH. intros c' Hs Hz. apply HQ.
    + eapply stamped_trans; [eapply stamped_mono; [apply (stamped_node c p zero_node)|]|eapply stamped_mono; [exact Hs|]].
      * intros q Hq. apply list_elem_of_singleton in Hq as ->. apply elem_of_seqZ. lia.
      * intros q Hq. apply elem_of_seqZ in Hq. apply elem_of_seqZ. lia.
    + intros x Hx. destruct (decide (x = p)) as [->|]; [|apply Hz; lia].
      assert (Hns : p ∉ seqZ (p + 1) (Z.of_nat n)) by (rewrite elem_of_seqZ; lia).
      destruct Hs as (_ & _ & _ & _ & Hs). rewrite Hs by done. cbn [pages set_pages]. apply upd_eq.
Qed.

(** A block handed to a caller: placed in a permitted zone, its pages zeroed. *)
Definition handed (c : Core) (p : Z) (o hi : nat) : Prop :=
  exists z m, (z <= hi)%nat /\ placed t c z m p o /\ forall x, p <= x < p + pow2 o -> pages c x = zero_node.

Lemma zero_run p o hi z m s F P A R (Q : unit -> Pmm -> Prop) :
  pmm_inv t Sd s F P ((p, o) :: A) R -> placed t (cr s) z m p o -> (z <= hi)%nat ->
  (forall s', pmm_inv t Sd s' F P ((p, o) :: A) R -> handed (cr s') p o hi -> cfg s' = cfg s ->
    pageblocks (cr s') = pageblocks (cr s) -> Q tt s') ->
  wp (Api.zero_allocation p o) Q s.
Proof.
  intros [Hown Hac] Hpl Hhi HQ. unfold Api.zero_allocation. apply wp_with_core, zero_loop_run.
  pose proof (pow2_pos o). rewrite Z2Nat.id by lia. intros c' Hs Hz. apply HQ; fields; [| |done|apply Hs].
  - split; [|by destruct Hac; split]. eapply own_stamped; [exact Hown|exact Hs|].
    intros q Hq. apply elem_of_seqZ in Hq.
    destruct (held_cov t Sd _ _ _ F P _ R Hown p o q ltac:(left) Hq) as (_ & ? & ?). done.
  - exists z, m. split_and!; [done|by eapply stamped_placed|done].
Qed.

(** ** The order-0 path *)

Lemma walk_le hi zt : zt ∈ Zonelists.walk (zonelist t) hi -> (ZoneTypes.index zt <= hi)%nat.
Proof. apply walk_from_le. Qed.

Lemma alloc_from_zones_spec zones hi w m s F P A R :
  (forall zt, zt ∈ zones -> (ZoneTypes.index zt <= hi)%nat) -> pmm_inv t Sd s F P A R ->
  wpe (class_panic t Sd (cr s) hi m) (Pcp.alloc_from_zones t e zones hi w m) (fun r s' =>
    cfg s' = cfg s /\ retyped (cr s) (cr s') m /\
    match r with
    | None => exists F' P', pmm_inv t Sd s' F' P' A R
    | Some p => exists z F' P', (z <= hi)%nat /\ placed t (cr s') z m p 0 /\ pmm_inv t Sd s' F' P' ((p, 0%nat) :: A) R
    end) s.
Proof.
  revert s F P. induction zones as [|zt zones IH]; intros s F P Hzs Hinv; cbn [Pcp.alloc_from_zones].
  { apply wpe_ret. split_and!; [done|apply retyped_refl|by exists F, P]. }
  assert (Hzs' : forall zt, zt ∈ zones -> (ZoneTypes.index zt <= hi)%nat) by (intros; apply Hzs; by right).
  pose proof (Hzs zt ltac:(left)) as Hle. pose proof (index_lt zt) as Hz.
  unfold Pcp.pcp_watermark_ok. apply wpe_bind_wp. repeat wp_step. destruct (negb _); [by apply (IH s F P)|].
  apply wpe_bind_wp. eapply wp_mono; [by apply (pop_current_spec t Ht Sd e _ m s F P A R)|].
  intros [p|] s1 (Hcfg1 & Hcr1 & Hr1).
  { destruct Hr1 as (Hpl & P1 & Hinv1). apply wpe_ret. split_and!; [done|rewrite Hcr1; apply retyped_refl|].
    exists (ZoneTypes.index zt), F, P1. rewrite Hcr1. done. }
  apply wpe_bind. rewrite <- Hcr1. eapply wpe_mono; [by apply (refill_current_spec t Ht Sd e _ hi w m s1 F P A R)|].
  intros [p|] s2 (Hcfg2 & Hrt2 & Hr2).
  { destruct Hr2 as (Hpl & F2 & P2 & Hinv2). apply wpe_ret. split_and!; [congruence|done|].
    by exists (ZoneTypes.index zt), F2, P2. }
  destruct Hr2 as (F2 & Hinv2). eapply wpe_mono; [eapply wpe_weaken; [|by apply (IH s2 F2 P)]|].
  - intros msg [-> Hmix]. split; [done|]. by eapply mixed_retyped.
  - intros r s3 (Hcfg3 & Hrt3 & Hr3). split_and!; [congruence|by eapply retyped_trans|done].
Qed.

(** ** The global path *)

(** The gate a zone must pass for a request. *)
Definition gate (s : Pmm) (o hi : nat) (w : AllocWmark) (zi : nat) : bool :=
  match ZoneTypes.from_index zi with
  | None => false
  | Some zone =>
      Wmark.zone_watermark_ok zone o (mark_of (wmark (inner s) zi) w) w (reserve (inner s)) hi
        (if (o =? 0)%nat then Pcp.area_with_pcp s zi else Buddy.free_area (cr s) zi)
  end.

Lemma gate_unmoved s s' F F' o hi w zi : unmoved s s' F F' -> cfg s' = cfg s -> gate s' o hi w zi = gate s o hi w zi.
Proof.
  intros (Hn & Hp & _) Hc. injection Hc as Hz Hw Hr _ _ _. unfold gate, Pcp.area_with_pcp, Buddy.free_area.
  by rewrite Hw, Hr, Hn, Hp.
Qed.

(** No zone a request may use can serve it. *)
Definition exhausted (s : Pmm) (F : blocks) (o hi : nat) (w : AllocWmark) : Prop :=
  forall zi, zi ∈ entries (zonelist t) -> (zi <= hi)%nat -> (zi < NR_ZONES)%nat ->
    gate s o hi w zi = false \/ forall m, class_empty F zi m o.

Lemma take_from_entries_spec es o hi w m s F :
  core_inv t (cr s) F ->
  wp (Api.take_from_entries t es o hi w m) (fun r s' =>
    match r with
    | None => s' = s /\ forall zi, zi ∈ es -> (zi <= hi)%nat -> (zi < NR_ZONES)%nat ->
        gate s o hi w zi = false \/ forall m, class_empty F zi m o
    | Some (p, zi) => (zi <= hi)%nat /\ (zi < NR_ZONES)%nat /\
        exists c', s' = putc s c' (pcp_bitmap s) /\ taken t (cr s) F zi o m p c'
    end) s.
Proof.
  intros Hinv. induction es as [|zi es IH]; cbn [Api.take_from_entries].
  { wp_step. split; [done|]. intros zi Hin. by apply not_elem_of_nil in Hin. }
  assert (Hskip : (hi < zi)%nat \/ (NR_ZONES <= zi)%nat \/ gate s o hi w zi = false \/ (forall m, class_empty F zi m o) ->
    wp (Api.take_from_entries t es o hi w m) (fun r s' =>
    match r with
    | None => s' = s /\ forall zi', zi' ∈ zi :: es -> (zi' <= hi)%nat -> (zi' < NR_ZONES)%nat ->
        gate s o hi w zi' = false \/ forall m, class_empty F zi' m o
    | Some (p, zi) => (zi <= hi)%nat /\ (zi < NR_ZONES)%nat /\
        exists c', s' = putc s c' (pcp_bitmap s) /\ taken t (cr s) F zi o m p c'
    end) s).
  { intros Hs. eapply wp_mono; [exact IH|]. intros [[p z]|] s'; [done|]. intros [-> Hn]. split; [done|].
    intros zi' Hin Hle Hlt. apply elem_of_cons in Hin as [->|Hin]; [|auto]. destruct Hs as [?|[?|[?|?]]]; (lia || tauto). }
  destruct (hi <? zi)%nat eqn:Ehi; to_prop; [apply Hskip; lia|].
  destruct (ZoneTypes.from_index zi) as [zone|] eqn:Ez; [|apply Hskip; right; right; left; unfold gate; by rewrite Ez].
  assert (Hzi : (zi < NR_ZONES)%nat) by (rewrite <- (ZoneTypes.index_from_index _ _ Ez); apply index_lt).
  wp_step. wp_step. destruct (negb _) eqn:Eg; to_prop.
  { apply Hskip. right; right; left. unfold gate. by rewrite Ez. }
  wp_step. apply wp_with_core. eapply wp_mono; [by apply (take_block_spec t Ht zi m o (cr s) F)|].
  intros [p|] c'; [intros Htk; wp_step; eauto|]. intros [-> Hemp]. rewrite putc_id. apply Hskip. auto.
Qed.

Lemma taken_acct s s' F P A R F' z o p :
  acct t s F P A R -> (z < NR_ZONES)%nat -> Buddy.zi t p = z -> moved F F' z (fun g => - g p o) ->
  zone_free s' = updn (zone_free s) z (zone_free s z - pow2 o) -> pcp_free s' = pcp_free s ->
  managed (inner s') = managed (inner s) -> allocated (inner s') = allocated (inner s) + pow2 o ->
  reserved (inner s') = reserved (inner s) -> initial_free (inner s') = initial_free (inner s) ->
  acct t s' F' P ((p, o) :: A) R.
Proof.
  intros Hac Hz Hzi Hmv Hzf Hpf Hm Ha Hr Hi. apply (grows_moved F F' z) in Hmv as Hg; [|done]. cbn beta in Hg.
  eapply (acct_step t s s' F P A R F' P _ z); [done|exact Hg|apply grows_refl|by apply grows_held|lia|..]; try done; try lia.
  - intros z' _. rewrite Hzf, updn_at_zone_sub. unfold at_zone. destruct (_ =? _)%nat; lia.
  - intros z' _. rewrite Hpf. unfold at_zone. destruct (_ =? _)%nat; lia.
Qed.

(** A block taken and accounted, with the zone's free counter still to be
    lowered. *)
Definition pending (s s1 : Pmm) (P : pagesets) A R (p : Z) (zi o : nat) (m : MigrateType) : Prop :=
  let s2 := set_zone_free (updn (zone_free s1) zi (zone_free s1 zi - pow2 o)) s1 in
  cfg s2 = cfg s /\ retyped (cr s) (cr s2) m /\ 0 <= zone_free s1 zi - pow2 o <= U64_MAX /\
  exists F' m', placed t (cr s2) zi m' p o /\ pmm_inv t Sd s2 F' P ((p, o) :: A) R.

Lemma take_global_spec o hi w m s F P A R :
  pmm_inv t Sd s F P A R ->
  wp (Api.take_global t o hi w m) (fun r s' =>
    match r with
    | None => s' = s /\ exhausted s F o hi w
    | Some (p, zi) => (zi <= hi)%nat /\ pending s s' P A R p zi o m
    end) s.
Proof.
  intros [Hown Hac]. unfold Api.take_global. wp_step.
  eapply wp_mono; [apply take_from_entries_spec, Hown|]. intros [[p zi]|] s1; [|intros [-> Hex]; by wp_step].
  intros (Hhi & Hzi & c' & -> & F' & m' & Hinv' & Hpl & Hmv & Hpo & Hfr & Hmt & _). wp_step.
  apply wp_with_core. unfold Buddy.verify_poison, read_node. wp_step. wp_step. wp_step; [fields; by rewrite Hpo|].
  destruct (acct_bounds _ _ _ _ _ _ Hac) as (Hb & Hb1 & Hb2 & Hb3 & Hb4).
  pose proof (moved_fsize _ _ _ _ Hmv zi Hzi) as Hfz. rewrite at_zone_same in Hfz.
  pose proof (moved_ftotal _ _ _ _ Hzi Hmv) as Hft. cbn beta in Hfz, Hft.
  pose proof (fsize_nonneg F' zi). pose proof (ftotal_nonneg F'). pose proof (pow2_pos o).
  pose proof (ac_zone_free _ _ _ _ _ _ Hac zi Hzi) as Hzf. pose proof (ac_allocated _ _ _ _ _ _ Hac) as Hal.
  destruct (Hb zi Hzi) as (? & ? & ? & ?).
  wp_step. apply wp_account_alloc; [fields; unfold U64_MAX; lia|]. wp_step.
  split; [done|]. unfold pending, accounted. fields. split_and!; [done| |unfold U64_MAX; lia|unfold U64_MAX; lia|].
  { intros x Hx. destruct (Hmt x Hx) as [?|[? _]]; auto. }
  exists F', m'. split; [done|]. split; [by eapply (own_take t Ht Sd (pcp s) (cr s)); try done|].
  eapply (taken_acct s _ F P A R F' zi o p); try done. by eapply placed_zi.
Qed.

(** What an allocation leaves behind, whatever it returns. *)
Definition alloc_post (s : Pmm) A R (o hi : nat) (w : AllocWmark) (m : MigrateType) (r : KResult Z) (s' : Pmm) : Prop :=
  cfg s' = cfg s /\ retyped (cr s) (cr s') m /\
  match r with
  | Ok p => handed (cr s') p o hi /\ exists F' P', pmm_inv t Sd s' F' P' ((p, o) :: A) R
  | Err er => er = NoMem /\ exists F' P', pmm_inv t Sd s' F' P' A R /\ exhausted s' F' o hi w
  end.

Lemma alloc_post_trans s1 s2 A R o hi w m r s' :
  cfg s2 = cfg s1 -> retyped (cr s1) (cr s2) m -> alloc_post s2 A R o hi w m r s' -> alloc_post s1 A R o hi w m r s'.
Proof. intros Hc Hr (H1 & H2 & H3). split_and!; [congruence|by eapply retyped_trans|done]. Qed.

Lemma finish_taken_run s s1 P A R p zi o hi w m :
  (zi <= hi)%nat -> pending s s1 P A R p zi o m ->
  wp (zone_free_sub zi (pow2 o) ;; Api.zero_allocation p o ;; ret (Ok p)) (alloc_post s A R o hi w m) s1.
Proof.
  intros Hhi (Hcfg & Hrt & Hb & F' & m' & Hpl & Hinv). wp_step. apply wp_zone_free_sub; [done|].
  wp_step. eapply (zero_run p o hi zi m'); [done|done|done|]. intros s' Hinv' Hh Hcfg' Hpb. wp_step.
  split_and!; [congruence| |done|by eauto]. eapply retyped_trans; [exact Hrt|by apply retyped_pageblocks].
Qed.

Lemma alloc_loop_spec o hi w m s F P A R :
  pmm_inv t Sd s F P A R -> wp (Api.alloc_loop t 2 false o hi w m) (alloc_post s A R o hi w m) s.
Proof.
  intros Hinv. cbn [Api.alloc_loop]. wp_step. eapply wp_mono; [by apply (take_global_spec o hi w m s F P A R)|].
  intros [[p zi]|] s1; [intros [? ?]; by eapply finish_taken_run|]. intros [-> Hex]. wp_step.
  eapply wp_mono; [by apply (drain_below_spec t Ht Sd hi s F P A R)|].
  intros d s2 (Hcfg2 & Hpb2 & F2 & P2 & Hinv2 & Hd). assert (Hrt2 := retyped_pageblocks _ _ m Hpb2).
  destruct d; cbn [negb].
  - wp_step. eapply wp_mono; [by apply (take_global_spec o hi w m s2 F2 P2 A R)|].
    intros [[p zi]|] s3.
    + intros [? ?]. eapply wp_mono; [by eapply (finish_taken_run s2)|]. intros. by eapply alloc_post_trans.
    + intros [-> Hex2]. wp_step. split_and!; [done|done|done|]. by exists F2, P2.
  - wp_step. split_and!; [done|done|done|]. exists F2, P2. split; [done|]. intros zi Hzi Hle Hlt.
    rewrite (gate_unmoved _ _ _ _ _ _ _ _ (Hd eq_refl) Hcfg2). destruct (Hd eq_refl) as (_ & _ & ->). by apply Hex.
Qed.

(** The panic an allocation may end in: a single page asked of a zone whose
    memory is not all of the class asked for. *)
Definition alloc_panic (c : Core) (o hi : nat) (m : MigrateType) (msg : string) : Prop :=
  o = 0%nat /\ class_panic t Sd c hi m msg.

Lemma alloc_inner_spec o hi w m s F P A R :
  (o <= MAX_ORDER)%nat -> pmm_inv t Sd s F P A R ->
  wpe (alloc_panic (cr s) o hi m) (Api.alloc_inner_zoned t e o hi w m) (alloc_post s A R o hi w m) s.
Proof.
  intros Ho Hinv. unfold Api.alloc_inner_zoned. rewrite (proj2 (Nat.ltb_ge _ _) Ho).
  destruct (o =? 0)%nat eqn:Eo; to_prop.
  - subst o. unfold Pcp.alloc_from_pcp. apply wpe_bind.
    eapply wpe_mono; [eapply wpe_weaken; [|apply (alloc_from_zones_spec _ hi w m s F P A R); [apply walk_le|done]]|];
      [by split|].
    intros [p|] s1 (Hcfg1 & Hrt1 & Hr1); apply wpe_wp.
    + destruct Hr1 as (z & F1 & P1 & Hz & Hpl & Hinv1). wp_step. eapply (zero_run p 0 hi z m); [done|done|done|].
      intros s2 Hinv2 Hh Hcfg2 Hpb. wp_step. split_and!; [congruence| |done|by eauto].
      eapply retyped_trans; [exact Hrt1|by apply retyped_pageblocks].
    + destruct Hr1 as (F1 & P1 & Hinv1). eapply wp_mono; [by eapply alloc_loop_spec|].
      intros. by eapply alloc_post_trans.
  - apply wpe_wp. wp_step. wp_step. by eapply alloc_loop_spec.
Qed.

End alloc.
