(* ===== verification/PmmFree.v ===== *)
(** * The page allocator: freeing

    [free] of [crates/kernel/mm-pmm/src/buddy/free.rs] gives a block back to
    the free lists or, a single page, to the pageset of the current CPU; a
    block that is free already is refused. *)

From S2P Require Import Prelude Zone Watermark Buddy BuddyInv BuddyOps BuddySpec.
From S2P Require Import Pmm PmmInv PmmOps PmmPcp PmmRefill PmmAlloc.

Lemma wpe_on_core {A} E (m : M Core A) (Q : A -> Pmm -> Prop) s :
  wpe E m (fun a c' => Q a (putc s c' (pcp_bitmap s))) (cr s) -> wpe E (with_core m) Q s.
Proof. unfold wpe, with_core, on_inner, on_core, zoom. cbn. by destruct (m (cr s)) as [[a c']|]. Qed.

Section free.
Context (t : Topology) (Ht : topo_wf t) (Sd : Z -> Z) (e : Env).

Lemma wp_check_not_free orders c F x (Q : unit -> Core -> Prop) :
  core_inv t c F -> fcov F x = 0 -> 0 <= x < pfn_max t -> (forall o, o ∈ orders -> (o < ORDERS)%nat) ->
  Q tt c -> wp (Api.check_not_free t orders x) Q c.
Proof.
  intros Hinv Hx Hr Hos HQ. induction orders as [|o orders IH]; cbn [Api.check_not_free]; [by wp_step|].
  assert (Ho : (o < ORDERS)%nat) by (apply Hos; left).
  wp_step. eapply wp_done; [by apply bitmap_get_run, index_in_range|]. wp_step.
  wp_step; [by rewrite (uncovered_bit t c F) by (done || lia)|]. apply IH. intros. apply Hos. by right.
Qed.

(** The guards of [free] on a block with a place in the layout. *)
Lemma wpe_free_guards E c z m p o s (Q : unit -> Pmm -> Prop) :
  placed t c z m p o ->
  wpe E (if (o =? 0)%nat then Pcp.free_to_pcp t e p else
    let zi := Layout.index_of (layout t) p in
    kassert (zi <? NR_ZONES)%nat "pmm free pfn outside zone layout" ;;
    with_core (Api.check_not_free t (Buddy.orders_from o) p) ;;
    with_core (Buddy.return_to_buddy t p o) ;;
    let pages := pow2 o in
    on_inner (allocated_sub pages ;; modify (fun g => set_events (note_free pages (events g)) g)) ;;
    zone_free_add zi pages) Q s -> wpe E (Api.free t e p o) Q s.
Proof.
  intros Hpl H. pose proof (placed_range t Ht _ _ _ _ _ Hpl). pose proof (pow2_pos o).
  unfold Api.free. apply wpe_bind_wp, wp_kassert; [apply Nat.leb_le; pose proof (pl_order _ _ _ _ _ _ Hpl); unfold ORDERS in *; lia|].
  apply wpe_bind_wp, wp_kassert; [apply Z.ltb_lt; lia|].
  apply wpe_bind_wp, wp_kassert; [apply Z.eqb_eq; rewrite land_align; apply Z.mod_divide; [lia|apply Hpl]|]. exact H.
Qed.

Lemma free_block_spec p o s F P A R :
  pmm_inv t Sd s F P ((p, o) :: A) R -> o <> 0%nat ->
  wp (Api.free t e p o) (fun _ s' =>
    cfg s' = cfg s /\ pageblocks (cr s') = pageblocks (cr s) /\
    exists F', pmm_inv t Sd s' F' P A R /\ settled t (cr s') F' (Buddy.zi t p) p o) s.
Proof.
  intros [Hown Hac] Ho. destruct (own_alloc _ _ _ _ _ _ _ _ _ Hown p o ltac:(left)) as (z & m & Hpl).
  assert (Hz : (z < NR_ZONES)%nat) by apply Hpl. pose proof (placed_range t Ht _ _ _ _ _ Hpl) as Hr.
  pose proof (pow2_pos o). pose proof (placed_zi t Ht _ _ _ _ _ Hpl) as Hzi.
  destruct (held_cov t Sd _ _ _ F P _ R Hown p o p ltac:(left) ltac:(lia)) as (_ & Hf0 & _).
  apply (wp_of_wpe (fun _ => False)); [tauto|]. eapply wpe_free_guards; [done|]. apply wpe_wp.
  rewrite (proj2 (Nat.eqb_neq o 0) Ho), (placed_index _ Ht _ _ _ _ _ Hpl). cbn zeta.
  wp_step. wp_step; [by apply Nat.ltb_lt|]. wp_step. apply wp_with_core.
  apply (wp_check_not_free _ (cr s) F); [apply Hown|done|lia|intros o' Ho'; apply elem_orders_from in Ho'; lia|].
  rewrite putc_id. wp_step. eapply (return_page_run t Ht Sd p o z m s (pcp s) F P A R); [done|done|].
  intros c' F' Hown' Hmv Hpb _ Hset.
  destruct (acct_bounds _ _ _ _ _ _ Hac) as (Hb & Hb1 & Hb2 & Hb3 & Hb4). destruct (Hb z Hz) as (? & ? & ? & ?).
  pose proof (ac_zone_free _ _ _ _ _ _ Hac z Hz) as Hzf. pose proof (ac_allocated _ _ _ _ _ _ Hac) as Hal.
  rewrite asize_cons in *. pose proof (asize_nonneg A). pose proof (fsize_le F z Hz). pose proof (psize_le P z Hz).
  wp_step. apply wp_account_free; [fields; lia|]. apply wp_zone_free_add; [unfold accounted; fields; unfold U64_MAX; lia|].
  unfold accounted. fields. split_and!; [done|done|]. rewrite Hzi. exists F'. split; [|done]. split; [done|].
  eapply (acct_step t s _ F P _ R F' P A z); [done|by apply (grows_moved F F' z)|apply grows_refl|by apply grows_unheld|..];
    fields; try done; try lia; cbn beta.
  - intros z' _. rewrite updn_at_zone. f_equal. f_equal. lia.
  - intros z' _. unfold at_zone. destruct (_ =? _)%nat; lia.
Qed.

Lemma free_spec p o s F P A R :
  pmm_inv t Sd s F P ((p, o) :: A) R ->
  wp (Api.free t e p o) (fun _ s' =>
    cfg s' = cfg s /\ pageblocks (cr s') = pageblocks (cr s) /\
    exists F' P', pmm_inv t Sd s' F' P' A R /\ (o <> 0%nat -> settled t (cr s') F' (Buddy.zi t p) p o)) s.
Proof.
  intros Hinv. destruct (decide (o = 0%nat)) as [->|Ho].
  - destruct (Hinv) as [Hown _]. destruct (own_alloc _ _ _ _ _ _ _ _ _ Hown p 0 ltac:(left)) as (z & m & Hpl).
    apply (wp_of_wpe (fun _ => False)); [tauto|]. eapply wpe_free_guards; [done|]. apply wpe_wp. cbn [Nat.eqb].
    eapply wp_mono; [by eapply (free_to_pcp_spec t Ht Sd)|]. intros [] s' (Hc & Hp & F' & P' & Hinv').
    split_and!; [done|done|]. by exists F', P'.
  - eapply wp_mono; [by eapply free_block_spec|]. intros [] s' (Hc & Hp & F' & Hinv' & Hs).
    split_and!; [done|done|]. by exists F', P.
Qed.

(** ** Double frees *)

(** Block [(p, o)] lies inside a free block. *)
Definition listed_in (F : blocks) (p : Z) (o : nat) : Prop :=
  exists z m b q, (z < NR_ZONES)%nat /\ (b < ORDERS)%nat /\ q ∈ F z m b /\ (o <= b)%nat /\
    q <= p /\ p + pow2 o <= q + pow2 b.

Lemma listed_in_bit c F p o :
  core_inv t c F -> (pow2 o | p) -> listed_in F p o ->
  exists b, (o <= b < ORDERS)%nat /\ bit c b (Z.shiftr p (Z.of_nat b)) = true /\ exists z m, placed t c z m p o.
Proof.
  intros Hinv Hal (z & m & b & q & Hz & Hb & Hq & Hle & Hlo & Hhi). pose proof (pow2_pos o). pose proof (pow2_pos b).
  pose proof (inv_placed _ _ _ Hinv z m b q Hz Hb Hq) as Hpl. exists b. split; [lia|]. split.
  - pose proof (placed_range t Ht _ _ _ _ _ Hpl). destruct (pl_align _ _ _ _ _ _ Hpl) as [k Hk].
    replace (Z.shiftr p (Z.of_nat b)) with (Z.shiftr q (Z.of_nat b)).
    + apply (listed_bit t c F z m); [done|done|done|lia|by exists k|done].
    + rewrite !shiftr_pow2. subst q. rewrite Z.div_mul by lia. apply Z.div_unique with (p - k * pow2 b); lia.
  - exists z, m. destruct Hpl. split; [done|lia|done|lia|lia|]. intros x Hx. apply pl_type. lia.
Qed.

Lemma check_not_free_panics orders c x b :
  0 <= x < pfn_max t -> (forall o, o ∈ orders -> (o < ORDERS)%nat) -> b ∈ orders ->
  bit c b (Z.shiftr x (Z.of_nat b)) = true ->
  wpe (eq "pmm double free detected by bitmap"%string) (Api.check_not_free t orders x) (fun _ _ => False) c.
Proof.
  intros Hr. induction orders as [|o orders IH]; intros Hos Hin Hb; [by apply not_elem_of_nil in Hin|].
  assert (Ho : (o < ORDERS)%nat) by (apply Hos; left). cbn [Api.check_not_free].
  apply wpe_bind_wp. eapply wp_done; [by apply bitmap_get_run, index_in_range|].
  apply wpe_bind, wpe_kassert; [done|]. intros Hn. to_prop. apply IH; [intros; apply Hos; by right| |done].
  apply elem_of_cons in Hin as [->|Hin]; [congruence|done].
Qed.

Lemma check_not_buddy_panics orders s x b :
  0 <= x < pfn_max t -> (forall o, o ∈ orders -> (o < ORDERS)%nat) -> b ∈ orders ->
  bit (cr s) b (Z.shiftr x (Z.of_nat b)) = true ->
  wpe (eq "pmm double free detected by bitmap"%string) (Pcp.check_not_buddy t orders x) (fun _ _ => False) s.
Proof.
  intros Hr. induction orders as [|o orders IH]; intros Hos Hin Hb; [by apply not_elem_of_nil in Hin|].
  assert (Ho : (o < ORDERS)%nat) by (apply Hos; left). cbn [Pcp.check_not_buddy].
  apply wpe_bind_wp, wp_buddy_marked; [done|done|].
  apply wpe_bind, wpe_kassert; [done|]. intros Hn. to_prop. apply IH; [intros; apply Hos; by right| |done].
  apply elem_of_cons in Hin as [->|Hin]; [congruence|done].
Qed.

(** The part of [free_to_pcp] before its checks. *)
Lemma free_to_pcp_guards E c z m p s (Q : unit -> Pmm -> Prop) :
  placed t c z m p 0 ->
  wpe E (Pcp.check_not_buddy t (seq 0 ORDERS) p) (fun _ s' => forall rest,
    wpe E (drain ← Pcp.with_current_pcp e z (mt_of (cr s) p) (fun pcp => Pcp.pcp_mark t p ;; rest pcp);
           Pcp.note_pcp_free ;;
           if negb (count drain =? 0) then Pcp.drain_pcp_list t z (mt_of (cr s) p) drain else ret tt) Q s') s ->
  wpe E (Pcp.free_to_pcp t e p) Q s.
Proof.
  intros Hpl H. pose proof (placed_range t Ht _ _ _ _ _ Hpl) as Hr. rewrite pow2_0 in Hr.
  unfold Pcp.free_to_pcp. rewrite (placed_index _ Ht _ _ _ _ _ Hpl).
  apply wpe_bind_wp, wp_pcp_type; [done|lia|]. apply wpe_bind_wp, wp_kassert; [by apply Nat.ltb_lt, Hpl|].
  apply wpe_bind. eapply wpe_mono; [exact H|]. cbn beta. intros [] s' Hk.
  apply wpe_bind_wp, wp_gets, wpe_bind_wp, wp_gets.
  apply (Hk (fun pcp => _)).
Qed.

Lemma free_listed_panics p o s F P A R :
  pmm_inv t Sd s F P A R -> (pow2 o | p) -> listed_in F p o ->
  Api.free t e p o s = Panic "pmm double free detected by bitmap".
Proof.
  intros [Hown _] Hal Hin. destruct (listed_in_bit (cr s) F p o) as (b & Hb & Hbit & z & m & Hpl); [apply Hown|done|done|].
  pose proof (placed_range t Ht _ _ _ _ _ Hpl). pose proof (pow2_pos o).
  apply wpe_panics, (wpe_free_guards _ (cr s) z m); [done|]. destruct (o =? 0)%nat eqn:Eo; to_prop.
  - subst o. apply (free_to_pcp_guards _ (cr s) z m); [done|].
    eapply wpe_mono; [apply (check_not_buddy_panics _ s p b); [lia|intros; apply elem_of_seq in H1; lia|apply elem_of_seq; lia|done]|].
    done.
  - cbn zeta. apply wpe_bind_wp, wp_kassert; [apply Nat.ltb_lt; rewrite (placed_index _ Ht _ _ _ _ _ Hpl); apply Hpl|].
    apply wpe_bind, wpe_on_core. eapply wpe_mono; [apply (check_not_free_panics _ (cr s) p b); [lia| | |done]|done].
    + intros o' Ho'. apply elem_orders_from in Ho'. lia.
    + by apply elem_orders_from.
Qed.

Lemma free_cached_panics p s F P A R z m cpu :
  pmm_inv t Sd s F P A R -> (z < NR_ZONES)%nat -> (cpu < MAX_CPUS)%nat -> p ∈ P z m cpu ->
  Api.free t e p 0 s = Panic "pmm double free in per-cpu pageset".
Proof.
  intros [Hown _] Hz Hc Hin. pose proof (own_placed _ _ _ _ _ _ _ _ _ Hown z m cpu p Hz Hc Hin) as Hpl.
  destruct (cached_cov t Sd _ _ _ F P _ R Hown z m cpu p Hz Hc Hin) as (_ & Hf0 & _).
  pose proof (placed_range t Ht _ _ _ _ _ Hpl) as Hr. rewrite pow2_0 in Hr.
  apply wpe_panics, (wpe_free_guards _ (cr s) z m); [done|]. cbn [Nat.eqb].
  apply (free_to_pcp_guards _ (cr s) z m); [done|]. apply wpe_wp.
  apply (wp_check_not_buddy t _ s F); [apply Hown|done|lia|intros o Ho; apply elem_of_seq in Ho; lia|].
  intros rest. unfold Pcp.with_current_pcp, Pcp.with_list. apply wpe_bind, wpe_bind_wp, wp_kassert;
    [by apply Nat.ltb_lt, list_slot_bound|].
  apply wpe_bind_wp, wp_gets, wpe_bind, wpe_bind. unfold Pcp.pcp_mark.
  apply wpe_bind_wp, wp_pcp_word; [lia|]. apply wpe_bind_wp, wp_modify, wpe_kassert; [done|].
  unfold Pcp.pcp_bit. rewrite land_bit_eqb. intros Hb. to_prop.
  assert (Hbit : pbit (pcp_bitmap s) p = true) by (apply (own_bits _ _ _ _ _ _ _ _ _ Hown); [lia|by exists z, m, cpu]).
  unfold pbit in Hbit. congruence.
Qed.

End free.

Section twice.
Context (t : Topology) (Ht : topo_wf t) (Sd : Z -> Z).

Lemma pmm_inv_perm s F P A A' R : A ≡ₚ A' -> pmm_inv t Sd s F P A R -> pmm_inv t Sd s F P A' R.
Proof.
  intros Hp [Hown [Zf Pf Mg Al Rs Tt Bd]]. split; [by eapply own_perm|].
  assert (Ha : asize A' = asize A) by (by apply sumZ_perm).
  split; rewrite ?Ha; try done. intros z Hz. unfold azsize. rewrite (sumZ_perm _ A A') by done. by apply Mg.
Qed.

(** A page of a held block is seeded, and is held once. *)
Lemma held_pages s F P A R p o x :
  pmm_inv t Sd s F P ((p, o) :: A) R -> p <= x < p + pow2 o -> Sd x = 1 /\ acov A x = 0.
Proof.
  intros [Hown _] Hx. pose proof (own_part _ _ _ _ _ _ _ _ _ Hown x) as Hp.
  pose proof (own_seed _ _ _ _ _ _ _ _ _ Hown x) as Hs. unfold cover in Hp. rewrite acov_cons, cov_in in Hp by done.
  pose proof (fcov_nonneg F x). pose proof (pcov_nonneg P x). pose proof (acov_nonneg A x). pose proof (rcov_nonneg R x). lia.
Qed.

(** A free page is in a free block, a cached page in a pageset. *)
Lemma fcov_listed F x : fcov F x = 1 -> listed_in F x 0.
Proof.
  intros Hx. destruct (fsumN_elem ORDERS (cov x) F) as (z & m & o & p & Hz & Ho & Hin & Hc); [unfold fcov in Hx; lia|].
  exists z, m, o, p. rewrite pow2_0. destruct (decide (p <= x < p + pow2 o)); [|rewrite cov_out in Hc by done; lia].
  split_and!; (done || lia).
Qed.

Lemma pcov_listed P x : pcov P x = 1 -> exists z m cpu, (z < NR_ZONES)%nat /\ (cpu < MAX_CPUS)%nat /\ x ∈ P z m cpu.
Proof.
  intros Hx. unfold pcov in Hx. destruct (fsumN_elem MAX_CPUS (fun p _ => cov x p 0) P) as (z & m & cpu & p & Hz & Hc & Hin & Hp); [lia|].
  rewrite cov0 in Hp. bool_case (x =? p); [|lia]. subst p. by exists z, m, cpu.
Qed.

(** A block freed twice in a row, from any two CPUs. *)
Lemma free_twice_panics s F P A R e1 e2 p o :
  pmm_inv t Sd s F P A R -> (p, o) ∈ A -> exists msg, (Api.free t e1 p o ;; Api.free t e2 p o) s = Panic msg.
Proof.
  intros Hinv Hin. apply list_elem_of_split in Hin as (A1 & A2 & ->).
  apply (pmm_inv_perm s F P _ ((p, o) :: A1 ++ A2)) in Hinv; [|by rewrite Permutation_middle]. set (A := A1 ++ A2) in *.
  destruct (Hinv) as [Hown _]. destruct (own_alloc _ _ _ _ _ _ _ _ _ Hown p o ltac:(left)) as (z & m & Hpl).
  pose proof (free_spec t Ht Sd e1 p o s F P A R Hinv) as Hfree. apply wp_iff in Hfree as ([] & s' & Hrun & _ & _ & F' & P' & Hinv' & Hset).
  unfold mbind, M_bind, bind. rewrite Hrun. destruct (decide (o = 0%nat)) as [->|Ho].
  - destruct (held_pages s F P A R p 0 p Hinv) as [Hs Ha]; [rewrite pow2_0; lia|].
    pose proof (own_cases t Sd _ _ _ _ _ _ _ Hown p) as Hc. rewrite acov_cons, cov_base, Ha in Hc.
    destruct (Hinv') as [Hown' _]. pose proof (own_part _ _ _ _ _ _ _ _ _ Hown' p) as Hp. unfold cover in Hp. rewrite Ha in Hp.
    pose proof (fcov_nonneg F' p). pose proof (pcov_nonneg P' p).
    destruct (decide (fcov F' p = 1)) as [Hf|]; [|destruct (pcov_listed P' p) as (z' & m' & cpu & ? & ? & ?); [lia|]]; eexists.
    + apply (free_listed_panics t Ht Sd e2 p 0 s' F' P' A R); [done|apply Hpl|by apply fcov_listed].
    + by apply (free_cached_panics t Ht Sd e2 p s' F' P' A R z' m' cpu).
  - destruct (Hset Ho) as (m' & p' & o' & Hin & Ho' & (? & ? & ?) & _). eexists.
    apply (free_listed_panics t Ht Sd e2 p o s' F' P' A R); [done|apply Hpl|].
    exists (Buddy.zi t p), m', o', p'. rewrite (placed_zi t Ht _ _ _ _ _ Hpl) in *. split_and!; try done. apply Hpl.
Qed.

End twice.
