(* ===== verification/PmmApi.v ===== *)
(** * The page allocator: the public operations

    Properties of [alloc_gfp], [alloc_gfp_nowait], [alloc_below], [free] and
    [snapshot] of [crates/kernel/mm-pmm/src/buddy/api.rs] and
    [buddy/free.rs], with direct reclaim and the out-of-memory killer as
    computations that keep the caller's blocks. *)

From S2P Require Import Prelude Zone Watermark Buddy BuddyInv BuddyOps BuddySpec.
From S2P Require Import Pmm PmmInv PmmOps PmmPcp PmmRefill PmmAlloc PmmFree.

Section api.
Context (t : Topology) (Ht : topo_wf t) (Sd : Z -> Z) (e : Env).

(** ** Sums of the counters *)

Lemma wp_sum_zones zones f sum s (Q : Z -> Pmm -> Prop) :
  0 <= sum -> (forall z, z ∈ zones -> 0 <= f s z) -> sum + sumZ (f s) zones <= U64_MAX ->
  Q (sum + sumZ (f s) zones) s -> wp (Api.sum_zones zones f sum) Q s.
Proof.
  revert sum. induction zones as [|z zones IH]; intros sum Hs Hf Hb HQ; cbn [Api.sum_zones].
  { rewrite sumZ_nil, Z.add_0_r in HQ. by wp_step. }
  rewrite sumZ_cons in *. pose proof (Hf z ltac:(left)).
  assert (Hf' : forall z, z ∈ zones -> 0 <= f s z) by (intros; apply Hf; by right).
  pose proof (sumZ_nonneg (f s) zones Hf').
  wp_step. wp_step. wp_step. wp_step; [lia|]. apply IH; [lia|done|lia|]. by rewrite <- Z.add_assoc.
Qed.

Lemma acct_sums s F P A R :
  acct t s F P A R ->
  sumZ (zone_free s) (seq 0 NR_ZONES) = ftotal F + ptotal P /\ sumZ (pcp_free s) (seq 0 NR_ZONES) = ptotal P /\
  (forall z, z ∈ seq 0 NR_ZONES -> 0 <= zone_free s z /\ 0 <= pcp_free s z).
Proof.
  intros Hac. rewrite ftotal_sum, ptotal_sum, <- sumZ_add. split_and!.
  - apply sumZ_ext. intros z Hz. apply elem_of_seq in Hz. apply (ac_zone_free _ _ _ _ _ _ Hac). lia.
  - apply sumZ_ext. intros z Hz. apply elem_of_seq in Hz. apply (ac_pcp_free _ _ _ _ _ _ Hac). lia.
  - intros z Hz. apply elem_of_seq in Hz.
    rewrite (ac_zone_free _ _ _ _ _ _ Hac), (ac_pcp_free _ _ _ _ _ _ Hac) by lia.
    pose proof (fsize_nonneg F z). pose proof (psize_nonneg P z). lia.
Qed.

Lemma wp_free_pages s F P A R (Q : Z -> Pmm -> Prop) :
  acct t s F P A R -> Q (ftotal F + ptotal P) s -> wp Api.free_pages Q s.
Proof.
  intros Hac HQ. destruct (acct_sums _ _ _ _ _ Hac) as (Hz & _ & Hn).
  destruct (acct_bounds _ _ _ _ _ _ Hac) as (_ & ? & ? & ? & ?). unfold Api.free_pages.
  apply wp_sum_zones; [lia|intros; by apply Hn|unfold U64_MAX; lia|]. by rewrite Hz, Z.add_0_l.
Qed.

(** ** Allocation with reclaim

    Reclaim and the out-of-memory killer belong to other crates. They may
    panic, free and allocate blocks of their own and retype pageblocks on the
    way; what they must leave alone is the blocks [A] of the caller. [J]
    describes, as exactly as its user likes, the pageblocks and the blocks [K]
    that others hold while the allocation runs, and [E] the messages reclaim
    may panic with. Both are arbitrary, so that a block the allocation itself
    took and did not hand out has no place in the conclusions. *)

Context (E : string -> Prop) (J : Core -> list (Z * nat) -> Prop).

(** [m] keeps the invariant, the blocks [A] and the description [J] of the rest. *)
Definition keeps {B} (m : M Pmm B) (A : list (Z * nat)) (R : list Z) : Prop :=
  forall s F P K, pmm_inv t Sd s F P (A ++ K) R -> J (cr s) K ->
    wpe E m (fun _ s' => exists F' P' K', pmm_inv t Sd s' F' P' (A ++ K') R /\ J (cr s') K') s.

(** [J] survives what an allocation of class [m] does to the pageblocks. *)
Definition steady (m : MigrateType) : Prop := forall c c' K, J c K -> retyped c c' m -> J c' K.

(** The state holds the blocks [A] and others that [J] describes. *)
Definition holding (A : list (Z * nat)) (R : list Z) (s : Pmm) : Prop :=
  exists F P K, pmm_inv t Sd s F P (A ++ K) R /\ J (cr s) K.

Lemma holding_keeps {B} (m : M Pmm B) A R s :
  keeps m A R -> holding A R s -> wpe E m (fun _ => holding A R) s.
Proof. intros Hk (F & P & K & Hinv & HJ). by eapply Hk. Qed.

Definition granted (o hi : nat) A R (p : Z) (s' : Pmm) : Prop :=
  handed t (cr s') p o hi /\ holding ((p, o) :: A) R s'.

(** [holding], with no permitted zone able to serve the request. *)
Definition refused_at (o hi : nat) (w : AllocWmark) A R (s' : Pmm) : Prop :=
  exists F P K, pmm_inv t Sd s' F P (A ++ K) R /\ J (cr s') K /\ exhausted t s' F o hi w.

Lemma refused_holding o hi w A R s : refused_at o hi w A R s -> holding A R s.
Proof. intros (F & P & K & ? & ? & _). by exists F, P, K. Qed.

(** A panic of reclaim, or the class check for one page at a moment when the
    memory of the permitted zones is not all of the class asked for. *)
Definition gfp_panic (o hi : nat) (m : MigrateType) (msg : string) : Prop :=
  E msg \/ o = 0%nat /\ msg = WRONG_CLASS /\ exists c K, J c K /\ mixed t Sd c hi m.

Context (A : list (Z * nat)) (R : list Z) (m : MigrateType) (HJ : steady m).

Lemma alloc_holding o hi w s :
  (o <= MAX_ORDER)%nat -> holding A R s ->
  wpe (gfp_panic o hi m) (Api.alloc_inner_zoned t e o hi w m) (fun r s' =>
    match r with Ok p => granted o hi A R p s' | Err er => er = NoMem /\ refused_at o hi w A R s' end) s.
Proof.
  intros Ho (F & P & K & Hinv & Hj).
  eapply wpe_mono; [eapply wpe_weaken; [|by apply (alloc_inner_spec t Ht Sd e o hi w m s F P (A ++ K) R)]|].
  - intros msg (-> & -> & Hmix). right. split_and!; [done|done|by eauto].
  - intros [p|er] s' (_ & Hrt & Hr); assert (J (cr s') K) by (by eapply HJ).
    + destruct Hr as (Hh & F' & P' & Hinv'). split; [done|]. by exists F', P', K.
    + destruct Hr as (-> & F' & P' & Hinv' & Hex). split; [done|]. by exists F', P', K.
Qed.

Context (Hrec : keeps (direct_reclaim_once e) A R) (Hoom : keeps (invoke_oom e) A R).

Lemma keeps_gfp {B} (k : M Pmm B) o hi s :
  keeps k A R -> holding A R s -> wpe (gfp_panic o hi m) k (fun _ => holding A R) s.
Proof. intros Hk Hh. eapply wpe_weaken; [|by apply holding_keeps]. by left. Qed.

Definition slow_mark (gfp : Z) : AllocWmark := slowpath_wmark (grants_min_reserve gfp) (slowpath_context e).

(** What [alloc_gfp] returns. *)
Definition gfp_post (fuel o hi : nat) (gfp : Z) (r : option (KResult Z)) (s' : Pmm) : Prop :=
  match r with
  | None => slowpath_context e = true /\ ((17 <= fuel)%nat -> (o <= PAGE_ALLOC_COSTLY_ORDER)%nat)
  | Some (Ok p) => granted o hi A R p s'
  | Some (Err er) => er = NoMem /\ holding A R s' /\
      (slowpath_context e = false -> refused_at o hi (slow_mark gfp) A R s')
  end.

Lemma slowpath_spec fuel o hi gfp s :
  (o <= MAX_ORDER)%nat -> holding A R s ->
  wpe (gfp_panic o hi m) (Api.alloc_slowpath t e fuel o hi gfp m) (gfp_post fuel o hi gfp) s.
Proof.
  intros Ho Hh. unfold Api.alloc_slowpath. set (w := slowpath_wmark _ _). apply wpe_bind.
  eapply wpe_mono; [by apply alloc_holding|]. cbn beta. intros [p|er] s1; [intros; by apply wpe_ret|]. intros [_ Hh1].
  unfold Oom.run_slowpath. destruct (slowpath_context e) eqn:Ectx; cbn [negb].
  2:{ apply wpe_bind, wpe_ret, wpe_ret. split_and!; [done|by eapply refused_holding|]. intros _.
      unfold slow_mark. by rewrite Ectx. }
  apply refused_holding in Hh1. apply wpe_bind.
  eapply wpe_mono; [apply (slowpath_inv o _ _ _ _ (holding A R) (granted o hi A R))|]; [done|..].
  - intros s2 Hh2. by apply keeps_gfp.
  - intros s2 Hh2. by apply keeps_gfp.
  - intros s2 Hh2. apply wpe_bind. eapply wpe_mono; [by apply alloc_holding|].
    cbn beta. intros [p|er3] s3 H3; apply wpe_ret; [done|]. by eapply refused_holding, H3.
  - cbn beta. intros [[p|]|] s2 [H2 Hend]; apply wpe_ret; [done|split_and!; [done|done|by rewrite Ectx]|]. split; [done|]. intros Hf.
    apply Nat.nlt_ge. intros Hc. apply Hend; [done|done|unfold MAX_RECLAIM_RETRIES; cbn [no_progress_loops RetryState_default]; lia|done].
Qed.

Lemma prepare_spec o gfp hi s :
  Api.alloc_gfp_args gfp = Ok (hi, m) -> (o <= MAX_ORDER)%nat -> holding A R s ->
  wpe (gfp_panic o hi m) (Api.alloc_gfp_prepare e o gfp) (fun r s' => r = Ok (hi, m) /\ holding A R s') s.
Proof.
  intros Hargs Ho Hh. unfold Api.alloc_gfp_prepare. rewrite Hargs, (proj2 (Nat.leb_le _ _) Ho).
  assert (Hh' := Hh). destruct Hh' as (F & P & K & Hinv & _).
  apply wpe_bind, wpe_bind_wp, (wp_free_pages s F P (A ++ K) R); [apply Hinv|].
  assert (Hret : forall s', holding A R s' ->
    wpe (gfp_panic o hi m) (ret (Ok (hi, m) : KResult _)) (fun r s' => r = Ok (hi, m) /\ holding A R s') s').
  { intros s' ?. by apply wpe_ret. }
  unfold Api.before_allocation. apply wpe_bind_wp. wp_step.
  destruct (Marks.allocation_policy _ _ _); [by apply wpe_ret, Hret..|].
  destruct (direct_reclaim_allowed _ _); [|by apply wpe_ret, Hret].
  apply wpe_bind. eapply wpe_mono; [by apply keeps_gfp|]. intros ? s' Hh'. by apply wpe_ret, Hret.
Qed.

Lemma finish_spec (r : KResult Z) s (Q : KResult Z -> Pmm -> Prop) :
  match r with Ok _ => exists F P A R, acct t s F P A R | Err _ => True end -> Q r s ->
  wp (Api.finish_allocation r) Q s.
Proof.
  intros Hr HQ. destruct r as [p|er]; cbn [Api.finish_allocation]; [|by wp_step].
  destruct Hr as (F & P & A0 & R0 & Hac). wp_step. eapply (wp_free_pages s F P A0 R0); [done|]. by wp_step.
Qed.

Lemma alloc_gfp_spec fuel o gfp hi s :
  Api.alloc_gfp_args gfp = Ok (hi, m) -> (o <= MAX_ORDER)%nat -> holding A R s ->
  wpe (gfp_panic o hi m) (Api.alloc_gfp t e fuel o gfp) (gfp_post fuel o hi gfp) s.
Proof.
  intros Hargs Ho Hh. unfold Api.alloc_gfp. apply wpe_bind. eapply wpe_mono; [by apply (prepare_spec o gfp hi)|].
  intros r s1 [-> Hh1]. cbn beta iota. apply wpe_bind. eapply wpe_mono; [by apply alloc_holding|]. cbn beta. intros r s2 H2.
  assert (Hfin : forall r s', gfp_post fuel o hi gfp r s' ->
    wpe (gfp_panic o hi m)
      (match r with None => ret None | Some r => r ← Api.finish_allocation r; ret (Some r) end)
      (gfp_post fuel o hi gfp) s').
  { intros [r'|] s' Hr; apply wpe_wp; [|by wp_step]. wp_step. apply finish_spec; [|by wp_step].
    destruct r'; [|done]. destruct Hr as (_ & F' & P' & K' & Hi & _). do 4 eexists. apply Hi. }
  apply wpe_bind. destruct r as [p|er]; [apply wpe_ret, (Hfin (Some (Ok p))); done|].
  destruct H2 as [-> Hh2%refused_holding].
  eapply wpe_mono; [by apply (slowpath_spec fuel o hi gfp)|]. intros r s3 H3. by apply (Hfin r).
Qed.

(** ** Bounded allocation *)

Lemma gfp_panic_mono o hi hi' msg : (hi <= hi')%nat -> gfp_panic o hi m msg -> gfp_panic o hi' m msg.
Proof.
  intros Hle [?|(Ho & Hmsg & c & K & Hj & x & ? & ? & ? & ?)]; [by left|right]. split_and!; [done|done|].
  exists c, K. split; [done|]. exists x. split_and!; (done || lia).
Qed.

Lemma free_holding p o s : holding ((p, o) :: A) R s -> wp (Api.free t e p o) (fun _ => holding A R) s.
Proof.
  intros (F & P & K & Hinv & Hj). eapply wp_mono; [by apply (free_spec t Ht Sd e p o s F P (A ++ K) R)|].
  intros [] s' (_ & Hpb & F' & P' & Hinv' & _). exists F', P', K. split; [done|].
  eapply HJ; [exact Hj|by apply retyped_pageblocks].
Qed.

(** The masks the descent uses, with the rungs left below each. *)
Definition rung (n : nat) (gfp : Z) : Prop :=
  (n = 3%nat /\ gfp = 0) \/ (n = 2%nat /\ gfp = GFP_DMA32) \/ (n = 1%nat /\ gfp = GFP_DMA).

Lemma rung_args n gfp : rung n gfp -> exists hi, Api.alloc_gfp_args gfp = Ok (hi, Unmovable) /\ (hi <= 2)%nat.
Proof. intros [[_ ->]|[[_ ->]|[_ ->]]]; eexists; (split; [reflexivity|cbn; lia]). Qed.

Lemma rung_narrow n gfp :
  rung n gfp -> narrow_zone_bits gfp = None \/ exists n' g', n = S n' /\ narrow_zone_bits gfp = Some g' /\ rung n' g'.
Proof.
  intros [[-> ->]|[[-> ->]|[-> ->]]]; [right|right|by left]; do 2 eexists; (split; [done|]); (split; [reflexivity|]).
  - by right; left.
  - by right; right.
Qed.

Lemma rung_limit l limit : exists n, rung n (gfp_for_pfn_limit l limit) /\ (n <= 3)%nat.
Proof.
  unfold gfp_for_pfn_limit. destruct (limit <=? _); [exists 1%nat; split; [by right; right|lia]|].
  destruct (limit <=? _); [exists 2%nat; split; [by right; left|lia]|exists 3%nat; split; [by left|lia]].
Qed.

Context (Hm : m = Unmovable).

Definition below_post (fuel o : nat) (limit : Z) (r : option (KResult Z)) (s' : Pmm) : Prop :=
  match r with
  | None => slowpath_context e = true /\ ((17 <= fuel)%nat -> (o <= PAGE_ALLOC_COSTLY_ORDER)%nat)
  | Some (Ok p) => p + pow2 o <= limit /\ exists hi, granted o hi A R p s'
  | Some (Err er) => er = NoMem /\ holding A R s'
  end.

Lemma below_loop_spec k n fuel o limit gfp s :
  rung n gfp -> (n <= k)%nat -> (o <= MAX_ORDER)%nat -> holding A R s ->
  wpe (gfp_panic o 2 m) (Api.below_loop t e k fuel o limit gfp) (below_post fuel o limit) s.
Proof.
  revert n gfp s. induction k as [|k IH]; intros n gfp s Hg Hnk Ho Hh.
  { destruct Hg as [[-> _]|[[-> _]|[-> _]]]; lia. }
  destruct (rung_args n gfp Hg) as (hi & Hargs & Hhi). rewrite <- Hm in Hargs. cbn [Api.below_loop]. apply wpe_bind.
  eapply wpe_mono; [eapply wpe_weaken; [|by apply (alloc_gfp_spec fuel o gfp hi s)]|].
  { intros msg. by apply gfp_panic_mono. }
  cbn beta. intros [[p|er]|] s1 H1; [|apply wpe_ret; split; apply H1|by apply wpe_ret].
  destruct H1 as [Hd H1]. cbn zeta.
  destruct (match checked_add p (pow2 o) with Some end_ => end_ <=? limit | None => false end) eqn:Ef.
  { apply wpe_ret. unfold checked_add in Ef. destruct (_ <=? U64_MAX); [|done]. to_prop. split; [done|]. by exists hi. }
  apply wpe_bind_wp. eapply wp_mono; [by apply free_holding|]. cbn beta. intros [] s2 H2.
  destruct (rung_narrow n gfp Hg) as [->|(n' & g' & -> & -> & Hg')]; [by apply wpe_ret|].
  apply (IH n' g'); [done|lia|done|done].
Qed.

End api.
