(* ===== verification/PmmSeed.v ===== *)
(** * The page allocator: construction

    [init_zoned] of [PmmBoot.v] establishes the invariant of the allocator:
    every page of the regions is free, once, in the zone the layout gives it,
    and nothing else is. *)

From S2P Require Import Prelude Zone Watermark Buddy BuddyInv BuddyOps BuddySpec.
From S2P Require Import Pmm PmmBoot PmmInv PmmOps PmmPcp.

(** ** The classes of a new layout *)

(** The Movable span ends the layout and starts on a pageblock boundary, or is
    empty. *)
Lemma movable_span limits pfn_max :
  0 <= pfn_max ->
  let sp := Layout.span (Layout.new limits pfn_max) MovableZone in
  0 <= start_pfn sp <= pfn_max /\ end_pfn sp = pfn_max /\ (start_pfn sp = pfn_max \/ (512 | start_pfn sp)).
Proof.
  intros Hmax. pose proof (movable_start_le limits pfn_max) as Hm.
  assert (Hal : Layout.movable_start limits pfn_max = pfn_max \/ (512 | Layout.movable_start limits pfn_max)).
  { unfold Layout.movable_start. destruct (movable_start_pfn limits) as [st|]; cbn; [|left; lia].
    destruct (checked_add _ _) as [en|]; cbn; [|left; lia].
    destruct (Z.min_spec (en / PAGEBLOCK_PAGES * PAGEBLOCK_PAGES) pfn_max) as [[_ ->]|[_ ->]]; [right|by left].
    by exists (en / PAGEBLOCK_PAGES). }
  unfold Layout.span, Layout.span_at, Layout.new, Layout.caps. cbn [spans Layout.spans_from ZoneTypes.index nth].
  cbn [start_pfn end_pfn]. generalize dependent (Layout.movable_start limits pfn_max). intros ms Hm Hal.
  assert (Hif : forall a b : Z, (if a <? b then b else a) = Z.max a b) by (intros a b; bool_case (a <? b); lia).
  rewrite !Hif. set (e2 := Z.max _ ms). assert (He : e2 = Z.max 0 ms) by lia. clearbody e2. subst e2.
  split; [lia|]. split; [lia|]. destruct (Z.max_spec 0 ms) as [[? ->]|[? ->]]; [tauto|]. right. by exists 0.
Qed.

(** The class a zone is seeded with. *)
Definition zone_class (z : nat) : MigrateType := if (z =? ZoneTypes.index MovableZone)%nat then Movable else Unmovable.

Definition classed (t : Topology) (c : Core) : Prop :=
  forall z x, (z < NR_ZONES)%nat -> start_pfn (span_of t z) <= x < end_pfn (span_of t z) -> mt_of c x = zone_class z.

Lemma set_movable_run t c limits (Q : unit -> Core -> Prop) :
  topo_wf t -> layout t = Layout.new limits (pfn_max t) -> (forall i, pageblocks c i = 0) ->
  (forall c', same_but_types c c' -> classed t c' -> Q tt c') ->
  wp (Pageblock.set_range t (start_pfn (Layout.span (layout t) MovableZone))
        (end_pfn (Layout.span (layout t) MovableZone)) Movable) Q c.
Proof.
  intros Ht Hl Hz HQ. destruct (Ht) as [[H0 Hmax] Hwf].
  pose proof (movable_span limits (pfn_max t) H0) as Hs. rewrite <- Hl in Hs. cbn zeta in Hs.
  set (sp := Layout.span (layout t) MovableZone) in *. destruct Hs as (Hr & He & Hal).
  assert (Hun : forall x, mt_of c x = Unmovable).
  { intros x. unfold mt_of, type_at. rewrite Hz, Z.shiftr_0_l. done. }
  assert (Hgoal : forall c', same_but_types c c' ->
    (forall x, 0 <= x < pfn_max t -> mt_of c' x = if start_pfn sp <=? x then Movable else mt_of c x) -> Q tt c').
  { intros c' Hsame Hty. apply HQ; [done|]. intros z x Hzl Hx.
    pose proof (span_at_le _ _ z Hwf Hzl) as Hb. unfold span_of in Hx. rewrite Hty, Hun by lia. unfold zone_class.
    destruct (z =? ZoneTypes.index MovableZone)%nat eqn:E; to_prop.
    - subst z. rewrite (proj2 (Z.leb_le _ _)); [done|apply Hx].
    - assert (Hm := span_at_mono _ _ z (ZoneTypes.index MovableZone) Hwf).
      rewrite (proj2 (Z.leb_gt _ _)); [done|]. unfold NR_ZONES in *. cbn [ZoneTypes.index] in *.
      specialize (Hm ltac:(lia) ltac:(lia)). unfold sp, Layout.span in *. cbn [ZoneTypes.index] in *. lia. }
  unfold Pageblock.set_range. bool_case (end_pfn sp <=? start_pfn sp).
  { apply Hgoal; [done|]. intros x Hx. rewrite (proj2 (Z.leb_gt _ _)); [done|lia]. }
  destruct Hal as [?|[q Hq]]; [lia|]. unfold sat_sub. rewrite Z.max_l by lia. rewrite !shiftr_pow2.
  change (pow2 PAGEBLOCK_ORDER) with 512. rewrite Hq, Z.div_mul by lia. rewrite He.
  set (k := (pfn_max t - 1) / 512).
  assert (Hk : k * 512 <= pfn_max t - 1 < k * 512 + 512).
  { pose proof (Z.div_mod (pfn_max t - 1) 512 ltac:(lia)). pose proof (Z.mod_pos_bound (pfn_max t - 1) 512 ltac:(lia)). lia. }
  destruct (set_blocks_run t q (Z.to_nat (k - q + 1)) Movable c Ht) as (c' & Hrun & Hsame & Hty); [lia| |].
  { change PAGEBLOCK_PAGES with 512. rewrite Z2Nat.id by lia. lia. }
  eapply wp_done; [exact Hrun|]. apply Hgoal; [done|]. intros x Hx. unfold mt_of.
  rewrite Hty, Z2Nat.id by lia. rewrite block_of_div. change PAGEBLOCK_PAGES with 512. rewrite Hq.
  pose proof (Z.div_mod x 512 ltac:(lia)). pose proof (Z.mod_pos_bound x 512 ltac:(lia)).
  destruct (q <=? x / 512) eqn:?, (x / 512 <? q + (k - q + 1)) eqn:?, (q * 512 <=? x) eqn:?; to_prop; (done || lia).
Qed.

(** ** Seeding *)

Lemma seed_order_spec o cur end_ :
  cur < end_ -> let k := Boot.seed_order o cur end_ in (k <= o)%nat /\ (pow2 k | cur) /\ cur + pow2 k <= end_.
Proof.
  intros Hlt. induction o as [|o IH]; cbn [Boot.seed_order].
  { rewrite pow2_0. split_and!; [lia|apply Z.divide_1_l|lia]. }
  cbn zeta. destruct (_ && _) eqn:E; [|cbn zeta in IH; split_and!; try apply IH; lia]. to_prop.
  pose proof (pow2_pos (S o)). split_and!; [lia| |lia]. rewrite land_align in *. by apply Z.mod_divide; [lia|].
Qed.

(** Page [x] lies in [[a, b)]. *)
Definition ind (a b x : Z) : Z := if (a <=? x) && (x <? b) then 1 else 0.

Lemma ind_in a b x : a <= x < b -> ind a b x = 1.
Proof. intros H. unfold ind. by rewrite (proj2 (Z.leb_le _ _)), (proj2 (Z.ltb_lt _ _)) by lia. Qed.
Lemma ind_out a b x : ~ (a <= x < b) -> ind a b x = 0.
Proof. intros H. unfold ind. destruct (_ && _) eqn:E; [to_prop; lia|done]. Qed.
Lemma ind_split a b c x : a <= b <= c -> ind a c x = ind a b x + ind b c x.
Proof.
  intros H. destruct (decide (a <= x < c)).
  - rewrite (ind_in a c) by lia. destruct (decide (x < b)); [rewrite ind_in, ind_out|rewrite ind_out, ind_in]; lia.
  - rewrite !ind_out; lia.
Qed.
Lemma ind_meet a b c d x : ind (Z.max a c) (Z.min b d) x = ind a b x * ind c d x.
Proof.
  destruct (decide (a <= x < b)); [rewrite (ind_in a b) by done|rewrite !ind_out by lia; lia].
  destruct (decide (c <= x < d)); [rewrite !ind_in by lia; lia|rewrite !ind_out by lia; lia].
Qed.
Lemma cov_ind x p o : cov x p o = ind p (p + pow2 o) x.
Proof.
  destruct (decide (p <= x < p + pow2 o)); [by rewrite cov_in, ind_in|by rewrite cov_out, ind_out].
Qed.

(** The fields seeding leaves alone. *)
Definition rest (g : Inner) :=
  (spanned g, reserve g, wmark g, tunables g, allocated g, reserved g, initial_free g, events g).

Record seeding (t : Topology) (g : Inner) (F : blocks) : Prop := {
  sd_core : core_inv t (core g) F;
  sd_class : classed t (core g);
  sd_managed : forall z, (z < NR_ZONES)%nat -> managed g z = fsize F z;
  sd_present : forall z, (z < NR_ZONES)%nat -> present g z = fsize F z
}.

Lemma wp_on_core3 {A B C D} (m1 : M Core A) (m2 : M Core B) (m3 : M Core C) (k : M Inner D) Q g :
  wp (m1 ;; m2 ;; m3) (fun _ c' => wp k Q (set_core c' g)) (core g) ->
  wp (on_core m1 ;; on_core m2 ;; on_core m3 ;; k) Q g.
Proof.
  unfold wp, mbind, M_bind, bind, on_core, zoom. destruct (m1 (core g)) as [[? c1]|]; [|done].
  cbn [core set_core]. destruct (m2 c1) as [[? c2]|]; [|done].
  cbn [core set_core]. by destruct (m3 c2) as [[? c3]|].
Qed.

Section seed.
Context (t : Topology) (Ht : topo_wf t).

Lemma wp_managed_add z n g (Q : unit -> Inner -> Prop) :
  managed g z + n <= U64_MAX -> Q tt (set_managed (updn (managed g) z (managed g z + n)) g) -> wp (Boot.managed_add z n) Q g.
Proof. intros Hb HQ. unfold Boot.managed_add. by repeat wp_step. Qed.

Lemma wp_present_add z n g (Q : unit -> Inner -> Prop) :
  present g z + n <= U64_MAX -> Q tt (set_present (updn (present g) z (present g z + n)) g) -> wp (Boot.present_add z n) Q g.
Proof. intros Hb HQ. unfold Boot.present_add. by repeat wp_step. Qed.

(** One block more on the lists. *)
Lemma seeding_publish g F z o p (g' : Inner) :
  seeding t g F -> placed t (core g) z (zone_class z) p o -> (forall x, p <= x < p + pow2 o -> fcov F x = 0) ->
  core g' = publish (core g) z (zone_class z) o p ->
  managed g' = updn (managed g) z (managed g z + pow2 o) -> present g' = updn (present g) z (present g z + pow2 o) ->
  let F' := upd3 F z (zone_class z) o (p :: F z (zone_class z) o) in
  seeding t g' F' /\ (forall x, fcov F' x = fcov F x + cov x p o) /\ ftotal F' = ftotal F + pow2 o.
Proof.
  intros [Hinv Hcl Hm Hp] Hpl Hfree Hc' Hm' Hp' F'. set (m := zone_class z) in *.
  assert (Hz : (z < NR_ZONES)%nat) by apply Hpl. assert (Ho : (o < ORDERS)%nat) by apply Hpl.
  assert (Hsz : forall z', (z' < NR_ZONES)%nat -> fsize F' z' = fsize F z' + at_zone z z' (pow2 o)).
  { intros z' Hz'. unfold fsize, F'. by rewrite (zsum_cons (fun _ o => pow2 o)). }
  split; [split|split].
  - rewrite Hc'. by apply publish_inv.
  - intros z' x Hz' Hx. rewrite Hc', (mt_of_pageblocks (core g)) by apply publish_pageblocks. by apply Hcl.
  - intros z' Hz'. by rewrite Hm', updn_at_zone, Hsz, Hm.
  - intros z' Hz'. by rewrite Hp', updn_at_zone, Hsz, Hp.
  - intros x. by apply fcov_cons.
  - apply (moved_ftotal F F' z (fun g => g p o)); [done|]. intros w _ z' Hz'. by apply zsum_cons.
Qed.

Lemma seed_loop_spec fuel z cur end_ g F :
  (z < NR_ZONES)%nat -> start_pfn (span_of t z) <= cur -> cur <= end_ -> end_ <= end_pfn (span_of t z) ->
  end_ - cur <= Z.of_nat fuel -> seeding t g F -> (forall x, cur <= x < end_ -> fcov F x = 0) ->
  ftotal F + (end_ - cur) <= 2 ^ 52 ->
  wp (Boot.seed_loop t fuel z cur end_) (fun _ g' => rest g' = rest g /\ exists F', seeding t g' F' /\
    (forall x, fcov F' x = fcov F x + ind cur end_ x) /\ ftotal F' = ftotal F + (end_ - cur)) g.
Proof.
  intros Hz. revert cur g F. induction fuel as [|fuel IH]; intros cur g F Hlo Hle Hhi Hf Hs Hfree Hb;
    cbn [Boot.seed_loop]; bool_case (cur <? end_); [lia| | |];
    try (wp_step; split; [done|]; exists F; split_and!; [done|intros x; rewrite ind_out; lia|lia]).
  destruct (seed_order_spec MAX_ORDER cur end_ ltac:(lia)) as (Ho & Hal & Hend). cbn zeta in *.
  set (o := Boot.seed_order MAX_ORDER cur end_) in *. pose proof (pow2_pos o).
  pose proof (span_at_le _ _ z (proj2 Ht) Hz) as Hsp. fold (span_of t z) in Hsp.
  assert (Hpl : placed t (core g) z (zone_class z) cur o).
  { split; [done|unfold ORDERS; lia|done|done|lia|]. intros x Hx. apply (sd_class _ _ _ Hs); [done|lia]. }
  wp_step. apply wp_zoom, wp_migratetype; [done|lia|]. rewrite (placed_mt _ _ _ _ _ _ Hpl).
  replace (set_core (core g) g) with g by (by destruct g).
  apply wp_on_core3, (publish_run t Ht _ F (sd_core _ _ _ Hs) z _ o cur Hpl).
  pose proof (sd_managed _ _ _ Hs z Hz) as Hm. pose proof (sd_present _ _ _ Hs z Hz) as Hp.
  pose proof (fsize_le F z Hz).
  wp_step. apply wp_managed_add; [fields; unfold U64_MAX; lia|].
  wp_step. apply wp_present_add; [fields; unfold U64_MAX; lia|].
  wp_step. wp_step; [destruct Ht as [? _]; unfold U64_MAX; lia|].
  match goal with |- wp _ _ ?g1 => destruct (seeding_publish g F z o cur g1 Hs Hpl) as (Hs1 & Hc1 & Ht1) end;
    [intros; apply Hfree; lia|done|done|done|].
  eapply wp_mono; [eapply IH; [lia|lia|done|lia|exact Hs1| |lia]|].
  - intros x Hx. rewrite Hc1, cov_out, Hfree by lia. done.
  - intros [] g' (Hr & F' & Hs' & Hc' & Ht'). split; [done|]. exists F'. split_and!; [done| |lia].
    intros x. rewrite Hc', Hc1, cov_ind, (ind_split cur (cur + pow2 o) end_) by lia. lia.
Qed.

(** The part of [[a, b)] in the zones of [zs]. *)
Definition zone_ind (zs : list nat) (a b x : Z) : Z :=
  sumZ (fun z => ind (Z.max a (start_pfn (span_of t z))) (Z.min b (end_pfn (span_of t z))) x) zs.

Lemma zone_ind_all a b x : 0 <= a -> b <= pfn_max t -> zone_ind (seq 0 NR_ZONES) a b x = ind a b x.
Proof.
  intros Ha Hb. destruct Ht as [_ Hwf]. unfold zone_ind, span_of. layout_cases Hwf.
  unfold sumZ. cbn [seq foldr nth start_pfn end_pfn]. rewrite !ind_meet.
  assert (Hx : ind a b x = ind a b x * ind 0 (pfn_max t) x).
  { destruct (decide (a <= x < b)); [rewrite !ind_in|rewrite (ind_out a b)]; lia. }
  etrans; [|symmetry; exact Hx]. clear Hx.
  rewrite (ind_split 0 x0 (pfn_max t)), (ind_split x0 x1 (pfn_max t)), (ind_split x1 x2 (pfn_max t)) by lia.
  lia.
Qed.

Definition zone_len (zs : list nat) (a b : Z) : Z :=
  sumZ (fun z => Z.max 0 (Z.min b (end_pfn (span_of t z)) - Z.max a (start_pfn (span_of t z)))) zs.

Lemma zone_len_all a b : 0 <= a <= b -> b <= pfn_max t -> zone_len (seq 0 NR_ZONES) a b = b - a.
Proof.
  intros Ha Hb. destruct Ht as [_ Hwf]. unfold zone_len, span_of. layout_cases Hwf.
  assert (Hc : forall s e, s <= e -> Z.max 0 (Z.min b e - Z.max a s) = Z.min b (Z.max a e) - Z.min b (Z.max a s)) by lia.
  unfold sumZ. cbn [seq foldr nth start_pfn end_pfn]. rewrite !Hc by done. lia.
Qed.

Lemma zone_ind_nonneg zs a b x : 0 <= zone_ind zs a b x.
Proof. apply sumZ_nonneg. intros z _. unfold ind. destruct (_ && _); lia. Qed.

Lemma zone_len_nonneg zs a b : 0 <= zone_len zs a b.
Proof. apply sumZ_nonneg. lia. Qed.

(** What seeding pages that were not free achieves. *)
Definition seeded_by (g : Inner) (F : blocks) (pages : Z -> Z) (n : Z) (g' : Inner) : Prop :=
  rest g' = rest g /\ exists F', seeding t g' F' /\ (forall x, fcov F' x = fcov F x + pages x) /\ ftotal F' = ftotal F + n.

Lemma seed_range_spec a b g F :
  0 <= a <= b -> b <= pfn_max t -> seeding t g F -> (forall x, a <= x < b -> fcov F x = 0) ->
  ftotal F + (b - a) <= 2 ^ 52 ->
  wp (Boot.seed_range t a b) (fun _ => seeded_by g F (ind a b) (b - a)) g.
Proof.
  intros Ha Hb Hs Hfree Hbd. unfold Boot.seed_range.
  set (part := fun zs => seeded_by g F (fun x => ind a b x - zone_ind zs a b x) (b - a - zone_len zs a b)).
  eapply wp_mono; [apply (wp_for_each _ (fun zs g' => Forall (fun z => (z < NR_ZONES)%nat) zs /\ part zs g') _ g)|].
  - split; [apply Forall_forall; intros z Hz; apply elem_of_seq in Hz; lia|]. split; [done|].
    exists F. rewrite zone_len_all by done. split_and!; [done| |lia]. intros x. rewrite zone_ind_all by lia. lia.
  - intros z zs g1 [[Hz Hzs]%Forall_cons (Hr1 & F1 & Hs1 & Hc1 & Ht1)]. fold (span_of t z).
    set (lo := Z.max a _). set (hi := Z.min b _).
    assert (Hzi : forall x, zone_ind (z :: zs) a b x = ind lo hi x + zone_ind zs a b x) by done.
    assert (Hzl : zone_len (z :: zs) a b = Z.max 0 (hi - lo) + zone_len zs a b) by done.
    pose proof (zone_len_nonneg zs a b).
    bool_case (lo <? hi).
    2:{ wp_step. split; [done|]. split; [done|]. exists F1. split_and!; [done| |lia].
        intros x. rewrite Hc1, Hzi, (ind_out lo hi) by lia. lia. }
    eapply wp_mono; [apply (seed_loop_spec _ z lo hi g1 F1); [done|lia|lia|lia|lia|done| |lia]|].
    + intros x Hx. pose proof (zone_ind_nonneg zs a b x). pose proof (fcov_nonneg F1 x).
      pose proof (Hc1 x) as Hcx.
      rewrite Hzi, (ind_in a b), (ind_in lo hi), Hfree in Hcx by lia. lia.
    + intros [] g' (Hr & F' & Hs' & Hc' & Ht'). split; [done|]. split; [congruence|]. exists F'.
      split_and!; [done| |lia]. intros x. rewrite Hc', Hc1, Hzi. lia.
  - intros [] g' [_ (Hr & F' & Hs' & Hc' & Ht')]. split; [done|]. exists F'. split_and!; [done| |].
    + intros x. rewrite Hc'. unfold zone_ind. rewrite sumZ_nil. lia.
    + rewrite Ht'. unfold zone_len. rewrite sumZ_nil. lia.
Qed.

(** The pages of the regions, and how many they are. *)
Definition seeded (rs : list UsableRegion) (x : Z) : Z := sumZ (fun r => ind (region_start r) (Boot.region_end r) x) rs.
Definition total_len (rs : list UsableRegion) : Z := sumZ len_pfn rs.

Definition region_ok (r : UsableRegion) : Prop :=
  0 <= region_start r /\ 0 <= len_pfn r /\ Boot.region_end r <= pfn_max t.

Lemma seeded_nonneg rs x : 0 <= seeded rs x.
Proof. apply sumZ_nonneg. intros r _. unfold ind. destruct (_ && _); lia. Qed.

Lemma seed_regions_spec rs g F :
  Forall region_ok rs -> seeding t g F -> (forall x, fcov F x + seeded rs x <= 1) ->
  ftotal F + total_len rs <= 2 ^ 52 ->
  wp (for_each rs (fun r => Boot.seed_range t (region_start r) (Boot.region_end r)))
    (fun _ => seeded_by g F (seeded rs) (total_len rs)) g.
Proof.
  revert g F. induction rs as [|r rs IH]; intros g F Hok Hs Hone Hb; cbn [for_each].
  { wp_step. split; [done|]. exists F. split_and!; [done|intros x; unfold seeded; rewrite sumZ_nil; lia|].
    unfold total_len. rewrite sumZ_nil. lia. }
  apply Forall_cons in Hok as [(H1 & H2 & H3) Hok].
  assert (Hx : forall x, seeded (r :: rs) x = ind (region_start r) (Boot.region_end r) x + seeded rs x) by done.
  assert (Hl : total_len (r :: rs) = len_pfn r + total_len rs) by done.
  assert (Hln : 0 <= total_len rs).
  { apply sumZ_nonneg. intros r' Hr'. rewrite Forall_forall in Hok. by destruct (Hok r' Hr') as (_ & ? & _). }
  unfold Boot.region_end in *.
  wp_step. eapply wp_mono; [apply (seed_range_spec _ _ g F); [lia|lia|done| |lia]|].
  - intros x Hr. pose proof (Hone x) as H. rewrite Hx, ind_in in H by done.
    pose proof (fcov_nonneg F x). pose proof (seeded_nonneg rs x). lia.
  - intros [] g1 (Hr1 & F1 & Hs1 & Hc1 & Ht1). eapply wp_mono; [apply (IH g1 F1)|].
    + done.
    + done.
    + intros x. pose proof (Hone x) as H. rewrite Hc1. rewrite Hx in H. lia.
    + lia.
    + intros [] g' (Hr & F' & Hs' & Hc' & Ht'). split; [congruence|]. exists F'. split_and!; [done| |lia].
      intros x. rewrite Hc', Hc1, Hx. lia.
Qed.


End seed.
