(* ===== verification/PmmInit.v ===== *)
(** * The page allocator: the state after boot

    [init_zoned] ([crates/kernel/mm-pmm/src/buddy/construct.rs]) accepts
    exactly the disjoint regions, and the allocator it builds satisfies the
    invariant with every page of the regions free. *)

From S2P Require Import Prelude Zone Watermark Buddy BuddyInv BuddyOps BuddySpec.
From S2P Require Import Pmm PmmBoot PmmInv PmmOps PmmPcp PmmSeed.

(** ** Sums over empty and listed blocks *)

Definition no_blocks : blocks := fun _ _ _ => [].
Definition no_pages : pagesets := fun _ _ _ => [].

Lemma zsumN_empty N g z : zsumN N g (fun _ _ _ => []) z = 0.
Proof. apply sumZ_const0. intros m _. by apply sumZ_const0. Qed.

Lemma fsumN_empty N g : fsumN N g (fun _ _ _ => []) = 0.
Proof. apply sumZ_const0. intros z _. apply zsumN_empty. Qed.

Lemma zone_free_pages_spec t c F z :
  core_inv t c F -> (z < NR_ZONES)%nat -> Buddy.zone_free_pages c z = fsize F z.
Proof.
  intros Hinv Hz. unfold Buddy.zone_free_pages, fsize, zsumN, osumN. apply sumZ_ext. intros m _.
  apply sumZ_ext. intros o Ho. apply elem_of_seq in Ho. rewrite (inv_count _ _ _ Hinv) by lia. by rewrite sumZ_const.
Qed.

(** ** Disjoint regions *)

Definition region_u64 (r : UsableRegion) : Prop := 0 <= region_start r /\ 0 <= len_pfn r.

Lemma overlaps_any_spec a rs :
  region_u64 a -> Forall region_u64 rs -> len_pfn a <> 0 ->
  Boot.overlaps_any a rs = true <-> exists x, ind (region_start a) (Boot.region_end a) x = 1 /\ 1 <= seeded rs x.
Proof.
  intros Ha Hrs Hla. unfold Boot.overlaps_any. induction Hrs as [|b rs Hb Hrs IH]; cbn [existsb].
  - split; [done|]. intros (x & _ & Hx). unfold seeded in Hx. rewrite sumZ_nil in Hx. lia.
  - rewrite orb_true_iff, IH. clear IH. unfold Boot.region_end in *.
    assert (Hc : forall x, seeded (b :: rs) x = ind (region_start b) (region_start b + len_pfn b) x + seeded rs x) by done.
    split.
    + intros [Hov|(x & Hx & Hs)].
      * to_prop. destruct Ha, Hb. exists (Z.max (region_start a) (region_start b)). rewrite Hc, !ind_in by lia.
        pose proof (seeded_nonneg rs (Z.max (region_start a) (region_start b))). lia.
      * exists x. rewrite Hc. split; [done|]. unfold ind at 1. destruct (_ && _); lia.
    + intros (x & Hx & Hs). rewrite Hc in Hs. unfold ind in Hx, Hs at 1.
      destruct (_ && _) eqn:E1 in Hx; [|done]. destruct (_ && _) eqn:E2 in Hs; to_prop.
      * left. rewrite !andb_true_iff, negb_true_iff, Z.eqb_neq, !Z.ltb_lt. lia.
      * right. exists x. split; [by apply ind_in|lia].
Qed.

Lemma any_overlap_spec rs :
  Forall region_u64 rs -> Boot.any_overlap rs = true <-> exists x, 2 <= seeded rs x.
Proof.
  induction 1 as [|a rs Ha Hrs IH]; cbn [Boot.any_overlap].
  - split; [done|]. intros [x Hx]. unfold seeded in Hx. rewrite sumZ_nil in Hx. lia.
  - rewrite orb_true_iff, andb_true_iff, negb_true_iff, Z.eqb_neq, IH.
    assert (Hc : forall x, seeded (a :: rs) x = ind (region_start a) (Boot.region_end a) x + seeded rs x) by done.
    split.
    + intros [[Hl Hov]|[x Hx]].
      * apply overlaps_any_spec in Hov as (x & Hx & Hs); [|done..]. exists x. rewrite Hc. lia.
      * exists x. rewrite Hc. unfold ind. destruct (_ && _); lia.
    + intros [x Hx]. rewrite Hc in Hx. destruct (decide (2 <= seeded rs x)); [right; by exists x|left].
      unfold ind in Hx. destruct (_ && _) eqn:E; [to_prop|lia]. unfold Boot.region_end in *.
      split; [lia|]. apply overlaps_any_spec; [done|done|lia|]. exists x. split; [by apply ind_in|lia].
Qed.

(** Disjoint regions hold no more pages than the address space. *)
Lemma sum_ind a b n : 0 <= a <= b -> b <= n -> sumZ (ind a b) (seqZ 0 n) = b - a.
Proof.
  intros Ha Hb. replace n with (a + ((b - a) + (n - b))) by lia. rewrite !seqZ_app by lia. rewrite !sumZ_app.
  assert (Hz : forall lo k, (forall x, lo <= x < lo + k -> ~ (a <= x < b)) -> sumZ (ind a b) (seqZ lo k) = 0).
  { intros lo k Hout. apply sumZ_const0. intros x Hx. apply elem_of_seqZ in Hx. apply ind_out, Hout. lia. }
  rewrite (Hz 0 a), (Hz (0 + a + (b - a)) (n - b)) by (intros; lia). rewrite (sumZ_ext _ (fun _ => 1)).
  - rewrite sumZ_const, length_seqZ. lia.
  - intros x Hx. apply elem_of_seqZ in Hx. apply ind_in. lia.
Qed.

Lemma total_le t rs : Forall (region_ok t) rs -> (forall x, seeded rs x <= 1) -> 0 <= pfn_max t -> total_len rs <= pfn_max t.
Proof.
  intros Hok Hone Hp. assert (Heq : sumZ (seeded rs) (seqZ 0 (pfn_max t)) = total_len rs).
  { clear Hone. induction Hok as [|r rs (H1 & H2 & H3) Hok IH].
    - unfold seeded, total_len. rewrite sumZ_nil. by apply sumZ_const0.
    - change (seeded (r :: rs)) with (fun x => ind (region_start r) (Boot.region_end r) x + seeded rs x).
      unfold total_len. rewrite sumZ_add, sumZ_cons, IH. unfold Boot.region_end in *. rewrite sum_ind by lia. unfold total_len. lia. }
  rewrite <- Heq. etrans; [apply (sumZ_le _ (fun _ => 1)); intros; apply Hone|].
  rewrite sumZ_const, length_seqZ. lia.
Qed.

Lemma scan_regions_spec rs pm tot :
  Forall (fun r => region_u64 r /\ Boot.region_end r <= U64_MAX) rs -> 0 <= tot ->
  match Boot.scan_regions rs pm tot with
  | Err er => er = OutOfRange /\ U64_MAX < tot + total_len rs
  | Ok (pm', tot') => pm <= pm' /\ Forall (fun r => Boot.region_end r <= pm') rs /\ tot' = tot + total_len rs /\
      (pm' = pm \/ exists r, r ∈ rs /\ pm' = Boot.region_end r)
  end.
Proof.
  intros Hrs. revert pm tot. induction Hrs as [|r rs [[H1 H2] H3] Hrs IH]; intros pm tot Ht; cbn [Boot.scan_regions].
  { unfold total_len. rewrite sumZ_nil. split_and!; [lia|done|lia|by left]. }
  assert (Hl : total_len (r :: rs) = len_pfn r + total_len rs) by done.
  assert (Hn : 0 <= total_len rs).
  { apply sumZ_nonneg. intros r' Hr'. rewrite Forall_forall in Hrs. by destruct (Hrs r' Hr') as [[_ ?] _]. }
  unfold Boot.region_end, checked_add in *. rewrite (proj2 (Z.leb_le _ _) H3).
  bool_case (tot + len_pfn r <=? U64_MAX); [|split; [done|lia]].
  specialize (IH (if pm <? region_start r + len_pfn r then region_start r + len_pfn r else pm) (tot + len_pfn r) ltac:(lia)).
  destruct (Boot.scan_regions _ _ _) as [[pm' tot']|er]; [|destruct IH; split; [done|lia]].
  destruct IH as (Hle & Hall & Htot & Hex). bool_case (pm <? region_start r + len_pfn r).
  - split_and!; [lia|by constructor|lia|]. right. destruct Hex as [->|(r' & ? & ?)]; [exists r|exists r']; (split; [|done]); [left|by right].
  - split_and!; [lia|constructor; [lia|done]|lia|]. destruct Hex as [->|(r' & ? & ?)]; [by left|right; exists r'; split; [by right|done]].
Qed.

(** ** The derived thresholds *)

Lemma wp_sum_managed zones sum g (Q : Z -> Inner -> Prop) :
  0 <= sum -> (forall z, z ∈ zones -> 0 <= managed g z) -> sum + sumZ (managed g) zones <= U64_MAX ->
  Q (sum + sumZ (managed g) zones) g -> wp (Boot.sum_managed zones sum) Q g.
Proof.
  revert sum. induction zones as [|z zones IH]; intros sum Hs Hf Hb HQ; cbn [Boot.sum_managed].
  { rewrite sumZ_nil, Z.add_0_r in HQ. by wp_step. }
  rewrite sumZ_cons in *. pose proof (Hf z ltac:(left)).
  assert (Hf' : forall z, z ∈ zones -> 0 <= managed g z) by (intros; apply Hf; by right).
  pose proof (sumZ_nonneg (managed g) zones Hf').
  wp_step. wp_step. wp_step. wp_step; [lia|]. apply IH; [lia|done|lia|]. by rewrite <- Z.add_assoc.
Qed.

(** Before the tunables are known only the reserves are derived. *)
Lemma recompute_unset_run g (Q : option (Z * ZoneWatermarks) -> Inner -> Prop) :
  tunables g = None -> (forall z, z ∈ seq 0 NR_ZONES -> 0 <= managed g z) ->
  sumZ (managed g) (seq 0 NR_ZONES) <= U64_MAX ->
  Q None (set_reserve (lowmem_reserve (managed g) DEFAULT_LOWMEM_RESERVE_RATIO) g) ->
  wp Boot.recompute_derived Q g.
Proof.
  intros Htun Hn Hb HQ. unfold Boot.recompute_derived. wp_step. wp_step. wp_step.
  apply wp_sum_managed; [lia|done|done|]. wp_step. wp_step. cbn [set_reserve tunables]. rewrite Htun. by wp_step.
Qed.

(** ** The invariant after boot *)

Section zonelist.
Context (t t' : Topology) (Hp : pfn_max t' = pfn_max t) (Hl : layout t' = layout t).

Lemma placed_zonelist c z m p o : placed t c z m p o -> placed t' c z m p o.
Proof. intros []. split; unfold span_of in *; rewrite ?Hl; done. Qed.

Lemma core_inv_zonelist c F : core_inv t c F -> core_inv t' c F.
Proof. intros []. split; try done. intros. apply placed_zonelist. auto. Qed.

Lemma seeding_zonelist g F : seeding t g F -> seeding t' g F.
Proof.
  intros [Hi Hc Hm Hpr]. split; [by apply core_inv_zonelist| |done|done].
  intros z x Hz Hx. apply (Hc z x Hz). unfold span_of in *. by rewrite <- Hl.
Qed.

Lemma topo_wf_zonelist : topo_wf t -> topo_wf t'.
Proof. unfold topo_wf. by rewrite Hp, Hl. Qed.

End zonelist.

Lemma blank_seeding t c g :
  same_but_types (core g) c -> classed t c ->
  bitmaps (core g) = (fun _ _ => 0) -> free_heads (core g) = (fun _ _ _ => PFN_NULL) ->
  free_count (core g) = (fun _ _ _ => 0) -> managed g = (fun _ => 0) -> present g = (fun _ => 0) ->
  seeding t (set_core c g) no_blocks.
Proof.
  intros (Hb & Hh & Hn & _) Hcl Eb Eh En Em Ep. split; cbn [core set_core managed present]; [|done|..].
  - split; rewrite ?Hh, ?Hn, ?Eh, ?En; try done.
    + intros o i _ _. unfold bit. rewrite Hb, Eb, Z.bits_0. split; [done|]. intros (? & ? & _ & Hin).
      by apply not_elem_of_nil in Hin.
    + intros z m o p _ _ Hin. by apply not_elem_of_nil in Hin.
  - intros z _. rewrite Em. unfold fsize. by rewrite zsumN_empty.
  - intros z _. rewrite Ep. unfold fsize. by rewrite zsumN_empty.
Qed.

(** A seeded state with empty pagesets satisfies the invariant. *)
Lemma boot_pmm_inv t rs g F s :
  seeding t g F -> (forall x, fcov F x = seeded rs x) -> (forall x, seeded rs x <= 1) -> ftotal F <= 2 ^ 52 ->
  core (inner s) = core g -> managed (inner s) = managed g ->
  allocated (inner s) = 0 -> reserved (inner s) = 0 -> initial_free (inner s) = ftotal F ->
  pcp s = (fun _ => PcpLists.empty) -> pcp_bitmap s = (fun _ => 0) ->
  zone_free s = (fun z => Buddy.zone_free_pages (core g) z) -> pcp_free s = (fun _ => 0) ->
  pmm_inv t (seeded rs) s F no_pages [] [].
Proof.
  intros [Hinv Hcl Hm _] Hc Hone Hb Ec Em Ea Er Ei Ep Ebm Ezf Epf. split.
  - unfold sown. rewrite Ec, Ep, Ebm. split; try done.
    + intros z m cpu p _ _ Hin. by apply not_elem_of_nil in Hin.
    + intros i _. unfold pbit. rewrite Z.bits_0. split; [done|]. intros (? & ? & ? & _ & _ & Hin).
      by apply not_elem_of_nil in Hin.
    + intros p o Hin. by apply not_elem_of_nil in Hin.
    + intros x. unfold cover, pcov, acov, rcov. rewrite fsumN_empty, !sumZ_nil, Hc. lia.
  - assert (Hpt : ptotal no_pages = 0) by apply fsumN_empty.
    assert (Hps : forall z, psize no_pages z = 0) by (intros; apply zsumN_empty).
    split; rewrite ?Ea, ?Er, ?Ei, ?Hpt; unfold asize, azsize; rewrite ?sumZ_nil; cbn [length]; try lia.
    + intros z Hz. rewrite Ezf, Hps, (zone_free_pages_spec t _ F) by done. lia.
    + intros z _. by rewrite Epf, Hps.
    + intros z Hz. rewrite Em, Hm, Hps by done. rewrite sumZ_nil. lia.
Qed.

Lemma total_len_nonneg rs : Forall region_u64 rs -> 0 <= total_len rs.
Proof. intros H. apply sumZ_nonneg. intros r Hr. rewrite Forall_forall in H. apply (H r Hr). Qed.

(** The construction up to the derived thresholds. *)
Lemma build_spec t limits mem rs :
  topo_wf t -> layout t = Layout.new limits (pfn_max t) -> Forall (region_ok t) rs -> (forall x, seeded rs x <= 1) ->
  wp (for_each (seq 0 ORDERS) (fun o => n ← add64 (pfn_max t) (pow2 o); _ ← sub64 n 1; ret tt) ;;
      on_core (Pageblock.set_range t (start_pfn (Layout.span (layout t) MovableZone))
                 (end_pfn (Layout.span (layout t) MovableZone)) Movable) ;;
      for_each rs (fun r => Boot.seed_range t (region_start r) (Boot.region_end r)) ;;
      _ ← Boot.recompute_derived;
      ret tt)
    (fun _ g => allocated g = 0 /\ reserved g = 0 /\ initial_free g = total_len rs /\ exists F, seeding t g F /\
      (forall x, fcov F x = seeded rs x) /\ ftotal F = total_len rs)
    (Boot.blank_inner (layout t) mem (total_len rs)).
Proof.
  intros Ht Hl Hok Hone. set (g0 := Boot.blank_inner _ _ _).
  destruct (Ht) as [[Hp Hmax] _]. pose proof (total_le t rs Hok Hone Hp) as Htot.
  wp_step. eapply wp_mono; [apply (wp_for_each _ (fun os g => g = g0 /\ Forall (fun o => (o < ORDERS)%nat) os) _ g0)|].
  { split; [done|]. apply Forall_forall. intros o Ho. apply elem_of_seq in Ho. lia. }
  { intros o os g [-> [Ho Hos]%Forall_cons].
    assert (pow2 o <= 2 ^ 20) by (unfold ORDERS, MAX_ORDER in Ho; apply Z.pow_le_mono_r; lia). pose proof (pow2_pos o).
    wp_step. wp_step; [unfold U64_MAX; lia|]. wp_step. wp_step; [lia|]. by wp_step. }
  intros [] g [-> _]. wp_step. apply wp_zoom.
  apply (set_movable_run t _ limits); [done|done|done|]. intros c1 Hsame Hcl.
  pose proof (blank_seeding t c1 g0 Hsame Hcl eq_refl eq_refl eq_refl eq_refl eq_refl) as Hs.
  wp_step. eapply wp_mono; [apply (seed_regions_spec t Ht rs _ no_blocks Hok Hs)|].
  - intros x. unfold fcov. rewrite fsumN_empty. by rewrite Z.add_0_l.
  - unfold ftotal. rewrite fsumN_empty. lia.
  - intros [] g1 (Hr & F & Hs1 & Hc & Hft). unfold ftotal at 2 in Hft. rewrite fsumN_empty in Hft.
    injection Hr as _ _ _ Htun Hal Hre Hin _. pose proof (sd_managed _ _ _ Hs1) as Hm.
    wp_step. apply recompute_unset_run; [by rewrite Htun| | |].
    + intros z Hz. apply elem_of_seq in Hz. rewrite Hm by lia. apply fsize_nonneg.
    + rewrite (sumZ_ext _ (fsize F)), <- ftotal_sum; [unfold U64_MAX; lia|].
      intros z Hz. apply elem_of_seq in Hz. apply Hm. lia.
    + wp_step. split_and!; [done|done|done|]. exists F. split_and!; [by destruct Hs1; split| |lia].
      intros x. rewrite Hc. unfold fcov at 1. rewrite fsumN_empty. lia.
Qed.

Lemma init_zoned_spec arch mem rs limits :
  Forall region_u64 rs -> Forall (fun r => Boot.region_end r <= 2 ^ 52) rs ->
  match Boot.init_zoned arch mem rs limits with
  | Panic _ => False
  | Done (Err OutOfRange) => rs = [] \/ U64_MAX < total_len rs
  | Done (Err Overlap) => exists x, 2 <= seeded rs x
  | Done (Err _) => False
  | Done (Ok (t, s)) => topo_wf t /\ (forall x, seeded rs x <= 1) /\ classed t (cr s) /\
      initial_free (inner s) = total_len rs /\ exists F, pmm_inv t (seeded rs) s F no_pages [] []
  end.
Proof.
  intros Hu Hb. unfold Boot.init_zoned. destruct rs as [|r0 rs0]; [by left|]. set (rs := r0 :: rs0) in *.
  pose proof (scan_regions_spec rs 0 0) as Hscan.
  destruct (Boot.scan_regions rs 0 0) as [[pm tot]|er].
  2:{ destruct Hscan as [-> ?]; [|lia|right; lia]. apply Forall_forall. intros r Hr. rewrite Forall_forall in Hu, Hb.
      split; [by apply Hu|]. pose proof (Hb r Hr). unfold U64_MAX. lia. }
  destruct Hscan as (Hpm & Hends & Htot & Hex); [|lia|].
  { apply Forall_forall. intros r Hr. rewrite Forall_forall in Hu, Hb. split; [by apply Hu|].
    pose proof (Hb r Hr). unfold U64_MAX. lia. }
  pose proof (any_overlap_spec rs Hu) as Hov. destruct (Boot.any_overlap rs); [by apply Hov|].
  assert (Hone : forall x, seeded rs x <= 1).
  { intros x. destruct (decide (2 <= seeded rs x)); [|lia]. discriminate (proj2 Hov). by exists x. }
  set (lim := match limits with Some lim => lim | None => _ end). set (l := Layout.new lim pm).
  set (t := mkTopology pm l Zonelist_default).
  assert (Hmax : pm <= 2 ^ 52).
  { rewrite Forall_forall in Hb. destruct Hex as [->|(r & Hr & ->)]; [lia|by apply Hb]. }
  assert (Ht : topo_wf t) by (split; [cbn [pfn_max t]; lia|by apply layout_new_wf]).
  assert (Hok : Forall (region_ok t) rs).
  { apply Forall_forall. intros r Hr. rewrite Forall_forall in Hu, Hends. destruct (Hu r Hr). split_and!; [done|done|by apply Hends]. }
  pose proof (build_spec t lim mem rs Ht eq_refl Hok Hone) as Hbuild. unfold wp in Hbuild.
  rewrite Z.add_0_l in Htot. subst tot. cbn [pfn_max layout t] in Hbuild.
  match type of Hbuild with match ?b with _ => _ end => destruct b as [[[] g]|] eqn:Eb end; [|done].
  clear Eb. destruct Hbuild as (Hal & Hre & Hin & F & Hs & Hc & Hft).
  set (t1 := mkTopology pm l _). pose proof (seeding_zonelist t t1 eq_refl g F Hs) as Hs1.
  pose proof (total_le t rs Hok Hone Hpm) as Htot. cbn [pfn_max t] in Htot.
  split_and!; [by apply (topo_wf_zonelist t)|done|apply Hs1|done|].
  exists F. eapply (boot_pmm_inv t1 rs g F); try done; [lia|by rewrite Hft].
Qed.
