(* ===== verification/PmmReserve.v ===== *)
(** * The page allocator: early reservation

    [reserve_early], [reserve_early_nosave] and [reserve_early_exact] of
    [crates/kernel/mm-pmm/src/buddy/reserve.rs] take the free pages of a range
    out of the free lists, splitting the blocks that hold them. *)

From S2P Require Import Prelude Zone Watermark Buddy BuddyInv BuddyOps BuddySpec.
From S2P Require Import Pmm PmmBoot PmmInv PmmOps PmmPcp PmmSeed PmmInit.

Lemma wp_with_core4 {A B C D E} (m1 : M Core A) (m2 : M Core B) (m3 : M Core C) (m4 : M Core D) (k : D -> M Pmm E) Q s :
  wp (m1 ;; m2 ;; m3 ;; m4) (fun d c' => wp (k d) Q (putc s c' (pcp_bitmap s))) (cr s) ->
  wp (with_core m1 ;; with_core m2 ;; with_core m3 ;; d ← with_core m4; k d) Q s.
Proof.
  intros H. repeat (apply wp_bind_inv in H). apply wp_bind, wp_with_core. eapply wp_mono; [exact H|]. cbn beta.
  clear H. intros _ c1 H. apply wp_bind_inv in H. apply wp_bind, wp_with_core. eapply wp_mono; [exact H|]. cbn beta.
  clear H. intros _ c2 H. apply wp_bind_inv in H. apply wp_bind, wp_with_core. eapply wp_mono; [exact H|]. cbn beta.
  clear H. intros _ c3 H. apply wp_bind, wp_with_core. eapply wp_mono; [exact H|]. done.
Qed.

(** ** The derived marks *)

(** The range the two tunables can be set to: [vm.min_free_kbytes] up to the
    largest [int], [vm.watermark_scale_factor] up to [SCALE_FACTOR_MAX]. *)
Definition tunable_range (tun : WatermarkTunables) : Prop :=
  match min_free_kbytes tun with Some k => 0 <= k <= 2 ^ 31 - 1 | None => True end /\
  0 <= watermark_scale_factor tun <= 3000.

Definition marks_of (managed : nat -> Z) (total : Z) (tun : WatermarkTunables) (zi : nat) : ZoneWatermarks :=
  Marks.derive_zone_watermarks (managed zi) total tun PAGE_SIZE_BYTES (zi =? ZoneTypes.index MovableZone)%nat.

Definition marks_within (w : ZoneWatermarks) (b : Z) : Prop :=
  0 <= wm_min w <= b /\ 0 <= wm_low w <= b /\ 0 <= wm_high w <= b /\ 0 <= wm_promo w <= b.

Lemma div_within a b c : 0 <= a -> 0 < b -> a <= c * b -> 0 <= a / b <= c.
Proof. intros. split; [by apply Z.div_pos|]. apply Z.div_le_upper_bound; lia. Qed.

Lemma sat_mul_within a b c : 0 <= a -> 0 <= b -> a * b <= c -> 0 <= sat_mul a b <= c.
Proof. intros. unfold sat_mul, U64_MAX. nia. Qed.

Lemma marks_bound m total tun cap :
  0 <= m <= total -> total <= 2 ^ 56 -> tunable_range tun ->
  marks_within (Marks.derive_zone_watermarks m total tun PAGE_SIZE_BYTES cap) (2 ^ 60).
Proof.
  intros Hm Ht [Hk Hs]. unfold Marks.derive_zone_watermarks. destruct (_ || _ || _) eqn:E; [done|]. to_prop. cbn zeta.
  set (mk := match min_free_kbytes tun with Some k => k | None => _ end).
  assert (Hmk : 0 <= mk <= 2 ^ 31).
  { subst mk. destruct (min_free_kbytes tun); [lia|]. pose proof (default_min_free_kbytes_bounds total PAGE_SIZE_BYTES).
    unfold MIN_FREE_KBYTES_FLOOR, MIN_FREE_KBYTES_CEILING in *. lia. }
  assert (Htmp : 0 <= sat_mul mk KIB_BYTES / PAGE_SIZE_BYTES <= 2 ^ 31).
  { unfold KIB_BYTES, PAGE_SIZE_BYTES. apply div_within; [|lia|]; pose proof (sat_mul_within mk 1024 (2 ^ 41)); lia. }
  set (tmp := sat_mul mk KIB_BYTES / PAGE_SIZE_BYTES) in *. clearbody mk tmp.
  assert (Hprop : 0 <= sat_mul tmp m / total <= 2 ^ 31).
  { pose proof (sat_mul_within tmp m (2 ^ 31 * total) ltac:(lia) ltac:(lia) ltac:(nia)). apply div_within; lia. }
  set (prop := sat_mul tmp m / total) in *. clearbody prop.
  assert (Hscale : 0 <= sat_mul m (watermark_scale_factor tun) / WATERMARK_SCALE_DENOMINATOR <= 2 ^ 56).
  { pose proof (sat_mul_within m (watermark_scale_factor tun) (2 ^ 56 * 3000) ltac:(lia) ltac:(lia) ltac:(nia)).
    unfold WATERMARK_SCALE_DENOMINATOR. apply div_within; lia. }
  pose proof (div_within prop 4 (2 ^ 31) ltac:(lia) ltac:(lia) ltac:(lia)).
  pose proof (clamp_bounds (m / CAPPED_MIN_SHARE) CAPPED_MIN_FLOOR CAPPED_MIN_CEILING ltac:(done)) as Hc.
  set (gap := Z.max _ _). assert (0 <= gap <= 2 ^ 56) by (subst gap; lia). clearbody gap.
  set (mn := if cap then _ else _).
  assert (0 <= mn <= 2 ^ 31) by (subst mn; unfold CAPPED_MIN_FLOOR, CAPPED_MIN_CEILING in *; destruct cap; lia). clearbody mn.
  unfold marks_within. cbn [wm_min wm_low wm_high wm_promo]. unfold sat_add, sat_mul, U64_MAX. lia.
Qed.

(** The marks of the zones of [l] are derived, and nothing else changes. *)
Definition marked (g g' : Inner) (total : Z) (tun : WatermarkTunables) (l : list nat) : Prop :=
  exists w, g' = set_wmark w g /\
    forall z, w z = if decide (z ∈ l) then marks_of (managed g) total tun z else wmark g z.

Lemma derive_marks_run l total tun agg b g :
  NoDup l -> 0 <= b -> marks_within agg b -> b + Z.of_nat (length l) * 2 ^ 60 <= U64_MAX ->
  (forall z, z ∈ l -> 0 <= managed g z <= total) -> total <= 2 ^ 56 -> tunable_range tun ->
  wp (Boot.derive_marks l total tun agg) (fun _ g' => marked g g' total tun l) g.
Proof.
  intros Hnd. revert agg b g. induction Hnd as [|z l Hz Hnd IH]; intros agg b g Hb Hagg Hlen Hm Ht Htun; cbn [Boot.derive_marks].
  { wp_step. exists (wmark g). split; [by destruct g|]. intros z. by rewrite decide_False by apply not_elem_of_nil. }
  pose proof (marks_bound (managed g z) total tun (z =? ZoneTypes.index MovableZone)%nat (Hm z ltac:(left)) Ht Htun) as Hw.
  fold (marks_of (managed g) total tun z) in *. cbn [length] in Hlen.
  destruct Hagg as (? & ? & ? & ?), Hw as (? & ? & ? & ?). wp_step. wp_step. wp_step. wp_step.
  fold (marks_of (managed g) total tun z). do 4 (wp_step; wp_step; [lia|]).
  eapply wp_mono; [apply (IH _ (b + 2 ^ 60)); [lia| |lia| |done|done]|].
  { unfold marks_within. cbn [wm_min wm_low wm_high wm_promo]. lia. }
  { intros z' Hz'. apply Hm. by right. }
  intros _ g' (w & -> & Hw). exists w. split; [done|]. intros z'. rewrite Hw. cbn [managed set_wmark wmark].
  destruct (decide (z' = z)) as [->|Hne].
  - rewrite decide_False, decide_True by (done || left). apply updn_eq.
  - destruct (decide (z' ∈ l)); [by rewrite decide_True by (by right)|].
    rewrite decide_False by (rewrite elem_of_cons; tauto). by apply updn_ne.
Qed.

Section reserve.
Context (t : Topology) (Ht : topo_wf t) (Sd : Z -> Z).

(** ** Finding the block of a page *)

Definition block_base (p : Z) (o : nat) : Z := Z.shiftl (Z.shiftr p (Z.of_nat o)) (Z.of_nat o).

Lemma block_base_spec p o : 0 <= p -> block_base p o = p / pow2 o * pow2 o /\ block_base p o <= p < block_base p o + pow2 o.
Proof.
  intros Hp. unfold block_base. rewrite shiftr_pow2, Z.shiftl_mul_pow2 by lia. change (2 ^ Z.of_nat o) with (pow2 o).
  pose proof (pow2_pos o). split; [done|].
  pose proof (Z.div_mod p (pow2 o) ltac:(lia)). pose proof (Z.mod_pos_bound p (pow2 o) ltac:(lia)). lia.
Qed.

(** A free page lies in a listed block, at the base its order gives. *)
Lemma covered_listed c F x :
  core_inv t c F -> fcov F x = 1 -> 0 <= x ->
  exists z m o, (z < NR_ZONES)%nat /\ (o < ORDERS)%nat /\ block_base x o ∈ F z m o.
Proof.
  intros Hinv Hx Hx0. destruct (fsumN_elem ORDERS (cov x) F) as (z & m & o & p & Hz & Ho & Hin & Hc); [unfold fcov in Hx; lia|].
  assert (Hr : p <= x < p + pow2 o).
  { destruct (decide (p <= x < p + pow2 o)); [done|]. rewrite cov_out in Hc by done. lia. }
  exists z, m, o. split_and!; [done|done|]. destruct (pl_align _ _ _ _ _ _ (inv_placed _ _ _ Hinv z m o p Hz Ho Hin)) as [k Hk].
  pose proof (pow2_pos o). destruct (block_base_spec x o Hx0) as [-> _].
  replace (x / pow2 o) with k; [by rewrite <- Hk|]. apply Z.div_unique with (x - p); lia.
Qed.

Lemma any_bit_spec orders p c F :
  core_inv t c F -> 0 <= p < pfn_max t -> (forall o, o ∈ orders -> (o < ORDERS)%nat) ->
  wp (Boot.any_bit t orders p) (fun r c' => c' = c /\
    match r with
    | None => forall o, o ∈ orders -> bit c o (Z.shiftr p (Z.of_nat o)) = false
    | Some o => (o < ORDERS)%nat /\ exists z m, (z < NR_ZONES)%nat /\ block_base p o ∈ F z m o
    end) c.
Proof.
  intros Hinv Hp. induction orders as [|o orders IH]; intros Hos; cbn [Boot.any_bit].
  { wp_step. split; [done|]. intros o Ho. by apply not_elem_of_nil in Ho. }
  assert (Ho : (o < ORDERS)%nat) by (apply Hos; left).
  wp_step. eapply wp_done; [by apply bitmap_get_run, index_in_range|]. cbn beta.
  destruct (bit c o (Z.shiftr p (Z.of_nat o))) eqn:Eb.
  - wp_step. split_and!; [done|done|]. apply (inv_bits _ _ _ Hinv) in Eb as (z & m & Hz & Hin);
      [|done|apply Z.shiftr_nonneg; lia].
    exists z, m. split; [done|]. destruct (block_base_spec p o) as [-> _]; [lia|]. by rewrite <- shiftr_pow2.
  - eapply wp_mono; [apply IH; intros; apply Hos; by right|]. intros [o'|] c' [-> Hr]; [by split|].
    split; [done|]. intros o' [->|Ho']%elem_of_cons; auto.
Qed.

Lemma find_block_spec p c F :
  core_inv t c F -> 0 <= p < pfn_max t ->
  wp (Boot.any_bit t (seq 0 ORDERS) p) (fun r c' => c' = c /\
    match r with
    | None => fcov F p = 0
    | Some o => (o < ORDERS)%nat /\ exists z m, (z < NR_ZONES)%nat /\ block_base p o ∈ F z m o
    end) c.
Proof.
  intros Hinv Hp. eapply wp_mono; [apply (any_bit_spec (seq 0 ORDERS) p c F Hinv Hp)|].
  { intros o Ho. apply elem_of_seq in Ho. lia. }
  intros [o|] c' [-> Hr]; [by split|]. split; [done|].
  pose proof (inv_disjoint _ _ _ Hinv p). pose proof (fcov_nonneg F p).
  destruct (decide (fcov F p = 1)) as [H1|]; [|lia].
  destruct (covered_listed c F p Hinv H1 ltac:(lia)) as (z & m & o & Hz & Ho & Hin).
  specialize (Hr o ltac:(apply elem_of_seq; lia)).
  rewrite (proj2 (inv_bits _ _ _ Hinv o (Z.shiftr p (Z.of_nat o)) Ho ltac:(apply Z.shiftr_nonneg; lia))) in Hr; [done|].
  exists z, m. split; [done|]. destruct (block_base_spec p o) as [Heq _]; [lia|]. by rewrite shiftr_pow2, <- Heq.
Qed.

(** The preflight reads only. *)
Lemma all_free_spec n p c F :
  core_inv t c F -> 0 <= p -> p + Z.of_nat n <= pfn_max t ->
  wp (Boot.all_free t n p) (fun r c' => c' = c /\
    if r then forall x, p <= x < p + Z.of_nat n -> fcov F x = 1
    else exists x, p <= x < p + Z.of_nat n /\ fcov F x = 0) c.
Proof.
  intros Hinv. revert p. induction n as [|n IH]; intros p Hp Hb; cbn [Boot.all_free].
  { wp_step. split; [done|lia]. }
  wp_step. eapply wp_mono; [apply (find_block_spec p c F Hinv); lia|]. intros [o|] c' [-> Hr].
  - destruct Hr as (Ho & z & m & Hz & Hin). eapply wp_mono; [apply IH; lia|].
    intros [] c' [-> Hr]; (split; [done|]).
    + intros x Hx. destruct (decide (x = p)) as [->|]; [|apply Hr; lia].
      eapply (block_cov t c F Hinv); [exact Hz|exact Ho|exact Hin|]. by apply block_base_spec.
    + destruct Hr as (x & Hx & Hx0). exists x. split; [lia|done].
  - wp_step. split; [done|]. exists p. split; [lia|done].
Qed.

(** ** Splitting down to a page *)

(** The half of [(blk, S o)] that does not hold the page goes on the lists. *)
Definition carved (c : Core) (F : blocks) (z : nat) (m : MigrateType) (blk : Z) (o : nat) (p : Z) (c' : Core) : Prop :=
  exists F', core_inv t c' F' /\ placed t c' z m p 0 /\ pageblocks c' = pageblocks c /\
    moved F F' z (fun g => g blk o - g p 0%nat) /\
    (forall q, fcov F q = 0 -> ~ (blk <= q < blk + pow2 o) -> pages c' q = pages c q).

Lemma carve_step c F z m half keep o blk p c' :
  core_inv t c F -> placed t c z m half o -> (forall x, half <= x < half + pow2 o -> fcov F x = 0) ->
  (forall g, additive g -> g blk (S o) = g half o + g keep o) -> blk <= half -> half + pow2 o <= blk + pow2 (S o) ->
  blk <= keep -> keep + pow2 o <= blk + pow2 (S o) -> (half + pow2 o <= keep \/ keep + pow2 o <= half) ->
  carved (publish c z m o half) (upd3 F z m o (half :: F z m o)) z m keep o p c' -> carved c F z m blk (S o) p c'.
Proof.
  intros Hinv Hpl Hfree Hadd H1 H2 H3 H4 Hdis (F' & Hinv' & Hpl' & Hpb & Hmv & Hfr). pose proof (pow2_pos o).
  assert (Hz : (z < NR_ZONES)%nat) by apply Hpl. assert (Ho : (o < ORDERS)%nat) by apply Hpl.
  exists F'. split_and!; [done|done|by rewrite Hpb, publish_pageblocks| |].
  - eapply (moved_trans F _ F' z (fun g => g half o)); [|exact Hmv|intros g Hg; cbn beta; rewrite Hadd by done; lia].
    intros g _ z' Hz'. by apply zsum_cons.
  - intros q Hq Hout. rewrite Hfr; [|rewrite fcov_cons, Hq, cov_out by (done || lia); lia|lia].
    apply (publish_frame t Ht c F); try done. lia.
Qed.

Lemma split_to_spec o blk p z m c F :
  core_inv t c F -> placed t c z m blk o -> blk <= p < blk + pow2 o ->
  (forall x, blk <= x < blk + pow2 o -> fcov F x = 0) ->
  wp (Boot.split_to t o blk p z m) (fun r c' => r = p /\ carved c F z m blk o p c') c.
Proof.
  revert blk c F. induction o as [|o IH]; intros blk c F Hinv Hpl Hp Hfree; cbn [Boot.split_to].
  { rewrite pow2_0 in *. wp_step. assert (blk = p) as -> by lia. split; [done|]. exists F. split_and!; try done.
    intros g _ z' _. unfold at_zone. destruct (_ =? _)%nat; lia. }
  destruct (placed_split t _ _ _ _ _ Hpl) as [Hlo Hhi]. pose proof (pow2_pos o). rewrite pow2_S in *.
  pose proof (placed_range t Ht _ _ _ _ _ Hhi).
  assert (Hz : (z < NR_ZONES)%nat) by apply Hpl. assert (Ho : (o < ORDERS)%nat) by apply Hlo.
  wp_step. wp_step; [destruct Ht as [? _]; unfold U64_MAX; lia|].
  assert (Hgo : forall half keep, placed t c z m half o -> placed t c z m keep o ->
    (forall g, additive g -> g blk (S o) = g half o + g keep o) -> blk <= half -> half + pow2 o <= blk + (pow2 o + pow2 o) ->
    blk <= keep -> keep + pow2 o <= blk + (pow2 o + pow2 o) -> (half + pow2 o <= keep \/ keep + pow2 o <= half) ->
    keep <= p < keep + pow2 o ->
    wp (Boot.split_to t o keep p z m) (fun r c' => r = p /\ carved c F z m blk (S o) p c') (publish c z m o half)).
  { intros half keep Hph Hpk Hadd ? ? ? ? Hdis Hpk'.
    assert (Hfh : forall x, half <= x < half + pow2 o -> fcov F x = 0) by (intros; apply Hfree; lia).
    eapply wp_mono; [apply (IH keep _ (upd3 F z m o (half :: F z m o)))|].
    - by apply publish_inv.
    - by apply publish_placed.
    - done.
    - intros x Hx. rewrite fcov_cons, cov_out, Hfree by (done || lia). done.
    - intros r c' [-> Hc]. split; [done|]. eapply (carve_step c F z m half keep o blk p); try done; rewrite pow2_S; lia. }
  bool_case (blk + pow2 o <=? p).
  - apply wp_seq3, (publish_run t Ht c F Hinv z m o blk Hlo). apply Hgo; try done; try lia.
  - apply wp_seq3, (publish_run t Ht c F Hinv z m o (blk + pow2 o) Hhi). apply Hgo; try done; try lia.
    intros g Hg. rewrite Hg. lia.
Qed.

(** ** One page *)

(** A page held by its caller becomes reserved. *)
Lemma own_reserve c tbl bm F P A R p :
  own t Sd c tbl bm F P ((p, 0%nat) :: A) R -> own t Sd c tbl bm F P A (p :: R).
Proof.
  intros [Hc Hl Hp Hb Ha Hpart Hs]. split; try done; [intros q o Hq; apply Ha; by right|].
  intros x. rewrite <- Hpart. unfold cover. rewrite acov_cons. unfold rcov. rewrite sumZ_cons. lia.
Qed.

(** Everything but the free pages and the reserved ones is as before. *)
Definition reserves (s : Pmm) (F : blocks) (P : pagesets) A R (a b : Z) (s' : Pmm) : Prop :=
  tunables (inner s') = tunables (inner s) /\ exists F' R', pmm_inv t Sd s' F' P A R' /\
    forall x, fcov F' x = fcov F x * (1 - ind a b x) /\ rcov R' x = rcov R x + fcov F x * ind a b x.

Lemma acct_reserve s s' F P A R F' z p :
  acct t s F P A R -> (z < NR_ZONES)%nat -> moved F F' z (fun g => - g p 0%nat) ->
  zone_free s' = updn (zone_free s) z (zone_free s z - 1) -> pcp_free s' = pcp_free s ->
  managed (inner s') = updn (managed (inner s)) z (managed (inner s) z - 1) ->
  allocated (inner s') = allocated (inner s) + 1 -> reserved (inner s') = reserved (inner s) + 1 ->
  initial_free (inner s') = initial_free (inner s) -> acct t s' F' P A (p :: R).
Proof.
  intros [Zf Pf Mg Al Rs Tt Bd] Hz Hmv Hzf Hpf Hm Ha Hr Hi.
  pose proof (moved_fsize _ _ _ _ Hmv) as Hfs. pose proof (moved_ftotal _ _ _ _ Hz Hmv) as Hft. cbn beta in Hfs, Hft.
  rewrite pow2_0 in *. split; rewrite ?Ha, ?Hr, ?Hi; cbn [length]; try lia.
  - intros z' Hz'. rewrite Hzf, updn_at_zone_sub, Zf, Hfs by done. unfold at_zone. destruct (_ =? _)%nat; lia.
  - intros z' Hz'. by rewrite Hpf, Pf.
  - intros z' Hz'. rewrite Hm, updn_at_zone_sub, Mg, Hfs by done. unfold at_zone. destruct (_ =? _)%nat; lia.
Qed.

Lemma hibernate_run p s (b : bool) (Q : unit -> Pmm -> Prop) :
  (forall hf, Q tt (set_hibernate_forbidden hf s)) -> wp (if b then Boot.hibernate_forbid t p else ret tt) Q s.
Proof.
  intros HQ. assert (Hid : set_hibernate_forbidden (hibernate_forbidden s) s = s) by (by destruct s).
  unfold Boot.hibernate_forbid. destruct b; [destruct (_ <=? _)|]; wp_step; (apply HQ || (rewrite <- Hid; apply HQ)).
Qed.

Lemma pmm_inv_hibernate hf s F P A R : pmm_inv t Sd s F P A R -> pmm_inv t Sd (set_hibernate_forbidden hf s) F P A R.
Proof. intros [Hown []]. split; [exact Hown|by split]. Qed.

Lemma reserves_none s F P A R p hf :
  pmm_inv t Sd s F P A R -> fcov F p = 0 -> reserves s F P A R p (p + 1) (set_hibernate_forbidden hf s).
Proof.
  intros Hinv Hp. split; [done|]. exists F, R. split; [by apply pmm_inv_hibernate|]. intros x.
  destruct (decide (x = p)) as [->|]; [rewrite ind_in, Hp by lia|rewrite ind_out by lia]; lia.
Qed.

(** Taking the block of a free page off the lists and giving back the rest. *)
Lemma carve_run p o z m c F :
  let blk := block_base p o in
  core_inv t c F -> 0 <= p < pfn_max t -> (z < NR_ZONES)%nat -> (o < ORDERS)%nat -> blk ∈ F z m o ->
  wp (Buddy.unlink_free t blk o m ;; Buddy.bitmap_clear t o (Z.shiftr blk (Z.of_nat o)) ;; Buddy.count_dec z m o ;;
      Boot.split_to t o blk p z m) (fun r c' => r = p /\ exists F',
    core_inv t c' F' /\ placed t c' z m p 0 /\ moved F F' z (fun g => - g p 0%nat) /\ pageblocks c' = pageblocks c /\
    (forall q, fcov F q = 0 -> pages c' q = pages c q)) c.
Proof.
  intros blk Hcore Hp Hz Ho Hin. pose proof (inv_placed _ _ _ Hcore z m o blk Hz Ho Hin) as Hpl.
  destruct (block_base_spec p o ltac:(lia)) as [_ Hblk]. fold blk in Hblk. pose proof (pow2_pos o).
  pose proof (block_cov t c F Hcore z m o Hz Ho blk) as Hcov. specialize (Hcov) with (1 := Hin).
  apply list_elem_of_split in Hin as (l1 & l2 & HF).
  wp_step. apply (unlink_run t Ht _ F Hcore z m o Hz Ho l1 blk l2 _ HF).
  apply (retract_tail t Ht _ F Hcore z m o Hz Ho l1 blk l2 HF).
  eapply wp_mono; [apply (split_to_spec o blk p z m _ (upd3 F z m o (l1 ++ l2)))|].
  { by apply retract_inv. } { by apply retract_placed. } { lia. }
  { intros x Hx. by apply (retract_uncovered t c F Hcore z m o Hz Ho l1 blk l2 HF). }
  intros r c1 [-> (F' & Hinv' & Hpl' & Hpb & Hmv & Hfr)]. split; [done|]. exists F'. split_and!; [done|done| | |].
  - eapply (moved_trans F _ F' z (fun g => - g blk o)); [|exact Hmv|intros g _; cbn beta; lia].
    intros g _ z' Hz'. rewrite (zsum_del g F z m o Ho l1 blk l2 z' Hz' HF). unfold at_zone. destruct (_ =? _)%nat; lia.
  - by rewrite Hpb, retract_pageblocks.
  - intros q Hq. rewrite Hfr; [apply (retract_frame t Ht c F Hcore z m o Hz Ho l1 blk l2 HF); by right| |].
    + pose proof (fcov_nonneg (upd3 F z m o (l1 ++ l2)) q) as Hn. rewrite (fcov_del F z m o l1 blk l2) in * by done.
      pose proof (cov_range q blk o). lia.
    + intros Hx. rewrite Hcov in Hq by done. lia.
Qed.

Lemma wp_reserve_counters z s (Q : unit -> Pmm -> Prop) :
  allocated (inner s) + 1 <= U64_MAX -> reserved (inner s) + 1 <= U64_MAX -> 1 <= managed (inner s) z ->
  Q tt (set_inner (set_managed (updn (managed (inner s)) z (managed (inner s) z - 1))
         (set_reserved (reserved (inner s) + 1) (set_allocated (allocated (inner s) + 1) (inner s)))) s) ->
  wp (on_inner (allocated_add 1 ;; Boot.reserved_inc ;; Boot.managed_sub z 1)) Q s.
Proof.
  intros H1 H2 H3 HQ. apply wp_zoom. unfold allocated_add, Boot.reserved_inc, Boot.managed_sub. by repeat wp_step.
Qed.

Lemma reserve_page_spec p nosave s F P A R :
  pmm_inv t Sd s F P A R -> 0 <= p < pfn_max t ->
  wp (Boot.reserve_page t p nosave) (fun _ => reserves s F P A R p (p + 1)) s.
Proof.
  intros Hinv Hp. destruct (Hinv) as [Hown Hac]. pose proof (own_core _ _ _ _ _ _ _ _ _ Hown) as Hcore.
  unfold Boot.reserve_page. wp_step. apply wp_with_core.
  eapply wp_mono; [by apply (find_block_spec p (cr s) F)|]. intros [o|] c' [-> Hr]; rewrite putc_id.
  2:{ apply hibernate_run. intros hf. by apply reserves_none. }
  destruct Hr as (Ho & z & m & Hz & Hin). cbn zeta. fold (block_base p o).
  pose proof (inv_placed _ _ _ Hcore z m o _ Hz Ho Hin) as Hpl.
  destruct (block_base_spec p o ltac:(lia)) as [_ Hblk].
  pose proof (placed_range t Ht _ _ _ _ _ Hpl) as Hr. pose proof (pow2_pos o).
  assert (Hf1 : fcov F p = 1) by (eapply (block_cov t _ F Hcore); [exact Hz|exact Ho|exact Hin|done]).
  rewrite (placed_zi t Ht _ _ _ _ _ Hpl). wp_step. apply wp_with_core, wp_migratetype; [done|lia|].
  rewrite putc_id, (placed_mt _ _ _ _ _ _ Hpl). apply wp_with_core4.
  eapply wp_mono; [by apply (carve_run p o z m (cr s) F)|]. intros r c1 [-> (F' & Hinv' & Hpl' & Hmv & Hpb & Hfr)].
  wp_step. wp_step; [apply Z.eqb_refl|].
  destruct (acct_bounds _ _ _ _ _ _ Hac) as (Hb & Hb1 & Hb2 & Hb3 & Hb4). destruct (Hb z Hz) as (? & ? & ? & ?).
  pose proof (moved_fsize _ _ _ _ Hmv z Hz) as Hfz. rewrite at_zone_same, pow2_0 in Hfz. pose proof (fsize_nonneg F' z).
  pose proof (ac_zone_free _ _ _ _ _ _ Hac z Hz). pose proof (ac_allocated _ _ _ _ _ _ Hac).
  pose proof (ac_reserved _ _ _ _ _ _ Hac). pose proof (ac_managed _ _ _ _ _ _ Hac z Hz). pose proof (azsize_nonneg t A z).
  wp_step. apply wp_reserve_counters; [fields; unfold U64_MAX; lia..|fields; lia|].
  wp_step. apply hibernate_run. intros hf. apply wp_zone_free_sub; [fields; unfold U64_MAX; lia|].
  split; [done|]. exists F', (p :: R). split; [split|].
  - apply own_reserve. fields. eapply (own_take t Ht Sd (pcp s) (cr s) _ F P A R z 0 m p c1 F' m); try done.
    intros x _. left. by apply mt_of_pageblocks.
  - eapply (acct_reserve s _ F P A R F' z p); done.
  - intros x. rewrite (moved_fcov _ _ _ _ x Hz Hmv). unfold rcov. rewrite sumZ_cons, cov_ind, pow2_0.
    fold (rcov R x). destruct (decide (x = p)) as [->|]; [rewrite ind_in, Hf1 by lia|rewrite ind_out by lia]; lia.
Qed.

(** ** A range *)

Lemma reserves_trans s1 s2 s3 F P A R a b c F2 R2 :
  a <= b <= c -> tunables (inner s2) = tunables (inner s1) ->
  (forall x, fcov F2 x = fcov F x * (1 - ind a b x) /\ rcov R2 x = rcov R x + fcov F x * ind a b x) ->
  reserves s2 F2 P A R2 b c s3 -> reserves s1 F P A R a c s3.
Proof.
  intros Hab Ht2 H2 (Ht3 & F3 & R3 & Hinv & H3). split; [congruence|]. exists F3, R3. split; [done|].
  intros x. destruct (H2 x) as [Hf2 Hr2], (H3 x) as [-> ->]. rewrite Hf2, Hr2, (ind_split a b c) by lia.
  destruct (decide (a <= x < b)); [rewrite (ind_out b c), (ind_in a b) by lia|rewrite (ind_out a b) by lia]; lia.
Qed.

Lemma reserve_pages_spec n p nosave s F P A R :
  pmm_inv t Sd s F P A R -> 0 <= p -> p + Z.of_nat n <= pfn_max t ->
  wp (Boot.reserve_pages t n p nosave) (fun _ => reserves s F P A R p (p + Z.of_nat n)) s.
Proof.
  revert p s F R. induction n as [|n IH]; intros p s F R Hinv Hp Hb; cbn [Boot.reserve_pages].
  { wp_step. split; [done|]. exists F, R. split; [done|]. intros x. rewrite ind_out by lia. lia. }
  wp_step. eapply wp_mono; [apply (reserve_page_spec p nosave s F P A R); [done|lia]|].
  intros [] s1 (Ht1 & F1 & R1 & Hinv1 & H1). eapply wp_mono; [apply (IH (p + 1) s1 F1 R1); [done|lia|lia]|].
  intros [] s2 H2. replace (p + Z.of_nat (S n)) with (p + 1 + Z.of_nat n) by lia.
  eapply (reserves_trans s s1 s2 F P A R p (p + 1)); [lia|done|exact H1|exact H2].
Qed.

(** The tail of [reserve_early_inner] changes configuration only. *)
Definition derived (s : Pmm) : Prop :=
  forall tun, tunables (inner s) = Some tun -> forall z, (z < NR_ZONES)%nat ->
    wmark (inner s) z = marks_of (managed (inner s)) (sumZ (managed (inner s)) (seq 0 NR_ZONES)) tun z.

Definition tunable (s : Pmm) : Prop :=
  match tunables (inner s) with Some tun => tunable_range tun | None => True end.

(** The same books, with the marks of the managed pages. *)
Definition rederived (s s' : Pmm) F P A R : Prop :=
  pmm_inv t Sd s' F P A R /\ tunables (inner s') = tunables (inner s) /\ derived s'.

Lemma managed_bound s F P A R :
  acct t s F P A R -> forall z, z ∈ seq 0 NR_ZONES -> 0 <= managed (inner s) z <= 2 ^ 53.
Proof.
  intros Hac z Hz. destruct (acct_bounds _ _ _ _ _ _ Hac) as (Hb & ? & ? & ? & ?). apply elem_of_seq in Hz.
  rewrite (ac_managed _ _ _ _ _ _ Hac) by lia.
  destruct (Hb z ltac:(lia)) as (? & ? & ? & ?). pose proof (azsize_nonneg t A z). pose proof (azsize_le t A z). lia.
Qed.

Lemma recompute_run s F P A R (Q : option (Z * ZoneWatermarks) -> Inner -> Prop) :
  acct t s F P A R -> tunable s ->
  (forall d r w, (forall tun, tunables (inner s) = Some tun -> forall z, (z < NR_ZONES)%nat ->
      w z = marks_of (managed (inner s)) (sumZ (managed (inner s)) (seq 0 NR_ZONES)) tun z) ->
    Q d (set_wmark w (set_reserve r (inner s)))) ->
  wp Boot.recompute_derived Q (inner s).
Proof.
  intros Hac Htun HQ. pose proof (managed_bound _ _ _ _ _ Hac) as Hm.
  assert (Hsum : 0 <= sumZ (managed (inner s)) (seq 0 NR_ZONES) <= 2 ^ 56).
  { split; [apply sumZ_nonneg; intros; by apply Hm|]. etrans; [apply (sumZ_le _ (fun _ => 2 ^ 53)); intros; by apply Hm|].
    rewrite sumZ_const, length_seq. unfold NR_ZONES. lia. }
  unfold Boot.recompute_derived. wp_step. wp_step. wp_step.
  apply wp_sum_managed; [lia|intros; by apply Hm|unfold U64_MAX; cbn [managed set_reserve]; lia|].
  wp_step. wp_step. cbn [set_reserve tunables managed]. rewrite Z.add_0_l. unfold tunable in Htun.
  set (r := lowmem_reserve _ _). destruct (tunables (inner s)) as [tun|] eqn:Et.
  - wp_step. eapply wp_mono; [apply (derive_marks_run _ _ _ _ 0); [apply NoDup_seq|lia|done| | |lia|done]|].
    + rewrite length_seq. unfold NR_ZONES, U64_MAX. lia.
    + intros z Hz. split; [by apply Hm|]. apply (sumZ_elem_le (managed (inner s))); [|done]. intros; by apply Hm.
    + intros agg g' (w & -> & Hw). wp_step. apply HQ. intros tun' [= <-] z Hz. rewrite Hw.
      by rewrite decide_True by (apply elem_of_seq; lia).
  - wp_step. specialize (HQ None r (wmark (inner s)) ltac:(done)). by destruct (inner s).
Qed.

Lemma publish_derived_run s F P A R (Q : KResult unit -> Pmm -> Prop) :
  pmm_inv t Sd s F P A R -> tunable s -> (forall s', rederived s s' F P A R -> Q (Ok tt) s') ->
  wp (d ← on_inner Boot.recompute_derived; Boot.refresh_pcp ;; Boot.publish_derived d ;; ret (Ok tt)) Q s.
Proof.
  intros [Hown Hac] Htun HQ. wp_step. apply wp_zoom. eapply (recompute_run s F P A R); [done|done|]. intros d r w Hw.
  wp_step. unfold Boot.refresh_pcp.
  eapply wp_mono; [apply (wp_for_each _ (fun _ s' => rederived s s' F P A R))|].
  - split_and!; [|done|exact Hw]. split; [exact Hown|by destruct Hac; split].
  - intros z l s1 ([Hown1 Hac1] & Ht1 & Hd1). wp_step. split_and!; [|done|exact Hd1].
    split; [exact Hown1|by destruct Hac1; split].
  - intros [] s1 Hr. destruct d as [[total agg]|]; cbn [Boot.publish_derived]; wp_step; wp_step; wp_step; apply HQ; [|done].
    destruct Hr as ([Hown1 Hac1] & Ht1 & Hd1). split_and!; [|done|exact Hd1]. split; [exact Hown1|by destruct Hac1; split].
Qed.

(** Setting the tunables derives the marks and moves no page. *)
Lemma refresh_watermarks_spec tun s F P A R :
  pmm_inv t Sd s F P A R -> tunable_range tun ->
  wp (Boot.refresh_watermarks tun) (fun _ s' =>
    tunables (inner s') = Some tun /\ pmm_inv t Sd s' F P A R /\ derived s') s.
Proof.
  intros [Hown Hac] Htun. unfold Boot.refresh_watermarks. wp_step. apply wp_zoom. wp_step.
  set (s1 := set_inner _ s). assert (Hinv1 : pmm_inv t Sd s1 F P A R) by (split; [exact Hown|by destruct Hac; split]).
  pose proof (publish_derived_run s1 F P A R (fun _ s' =>
    tunables (inner s') = Some tun /\ pmm_inv t Sd s' F P A R /\ derived s') Hinv1 Htun) as H.
  specialize (H ltac:(intros s' (? & ? & ?); done)).
  apply wp_bind_inv in H. apply wp_bind. eapply wp_mono; [exact H|]. clear H. intros d s2 H. cbn beta in *.
  apply wp_bind_inv in H. apply wp_bind. eapply wp_mono; [exact H|]. clear H. intros [] s3 H. cbn beta in *.
  apply wp_bind_inv in H. eapply wp_mono; [exact H|]. clear H. by intros [] s4 H.
Qed.

Lemma reserve_early_spec start_ len nosave exact s F P A R :
  pmm_inv t Sd s F P A R -> tunable s -> 0 <= start_ -> 0 <= len ->
  wp (Boot.reserve_early_inner t start_ len nosave exact) (fun r s' =>
    match r with
    | Ok _ => start_ + len <= pfn_max t /\ (reserves s F P A R start_ (start_ + len) s' /\ derived s') /\
        (exact = true -> forall x, start_ <= x < start_ + len -> fcov F x = 1)
    | Err OutOfRange => s' = s /\ pfn_max t < start_ + len
    | Err Overlap => s' = s /\ exact = true /\ exists x, start_ <= x < start_ + len /\ fcov F x = 0
    | Err _ => False
    end) s.
Proof.
  intros Hinv Htun Hs Hl. unfold Boot.reserve_early_inner, checked_add. destruct (Ht) as [[Hp Hmax] _].
  bool_case (start_ + len <=? U64_MAX); [|wp_step; split; [done|unfold U64_MAX in *; lia]].
  bool_case (pfn_max t <? start_ + len); [by wp_step|]. wp_step. replace (start_ + len - start_) with len by lia.
  set (okay := fun (r : bool) s' => s' = s /\
    if r then exact = true -> forall x, start_ <= x < start_ + len -> fcov F x = 1
    else exact = true /\ exists x, start_ <= x < start_ + len /\ fcov F x = 0).
  assert (Hok : wp (if exact then with_core (Boot.all_free t (Z.to_nat len) start_) else ret true) okay s).
  { destruct exact; [|by wp_step]. apply wp_with_core. eapply wp_mono; [apply (all_free_spec _ start_ (cr s) F)|].
    - apply Hinv.
    - done.
    - lia.
    - rewrite Z2Nat.id by done. intros r c' [-> Hr]. rewrite putc_id. split; [done|]. by destruct r. }
  eapply wp_mono; [exact Hok|]. intros r s1 [-> Hr]. destruct r; cbn [negb]; [|by wp_step].
  wp_step. eapply wp_mono; [apply (reserve_pages_spec _ start_ nosave s F P A R); [done|done|lia]|].
  rewrite Z2Nat.id by done. intros [] s2 (Ht2 & F2 & R2 & Hinv2 & H2).
  apply (publish_derived_run s2 F2 P A R2); [done|unfold tunable; by rewrite Ht2|]. intros s3 (Hinv3 & Ht3 & Hd3).
  split_and!; [lia| |done|done]. split; [congruence|]. by exists F2, R2.
Qed.

End reserve.
