(* ===== verification/PmmTheorems.v ===== *)
(** * The page allocator: theorems

    The properties of the allocator of [crates/kernel/mm-pmm/src/buddy] over
    states that satisfy [pmm_inv], which boot establishes, with each of them
    applied to a small machine. *)

From S2P Require Import Prelude Zone Watermark Buddy BuddyInv BuddyOps BuddySpec.
From S2P Require Import Pmm PmmBoot PmmInv PmmOps PmmPcp PmmRefill PmmAlloc PmmFree PmmApi PmmSeed PmmInit PmmReserve.

(** ** A small machine

    64 pages in one region, all in the Normal zone, and a CPU that reclaims
    nothing. *)

Definition small_regions : list UsableRegion := [mkRegion 0 64].

Abbreviation small_boot :=
  (Boot.init_zoned X86_64 (fun _ => zero_node) small_regions (Some (mkZoneLimits 0 0 None))).

Definition no_pmm : Topology * Pmm :=
  let l := Layout.single_normal 0 in
  (mkTopology 0 l Zonelist_default,
   mkPmm (Boot.blank_inner l (fun _ => zero_node) 0) (fun _ => PcpLists.empty) (fun _ => 0) (fun _ => 0)
     (fun _ => 0) (fun _ => 0) (fun _ => PcpConfig.new ZoneWatermarks_default (fun _ => 0) 0) (mkEvents 0 0 0 0) None).

Definition small : Topology * Pmm := match small_boot with Done (Ok ts) => ts | _ => no_pmm end.

Definition quiet (cpu : nat) : Env := mkEnv cpu 1 false false false (ret false) (ret NoKillable).

(** The result and the final state of a run. *)
Definition outcome {S A} (r : res (A * S)) : option A := match r with Done (a, _) => Some a | Panic _ => None end.
Definition final {S A} (d : S) (r : res (A * S)) : S := match r with Done (_, s) => s | Panic _ => d end.

Lemma run_eq {S A} (m : M S A) s a : outcome (m s) = Some a -> m s = Done (a, final s (m s)).
Proof. destruct (m s) as [[a' s']|]; cbn; intros H; by simplify_eq. Qed.

Lemma wp_run {S A} (m : M S A) (Q : A -> S -> Prop) s a s' : m s = Done (a, s') -> wp m Q s -> Q a s'.
Proof. unfold wp. by intros ->. Qed.

Lemma small_booted : small_boot = Done (Ok small).
Proof.
  assert (H : match small_boot with Done (Ok _) => true | _ => false end = true) by (vm_compute; reflexivity).
  unfold small. destruct small_boot as [[ts|]|]; (done || discriminate H).
Qed.

Lemma boot_inv arch mem rs limits ts :
  Forall region_u64 rs -> Forall (fun r => Boot.region_end r <= 2 ^ 52) rs ->
  Boot.init_zoned arch mem rs limits = Done (Ok ts) ->
  topo_wf ts.1 /\ (forall x, seeded rs x <= 1) /\ classed ts.1 (cr ts.2) /\
  initial_free (inner ts.2) = total_len rs /\ exists F, pmm_inv ts.1 (seeded rs) ts.2 F no_pages [] [].
Proof.
  intros Hu Hb Hi. pose proof (init_zoned_spec arch mem rs limits Hu Hb) as H. rewrite Hi in H. by destruct ts.
Qed.

Lemma small_regions_ok :
  Forall region_u64 small_regions /\ Forall (fun r => Boot.region_end r <= 2 ^ 52) small_regions.
Proof.
  split; apply Forall_singleton; [by split|]. unfold Boot.region_end. cbn [region_start len_pfn]. lia.
Qed.

Lemma small_inv : topo_wf small.1 /\ (forall x, seeded small_regions x <= 1) /\ classed small.1 (cr small.2) /\
  initial_free (inner small.2) = total_len small_regions /\
  exists F, pmm_inv small.1 (seeded small_regions) small.2 F no_pages [] [].
Proof. exact (boot_inv _ _ _ _ small (proj1 small_regions_ok) (proj2 small_regions_ok) small_booted). Qed.

(** ** Histories

    A history is a sequence of completed operations on any CPU. The
    specification of the allocator is the multiset of blocks its clients hold:
    an allocation adds a block of usable pages nobody holds, a free removes a
    held block, a drain changes nothing. *)

Inductive event :=
| EvAlloc (order : nat) (gfp : Z) (r : KResult Z)
| EvFree (pfn : Z) (order : nat)
| EvDrain (hi : nat).

Inductive kstep (t : Topology) : Pmm -> event -> Pmm -> Prop :=
| k_alloc e o gfp r s s' : Api.alloc_gfp_nowait t e o gfp s = Done (r, s') -> kstep t s (EvAlloc o gfp r) s'
| k_free e p o s s' : Api.free t e p o s = Done (tt, s') -> kstep t s (EvFree p o) s'
| k_drain hi d s s' : Pcp.drain_pcp_below t hi s = Done (d, s') -> kstep t s (EvDrain hi) s'.

Inductive sstep (t : Topology) (usable : Z -> Prop) : list (Z * nat) -> event -> list (Z * nat) -> Prop :=
| s_alloc o gfp hi m p A :
    Api.alloc_gfp_args gfp = Ok (hi, m) -> (o <= MAX_ORDER)%nat -> (pow2 o | p) ->
    (forall x, p <= x < p + pow2 o -> usable x /\ (Buddy.zi t x <= hi)%nat /\ acov A x = 0) ->
    sstep t usable A (EvAlloc o gfp (Ok p)) ((p, o) :: A)
| s_fail o gfp er A : sstep t usable A (EvAlloc o gfp (Err er)) A
| s_free p o A A' : A ≡ₚ (p, o) :: A' -> sstep t usable A (EvFree p o) A'
| s_drain hi A : sstep t usable A (EvDrain hi) A.

Inductive steps {St : Type} (R : St -> event -> St -> Prop) : St -> list event -> St -> Prop :=
| steps_nil s : steps R s [] s
| steps_cons s ev s' tr s'' : R s ev s' -> steps R s' tr s'' -> steps R s (ev :: tr) s''.

Fixpoint remove_block (b : Z * nat) (A : list (Z * nat)) : option (list (Z * nat)) :=
  match A with
  | [] => None
  | a :: A' => if decide (a = b) then Some A' else match remove_block b A' with Some A'' => Some (a :: A'') | None => None end
  end.

Lemma remove_block_perm b A A' : remove_block b A = Some A' -> A ≡ₚ b :: A'.
Proof.
  revert A'. induction A as [|a A IH]; intros A' H; cbn [remove_block] in H; [done|].
  destruct (decide (a = b)) as [->|]; [by injection H as ->|]. destruct (remove_block b A) as [A''|]; [|done].
  injection H as <-. rewrite (IH A'' eq_refl). constructor.
Qed.

(** The blocks held after a history; [None] when a block is freed that is not
    held. *)
Fixpoint held (A : list (Z * nat)) (tr : list event) : option (list (Z * nat)) :=
  match tr with
  | [] => Some A
  | EvAlloc o _ (Ok p) :: tr' => held ((p, o) :: A) tr'
  | EvAlloc _ _ (Err _) :: tr' => held A tr'
  | EvFree p o :: tr' => match remove_block (p, o) A with Some A' => held A' tr' | None => None end
  | EvDrain _ :: tr' => held A tr'
  end.

Section history.
Context (t : Topology) (Ht : topo_wf t) (Sd : Z -> Z).

Lemma handed_step s F P A R p o hi gfp m :
  pmm_inv t Sd s F P ((p, o) :: A) R -> handed t (cr s) p o hi -> Api.alloc_gfp_args gfp = Ok (hi, m) ->
  sstep t (fun x => Sd x = 1) A (EvAlloc o gfp (Ok p)) ((p, o) :: A).
Proof.
  intros Hinv (z & mt & Hz & Hpl & _) Hargs. eapply s_alloc; [done| |apply Hpl|].
  - pose proof (pl_order _ _ _ _ _ _ Hpl). unfold ORDERS in *. lia.
  - intros x Hx. destruct (held_pages t Sd _ _ _ _ _ _ _ _ Hinv Hx) as [? ?]. split_and!; [done| |done].
    rewrite (zi_span t Ht z x); [done|apply Hpl|]. pose proof (pl_lo _ _ _ _ _ _ Hpl). pose proof (pl_hi _ _ _ _ _ _ Hpl). lia.
Qed.

Lemma kstep_refines s ev s' F P A A1 tr :
  pmm_inv t Sd s F P A [] -> kstep t s ev s' -> held A (ev :: tr) = Some A1 ->
  exists A' F' P', sstep t (fun x => Sd x = 1) A ev A' /\ pmm_inv t Sd s' F' P' A' [] /\
    held A' tr = Some A1 /\ initial_free (inner s') = initial_free (inner s).
Proof.
  intros Hinv Hstep Hheld. destruct Hstep as [e o gfp r s s' Hrun|e p o s s' Hrun|hi d s s' Hrun].
  - unfold Api.alloc_gfp_nowait in Hrun. destruct (Api.alloc_gfp_args gfp) as [[hi m]|er] eqn:Hargs.
    2:{ injection Hrun as <- <-. exists A, F, P. split; [constructor|done]. }
    destruct (decide (o <= MAX_ORDER)%nat) as [Ho|Ho].
    2:{ unfold Api.alloc_inner_zoned in Hrun. rewrite (proj2 (Nat.ltb_lt _ _)) in Hrun by lia.
        injection Hrun as <- <-. exists A, F, P. split; [constructor|done]. }
    pose proof (alloc_inner_spec t Ht Sd e o hi Low m s F P A [] Ho Hinv) as Hspec. unfold wpe in Hspec. rewrite Hrun in Hspec.
    destruct Hspec as (Hcfg & _ & Hr). injection Hcfg as _ _ _ _ _ Hif. destruct r as [p|er].
    + destruct Hr as (Hh & F' & P' & Hinv'). exists ((p, o) :: A), F', P'. split_and!; [|done|done|done].
      by eapply handed_step.
    + destruct Hr as (_ & F' & P' & Hinv' & _). exists A, F', P'. split; [constructor|done].
  - cbn [held] in Hheld. destruct (remove_block (p, o) A) as [A'|] eqn:Hrm; [|done].
    apply remove_block_perm in Hrm. apply (pmm_inv_perm t Sd s F P A _ [] Hrm) in Hinv.
    pose proof (free_spec t Ht Sd e p o s F P A' [] Hinv) as Hspec. unfold wp in Hspec. rewrite Hrun in Hspec.
    destruct Hspec as (Hcfg & _ & F' & P' & Hinv' & _). injection Hcfg as _ _ _ _ _ Hif. exists A', F', P'. split; [by constructor|done].
  - pose proof (drain_below_spec t Ht Sd hi s F P A [] Hinv) as Hspec. unfold wp in Hspec. rewrite Hrun in Hspec.
    destruct Hspec as (Hcfg & _ & F' & P' & Hinv' & _). injection Hcfg as _ _ _ _ _ Hif. exists A, F', P'. split; [constructor|done].
Qed.

Lemma ksteps_refine s tr s' F P A A1 :
  pmm_inv t Sd s F P A [] -> steps (kstep t) s tr s' -> held A tr = Some A1 ->
  steps (sstep t (fun x => Sd x = 1)) A tr A1 /\ initial_free (inner s') = initial_free (inner s) /\
  exists F' P', pmm_inv t Sd s' F' P' A1 [].
Proof.
  intros Hinv Hsteps. revert F P A Hinv. induction Hsteps as [s|s ev s1 tr s2 Hstep Hsteps IH]; intros F P A Hinv Hheld.
  - injection Hheld as <-. split_and!; [constructor|done|by exists F, P].
  - destruct (kstep_refines s ev s1 F P A A1 tr Hinv Hstep Hheld) as (A' & F' & P' & Hs & Hinv' & Hheld' & Hif).
    destruct (IH F' P' A' Hinv' Hheld') as (Hss & Hif' & Hex). split_and!; [by econstructor|congruence|done].
Qed.

End history.

(** ** Properties *)

(** C18: construction accepts exactly the disjoint regions. It never
    panics; on success every page of the regions is free, once, in a block of
    its zone and class, and no other page is; it fails with [Overlap] only when
    a page is in two regions and with [OutOfRange] only for an empty list or
    a page count past [u64]. *)
Theorem pmm_boot (arch : Arch) (mem : Z -> FreeNode) (rs : list UsableRegion) (limits : option ZoneLimits)
    (Hu : Forall region_u64 rs) (Hb : Forall (fun r => Boot.region_end r <= 2 ^ 52) rs) :
  match Boot.init_zoned arch mem rs limits with
  | Panic _ => False
  | Done (Err OutOfRange) => rs = [] \/ U64_MAX < total_len rs
  | Done (Err Overlap) => exists x, 2 <= seeded rs x
  | Done (Err _) => False
  | Done (Ok (t, s)) => topo_wf t /\ (forall x, seeded rs x <= 1) /\ classed t (cr s) /\
      initial_free (inner s) = total_len rs /\ exists F, pmm_inv t (seeded rs) s F no_pages [] []
  end.
Proof. by apply init_zoned_spec. Qed.

Lemma pmm_boot_witness :
  match small_boot with Done (Ok (t, s)) => initial_free (inner s) = 64 | _ => False end.
Proof.
  pose proof (pmm_boot X86_64 (fun _ => zero_node) small_regions (Some (mkZoneLimits 0 0 None))
    (proj1 small_regions_ok) (proj2 small_regions_ok)) as H.
  rewrite small_booted in *. destruct small as [t s]. apply H.
Defined.

(** C1: every history of the allocator is a history of its
    specification. From boot, whatever operations the CPUs complete in
    whatever order, a successful allocation returns an aligned block of usable
    pages in a permitted zone that nobody holds; no page is ever held twice;
    freeing a held block and allocating above order 0 cannot panic; and the
    free pages and the held pages add up to the pages of the regions. *)
Theorem pmm_refines_spec (arch : Arch) (mem : Z -> FreeNode) (rs : list UsableRegion) (limits : option ZoneLimits)
    (t : Topology) (s0 s : Pmm) (tr : list event) (A : list (Z * nat))
    (Hu : Forall region_u64 rs) (Hb : Forall (fun r => Boot.region_end r <= 2 ^ 52) rs)
    (Hi : Boot.init_zoned arch mem rs limits = Done (Ok (t, s0)))
    (Htr : steps (kstep t) s0 tr s) (Hh : held [] tr = Some A) :
  steps (sstep t (fun x => seeded rs x = 1)) [] tr A /\
  (forall x, acov A x <= 1) /\
  (forall e p o, (p, o) ∈ A -> exists s', Api.free t e p o s = Done (tt, s')) /\
  (forall e o gfp, o <> 0%nat -> exists r s', Api.alloc_gfp_nowait t e o gfp s = Done (r, s')) /\
  sumZ (zone_free s) (seq 0 NR_ZONES) + asize A = total_len rs.
Proof.
  destruct (boot_inv arch mem rs limits (t, s0) Hu Hb Hi) as (Ht & _ & _ & Hif & F0 & Hinv0). cbn [fst snd] in *.
  destruct (ksteps_refine t Ht (seeded rs) s0 tr s F0 no_pages [] A Hinv0 Htr Hh) as (Hs & Hif' & F & P & Hinv).
  split_and!; [done|..].
  - intros x. destruct Hinv as [Hown _]. pose proof (own_cases t _ _ _ _ _ _ _ _ Hown x). lia.
  - intros e p o Hin. apply list_elem_of_split in Hin as (A1 & A2 & ->).
    apply (pmm_inv_perm t _ s F P _ ((p, o) :: A1 ++ A2)) in Hinv; [|by rewrite Permutation_middle].
    pose proof (free_spec t Ht _ e p o s F P _ _ Hinv) as Hw. apply wp_iff in Hw as ([] & s' & Hrun & _). by exists s'.
  - intros e o gfp Ho. unfold Api.alloc_gfp_nowait. destruct (Api.alloc_gfp_args gfp) as [[hi m]|er]; [|by eexists _, _].
    destruct (decide (o <= MAX_ORDER)%nat) as [Hle|Hle].
    2:{ unfold Api.alloc_inner_zoned. rewrite (proj2 (Nat.ltb_lt _ _)) by lia. by eexists _, _. }
    pose proof (alloc_inner_spec t Ht _ e o hi Low m s F P A [] Hle Hinv) as Hw.
    apply wp_of_wpe in Hw; [|by intros ? [? _]]. apply wp_iff in Hw as (r & s' & Hrun & _). by exists r, s'.
  - destruct Hinv as [_ Hac]. destruct (acct_sums t s F P A [] Hac) as (-> & _).
    pose proof (ac_total _ _ _ _ _ _ Hac) as Hacct. cbn [length] in *. lia.
Qed.

(** One page and one pair allocated on different CPUs, the pair freed. *)
Definition small_trace : list event := [EvAlloc 1 0 (Ok 0); EvAlloc 0 0 (Ok 2); EvFree 0 1].

Abbreviation small1 := (final small.2 (Api.alloc_gfp_nowait small.1 (quiet 0) 1 0 small.2)).
Abbreviation small2 := (final small1 (Api.alloc_gfp_nowait small.1 (quiet 1) 0 0 small1)).
Abbreviation small3 := (final small2 (Api.free small.1 (quiet 1) 0 1 small2)).

Lemma small_run : steps (kstep small.1) small.2 small_trace small3.
Proof.
  eapply steps_cons; [apply (k_alloc small.1 (quiet 0) 1 0 (Ok 0) small.2 small1)|].
  { simple apply run_eq. vm_compute. reflexivity. }
  eapply steps_cons; [apply (k_alloc small.1 (quiet 1) 0 0 (Ok 2) small1 small2)|].
  { simple apply run_eq. vm_compute. reflexivity. }
  eapply steps_cons; [apply (k_free small.1 (quiet 1) 0 1 small2 small3)|constructor].
  simple apply run_eq. vm_compute. reflexivity.
Qed.

Lemma small_pair : small = (small.1, small.2).
Proof. by destruct small. Qed.

Lemma small_booted_pair : small_boot = Done (Ok (small.1, small.2)).
Proof. rewrite <- small_pair. apply small_booted. Qed.

Lemma pmm_refines_spec_witness :
  steps (sstep small.1 (fun x => seeded small_regions x = 1)) [] small_trace [(2, 0%nat)] /\
  sumZ (zone_free small3) (seq 0 NR_ZONES) + 1 = 64.
Proof.
  destruct (pmm_refines_spec X86_64 (fun _ => zero_node) small_regions (Some (mkZoneLimits 0 0 None))
    small.1 small.2 small3 small_trace [(2, 0%nat)] (proj1 small_regions_ok) (proj2 small_regions_ok)
    small_booted_pair small_run eq_refl) as (H & _ & _ & _ & Hsum).
  split; [exact H|exact Hsum].
Defined.

(** An order-0 allocation may panic. On a machine of
    64 free pages, all of the Unmovable class, a request for one Movable page
    steals a page of another class for the pageset and fails the class check
    that follows. *)
Theorem pcp_refill_class_panic :
  Boot.init_zoned X86_64 (fun _ => zero_node) small_regions (Some (mkZoneLimits 0 0 None)) = Done (Ok small) /\
  Buddy.zone_free_pages (cr small.2) (ZoneTypes.index Normal) = 64 /\
  forall fuel, Api.alloc_gfp small.1 (quiet 0) fuel 0 GFP_MOVABLE small.2 = Panic WRONG_CLASS.
Proof.
  split; [exact small_booted|]. split; [vm_compute; reflexivity|]. intros fuel. vm_compute. reflexivity.
Qed.

Lemma small1_inv : exists F P, pmm_inv small.1 (seeded small_regions) small1 F P [(0, 1%nat)] [].
Proof.
  destruct small_inv as (Ht & _ & _ & _ & F & Hinv).
  eapply (ksteps_refine small.1 Ht (seeded small_regions) small.2 [EvAlloc 1 0 (Ok 0)] small1 F no_pages [] [(0, 1%nat)] Hinv);
    [|done].
  eapply steps_cons; [apply (k_alloc small.1 (quiet 0) 1 0 (Ok 0) small.2 small1)|constructor].
  simple apply run_eq. vm_compute. reflexivity.
Qed.

(** With a CPU that reclaims nothing the rest of the kernel holds what it held,
    and no reclaim panics. *)
Definition still (K : list (Z * nat)) : Core -> list (Z * nat) -> Prop := fun _ K' => K' = K.
Definition no_panic : string -> Prop := fun _ => False.

Lemma still_steady K m : steady (still K) m.
Proof. by intros c c' K' HK _. Qed.

Lemma quiet_keeps t Sd cpu K A R :
  keeps t Sd no_panic (still K) (direct_reclaim_once (quiet cpu)) A R /\
  keeps t Sd no_panic (still K) (invoke_oom (quiet cpu)) A R.
Proof. split; intros s F P K' Hinv HJ; apply wpe_ret; by exists F, P, K'. Qed.

(** C8: the blocking allocation. Reclaim and the out-of-memory
    killer are any computations that leave the caller's blocks [A] alone; they
    may panic with a message of [E], free and allocate other blocks and retype
    pageblocks, and [J] is any description of the pageblocks and of the other
    blocks [K] held that they maintain. [alloc_gfp] then returns a zeroed block
    of the order asked for in a zone the mask permits, which joins [A] and
    nothing else, or [NoMem] with [A] and [J] as they were: no block is taken
    and dropped, since [J] can say exactly what others hold. In a context that
    may not sleep [NoMem] means that every permitted zone is refused by its
    watermark or has no block of the order or above. It runs past its fuel only
    in a context that may sleep and, beyond 17 passes, only for orders up to
    the costly order. The only panic of its own is the class check, for one
    page, when some usable page of a permitted zone is of another class than
    the one asked for. *)
Theorem pmm_alloc_gfp (t : Topology) (Sd : Z -> Z) (e : Env) (E : string -> Prop) (J : Core -> list (Z * nat) -> Prop)
    (A : list (Z * nat)) (R : list Z) (fuel o : nat) (gfp : Z)
    (hi : nat) (m : MigrateType) (s : Pmm) (F : blocks) (P : pagesets) (K : list (Z * nat))
    (Ht : topo_wf t) (HJ : steady J m)
    (Hrec : keeps t Sd E J (direct_reclaim_once e) A R) (Hoom : keeps t Sd E J (invoke_oom e) A R)
    (Hargs : Api.alloc_gfp_args gfp = Ok (hi, m)) (Ho : (o <= MAX_ORDER)%nat)
    (Hinv : pmm_inv t Sd s F P (A ++ K) R) (HK : J (cr s) K) :
  match Api.alloc_gfp t e fuel o gfp s with
  | Done (Some (Ok p), s') => handed t (cr s') p o hi /\
      exists F' P' K', pmm_inv t Sd s' F' P' ((p, o) :: A ++ K') R /\ J (cr s') K'
  | Done (Some (Err er), s') => er = NoMem /\
      exists F' P' K', pmm_inv t Sd s' F' P' (A ++ K') R /\ J (cr s') K' /\
        (slowpath_context e = false -> exhausted t s' F' o hi (slowpath_wmark (grants_min_reserve gfp) false))
  | Done (None, _) => slowpath_context e = true /\ ((17 <= fuel)%nat -> (o <= PAGE_ALLOC_COSTLY_ORDER)%nat)
  | Panic msg => E msg \/ o = 0%nat /\ msg = WRONG_CLASS /\ exists c K', J c K' /\ mixed t Sd c hi m
  end.
Proof.
  pose proof (alloc_gfp_spec t Ht Sd e E J A R m HJ Hrec Hoom fuel o gfp hi s Hargs Ho) as H.
  specialize (H ltac:(by exists F, P, K)). unfold wpe in H.
  destruct (Api.alloc_gfp t e fuel o gfp s) as [[[[p|er]|] s']|msg]; [done| |done|done].
  destruct H as (-> & (F' & P' & K' & Hi & Hj) & Hctx). split; [done|]. unfold slow_mark in Hctx.
  destruct (slowpath_context e); [by exists F', P', K'|].
  destruct (Hctx eq_refl) as (F1 & P1 & K1 & ? & ? & ?). by exists F1, P1, K1.
Qed.

(** While page 0 is held no other caller can hold all 64 pages. *)
Lemma small_no_six s F P p :
  pmm_inv small.1 (seeded small_regions) s F P [(p, 6%nat); (0, 1%nat)] [] -> False.
Proof.
  intros Hinv. pose proof (held_pages small.1 (seeded small_regions) s F P [(0, 1%nat)] [] p 6) as Hp.
  assert (Hs : forall x, p <= x < p + pow2 6 -> 0 <= x < 64).
  { intros x Hx. destruct (Hp x Hinv Hx) as [Hu _]. unfold seeded, small_regions in Hu. rewrite sumZ_cons, sumZ_nil in Hu.
    unfold Boot.region_end in Hu. cbn [region_start len_pfn] in Hu. destruct (decide (0 <= x < 64)); [done|].
    rewrite ind_out in Hu by lia. lia. }
  change (pow2 6) with 64 in *. pose proof (Hs p ltac:(lia)). pose proof (Hs (p + 63) ltac:(lia)).
  destruct (Hp 0 Hinv ltac:(lia)) as [_ Hc]. by vm_compute in Hc.
Qed.

(** One block granted, and one request refused with nothing lost. *)
Lemma pmm_alloc_gfp_witness :
  outcome (Api.alloc_gfp small.1 (quiet 3) 17 2 0 small1) = Some (Some (Ok 4)) /\
  match Api.alloc_gfp small.1 (quiet 3) 17 2 0 small1 with
  | Done (Some (Ok p), s') => handed small.1 (cr s') p 2 2
  | _ => True
  end /\
  exists s' F P, Api.alloc_gfp small.1 (quiet 3) 17 6 0 small1 = Done (Some (Err NoMem), s') /\
    pmm_inv small.1 (seeded small_regions) s' F P [(0, 1%nat)] [].
Proof.
  destruct small_inv as (Ht & _). destruct small1_inv as (F & P & Hinv).
  pose proof (fun o Ho => pmm_alloc_gfp small.1 (seeded small_regions) (quiet 3) no_panic (still []) [(0, 1%nat)] [] 17 o 0 2
    Unmovable small1 F P [] Ht (still_steady _ _) (proj1 (quiet_keeps _ _ _ _ _ _)) (proj2 (quiet_keeps _ _ _ _ _ _))
    eq_refl Ho Hinv eq_refl) as H.
  split; [vm_compute; reflexivity|]. split.
  - specialize (H 2%nat ltac:(unfold MAX_ORDER; lia)).
    destruct (Api.alloc_gfp small.1 (quiet 3) 17 2 0 small1) as [[[[p|er]|] s']|msg]; try exact I. exact (proj1 H).
  - specialize (H 6%nat ltac:(unfold MAX_ORDER; lia)).
    destruct (Api.alloc_gfp small.1 (quiet 3) 17 6 0 small1) as [[[[p|er]|] s']|msg].
    + destruct H as (_ & F' & P' & K' & Hi & HK). rewrite HK in Hi. destruct (small_no_six _ _ _ _ Hi).
    + destruct H as (-> & F' & P' & K' & Hi & HK & _). rewrite HK in Hi. exists s', F', P'. exact (conj eq_refl Hi).
    + destruct H as [_ H]. specialize (H ltac:(lia)). unfold PAGE_ALLOC_COSTLY_ORDER in H. lia.
    + destruct H as [[]|(H & _)]. discriminate H.
Defined.

(** C27: the atomic allocation on every input. A mask with
    no zone or class, or an order past the largest, is [InvalidOrder] with the
    state untouched. Otherwise [alloc_gfp_nowait] returns a zeroed block in a
    permitted zone, which joins the blocks held; or [NoMem] with the same
    blocks held, in a state where every permitted zone on the zonelist is
    refused by its watermark or has no free block of the order asked for or
    above, in any class; or, for one page only, it panics on the class check,
    and then some usable page of a permitted zone is of another class than
    the one asked for. *)
Theorem pmm_nowait_exhausted (t : Topology) (Sd : Z -> Z) (e : Env) (A : list (Z * nat)) (R : list Z) (o : nat) (gfp : Z)
    (s : Pmm) (F : blocks) (P : pagesets) (Ht : topo_wf t) (Hinv : pmm_inv t Sd s F P A R) :
  (forall er, Api.alloc_gfp_args gfp = Err er -> Api.alloc_gfp_nowait t e o gfp s = Done (Err InvalidOrder, s)) /\
  ((MAX_ORDER < o)%nat -> Api.alloc_gfp_nowait t e o gfp s = Done (Err InvalidOrder, s)) /\
  (forall hi m, Api.alloc_gfp_args gfp = Ok (hi, m) -> (o <= MAX_ORDER)%nat ->
    match Api.alloc_gfp_nowait t e o gfp s with
    | Done (Ok p, s') => handed t (cr s') p o hi /\ exists F' P', pmm_inv t Sd s' F' P' ((p, o) :: A) R
    | Done (Err er, s') => er = NoMem /\ exists F' P', pmm_inv t Sd s' F' P' A R /\ exhausted t s' F' o hi Low
    | Panic msg => o = 0%nat /\ msg = WRONG_CLASS /\ mixed t Sd (cr s) hi m
    end).
Proof.
  assert (Hinvalid : forall er, Api.alloc_gfp_args gfp = Err er -> er = InvalidOrder).
  { intros er. unfold Api.alloc_gfp_args. destruct (gfp_zone gfp); [destruct (gfp_migratetype gfp)|]; by intros [= <-]. }
  unfold Api.alloc_gfp_nowait. split_and!.
  - intros er Hargs. rewrite Hargs. by rewrite (Hinvalid er Hargs).
  - intros Ho. destruct (Api.alloc_gfp_args gfp) as [[hi m]|er]; [|by rewrite (Hinvalid er eq_refl)].
    unfold Api.alloc_inner_zoned. by rewrite (proj2 (Nat.ltb_lt _ _) Ho).
  - intros hi m -> Ho. pose proof (alloc_inner_spec t Ht Sd e o hi Low m s F P A R Ho Hinv) as H. unfold wpe in H.
    destruct (Api.alloc_inner_zoned t e o hi Low m s) as [[[p|er] s']|msg]; [apply H..|done].
Qed.

Lemma small_take : outcome (Api.alloc_gfp_nowait small.1 (quiet 0) 3 0 small.2) = Some (Ok 0).
Proof. vm_compute. reflexivity. Qed.

Lemma pmm_nowait_exhausted_witness :
  handed small.1 (cr (final small.2 (Api.alloc_gfp_nowait small.1 (quiet 0) 3 0 small.2))) 0 3 2 /\
  exists s' F, Api.alloc_gfp_nowait small.1 (quiet 0) 6 0 small1 = Done (Err NoMem, s') /\ exhausted small.1 s' F 6 2 Low.
Proof.
  destruct small_inv as (Ht & _ & _ & _ & F & Hinv). destruct small1_inv as (F1 & P1 & Hinv1). split.
  - pose proof (pmm_nowait_exhausted small.1 (seeded small_regions) (quiet 0) [] [] 3 0 small.2 F no_pages Ht Hinv) as H.
    apply proj2, proj2 in H. specialize (H 2%nat Unmovable eq_refl ltac:(unfold MAX_ORDER; lia)).
    rewrite (run_eq _ _ _ small_take) in H. exact (proj1 H).
  - pose proof (pmm_nowait_exhausted small.1 (seeded small_regions) (quiet 0) [(0, 1%nat)] [] 6 0 small1 F1 P1 Ht Hinv1) as H.
    apply proj2, proj2 in H. specialize (H 2%nat Unmovable eq_refl ltac:(unfold MAX_ORDER; lia)).
    destruct (Api.alloc_gfp_nowait small.1 (quiet 0) 6 0 small1) as [[[p|er] s']|msg].
    + destruct H as (_ & F' & P' & Hi). destruct (small_no_six _ _ _ _ Hi).
    + destruct H as (-> & F' & P' & _ & H). exists s', F'. exact (conj eq_refl H).
    + destruct H as [H _]. discriminate H.
Defined.

(** C11: freeing a held block. [free] of a block its caller holds never
    panics and takes exactly that block out of the caller's hands; above order
    0 its pages end in a free block that has no free buddy of the same order,
    zone and class left to merge with. *)
Theorem pmm_free (t : Topology) (Sd : Z -> Z) (e : Env) (p : Z) (o : nat) (s : Pmm) (F : blocks) (P : pagesets)
    (A : list (Z * nat)) (R : list Z) (Ht : topo_wf t) (Hinv : pmm_inv t Sd s F P ((p, o) :: A) R) :
  wp (Api.free t e p o) (fun _ s' => exists F' P',
    pmm_inv t Sd s' F' P' A R /\ (o <> 0%nat -> settled t (cr s') F' (Buddy.zi t p) p o)) s.
Proof.
  eapply wp_mono; [by apply (free_spec t Ht Sd e p o s F P A R)|]. intros [] s' (_ & _ & F' & P' & ? & ?). by exists F', P'.
Qed.

Lemma small1_free : outcome (Api.free small.1 (quiet 5) 0 1 small1) = Some tt.
Proof. vm_compute. reflexivity. Qed.

Lemma pmm_free_witness :
  exists F P, pmm_inv small.1 (seeded small_regions) (final small1 (Api.free small.1 (quiet 5) 0 1 small1)) F P [] [].
Proof.
  destruct small_inv as (Ht & _). destruct small1_inv as (F & P & Hinv).
  pose proof (pmm_free small.1 (seeded small_regions) (quiet 5) 0 1 small1 F P [] [] Ht Hinv) as H.
  apply (wp_run _ _ _ _ _ (run_eq _ _ _ small1_free)) in H. destruct H as (F' & P' & H & _). exists F', P'. exact H.
Defined.

(** C16: freeing what is free already is caught. On every state of
    the allocator, freeing an aligned block that lies inside a free block of
    its order or above panics on the bitmap check, and freeing a page that
    sits in the pageset of any CPU panics on the ownership bitmap, from
    whatever CPU the free comes; and a block freed twice in a row always
    panics. *)
Theorem pmm_double_free (t : Topology) (Sd : Z -> Z) (s : Pmm) (F : blocks) (P : pagesets) (A : list (Z * nat)) (R : list Z)
    (Ht : topo_wf t) (Hinv : pmm_inv t Sd s F P A R) :
  (forall e p o, (pow2 o | p) -> listed_in F p o ->
     Api.free t e p o s = Panic "pmm double free detected by bitmap") /\
  (forall e p z m cpu, (z < NR_ZONES)%nat -> (cpu < MAX_CPUS)%nat -> p ∈ P z m cpu ->
     Api.free t e p 0 s = Panic "pmm double free in per-cpu pageset") /\
  (forall e1 e2 p o, (p, o) ∈ A -> exists msg, (Api.free t e1 p o ;; Api.free t e2 p o) s = Panic msg).
Proof.
  split_and!.
  - intros. by apply (free_listed_panics t Ht Sd e p o s F P A R).
  - intros. by apply (free_cached_panics t Ht Sd e p s F P A R z m cpu).
  - intros e1 e2 p o Hin. by apply (free_twice_panics t Ht Sd s F P A R).
Qed.

Lemma pmm_double_free_witness :
  exists msg, (Api.free small.1 (quiet 0) 0 1 ;; Api.free small.1 (quiet 1) 0 1) small1 = Panic msg.
Proof.
  destruct small_inv as (Ht & _). destruct small1_inv as (F & P & Hinv).
  apply (proj2 (proj2 (pmm_double_free small.1 (seeded small_regions) small1 F P [(0, 1%nat)] [] Ht Hinv))). left.
Defined.

(** C28: an allocation for a device that addresses pages below
    [limit]. With reclaim as in the blocking allocation, the descent over the
    zones visits at most three masks and returns a block that ends at or below
    the limit, which joins [A] and nothing else, or an error with [A] and [J]
    as they were. So every block it took that lies too high was given back,
    since [J] can say exactly what others hold. *)
Theorem pmm_alloc_below (t : Topology) (Sd : Z -> Z) (e : Env) (E : string -> Prop) (J : Core -> list (Z * nat) -> Prop)
    (A : list (Z * nat)) (R : list Z) (fuel o : nat) (limit : Z)
    (s : Pmm) (F : blocks) (P : pagesets) (K : list (Z * nat)) (Ht : topo_wf t) (HJ : steady J Unmovable)
    (Hrec : keeps t Sd E J (direct_reclaim_once e) A R) (Hoom : keeps t Sd E J (invoke_oom e) A R)
    (Hinv : pmm_inv t Sd s F P (A ++ K) R) (HK : J (cr s) K) :
  match Api.alloc_below t e fuel o limit s with
  | Done (Some (Ok p), s') => 0 <= p /\ p + pow2 o <= limit /\
      exists F' P' K', pmm_inv t Sd s' F' P' ((p, o) :: A ++ K') R /\ J (cr s') K'
  | Done (Some (Err er), s') => (er = NoMem \/ er = InvalidOrder /\ (MAX_ORDER < o)%nat) /\
      exists F' P' K', pmm_inv t Sd s' F' P' (A ++ K') R /\ J (cr s') K'
  | Done (None, _) => slowpath_context e = true /\ ((17 <= fuel)%nat -> (o <= PAGE_ALLOC_COSTLY_ORDER)%nat)
  | Panic msg => E msg \/ o = 0%nat /\ msg = WRONG_CLASS /\
      exists c K', J c K' /\ mixed t Sd c (ZoneTypes.index Normal) Unmovable
  end.
Proof.
  assert (Hkeep : exists F' P' K', pmm_inv t Sd s F' P' (A ++ K') R /\ J (cr s) K') by eauto.
  unfold Api.alloc_below. destruct (MAX_ORDER <? o)%nat eqn:Eo; to_prop; [cbn; auto|].
  bool_case (limit <? pow2 o); [cbn; auto|].
  destruct (rung_limit (layout t) limit) as (n & Hg & Hn).
  pose proof (below_loop_spec t Ht Sd e E J A R Unmovable HJ Hrec Hoom eq_refl 3 n fuel o limit _ s Hg Hn Eo Hkeep) as H.
  unfold wpe in H. destruct (Api.below_loop _ _ _ _ _ _ _ _) as [[[[p|er]|] s']|msg]; [..|done].
  - destruct H as (Hle & hi & (z & m & _ & Hpl & _) & Hex). split_and!; [|done|done].
    by destruct (placed_range t Ht _ _ _ _ _ Hpl).
  - destruct H as (-> & Hex). by split; [left|].
  - done.
Qed.

(** Pages 2 and 3 fit under page 32. A pair that ends at page 2 would be the
    pair already held: what the descent tries is given back. *)
Lemma pmm_alloc_below_witness :
  outcome (Api.alloc_below small.1 (quiet 0) 17 1 32 small1) = Some (Some (Ok 2)) /\
  match Api.alloc_below small.1 (quiet 0) 17 1 32 small1 with Done (Some (Ok p), _) => p + pow2 1 <= 32 | _ => True end /\
  match Api.alloc_below small.1 (quiet 0) 17 1 2 small1 with
  | Done (Some (Err er), s') => er = NoMem /\ exists F P, pmm_inv small.1 (seeded small_regions) s' F P [(0, 1%nat)] []
  | Done (None, _) => True
  | _ => False
  end.
Proof.
  destruct small_inv as (Ht & _). destruct small1_inv as (F & P & Hinv).
  pose proof (fun limit => pmm_alloc_below small.1 (seeded small_regions) (quiet 0) no_panic (still []) [(0, 1%nat)] [] 17 1 limit
    small1 F P [] Ht (still_steady _ _) (proj1 (quiet_keeps _ _ _ _ _ _)) (proj2 (quiet_keeps _ _ _ _ _ _)) Hinv eq_refl) as H.
  split; [vm_compute; reflexivity|]. split.
  - specialize (H 32). destruct (Api.alloc_below small.1 (quiet 0) 17 1 32 small1) as [[[[p|er]|] s']|msg]; try exact I.
    exact (proj1 (proj2 H)).
  - specialize (H 2). destruct (Api.alloc_below small.1 (quiet 0) 17 1 2 small1) as [[[[p|er]|] s']|msg].
    + destruct H as (H0 & H2 & F' & P' & K' & Hi & HK). rewrite HK in Hi. change (pow2 1) with 2 in H2.
      pose proof (held_pages small.1 (seeded small_regions) s' F' P' [(0, 1%nat)] [] p 1 p Hi) as [_ Hc]; [change (pow2 1) with 2; lia|].
      replace p with 0 in Hc by lia. vm_compute in Hc. discriminate Hc.
    + destruct H as ([->|[_ H]] & F' & P' & K' & Hi & HK); [|unfold MAX_ORDER in H; lia].
      rewrite HK in Hi. split; [reflexivity|]. exists F', P'. exact Hi.
    + exact I.
    + destruct H as [[]|(H & _)]. discriminate H.
Defined.

(** C29: the exact reservation is a transaction. With the
    watermark tunables unset, or set to values the sysctls accept,
    [reserve_early_exact] never panics. It takes every page of the range out of
    the free lists, counts it reserved and derives the watermarks of every zone
    again from the pages left; or it changes nothing at all: [OutOfRange] past
    the last page, [Overlap] when some page of the range is not free. *)
Theorem pmm_reserve_exact (t : Topology) (Sd : Z -> Z) (start_ len : Z) (s : Pmm) (F : blocks) (P : pagesets)
    (A : list (Z * nat)) (R : list Z) (Ht : topo_wf t) (Hinv : pmm_inv t Sd s F P A R)
    (Htun : tunable s) (Hs : 0 <= start_) (Hl : 0 <= len) :
  wp (Boot.reserve_early_exact t start_ len) (fun r s' =>
    match r with
    | Ok _ => start_ + len <= pfn_max t /\ derived s' /\ exists F' R', pmm_inv t Sd s' F' P A R' /\
        (forall x, start_ <= x < start_ + len -> fcov F x = 1 /\ fcov F' x = 0 /\ rcov R' x = 1) /\
        (forall x, ~ (start_ <= x < start_ + len) -> fcov F' x = fcov F x /\ rcov R' x = rcov R x)
    | Err OutOfRange => s' = s /\ pfn_max t < start_ + len
    | Err Overlap => s' = s /\ exists x, start_ <= x < start_ + len /\ fcov F x = 0
    | Err _ => False
    end) s.
Proof.
  eapply wp_mono; [by apply (reserve_early_spec t Ht Sd start_ len true true s F P A R)|].
  intros [[]|er] s'; [|destruct er; tauto]. intros (Hle & ((_ & F' & R' & Hinv' & Hx) & Hd) & Hfree). split; [done|].
  split; [done|]. exists F', R'. split_and!; [done| |]; intros x Hr; destruct (Hx x) as [-> ->].
  - rewrite ind_in, (Hfree eq_refl x Hr) by done. destruct Hinv as [Hown _].
    pose proof (own_cases t Sd _ _ _ _ _ _ _ Hown x). rewrite (Hfree eq_refl x Hr) in *. lia.
  - rewrite ind_out by done. lia.
Qed.

(** The machine after the watermarks were first derived, as [boot_init] leaves
    it. *)
Abbreviation small_tuned := (final small.2 (Boot.refresh_watermarks WatermarkTunables_default small.2)).

Lemma small_tuned_inv :
  tunable small_tuned /\ exists F, pmm_inv small.1 (seeded small_regions) small_tuned F no_pages [] [].
Proof.
  destruct small_inv as (Ht & _ & _ & _ & F & Hinv).
  assert (Hr : wp (Boot.refresh_watermarks WatermarkTunables_default) (fun _ s' =>
    tunables (inner s') = Some WatermarkTunables_default /\ pmm_inv small.1 (seeded small_regions) s' F no_pages [] []) small.2).
  { eapply wp_mono; [apply (refresh_watermarks_spec small.1 (seeded small_regions) _ small.2 F no_pages [] [] Hinv)|].
    - by split; [|unfold WatermarkTunables_default, DEFAULT_WATERMARK_SCALE_FACTOR; cbn; lia].
    - intros [] s' (? & ? & _). done. }
  assert (Ho : outcome (Boot.refresh_watermarks WatermarkTunables_default small.2) = Some tt) by (vm_compute; reflexivity).
  apply (wp_run _ _ _ _ _ (run_eq _ _ _ Ho)) in Hr as [Htun Hi]. split; [|by exists F].
  unfold tunable. rewrite Htun. by split; [|unfold WatermarkTunables_default, DEFAULT_WATERMARK_SCALE_FACTOR; cbn; lia].
Qed.

Lemma small_reserve : outcome (Boot.reserve_early_exact small.1 5 2 small_tuned) = Some (Ok tt).
Proof. vm_compute. reflexivity. Qed.

Lemma pmm_reserve_exact_witness :
  let s' := final small_tuned (Boot.reserve_early_exact small.1 5 2 small_tuned) in
  derived s' /\ exists F R, pmm_inv small.1 (seeded small_regions) s' F no_pages [] R /\ rcov R 5 = 1 /\ rcov R 6 = 1.
Proof.
  destruct small_inv as (Ht & _). destruct small_tuned_inv as (Htun & F & Hinv).
  pose proof (pmm_reserve_exact small.1 (seeded small_regions) 5 2 small_tuned F no_pages [] [] Ht Hinv
    Htun ltac:(lia) ltac:(lia)) as H.
  apply (wp_run _ _ _ _ _ (run_eq _ _ _ small_reserve)) in H. destruct H as (_ & Hd & F' & R' & H & Hin & _).
  split; [exact Hd|]. exists F', R'. split; [exact H|]. split; apply Hin; lia.
Defined.

(** C30: the counters the kernel reports balance. [snapshot] never
    overflows; its free pages are those of the free lists and the pagesets,
    its allocated pages those held by callers, and managed = free + allocated
    + reserved. *)
Theorem pmm_snapshot (t : Topology) (Sd : Z -> Z) (s : Pmm) (F : blocks) (P : pagesets) (A : list (Z * nat)) (R : list Z)
    (Hinv : pmm_inv t Sd s F P A R) :
  wp Api.snapshot (fun r s' => s' = s /\
    Api.snap_free_pages r = ftotal F + ptotal P /\ Api.snap_allocated_pages r = asize A /\
    Api.reserved_pages r = Z.of_nat (length R) /\
    Api.managed_pages r = Api.snap_free_pages r + Api.snap_allocated_pages r + Api.reserved_pages r) s.
Proof.
  destruct Hinv as [_ Hac]. destruct (acct_sums t s F P A R Hac) as (Hz & Hp & Hn).
  destruct (acct_bounds _ _ _ _ _ _ Hac) as (_ & ? & ? & ? & ?). destruct (Hac) as [_ _ _ Al Rs Tt _].
  unfold Api.snapshot. wp_step. apply wp_sum_zones; [lia|intros; by apply Hn|unfold U64_MAX; lia|].
  wp_step. apply wp_sum_zones; [lia|intros; by apply Hn|unfold U64_MAX; lia|]. repeat wp_step.
  cbn [Api.snap_free_pages Api.snap_allocated_pages Api.reserved_pages Api.managed_pages].
  rewrite Hz, Hp, Al, Rs, Tt. unfold sat_sub. split_and!; (done || lia).
Qed.

Lemma small_snapshot : outcome (Api.snapshot small1) = Some (Api.mkSnapshot 64 62 2 0 (mkEvents 1 2 0 0)).
Proof. vm_compute. reflexivity. Qed.

Lemma pmm_snapshot_witness : exists F P, ftotal F + ptotal P = 62 /\ pmm_inv small.1 (seeded small_regions) small1 F P [(0, 1%nat)] [].
Proof.
  destruct small1_inv as (F & P & Hinv). exists F, P. split; [|exact Hinv].
  pose proof (pmm_snapshot small.1 (seeded small_regions) small1 F P [(0, 1%nat)] [] Hinv) as H.
  apply (wp_run _ _ _ _ _ (run_eq _ _ _ small_snapshot)) in H. symmetry. exact (proj1 (proj2 H)).
Defined.

(** C19: taking a block from the buddy lists. Either a block of
    the order asked for leaves the lists of its zone, aligned and of one
    class, with its pages no longer free, every other page as free as before
    and its header poisoned. It is cut from the first block of the reference
    [search]: the requested class from the smallest order up; only when that
    class has nothing, the largest whole pageblock of the first fallback class
    that has one, which changes class as a whole; only when no class has a
    whole pageblock, the smallest block of the first fallback class that has
    one, with no page changing class. Or nothing changed, and no class of the
    zone has a block of the order or above. *)
Theorem buddy_take_block (t : Topology) (z order : nat) (requested : MigrateType) (c : Core) (F : blocks)
    (Ht : topo_wf t) (Hinv : core_inv t c F) (Hz : (z < NR_ZONES)%nat) :
  wp (Buddy.take_block t z order requested) (fun r c' =>
    match r with
    | Some p => taken t c F z order requested p c' /\ chosen c F z order requested p c'
    | None => c' = c /\ forall m, class_empty F z m order
    end) c.
Proof. by apply take_block_choice. Qed.

Lemma buddy_take_block_witness :
  exists F c', taken small.1 (cr small.2) F 2 4 Unmovable 0 c' /\ chosen (cr small.2) F 2 4 Unmovable 0 c'.
Proof.
  destruct small_inv as (Ht & _ & _ & _ & F & [Hown _]). pose proof (own_core _ _ _ _ _ _ _ _ _ Hown) as Hc.
  pose proof (buddy_take_block small.1 2 4 Unmovable (cr small.2) F Ht Hc ltac:(unfold NR_ZONES; lia)) as H.
  assert (Ho : outcome (Buddy.take_block small.1 2 4 Unmovable (cr small.2)) = Some (Some 0)) by (vm_compute; reflexivity).
  apply (wp_run _ _ _ _ _ (run_eq _ _ _ Ho)) in H.
  exists F, (final (cr small.2) (Buddy.take_block small.1 2 4 Unmovable (cr small.2))). exact H.
Defined.

(** C20: giving a block back to the buddy lists. The pages of the
    block, and only those, become free; they end in one free block, the
    result of merging with every free buddy on the way up, which has no free
    buddy of its order, zone and class left; the classes of all pages are
    unchanged. *)
Theorem buddy_return (t : Topology) (z : nat) (m : MigrateType) (p : Z) (o : nat) (c : Core) (F : blocks)
    (Ht : topo_wf t) (Hinv : core_inv t c F) (Hpl : placed t c z m p o)
    (Hfree : forall x, p <= x < p + pow2 o -> fcov F x = 0) :
  wp (Buddy.return_to_buddy t p o) (fun _ c' => exists F',
    core_inv t c' F' /\ (forall x, fcov F' x = fcov F x + cov x p o) /\ settled t c' F' z p o /\
    pageblocks c' = pageblocks c) c.
Proof.
  eapply wp_mono; [by apply (return_to_buddy_spec t Ht z m p o c F)|]. intros [] c' (F' & H1 & H2 & H3 & _ & H5).
  exists F'. split_and!; [done| |done|done]. intros x. exact (moved_fcov _ _ _ _ x (pl_zone _ _ _ _ _ _ Hpl) H2).
Qed.

Lemma buddy_return_witness : exists F c', core_inv small.1 c' F /\ settled small.1 c' F 2 0 1.
Proof.
  destruct small_inv as (Ht & _). destruct small1_inv as (F & P & [Hown _]).
  pose proof (own_core _ _ _ _ _ _ _ _ _ Hown) as Hc.
  destruct (own_alloc _ _ _ _ _ _ _ _ _ Hown 0 1 ltac:(left)) as (z & m & Hpl).
  assert (Hz : z = 2%nat) by (rewrite <- (placed_zi small.1 Ht _ _ _ _ _ Hpl); vm_compute; reflexivity). subst z.
  pose proof (buddy_return small.1 2 m 0 1 (cr small1) F Ht Hc Hpl
    (fun x Hx => proj1 (proj2 (held_cov _ _ _ _ _ F P _ _ Hown 0 1%nat x ltac:(left) Hx)))) as H.
  destruct (proj1 (wp_iff _ _ _) H) as (r & c' & _ & F' & H1 & _ & H3 & _). exists F', c'. exact (conj H1 H3).
Defined.
