(* ===== verification/BTree.v ===== *)
(** * Ordered maps

    [alloc::collections::BTreeMap<u64, V>] as the list of its entries in
    ascending key order, with the operations and the range queries the
    virtual memory manager uses, and the lemmas that let its clients reason
    about them through [bt_get] alone. *)

From Stdlib Require Import Sorting.Sorted.
From S2P Require Import Prelude.

Section btree.
Context {V : Type}.

Implicit Types (m : list (Z * V)) (k : Z) (v : V).

(** [BTreeMap::get]. *)
Fixpoint bt_get k m : option V :=
  match m with
  | [] => None
  | (k', v) :: m' => if k =? k' then Some v else bt_get k m'
  end.

(** [BTreeMap::insert]; an existing entry is overwritten. *)
Fixpoint bt_insert k v m : list (Z * V) :=
  match m with
  | [] => [(k, v)]
  | (k', v') :: m' =>
      if k <? k' then (k, v) :: (k', v') :: m'
      else if k =? k' then (k, v) :: m'
      else (k', v') :: bt_insert k v m'
  end.

(** The map left by [BTreeMap::remove]; what it returns is [bt_get]. *)
Definition bt_remove k m : list (Z * V) := filter (fun p => p.1 ≠ k) m.

(** [range(..=k).next_back()], [range(..k).next_back()],
    [range((Excluded(k), Unbounded)).next()], [range(k..).next()]. *)
Definition floor_le k m : option (Z * V) := last (filter (fun p => p.1 <= k) m).
Definition floor_lt k m : option (Z * V) := last (filter (fun p => p.1 < k) m).
Definition ceil_gt k m : option (Z * V) := head (filter (fun p => k < p.1) m).
Definition ceil_ge k m : option (Z * V) := head (filter (fun p => k <= p.1) m).

(** [range(..e)]. *)
Definition range_lt e m : list (Z * V) := filter (fun p => p.1 < e) m.

Definition contains_key k m : bool := match bt_get k m with Some _ => true | None => false end.

(** ** Entries in strictly ascending key order *)

Definition key_lt (p q : Z * V) : Prop := p.1 < q.1.

Definition sorted m : Prop := StronglySorted key_lt m.

Lemma sorted_cons_inv p m : sorted (p :: m) -> sorted m /\ forall q, q ∈ m -> p.1 < q.1.
Proof. inversion 1 as [|? ? Hs Hf]; subst. split; [done|]. intros q Hq. by rewrite Forall_forall in Hf; apply Hf. Qed.

Lemma get_elem k v m : sorted m -> bt_get k m = Some v <-> (k, v) ∈ m.
Proof.
  induction m as [|[k' v'] m IH]; intros Hs; cbn [bt_get].
  { split; [done|]. intros H. by apply not_elem_of_nil in H. }
  apply sorted_cons_inv in Hs as [Hs Hlt]. rewrite elem_of_cons.
  destruct (Z.eqb_spec k k') as [->|Hne].
  - split; [intros [= ->]; by left|]. intros [[= ->]|Hin]; [done|].
    specialize (Hlt _ Hin). cbn in Hlt. lia.
  - rewrite IH by done. split; [by right|]. intros [[= -> ->]|?]; done.
Qed.

Lemma insert_elem k v m q :
  sorted m -> q ∈ bt_insert k v m <-> q = (k, v) \/ (q ∈ m /\ q.1 ≠ k).
Proof.
  induction m as [|[k' v'] m IH]; intros Hs; cbn [bt_insert].
  { rewrite list_elem_of_singleton. split; [by left|]. intros [?|[H _]]; [done|]. by apply not_elem_of_nil in H. }
  apply sorted_cons_inv in Hs as [Hs Hlt].
  destruct (Z.ltb_spec k k') as [Hk|Hk]; [|destruct (Z.eqb_spec k k') as [<-|Hne]].
  - rewrite !elem_of_cons. split; [intros [?|[->|Hin]]|intros [?|[[?|?] _]]; auto].
    + by left. + right. split; [by left|]. cbn. lia.
    + right. split; [by right|]. specialize (Hlt _ Hin). cbn in Hlt. lia.
  - rewrite !elem_of_cons. split; [intros [?|Hin]; [by left|]|intros [?|[[->|?] Hn]]; auto].
    + right. split; [by right|]. specialize (Hlt _ Hin). cbn in Hlt. lia. + done.
  - rewrite !elem_of_cons, IH by done. split; [intros [->|[?|[? ?]]]; auto|].
    intros [?|[[?|?] ?]]; auto.
Qed.

Lemma insert_sorted k v m : sorted m -> sorted (bt_insert k v m).
Proof.
  induction m as [|[k' v'] m IH]; intros Hs; cbn [bt_insert]; [repeat constructor|].
  pose proof Hs as Hall. apply sorted_cons_inv in Hs as [Hs Hlt].
  destruct (Z.ltb_spec k k') as [Hk|Hk]; [|destruct (Z.eqb_spec k k') as [<-|Hne]].
  - constructor; [done|]. apply Forall_forall. intros q [->|Hin]%elem_of_cons; unfold key_lt; cbn; [lia|].
    specialize (Hlt _ Hin). cbn in Hlt. lia.
  - constructor; [done|]. apply Forall_forall. intros q Hin. by apply Hlt.
  - constructor; [by apply IH|]. apply Forall_forall. intros q Hin.
    apply insert_elem in Hin as [->|[Hin _]]; [cbn; unfold key_lt; cbn; lia|by apply Hlt|done].
Qed.

Lemma filter_sorted (P : Z * V -> Prop) `{!forall p, Decision (P p)} m : sorted m -> sorted (filter P m).
Proof.
  induction m as [|p m IH]; intros Hs; [done|]. apply sorted_cons_inv in Hs as [Hs Hlt].
  rewrite filter_cons. destruct (decide (P p)); [|by apply IH].
  constructor; [by apply IH|]. apply Forall_forall. intros q [_ Hq]%list_elem_of_filter. by apply Hlt.
Qed.

Lemma remove_sorted k m : sorted m -> sorted (bt_remove k m).
Proof. apply filter_sorted. Qed.

Lemma get_insert k v m k' :
  sorted m -> bt_get k' (bt_insert k v m) = if k' =? k then Some v else bt_get k' m.
Proof.
  intros Hs. pose proof (insert_sorted k v m Hs) as Hs'. apply option_eq. intros v'.
  rewrite get_elem, insert_elem by done. destruct (Z.eqb_spec k' k) as [->|Hne].
  - split; [intros [[= ->]|[_ Hn]]; done|]. intros [= ->]. by left.
  - rewrite get_elem by done. split; [intros [[= ? ->]|[? _]]; done|]. intros. right. done.
Qed.

Lemma get_remove k m k' :
  sorted m -> bt_get k' (bt_remove k m) = if k' =? k then None else bt_get k' m.
Proof.
  intros Hs. pose proof (remove_sorted k m Hs) as Hs'. apply option_eq. intros v'.
  rewrite get_elem by done. unfold bt_remove. rewrite list_elem_of_filter. cbn.
  destruct (Z.eqb_spec k' k) as [->|Hne]; [split; [by intros []|done]|].
  rewrite get_elem by done. split; [by intros []|done].
Qed.

Lemma remove_absent k m : (forall q, q ∈ m -> q.1 ≠ k) -> bt_remove k m = m.
Proof.
  unfold bt_remove. induction m as [|p m IH]; intros H; [done|].
  rewrite filter_cons, decide_True by (apply H; left). f_equal. apply IH. intros q Hq. apply H. by right.
Qed.

(** Sorted lists of entries with the same lookups are the same list. *)
Lemma get_ext m1 m2 : sorted m1 -> sorted m2 -> (forall k, bt_get k m1 = bt_get k m2) -> m1 = m2.
Proof.
  revert m2. induction m1 as [|[k1 v1] m1 IH]; intros [|[k2 v2] m2] Hs1 Hs2 Hg; [done|..].
  - specialize (Hg k2). cbn in Hg. by rewrite Z.eqb_refl in Hg.
  - specialize (Hg k1). cbn in Hg. by rewrite Z.eqb_refl in Hg.
  - apply sorted_cons_inv in Hs1 as [Hs1 Hl1]. apply sorted_cons_inv in Hs2 as [Hs2 Hl2].
    assert (k1 = k2) as <-.
    { pose proof (Hg k1) as H1. pose proof (Hg k2) as H2. cbn in H1, H2. rewrite Z.eqb_refl in H1, H2.
      destruct (Z.eqb_spec k1 k2) as [|Hne]; [done|]. symmetry in H1. apply get_elem in H1; [|done].
      destruct (Z.eqb_spec k2 k1) as [|_]; [done|]. apply get_elem in H2; [|done].
      specialize (Hl2 _ H1). specialize (Hl1 _ H2). cbn in *. lia. }
    assert (v1 = v2) as <-. { specialize (Hg k1). cbn in Hg. rewrite Z.eqb_refl in Hg. congruence. }
    f_equal. apply IH; [done..|]. intros k. specialize (Hg k). cbn in Hg.
    destruct (Z.eqb_spec k k1) as [Heq|]; [|done]. rewrite Heq. clear Hg Heq k.
    transitivity (@None V); [|symmetry]; apply eq_None_not_Some; intros [v Hv];
      apply get_elem in Hv; try done; [specialize (Hl1 _ Hv)|specialize (Hl2 _ Hv)]; cbn in *; lia.
Qed.

Lemma insert_remove k v m : sorted m -> bt_insert k v (bt_remove k m) = bt_insert k v m.
Proof.
  intros Hs. apply get_ext; [by apply insert_sorted, remove_sorted|by apply insert_sorted|].
  intros k'. rewrite !get_insert, get_remove by auto using remove_sorted. by destruct (k' =? k).
Qed.

(** ** Neighbour queries *)

Lemma last_sorted m p : sorted m -> last m = Some p -> p ∈ m /\ forall q, q ∈ m -> q.1 <= p.1.
Proof.
  induction m as [|q m IH]; intros Hs Hl; [done|]. apply sorted_cons_inv in Hs as [Hs Hlt].
  destruct m as [|q' m].
  - injection Hl as ->. split; [left|]. intros q [->|Hq]%elem_of_cons; [lia|]. by apply not_elem_of_nil in Hq.
  - destruct (IH Hs Hl) as [Hin Hmax]. split; [by right|]. intros q0 [->|Hq]%elem_of_cons; [|by apply Hmax].
    specialize (Hlt q' ltac:(left)). specialize (Hmax q' ltac:(left)). lia.
Qed.

Lemma head_sorted m p : sorted m -> head m = Some p -> p ∈ m /\ forall q, q ∈ m -> p.1 <= q.1.
Proof.
  destruct m as [|q m]; intros Hs Hl; [done|]. injection Hl as ->.
  apply sorted_cons_inv in Hs as [_ Hlt]. split; [left|].
  intros q [->|Hq]%elem_of_cons; [lia|]. specialize (Hlt _ Hq). lia.
Qed.

(** A neighbour query over the keys that satisfy [P]: the entry found is in
    the map and nearest; none found means no key satisfies [P]. *)
Definition nearest (P : Z -> Prop) (le : Z -> Z -> Prop) m (o : option (Z * V)) : Prop :=
  match o with
  | Some (k, v) => P k /\ bt_get k m = Some v /\ forall k' v', P k' -> bt_get k' m = Some v' -> le k' k
  | None => forall k' v', P k' -> bt_get k' m = Some v' -> False
  end.

Lemma last_filter_nearest (P : Z -> Prop) `{!forall k, Decision (P k)} m :
  sorted m -> nearest P Z.le m (last (filter (fun p => P p.1) m)).
Proof.
  intros Hs. destruct (last _) as [[k v]|] eqn:E; cbn.
  - apply last_sorted in E as [Hin Hmax]; [|by apply filter_sorted].
    apply list_elem_of_filter in Hin as [HP Hin]. cbn in HP. rewrite get_elem by done.
    split_and!; [done..|]. intros k' v' HP' Hg. apply get_elem in Hg; [|done].
    apply (Hmax (k', v')). by apply list_elem_of_filter.
  - apply last_None in E. intros k' v' HP' Hg. apply get_elem in Hg; [|done].
    assert ((k', v') ∈ filter (fun p : Z * V => P p.1) m) as Hin by (by apply list_elem_of_filter).
    rewrite E in Hin. by apply not_elem_of_nil in Hin.
Qed.

Lemma head_filter_nearest (P : Z -> Prop) `{!forall k, Decision (P k)} m :
  sorted m -> nearest P Z.ge m (head (filter (fun p => P p.1) m)).
Proof.
  intros Hs. destruct (head _) as [[k v]|] eqn:E; cbn.
  - apply head_sorted in E as [Hin Hmax]; [|by apply filter_sorted].
    apply list_elem_of_filter in Hin as [HP Hin]. cbn in HP. rewrite get_elem by done.
    split_and!; [done..|]. intros k' v' HP' Hg. apply get_elem in Hg; [|done].
    apply Z.le_ge, (Hmax (k', v')). by apply list_elem_of_filter.
  - apply head_None in E. intros k' v' HP' Hg. apply get_elem in Hg; [|done].
    assert ((k', v') ∈ filter (fun p : Z * V => P p.1) m) as Hin by (by apply list_elem_of_filter).
    rewrite E in Hin. by apply not_elem_of_nil in Hin.
Qed.

Lemma floor_le_nearest k m : sorted m -> nearest (fun k' => k' <= k) Z.le m (floor_le k m).
Proof. intros Hs. exact (last_filter_nearest (fun k' => k' <= k) m Hs). Qed.
Lemma floor_lt_nearest k m : sorted m -> nearest (fun k' => k' < k) Z.le m (floor_lt k m).
Proof. intros Hs. exact (last_filter_nearest (fun k' => k' < k) m Hs). Qed.
Lemma ceil_gt_nearest k m : sorted m -> nearest (fun k' => k < k') Z.ge m (ceil_gt k m).
Proof. intros Hs. exact (head_filter_nearest (fun k' => k < k') m Hs). Qed.
Lemma ceil_ge_nearest k m : sorted m -> nearest (fun k' => k <= k') Z.ge m (ceil_ge k m).
Proof. intros Hs. exact (head_filter_nearest (fun k' => k <= k') m Hs). Qed.

Lemma range_lt_elem e m k v :
  sorted m -> (k, v) ∈ range_lt e m <-> k < e /\ bt_get k m = Some v.
Proof. intros Hs. unfold range_lt. rewrite list_elem_of_filter, get_elem by done. done. Qed.

(** A nearest entry below is determined. *)
Lemma nearest_floor k v m (o : option (Z * V)) (P : Z -> Prop) :
  nearest P Z.le m o -> P k -> bt_get k m = Some v ->
  (forall k' v', P k' -> bt_get k' m = Some v' -> k' <= k) -> o = Some (k, v).
Proof.
  intros Hn HP Hg Hmax. destruct o as [[k1 v1]|]; cbn in Hn; [|by edestruct Hn].
  destruct Hn as (HP1 & Hg1 & Hmax1). assert (k1 = k) as ->.
  { specialize (Hmax _ _ HP1 Hg1). specialize (Hmax1 _ _ HP Hg). lia. }
  congruence.
Qed.

End btree.

#[export] Hint Resolve insert_sorted remove_sorted : oxide.
