(* ===== verification/Vma.v ===== *)
(** * Virtual memory areas

    [crates/kernel/mm-vmm/src/vma.rs], [vma/clone.rs], [vm_ops.rs] and the
    user address type of [crates/arch/hal/src/types.rs]: the descriptor of a
    mapped range, when two of them merge, how one is cut, and the calls a
    mapped object receives when a descriptor that names it is born or dies.

    Reference-counted objects ([Arc<dyn FileBacking>], [Arc<AnonVma>],
    [Arc<dyn UffdContext>], ...) are their identities: the code compares them
    with [Arc::ptr_eq]. *)

From stdpp Require Import strings.
From S2P Require Import Prelude.

(** ** User addresses *)

Definition USER_VA_END : Z := 0x800000000000.

Definition PAGE_SIZE_BYTES : Z := 4096.

(** [UserVirtAddr::new]; an address is the number it wraps. *)
Definition uva_new (raw : Z) : option Z := if raw <? USER_VA_END then Some raw else None.

(** [UserVirtAddr::checked_add]. *)
Definition uva_checked_add (va off : Z) : option Z :=
  match checked_add va off with
  | Some v => if v <? USER_VA_END then Some v else None
  | None => None
  end.

(** ** Bit sets ([bitflags!]) *)

Definition flags_contains (self other : Z) : bool := Z.land self other =? other.
Definition flags_intersects (self other : Z) : bool := negb (Z.land self other =? 0).
Definition flags_union (self other : Z) : Z := Z.lor self other.
Definition flags_difference (self other : Z) : Z := Z.ldiff self other.

Module Prot.

Definition READ : Z := 1.
Definition WRITE : Z := 2.
Definition EXEC : Z := 4.

Inductive FaultAccess := Read | Write | Exec.

Definition permits (self : Z) (access : FaultAccess) : bool :=
  match access with
  | Read => flags_contains self READ
  | Write => flags_contains self WRITE
  | Exec => flags_contains self EXEC
  end.

End Prot.

Module Flags.

Definition SHARED : Z := Z.shiftl 1 0.
Definition PRIVATE : Z := Z.shiftl 1 1.
Definition ANONYMOUS : Z := Z.shiftl 1 2.
Definition GROWSDOWN : Z := Z.shiftl 1 3.
Definition LOCKED : Z := Z.shiftl 1 4.
Definition SEALED : Z := Z.shiftl 1 5.
Definition DONTFORK : Z := Z.shiftl 1 6.
Definition WIPEONFORK : Z := Z.shiftl 1 7.
Definition UFFD_MISSING : Z := Z.shiftl 1 8.
Definition RAND_READ : Z := Z.shiftl 1 9.
Definition SEQ_READ : Z := Z.shiftl 1 10.
Definition DONTDUMP : Z := Z.shiftl 1 11.
Definition MERGEABLE : Z := Z.shiftl 1 12.
Definition HUGEPAGE : Z := Z.shiftl 1 13.
Definition NOHUGEPAGE : Z := Z.shiftl 1 14.
Definition SYSVSHM : Z := Z.shiftl 1 15.
Definition LOCKONFAULT : Z := Z.shiftl 1 16.
Definition UFFD_WP : Z := Z.shiftl 1 17.
Definition UFFD_MINOR : Z := Z.shiftl 1 18.
Definition SECRETMEM : Z := Z.shiftl 1 19.
Definition NT_RESERVED : Z := Z.shiftl 1 20.
Definition NT_SECTION_VIEW : Z := Z.shiftl 1 21.
Definition NT_WRITE_WATCH : Z := Z.shiftl 1 22.
Definition NT_IMAGE_VIEW : Z := Z.shiftl 1 23.

Definition UFFD_MASK : Z := flags_union (flags_union UFFD_MISSING UFFD_WP) UFFD_MINOR.

Definition LOCKED_MASK : Z := flags_union LOCKED LOCKONFAULT.

End Flags.

(** ** The mapped object *)

Inductive PhysCacheMode := WriteBack | Device | WriteCombine.

#[global] Instance PhysCacheMode_eq_dec : EqDecision PhysCacheMode.
Proof. solve_decision. Defined.

Inductive VmaBacking :=
| Anonymous
| File (backing off : Z)
| KernelBytes (data off : Z)
| KernelFrame (pa : Z)
| KernelPages (pages off : Z)
| PhysRange (base_pa : Z) (cache : PhysCacheMode)
| Special.

#[global] Instance VmaBacking_eq_dec : EqDecision VmaBacking.
Proof. solve_decision. Defined.

(** A NUMA policy ([mempolicy/policy.rs]); node masks are words. *)
Record MemPolicy := {
  pol_mode : Z;
  pol_flags : Z;
  pol_nodes : Z;
  pol_user_nodes : Z;
  pol_home_node : Z;
}.

#[global] Instance MemPolicy_eq_dec : EqDecision MemPolicy.
Proof. solve_decision. Defined.

(** ** The descriptor *)

Record Vma := {
  v_start : Z;
  v_end : Z;
  v_prot : Z;
  v_may_prot : Z;
  v_pkey : Z;
  v_flags : Z;
  v_backing : VmaBacking;
  v_rss : Z;
  v_anon_vma : option Z;
  v_anon_pages : bool;
  v_file_rmap : option Z;
  v_anon_name : option string;
  v_uffd : option Z;
  v_mempolicy : option MemPolicy;
  v_mapping_origin : option Z;
}.

#[global] Instance Vma_eq_dec : EqDecision Vma.
Proof. solve_decision. Defined.

(** Updates of one field. *)
Definition set_start (x : Z) (v : Vma) : Vma :=
  {| v_start := x; v_end := v_end v; v_prot := v_prot v; v_may_prot := v_may_prot v; v_pkey :=
     v_pkey v; v_flags := v_flags v; v_backing := v_backing v; v_rss := v_rss v; v_anon_vma :=
     v_anon_vma v; v_anon_pages := v_anon_pages v; v_file_rmap := v_file_rmap v; v_anon_name :=
     v_anon_name v; v_uffd := v_uffd v; v_mempolicy := v_mempolicy v; v_mapping_origin :=
     v_mapping_origin v |}.
Definition set_end (x : Z) (v : Vma) : Vma :=
  {| v_start := v_start v; v_end := x; v_prot := v_prot v; v_may_prot := v_may_prot v; v_pkey
     := v_pkey v; v_flags := v_flags v; v_backing := v_backing v; v_rss := v_rss v; v_anon_vma
     := v_anon_vma v; v_anon_pages := v_anon_pages v; v_file_rmap := v_file_rmap v; v_anon_name
     := v_anon_name v; v_uffd := v_uffd v; v_mempolicy := v_mempolicy v; v_mapping_origin :=
     v_mapping_origin v |}.
Definition set_prot (x : Z) (v : Vma) : Vma :=
  {| v_start := v_start v; v_end := v_end v; v_prot := x; v_may_prot := v_may_prot v; v_pkey
     := v_pkey v; v_flags := v_flags v; v_backing := v_backing v; v_rss := v_rss v; v_anon_vma
     := v_anon_vma v; v_anon_pages := v_anon_pages v; v_file_rmap := v_file_rmap v; v_anon_name
     := v_anon_name v; v_uffd := v_uffd v; v_mempolicy := v_mempolicy v; v_mapping_origin :=
     v_mapping_origin v |}.
Definition set_pkey (x : Z) (v : Vma) : Vma :=
  {| v_start := v_start v; v_end := v_end v; v_prot := v_prot v; v_may_prot := v_may_prot v;
     v_pkey := x; v_flags := v_flags v; v_backing := v_backing v; v_rss := v_rss v; v_anon_vma
     := v_anon_vma v; v_anon_pages := v_anon_pages v; v_file_rmap := v_file_rmap v; v_anon_name
     := v_anon_name v; v_uffd := v_uffd v; v_mempolicy := v_mempolicy v; v_mapping_origin :=
     v_mapping_origin v |}.
Definition set_flags (x : Z) (v : Vma) : Vma :=
  {| v_start := v_start v; v_end := v_end v; v_prot := v_prot v; v_may_prot := v_may_prot v;
     v_pkey := v_pkey v; v_flags := x; v_backing := v_backing v; v_rss := v_rss v; v_anon_vma :=
     v_anon_vma v; v_anon_pages := v_anon_pages v; v_file_rmap := v_file_rmap v; v_anon_name :=
     v_anon_name v; v_uffd := v_uffd v; v_mempolicy := v_mempolicy v; v_mapping_origin :=
     v_mapping_origin v |}.
Definition set_rss (x : Z) (v : Vma) : Vma :=
  {| v_start := v_start v; v_end := v_end v; v_prot := v_prot v; v_may_prot := v_may_prot v;
     v_pkey := v_pkey v; v_flags := v_flags v; v_backing := v_backing v; v_rss := x; v_anon_vma
     := v_anon_vma v; v_anon_pages := v_anon_pages v; v_file_rmap := v_file_rmap v; v_anon_name
     := v_anon_name v; v_uffd := v_uffd v; v_mempolicy := v_mempolicy v; v_mapping_origin :=
     v_mapping_origin v |}.
Definition set_anon_name (x : option string) (v : Vma) : Vma :=
  {| v_start := v_start v; v_end := v_end v; v_prot := v_prot v; v_may_prot := v_may_prot v;
     v_pkey := v_pkey v; v_flags := v_flags v; v_backing := v_backing v; v_rss := v_rss v;
     v_anon_vma := v_anon_vma v; v_anon_pages := v_anon_pages v; v_file_rmap := v_file_rmap v;
     v_anon_name := x; v_uffd := v_uffd v; v_mempolicy := v_mempolicy v; v_mapping_origin :=
     v_mapping_origin v |}.
Definition set_uffd (x : option Z) (v : Vma) : Vma :=
  {| v_start := v_start v; v_end := v_end v; v_prot := v_prot v; v_may_prot := v_may_prot v;
     v_pkey := v_pkey v; v_flags := v_flags v; v_backing := v_backing v; v_rss := v_rss v;
     v_anon_vma := v_anon_vma v; v_anon_pages := v_anon_pages v; v_file_rmap := v_file_rmap v;
     v_anon_name := v_anon_name v; v_uffd := x; v_mempolicy := v_mempolicy v; v_mapping_origin
     := v_mapping_origin v |}.
Definition set_mempolicy (x : option MemPolicy) (v : Vma) : Vma :=
  {| v_start := v_start v; v_end := v_end v; v_prot := v_prot v; v_may_prot := v_may_prot v;
     v_pkey := v_pkey v; v_flags := v_flags v; v_backing := v_backing v; v_rss := v_rss v;
     v_anon_vma := v_anon_vma v; v_anon_pages := v_anon_pages v; v_file_rmap := v_file_rmap v;
     v_anon_name := v_anon_name v; v_uffd := v_uffd v; v_mempolicy := x; v_mapping_origin :=
     v_mapping_origin v |}.
Definition set_mapping_origin (x : option Z) (v : Vma) : Vma :=
  {| v_start := v_start v; v_end := v_end v; v_prot := v_prot v; v_may_prot := v_may_prot v;
     v_pkey := v_pkey v; v_flags := v_flags v; v_backing := v_backing v; v_rss := v_rss v;
     v_anon_vma := v_anon_vma v; v_anon_pages := v_anon_pages v; v_file_rmap := v_file_rmap v;
     v_anon_name := v_anon_name v; v_uffd := v_uffd v; v_mempolicy := v_mempolicy v;
     v_mapping_origin := x |}.

Definition contains (self : Vma) (va : Z) : bool := (v_start self <=? va) && (va <? v_end self).

(** [Vma::permits]. *)
Definition vma_permits (self : Vma) (access : Prot.FaultAccess) : bool :=
  Prot.permits (v_prot self) access.

Definition len_bytes (self : Vma) : Z := v_end self - v_start self.

(** [uffd::uffd_ptr_eq]. *)
Definition uffd_ptr_eq (a b : option Z) : bool :=
  match a, b with
  | None, None => true
  | Some x, Some y => x =? y
  | _, _ => false
  end.

(** [mempolicy::mpol_equal]. *)
Definition mpol_equal (a b : option MemPolicy) : bool := bool_decide (a = b).

Definition mergeable_with_next (self next : Vma) : bool :=
  if negb (v_end self =? v_start next) then false
  else if negb (v_prot self =? v_prot next) then false
  else if negb (v_may_prot self =? v_may_prot next) then false
  else if negb (v_pkey self =? v_pkey next) then false
  else if negb (v_flags self =? v_flags next) then false
  else if negb (bool_decide (v_anon_name self = v_anon_name next)) then false
  else if negb (uffd_ptr_eq (v_uffd self) (v_uffd next)) then false
  else if negb (mpol_equal (v_mempolicy self) (v_mempolicy next)) then false
  else match v_backing self, v_backing next with
  | Anonymous, Anonymous => true
  | File ab a, File bb b =>
      if negb (ab =? bb) then false
      else match checked_add a (len_bytes self) with Some aend => aend =? b | None => false end
  | _, _ => false
  end.

(** [impl Clone for Vma]: the copy fork makes. *)
Definition clone (self : Vma) : Vma :=
  set_uffd None (set_flags (flags_difference (v_flags self) Flags.UFFD_MASK) self).

(** The backing of the sub-range that starts [off_delta] bytes in. *)
Definition sub_backing {S} (b : VmaBacking) (off_delta : Z) : M S VmaBacking :=
  match b with
  | File backing off => off' ← add64 off off_delta; ret (File backing off')
  | KernelBytes data off => off' ← add64 off off_delta; ret (KernelBytes data off')
  | KernelPages pages off => off' ← add64 off off_delta; ret (KernelPages pages off')
  | other => ret other
  end.

Definition clone_subrange {S} (self : Vma) (new_start new_end : Z) : M S Vma :=
  off_delta ← sub64 new_start (v_start self);
  backing ← sub_backing (v_backing self) off_delta;
  ret {| v_start := new_start;
         v_end := new_end;
         v_prot := v_prot self;
         v_may_prot := v_may_prot self;
         v_pkey := v_pkey self;
         v_flags := v_flags self;
         v_backing := backing;
         v_rss := 0;
         v_anon_vma := v_anon_vma self;
         v_anon_pages := v_anon_pages self;
         v_file_rmap := v_file_rmap self;
         v_anon_name := v_anon_name self;
         v_uffd := v_uffd self;
         v_mempolicy := v_mempolicy self;
         v_mapping_origin := v_mapping_origin self |}.

(** ** Calls on the mapped object ([vm_ops.rs])

    The object's own hooks run for every file-backed descriptor; the SysV
    shared-memory pair, once installed, for those marked [SYSVSHM]. The
    calls made are recorded in order. *)

Inductive VmCall :=
| vma_open (backing : Z)
| vma_close (backing : Z)
| shm_open (backing : Z)
| shm_close (backing : Z).

#[global] Instance VmCall_eq_dec : EqDecision VmCall.
Proof. solve_decision. Defined.

Record VmOps := {
  shm_installed : bool;
  vm_calls : list VmCall;
}.

Definition set_shm_vm_ops (o : VmOps) : VmOps :=
  {| shm_installed := true; vm_calls := vm_calls o |}.

Definition call (c : VmCall) (o : VmOps) : VmOps :=
  {| shm_installed := shm_installed o; vm_calls := vm_calls o ++ [c] |}.

Definition object_of (v : Vma) : option Z :=
  match v_backing v with File b _ => Some b | _ => None end.

(** [dispatch] and [dispatch_slot]. *)
Definition dispatch (slot : Z -> VmCall) (v : Vma) (o : VmOps) : VmOps :=
  if negb (flags_contains (v_flags v) Flags.SYSVSHM) then o
  else match v_backing v with
  | File b _ => if shm_installed o then call (slot b) o else o
  | _ => o
  end.

Definition vma_opened (v : Vma) (o : VmOps) : VmOps :=
  dispatch shm_open v (match object_of v with Some b => call (vma_open b) o | None => o end).

Definition vma_closed (v : Vma) (o : VmOps) : VmOps :=
  dispatch shm_close v (match object_of v with Some b => call (vma_close b) o | None => o end).

(** [vma_may_split]; [may_split] is the object's method. *)
Definition vma_may_split (may_split : Z -> bool) (v : Vma) : bool :=
  match object_of v with Some b => may_split b | None => true end.
