(* ===== verification/VmaTree.v ===== *)
(** * The tree of virtual memory areas

    [crates/kernel/mm-vmm/src/tree.rs], [tree_ranges.rs], [tree/policy.rs],
    [tree/anon_name.rs] and [tree/lookup.rs]: the map from start addresses to
    descriptors, lookup, insertion with merging of neighbours, and the
    operations that cut descriptors at the ends of a range and rewrite or
    remove what lies inside. *)

From stdpp Require Import strings.
From S2P Require Import Prelude BTree Vma.

Inductive Error := NotImplemented | NoMem | Inval | Fault | Perm | Again | Access | Io.

#[global] Instance Error_eq_dec : EqDecision Error.
Proof. solve_decision. Defined.

Inductive KResult (A : Type) : Type :=
| Ok (a : A)
| Err (e : Error).
Arguments Ok {A} a.
Arguments Err {A} e.

(** The tree and the calls its changes made on mapped objects. *)
Record VmaTree := {
  t_map : list (Z * Vma);
  t_ops : VmOps;
}.

Definition set_map (m : list (Z * Vma)) (t : VmaTree) : VmaTree :=
  {| t_map := m; t_ops := t_ops t |}.
Definition set_ops (o : VmOps) (t : VmaTree) : VmaTree :=
  {| t_map := t_map t; t_ops := o |}.

Module Tree.

Definition raw_end_key (end_ : Z) : option Z :=
  match uva_new end_ with
  | Some k => Some k
  | None => if end_ =? USER_VA_END then uva_new (USER_VA_END - 1) else None
  end.

(** [VmaTree::new]. *)
Definition new (o : VmOps) : VmaTree := {| t_map := []; t_ops := o |}.

(** [Drop for VmaTree]. *)
Definition drop (t : VmaTree) : VmOps := foldl (fun o p => vma_closed p.2 o) (t_ops t) (t_map t).

Definition vma_closed (v : Vma) : M VmaTree unit :=
  modify (fun t => set_ops (Vma.vma_closed v (t_ops t)) t).

Definition map_put (key : Z) (v : Vma) : M VmaTree unit :=
  modify (fun t => set_ops (Vma.vma_opened v (t_ops t)) t) ;;
  modify (fun t => set_map (bt_insert key v (t_map t)) t).

Definition map_reinsert (key : Z) (v : Vma) : M VmaTree unit :=
  modify (fun t => set_map (bt_insert key v (t_map t)) t).

Definition map_take (key : Z) : M VmaTree (option Vma) :=
  o ← gets (fun t => bt_get key (t_map t));
  modify (fun t => set_map (bt_remove key (t_map t)) t) ;;
  ret o.

Definition len (t : VmaTree) : nat := length (t_map t).
Definition is_empty (t : VmaTree) : bool := match t_map t with [] => true | _ => false end.

Definition find_containing (t : VmaTree) (va : Z) : option Vma :=
  match floor_le va (t_map t) with
  | Some (_, v) => if contains v va then Some v else None
  | None => None
  end.

(** [find_containing_mut]: the key under which the descriptor is found. *)
Definition find_containing_mut (t : VmaTree) (va : Z) : option (Z * Vma) :=
  match floor_le va (t_map t) with
  | Some (key, _) =>
      match bt_get key (t_map t) with
      | Some v => if contains v va then Some (key, v) else None
      | None => None
      end
  | None => None
  end.

Definition find_growsdown_above (t : VmaTree) (va max_gap : Z) : option Vma :=
  match ceil_ge va (t_map t) with
  | Some (_, v) =>
      if negb (flags_contains (v_flags v) Flags.GROWSDOWN) then None
      else match checked_sub (v_start v) va with
      | Some gap => if max_gap <? gap then None else Some v
      | None => None
      end
  | None => None
  end.

Definition extend_growsdown_start (current_start new_start : Z) : M VmaTree (KResult unit) :=
  if current_start <=? new_start then ret (Err Inval)
  else if negb (Z.land new_start (PAGE_SIZE_BYTES - 1) =? 0) then ret (Err Inval)
  else
    m ← gets t_map;
    if match floor_lt current_start m with
       | Some (_, lower) => new_start <? v_end lower
       | None => false
       end
    then ret (Err Inval)
    else
      o ← map_take current_start;
      match o with
      | None => ret (Err Inval)
      | Some v =>
          if negb (flags_contains (v_flags v) Flags.GROWSDOWN) then
            map_reinsert current_start v ;; ret (Err Inval)
          else map_reinsert new_start (set_start new_start v) ;; ret (Ok tt)
      end.

(** [map.get_mut(&key).expect(msg)] followed by the two stores of a merge. *)
Definition absorb (key : Z) (right : Vma) (msg : string) : M VmaTree unit :=
  m ← gets t_map;
  left ← expect (bt_get key m) msg;
  combined ← add64 (v_rss left) (v_rss right);
  modify (fun t => set_map (bt_insert key (set_rss combined (set_end (v_end right) left)) (t_map t)) t).

(** [self.map[&key]]. *)
Definition index (key : Z) : M VmaTree Vma :=
  m ← gets t_map; expect (bt_get key m) "no entry found for key".

Definition try_merge_left (key : Z) : M VmaTree unit :=
  m ← gets t_map;
  match floor_lt key m with
  | None => ret tt
  | Some (lk, _) =>
      left ← index lk;
      cur ← index key;
      if negb (mergeable_with_next left cur) then ret tt
      else
        taken ← map_take key;
        cur ← expect taken "just-inserted key";
        vma_closed cur ;;
        absorb lk cur "left-floor key"
  end.

Definition try_merge_right (key : Z) : M VmaTree unit :=
  m ← gets t_map;
  match ceil_gt key m with
  | None => ret tt
  | Some (rk, _) =>
      cur ← index key;
      right ← index rk;
      if negb (mergeable_with_next cur right) then ret tt
      else
        taken ← map_take rk;
        right ← expect taken "right-ceil key";
        vma_closed right ;;
        absorb key right "merge-target key"
  end.

(** The key that holds the area inserted at [key] after a left merge. *)
Definition after_left (key : Z) : M VmaTree Z :=
  m ← gets t_map;
  ret (if contains_key key m then key
       else match floor_lt key m with Some (k, _) => k | None => key end).

(** The merge attempts with both neighbours that follow every insertion. *)
Definition merge_around (key : Z) : M VmaTree unit :=
  try_merge_left key ;;
  k ← after_left key;
  try_merge_right k.

Definition insert (vma : Vma) : M VmaTree (KResult unit) :=
  if v_end vma <=? v_start vma then ret (Err Inval)
  else
    m ← gets t_map;
    if match floor_le (v_start vma) m with
       | Some (_, prev) => v_start vma <? v_end prev
       | None => false
       end
    then ret (Err Inval)
    else if match ceil_gt (v_start vma) m with
       | Some (_, next) => v_start next <? v_end vma
       | None => false
       end
    then ret (Err Inval)
    else
      map_put (v_start vma) vma ;;
      merge_around (v_start vma) ;;
      ret (Ok tt).

(** ** Range operations

    Each collects the keys of the areas that meet [[start, end)] and then
    replaces each of those areas by up to three: the part kept on the left,
    the part inside the range, the part kept on the right. *)

Definition overlap_keys (start end_ : Z) (m : list (Z * Vma)) : list Z :=
  map fst (filter (fun p => start < v_end p.2) (range_lt end_ m)).

Definition put_left (v : Vma) (s : Z) (msg : string) : M VmaTree unit :=
  if v_start v <? s then
    lend ← expect (uva_new s) msg;
    left ← clone_subrange v (v_start v) lend;
    map_put (v_start left) left
  else ret tt.

Definition middle (v : Vma) (s e : Z) (msg : string) : M VmaTree Vma :=
  ms ← expect (uva_new s) msg;
  me ← expect (uva_new e) msg;
  clone_subrange v ms me.

Definition put_right (v : Vma) (e : Z) (msg : string) : M VmaTree unit :=
  if e <? v_end v then
    rstart ← expect (uva_new e) msg;
    right ← clone_subrange v rstart (v_end v);
    map_put (v_start right) right
  else ret tt.

Fixpoint remove_loop (start end_ : Z) (keys : list Z) (removed : list Vma) : M VmaTree (list Vma) :=
  match keys with
  | [] => ret removed
  | k :: keys' =>
      o ← map_take k;
      v ← expect o "collected key";
      let s := Z.max start (v_start v) in
      let e := Z.min end_ (v_end v) in
      put_left v s "UVA in valid range" ;;
      mid ← middle v s e "UVA in valid range";
      put_right v e "UVA in valid range" ;;
      vma_closed v ;;
      remove_loop start end_ keys' (removed ++ [mid])
  end.

Definition remove_range_raw_end (start end_ : Z) : M VmaTree (list Vma) :=
  if end_ <=? start then ret []
  else match raw_end_key end_ with
  | None => ret []
  | Some end_key =>
      m ← gets t_map;
      remove_loop start end_ (overlap_keys start end_key m) []
  end.

Definition remove_range (start end_ : Z) : M VmaTree (list Vma) := remove_range_raw_end start end_.

(** Cut [v] at the ends of the range, put [change] of the inside part back,
    and close the original. The key of the inside part is returned. *)
Definition rewrite_one (start end_ : Z) (v : Vma) (change : Vma -> Vma) (msg : string) : M VmaTree Z :=
  let s := Z.max start (v_start v) in
  let e := Z.min end_ (v_end v) in
  put_left v s msg ;;
  mid0 ← middle v s e msg;
  let mid := change mid0 in
  map_put (v_start mid) mid ;;
  put_right v e msg ;;
  vma_closed v ;;
  ret (v_start mid).

(** The walk that checks [[start, end)] is covered; [objection] is the test on
    each area it crosses. *)
Fixpoint coverage (objection : Vma -> option Error) (hole : Error) (end_ cursor : Z) (l : list (Z * Vma)) : KResult Z :=
  match l with
  | [] => Ok cursor
  | (_, v) :: l' =>
      if v_end v <=? cursor then coverage objection hole end_ cursor l'
      else if cursor <? v_start v then Err hole
      else match objection v with
      | Some e => Err e
      | None =>
          if end_ <=? v_end v then Ok (v_end v)
          else coverage objection hole end_ (v_end v) l'
      end
  end.

Definition covered (objection : Vma -> option Error) (hole : Error) (start end_ : Z) (t : VmaTree) : KResult unit :=
  match coverage objection hole end_ start (range_lt end_ (t_map t)) with
  | Err e => Err e
  | Ok cursor => if cursor <? end_ then Err hole else Ok tt
  end.

Definition protect (new_prot : Z) (pkey : option Z) (mid : Vma) : Vma :=
  let mid := set_prot new_prot mid in
  match pkey with Some k => set_pkey k mid | None => mid end.

Definition mprotect_step (start end_ new_prot : Z) (pkey : option Z) (k : Z) : M VmaTree unit :=
  o ← map_take k;
  match o with
  | None => ret tt
  | Some v =>
      mid_key ← rewrite_one start end_ v (protect new_prot pkey) "UVA in range";
      merge_around mid_key
  end.

Definition may_admit (new_prot : Z) (v : Vma) : option Error :=
  if negb (flags_contains (v_may_prot v) new_prot) then Some Access else None.

Definition mprotect_range_with_pkey (start end_ new_prot : Z) (pkey : option Z) : M VmaTree (KResult unit) :=
  if end_ <=? start then ret (Err Inval)
  else
    c ← gets (covered (may_admit new_prot) Inval start end_);
    match c with
    | Err e => ret (Err e)
    | Ok _ =>
        m ← gets t_map;
        for_each (overlap_keys start end_ m) (mprotect_step start end_ new_prot pkey) ;;
        ret (Ok tt)
    end.

Definition mprotect_range (start end_ new_prot : Z) : M VmaTree (KResult unit) :=
  mprotect_range_with_pkey start end_ new_prot None.

(** The lock state of secret memory is not the caller's to change. *)
Definition change_flags (set clear : Z) (mid : Vma) : Vma :=
  let '(set, clear) :=
    if flags_contains (v_flags mid) Flags.SECRETMEM
    then (flags_difference set Flags.LOCKED_MASK, flags_difference clear Flags.LOCKED_MASK)
    else (set, clear) in
  set_flags (flags_difference (flags_union (v_flags mid) set) clear) mid.

(** The body of the loops that take every collected key for granted. *)
Definition rewrite_merge_step (start end_ : Z) (change : Vma -> Vma) (k : Z) : M VmaTree unit :=
  o ← map_take k;
  v ← expect o "collected key";
  mid_key ← rewrite_one start end_ v change "UVA in range";
  merge_around mid_key.

Definition update_flags_range (start end_ set clear : Z) : M VmaTree unit :=
  if end_ <=? start then ret tt
  else
    m ← gets t_map;
    for_each (overlap_keys start end_ m) (rewrite_merge_step start end_ (change_flags set clear)).

Definition register_uffd (ctx : option Z) (modes : Z) (mid : Vma) : Vma :=
  match ctx with
  | Some c =>
      let mid := set_uffd (Some c) mid in
      set_flags (flags_union (flags_difference (v_flags mid) Flags.UFFD_MASK)
                   (Z.land modes Flags.UFFD_MASK)) mid
  | None =>
      let mid := set_uffd None mid in
      set_flags (flags_difference (v_flags mid) Flags.UFFD_MASK) mid
  end.

Definition set_uffd_range (start end_ : Z) (ctx : option Z) (modes : Z) : M VmaTree unit :=
  if end_ <=? start then ret tt
  else
    m ← gets t_map;
    for_each (overlap_keys start end_ m) (rewrite_merge_step start end_ (register_uffd ctx modes)).

Fixpoint audit_from (prev_end : Z) (l : list (Z * Vma)) : KResult unit :=
  match l with
  | [] => Ok tt
  | (_, v) :: l' =>
      if v_start v <? prev_end then Err Inval
      else if v_end v <=? v_start v then Err Inval
      else audit_from (v_end v) l'
  end.

Definition audit_no_overlap (t : VmaTree) : KResult unit := audit_from 0 (t_map t).

Definition seal (mid : Vma) : Vma := set_flags (flags_union (v_flags mid) Flags.SEALED) mid.

Definition seal_step (start end_ k : Z) : M VmaTree unit :=
  o ← map_take k;
  v ← expect o "collected key";
  rewrite_one start end_ v seal "UVA in range" ;;
  ret tt.

Definition seal_range (start end_ : Z) : M VmaTree (KResult unit) :=
  if end_ <=? start then ret (Err Inval)
  else
    c ← gets (covered (fun _ => None) Inval start end_);
    match c with
    | Err e => ret (Err e)
    | Ok _ =>
        m ← gets t_map;
        for_each (overlap_keys start end_ m) (seal_step start end_) ;;
        ret (Ok tt)
    end.

Definition any_sealed_raw_end (t : VmaTree) (start end_ : Z) : bool :=
  match raw_end_key end_ with
  | None => false
  | Some end_key =>
      existsb (fun p => (start <? v_end p.2) && flags_contains (v_flags p.2) Flags.SEALED)
        (range_lt end_key (t_map t))
  end.

Definition any_sealed (t : VmaTree) (start end_ : Z) : bool := any_sealed_raw_end t start end_.

Fixpoint may_walk (end_ prot cursor : Z) (l : list (Z * Vma)) : bool :=
  match l with
  | [] => end_ <=? cursor
  | (_, v) :: l' =>
      if v_end v <=? cursor then may_walk end_ prot cursor l'
      else if cursor <? v_start v then false
      else if negb (flags_contains (v_may_prot v) prot) then false
      else if end_ <=? v_end v then true
      else may_walk end_ prot (v_end v) l'
  end.

Definition range_may_raw_end (t : VmaTree) (start end_ prot : Z) : bool :=
  match raw_end_key end_ with
  | None => false
  | Some end_key => may_walk end_ prot start (range_lt end_key (t_map t))
  end.

Definition refuses_split_raw_end (may_split : Z -> bool) (t : VmaTree) (start end_ : Z) : bool :=
  match raw_end_key end_ with
  | None => false
  | Some end_key =>
      existsb (fun p =>
          (start <? v_end p.2) && ((v_start p.2 <? start) || (end_ <? v_end p.2))
          && negb (vma_may_split may_split p.2))
        (range_lt end_key (t_map t))
  end.

Definition refuses_split (may_split : Z -> bool) (t : VmaTree) (start end_ : Z) : bool :=
  refuses_split_raw_end may_split t start end_.

(** [tree/anon_name.rs]. *)
Definition anon_admit (v : Vma) : option Error :=
  match v_backing v with Anonymous => None | _ => Some Access end.

Definition anon_name_step (start end_ : Z) (name : option string) (k : Z) : M VmaTree unit :=
  o ← map_take k;
  v ← expect o "collected VMA key";
  mid_key ← rewrite_one start end_ v (set_anon_name name) "validated VMA boundary";
  try_merge_left mid_key ;;
  m ← gets t_map;
  key ← (if contains_key mid_key m then ret mid_key
         else p ← expect (floor_lt mid_key m) "left VMA"; ret p.1);
  try_merge_right key.

Definition set_anon_name_range (start end_ : Z) (name : option string) : M VmaTree (KResult unit) :=
  if end_ <=? start then ret (Err Inval)
  else
    c ← gets (covered anon_admit NoMem start end_);
    match c with
    | Err e => ret (Err e)
    | Ok _ =>
        m ← gets t_map;
        for_each (overlap_keys start end_ m) (anon_name_step start end_ name) ;;
        ret (Ok tt)
    end.

(** [tree/policy.rs]: the same cuts, without the calls on the object. *)
Definition insert_plain (v : Vma) : M VmaTree unit :=
  modify (fun t => set_map (bt_insert (v_start v) v (t_map t)) t).

Definition policy_step (start end_ : Z) (f : Vma -> Vma) (k : Z) : M VmaTree unit :=
  o ← map_take k;
  v ← expect o "collected key";
  let s := Z.max start (v_start v) in
  let e := Z.min end_ (v_end v) in
  (if v_start v <? s then
     lend ← expect (uva_new s) "UVA in range";
     left ← clone_subrange v (v_start v) lend;
     insert_plain left
   else ret tt) ;;
  mid ← middle v s e "UVA in range";
  insert_plain (f mid) ;;
  (if e <? v_end v then
     rstart ← expect (uva_new e) "UVA in range";
     right ← clone_subrange v rstart (v_end v);
     insert_plain right
   else ret tt).

Definition rewrite_range (start end_ : Z) (f : Vma -> Vma) : M VmaTree unit :=
  if end_ <=? start then ret tt
  else
    m ← gets t_map;
    for_each (overlap_keys start end_ m) (policy_step start end_ f).

Definition set_policy_range (start end_ : Z) (pol : option MemPolicy) : M VmaTree unit :=
  rewrite_range start end_ (set_mempolicy pol).

Definition MPOL_BIND : Z := 2.
Definition MPOL_PREFERRED_MANY : Z := 5.

Inductive HomeNodeErr := NoEnt | OpNotSupp.

(** The ranges whose policy has a home node, or the failure of a policy that
    has none. *)
Fixpoint home_ranges (start end_ : Z) (l : list (Z * Vma)) (ranges : list (Z * Z))
    : M VmaTree (HomeNodeErr + list (Z * Z)) :=
  match l with
  | [] => ret (inr ranges)
  | (_, v) :: l' =>
      if v_end v <=? start then home_ranges start end_ l' ranges
      else match v_mempolicy v with
      | None => home_ranges start end_ l' ranges
      | Some p =>
          if (pol_mode p =? MPOL_BIND) || (pol_mode p =? MPOL_PREFERRED_MANY) then
            s ← expect (uva_new (Z.max (v_start v) start)) "UVA in range";
            e ← expect (uva_new (Z.min (v_end v) end_)) "UVA in range";
            home_ranges start end_ l' (ranges ++ [(s, e)])
          else ret (inl OpNotSupp)
      end
  end.

Definition set_home (home_node : Z) (v : Vma) : Vma :=
  match v_mempolicy v with
  | Some p =>
      set_mempolicy (Some {| pol_mode := pol_mode p; pol_flags := pol_flags p; pol_nodes := pol_nodes p;
        pol_user_nodes := pol_user_nodes p; pol_home_node := home_node |}) v
  | None => v
  end.

Definition set_home_node_range (start end_ home_node : Z) : M VmaTree (option HomeNodeErr) :=
  m ← gets t_map;
  r ← home_ranges start end_ (range_lt end_ m) [];
  match r with
  | inl e => ret (Some e)
  | inr ranges =>
      for_each ranges (fun p => rewrite_range p.1 p.2 (set_home home_node)) ;;
      ret (match ranges with [] => Some NoEnt | _ => None end)
  end.

End Tree.
