(* ===== verification/VmaTreeInv.v ===== *)
(** * Invariant and meaning of the tree of areas

    [tree_ok]: entries are keyed by their start, non-empty, within the user
    range, and pairwise disjoint. [view]: what the tree says about an
    address, the meaning every operation is specified by. The lemmas follow
    the primitive changes of the tree: removing an entry, putting disjoint
    entries, cutting an area, merging two neighbours. *)

From stdpp Require Import strings.
From S2P Require Import Prelude BTree Vma VmaTree.

(** ** Well-formed areas and trees *)

(** The bytes of the object an area covers have offsets within [u64]. *)
Definition backing_fits (b : VmaBacking) (len : Z) : Prop :=
  match b with
  | File _ off | KernelBytes _ off | KernelPages _ off => 0 <= off /\ off + len <= U64_MAX
  | _ => True
  end.

Definition vma_ok (v : Vma) : Prop :=
  0 <= v_start v /\ v_start v < v_end v /\ v_end v < USER_VA_END /\
  backing_fits (v_backing v) (len_bytes v) /\ 0 <= v_rss v <= len_bytes v.

Record tree_ok (m : list (Z * Vma)) : Prop := {
  ok_sorted : sorted m;
  ok_entry : forall k v, bt_get k m = Some v -> k = v_start v /\ vma_ok v;
  ok_disjoint : forall k1 v1 k2 v2,
    bt_get k1 m = Some v1 -> bt_get k2 m = Some v2 -> k1 < k2 -> v_end v1 <= k2;
}.

(** No area of [m] meets [[s, e)]. *)
Definition clear (m : list (Z * Vma)) (s e : Z) : Prop :=
  forall k v, bt_get k m = Some v -> v_end v <= s \/ e <= v_start v.

(** ** What an area says about one of its addresses *)

Record Page := {
  p_prot : Z;
  p_may_prot : Z;
  p_pkey : Z;
  p_flags : Z;
  p_anon_name : option string;
  p_uffd : option Z;
  p_mempolicy : option MemPolicy;
  p_content : VmaBacking;
}.

(** The byte of the object [d] bytes into the area: where the page-fault
    handler finds the content. *)
Definition content_at (b : VmaBacking) (d : Z) : VmaBacking :=
  match b with
  | File o off => File o (off + d)
  | KernelBytes o off => KernelBytes o (off + d)
  | KernelPages o off => KernelPages o (off + d)
  | PhysRange base c => PhysRange (base + d) c
  | KernelFrame pa => KernelFrame (pa + d)
  | other => other
  end.

Definition page_at (v : Vma) (a : Z) : Page :=
  {| p_prot := v_prot v; p_may_prot := v_may_prot v; p_pkey := v_pkey v; p_flags := v_flags v;
     p_anon_name := v_anon_name v; p_uffd := v_uffd v; p_mempolicy := v_mempolicy v;
     p_content := content_at (v_backing v) (a - v_start v) |}.

Definition view (m : list (Z * Vma)) (a : Z) : option Page :=
  match floor_le a m with
  | Some (_, v) => if contains v a then Some (page_at v a) else None
  | None => None
  end.

Lemma contains_iff v a : contains v a = true <-> v_start v <= a < v_end v.
Proof. unfold contains. rewrite andb_true_iff, Z.leb_le, Z.ltb_lt. done. Qed.

Lemma contains_false v a : contains v a = false <-> ~ (v_start v <= a < v_end v).
Proof. rewrite <- contains_iff. by destruct (contains v a). Qed.

Section tree.
Implicit Types (m : list (Z * Vma)) (v w : Vma) (a k s e : Z).

Lemma ok_start m k v : tree_ok m -> bt_get k m = Some v -> k = v_start v.
Proof. intros Hm Hg. by destruct (ok_entry m Hm k v Hg). Qed.

Lemma ok_vma m k v : tree_ok m -> bt_get k m = Some v -> vma_ok v.
Proof. intros Hm Hg. by destruct (ok_entry m Hm k v Hg). Qed.

(** The area found below an address is the only one that may hold it. *)
Lemma floor_covering m k v a :
  tree_ok m -> bt_get k m = Some v -> v_start v <= a < v_end v -> floor_le a m = Some (k, v).
Proof.
  intros Hm Hg Ha. pose proof (floor_le_nearest a m (ok_sorted m Hm)) as Hn.
  pose proof (ok_start _ _ _ Hm Hg) as ->.
  eapply nearest_floor; [exact Hn|cbn; lia|done|]. intros k' v' Hk' Hg'.
  destruct (decide (k' <= v_start v)); [done|].
  pose proof (ok_disjoint m Hm _ _ _ _ Hg Hg' ltac:(lia)). cbn in Hk'. lia.
Qed.

Lemma view_some m a x :
  tree_ok m -> view m a = Some x <->
  exists k v, bt_get k m = Some v /\ v_start v <= a < v_end v /\ page_at v a = x.
Proof.
  intros Hm. unfold view. split.
  - pose proof (floor_le_nearest a m (ok_sorted m Hm)) as Hn.
    destruct (floor_le a m) as [[k v]|]; [|done]. destruct Hn as (_ & Hg & _).
    destruct (contains v a) eqn:E; [|done]. apply contains_iff in E. intros [= <-]. eauto.
  - intros (k & v & Hg & Ha & <-). rewrite (floor_covering m k v a) by done.
    by rewrite (proj2 (contains_iff v a) Ha).
Qed.

Lemma view_in m k v a :
  tree_ok m -> bt_get k m = Some v -> v_start v <= a < v_end v -> view m a = Some (page_at v a).
Proof. intros Hm Hg Ha. apply view_some; eauto. Qed.

Lemma view_none m a :
  tree_ok m -> view m a = None <->
  forall k v, bt_get k m = Some v -> ~ (v_start v <= a < v_end v).
Proof.
  intros Hm. split.
  - intros Hv k v Hg Ha. by rewrite (view_in m k v a) in Hv.
  - intros H. apply eq_None_not_Some. intros [x Hx]. apply view_some in Hx as (k & v & Hg & Ha & _); [|done].
    by apply (H k v).
Qed.

(** ** Removing and putting entries *)

Lemma tree_ok_nil : tree_ok [].
Proof. split; [constructor|done|done]. Qed.

Lemma remove_ok m k : tree_ok m -> tree_ok (bt_remove k m).
Proof.
  intros Hm. pose proof (ok_sorted m Hm) as Hs. split; [by apply remove_sorted|..].
  - intros k' v. rewrite get_remove by done. destruct (k' =? k); [done|]. apply ok_entry, Hm.
  - intros k1 v1 k2 v2. rewrite !get_remove by done. destruct (k1 =? k), (k2 =? k); try done.
    apply ok_disjoint, Hm.
Qed.

Lemma remove_clear m k v :
  tree_ok m -> bt_get k m = Some v -> clear (bt_remove k m) (v_start v) (v_end v).
Proof.
  intros Hm Hg k' v'. rewrite get_remove by apply Hm. destruct (Z.eqb_spec k' k) as [|Hne]; [done|].
  intros Hg'. pose proof (ok_start _ _ _ Hm Hg) as Hk. pose proof (ok_start _ _ _ Hm Hg') as Hk'.
  destruct (decide (k < k')).
  - right. pose proof (ok_disjoint m Hm _ _ _ _ Hg Hg'). lia.
  - left. pose proof (ok_disjoint m Hm _ _ _ _ Hg' Hg). lia.
Qed.

Lemma remove_view m k v a :
  tree_ok m -> bt_get k m = Some v ->
  view (bt_remove k m) a = if contains v a then None else view m a.
Proof.
  intros Hm Hg. pose proof (remove_ok m k Hm) as Hm'. pose proof (ok_sorted m Hm) as Hs.
  destruct (contains v a) eqn:E.
  - apply contains_iff in E. apply view_none; [done|]. intros k' v' Hg' Ha.
    pose proof (remove_clear m k v Hm Hg k' v' Hg'). lia.
  - apply contains_false in E. apply option_eq. intros x. rewrite !view_some by done.
    split; intros (k' & v' & Hg' & Ha & Hx); exists k', v'; (split; [|done]).
    + rewrite get_remove in Hg' by done. by destruct (k' =? k).
    + rewrite get_remove by done. destruct (Z.eqb_spec k' k) as [Heq|]; [|done].
      rewrite Heq in Hg'. by replace v' with v in Ha by congruence.
Qed.

Lemma clear_fresh m w : tree_ok m -> vma_ok w -> clear m (v_start w) (v_end w) -> bt_get (v_start w) m = None.
Proof.
  intros Hm Hw Hc. apply eq_None_not_Some. intros [v Hg]. pose proof (ok_start _ _ _ Hm Hg).
  destruct (ok_vma _ _ _ Hm Hg) as (_ & ? & _). destruct Hw as (_ & ? & _). specialize (Hc _ _ Hg). lia.
Qed.

Lemma insert_ok m w :
  tree_ok m -> vma_ok w -> clear m (v_start w) (v_end w) -> tree_ok (bt_insert (v_start w) w m).
Proof.
  intros Hm Hw Hc. pose proof (ok_sorted m Hm) as Hs. split; [by apply insert_sorted|..].
  - intros k v. rewrite get_insert by done. destruct (Z.eqb_spec k (v_start w)) as [->|];
      [intros [= <-]; done|]. apply ok_entry, Hm.
  - intros k1 v1 k2 v2. rewrite !get_insert by done. destruct Hw as (_ & Hw & _).
    destruct (Z.eqb_spec k1 (v_start w)), (Z.eqb_spec k2 (v_start w)); intros Hg1 Hg2 Hk; simplify_eq; [lia| | |].
    + specialize (Hc _ _ Hg2). pose proof (ok_start _ _ _ Hm Hg2). destruct (ok_vma _ _ _ Hm Hg2) as (_ & ? & _). lia.
    + specialize (Hc _ _ Hg1). pose proof (ok_start _ _ _ Hm Hg1). lia.
    + by apply (ok_disjoint m Hm k1 v1 k2 v2).
Qed.

Lemma insert_view m w a :
  tree_ok m -> vma_ok w -> clear m (v_start w) (v_end w) ->
  view (bt_insert (v_start w) w m) a = if contains w a then Some (page_at w a) else view m a.
Proof.
  intros Hm Hw Hc. pose proof (insert_ok m w Hm Hw Hc) as Hm'. pose proof (ok_sorted m Hm) as Hs.
  destruct (contains w a) eqn:E.
  - apply contains_iff in E. apply (view_in _ (v_start w)); [done| |done]. rewrite get_insert by done. by rewrite Z.eqb_refl.
  - apply contains_false in E. apply option_eq. intros x. rewrite !view_some by done.
    split; intros (k' & v' & Hg' & Ha & Hx); exists k', v'; (split; [|done]).
    + rewrite get_insert in Hg' by done. destruct (k' =? v_start w); by simplify_eq.
    + rewrite get_insert by done. destruct (Z.eqb_spec k' (v_start w)) as [Heq|]; [|done].
      by rewrite Heq, (clear_fresh m w) in Hg'.
Qed.

Lemma insert_clear m w s e :
  tree_ok m -> clear m s e -> v_end w <= s \/ e <= v_start w -> clear (bt_insert (v_start w) w m) s e.
Proof.
  intros Hm Hc Hw k v. rewrite get_insert by apply Hm. destruct (k =? v_start w); [by intros [= <-]|]. apply Hc.
Qed.

Lemma clear_sub m s e s' e' : clear m s e -> s <= s' -> e' <= e -> clear m s' e'.
Proof. intros Hc ? ? k v Hg. specialize (Hc _ _ Hg). lia. Qed.

Lemma clear_view m s e a : tree_ok m -> clear m s e -> s <= a < e -> view m a = None.
Proof. intros Hm Hc Ha. apply view_none; [done|]. intros k v Hg Hv. specialize (Hc _ _ Hg). lia. Qed.

End tree.

(** ** Cutting an area *)

(** The backing and the area of [clone_subrange]. *)
Definition sub_content (b : VmaBacking) (d : Z) : VmaBacking :=
  match b with
  | File o off => File o (off + d)
  | KernelBytes o off => KernelBytes o (off + d)
  | KernelPages o off => KernelPages o (off + d)
  | other => other
  end.

Definition sub (v : Vma) (s e : Z) : Vma :=
  {| v_start := s; v_end := e; v_prot := v_prot v; v_may_prot := v_may_prot v; v_pkey := v_pkey v;
     v_flags := v_flags v; v_backing := sub_content (v_backing v) (s - v_start v); v_rss := 0;
     v_anon_vma := v_anon_vma v; v_anon_pages := v_anon_pages v; v_file_rmap := v_file_rmap v;
     v_anon_name := v_anon_name v; v_uffd := v_uffd v; v_mempolicy := v_mempolicy v;
     v_mapping_origin := v_mapping_origin v |}.

Definition is_phys (b : VmaBacking) : Prop := match b with PhysRange _ _ | KernelFrame _ => True | _ => False end.

(** A part of [v] that starts at [s] says of its addresses what [v] did,
    unless [v] maps physical memory and [s] is not its start. *)
Definition cut_ok (v : Vma) (s : Z) : Prop := is_phys (v_backing v) -> s = v_start v.

Lemma clone_subrange_run {S} v s e (st : S) :
  vma_ok v -> v_start v <= s <= v_end v -> clone_subrange v s e st = Done (sub v s e, st).
Proof.
  intros (_ & _ & _ & Hb & _) Hs. unfold clone_subrange, mbind, M_bind, bind, sub64.
  rewrite (proj2 (Z.leb_le _ _)) by lia. cbn [ret]. unfold sub, len_bytes in *.
  destruct (v_backing v); cbn in *; unfold mbind, M_bind, bind, add64;
    rewrite ?(proj2 (Z.leb_le _ _)) by lia; done.
Qed.

Lemma sub_ok v s e : vma_ok v -> v_start v <= s -> s < e -> e <= v_end v -> vma_ok (sub v s e).
Proof.
  intros (H0 & Hlt & Hmax & Hb & Hr) ? ? ?. unfold vma_ok, len_bytes in *. cbn. split_and!; try lia.
  destruct (v_backing v); cbn in *; lia || done.
Qed.

Lemma sub_page v s e a : cut_ok v s -> page_at (sub v s e) a = page_at v a.
Proof.
  intros Hc. unfold page_at, sub, cut_ok in *. cbn. f_equal.
  destruct (v_backing v); cbn in *; try done; f_equal; lia.
Qed.

(** ** Merging two neighbours *)

Definition joined (l r : Vma) : Vma := set_rss (v_rss l + v_rss r) (set_end (v_end r) l).

Lemma mergeable_facts l r :
  mergeable_with_next l r = true ->
  v_end l = v_start r /\ v_prot l = v_prot r /\ v_may_prot l = v_may_prot r /\ v_pkey l = v_pkey r /\
  v_flags l = v_flags r /\ v_anon_name l = v_anon_name r /\ v_uffd l = v_uffd r /\
  v_mempolicy l = v_mempolicy r /\ content_at (v_backing l) (len_bytes l) = v_backing r /\
  object_of l = object_of r /\ ~ is_phys (v_backing l).
Proof.
  unfold mergeable_with_next, mpol_equal.
  do 8 (match goal with |- (if negb ?b then _ else _) = true -> _ =>
    destruct b eqn:?; cbn [negb]; [|done] end). to_prop.
  repeat match goal with H : bool_decide _ = true |- _ => apply bool_decide_eq_true in H end.
  assert (v_uffd l = v_uffd r) as Hu.
  { unfold uffd_ptr_eq in *. destruct (v_uffd l), (v_uffd r); to_prop; congruence. }
  unfold object_of.
  destruct (v_backing l), (v_backing r); try done; cbn; [intros _; split_and!; auto|].
  destruct (Z.eqb_spec backing backing0) as [->|]; [|done]. unfold checked_add. cbn.
  destruct (_ <=? _); [|done]. intros ?. to_prop. subst. split_and!; auto.
Qed.

Lemma joined_ok l r :
  vma_ok l -> vma_ok r -> mergeable_with_next l r = true -> vma_ok (joined l r).
Proof.
  intros (Hl0 & Hl1 & Hl2 & Hlb & Hlr) (Hr0 & Hr1 & Hr2 & Hrb & Hrr) Hm.
  apply mergeable_facts in Hm as (Hend & _ & _ & _ & _ & _ & _ & _ & Hc & _).
  unfold vma_ok, len_bytes, joined in *. cbn. split_and!; try lia.
  rewrite <- Hc in Hrb. destruct (v_backing l); cbn in *; lia || done.
Qed.

Lemma joined_page l r a :
  mergeable_with_next l r = true ->
  page_at (joined l r) a = page_at l a /\ page_at l a = page_at r a.
Proof.
  intros Hm. apply mergeable_facts in Hm as (He & Hp & Hmp & Hk & Hf & Hn & Hu & Hpol & Hc & _).
  split; [done|]. unfold page_at. f_equal; try done. rewrite <- Hc. unfold len_bytes.
  destruct (v_backing l); cbn; try done; f_equal; lia.
Qed.

(** Replacing two neighbours by their union changes nothing of the view. *)
Lemma merge_view m lk l rk r :
  tree_ok m -> bt_get lk m = Some l -> bt_get rk m = Some r -> mergeable_with_next l r = true ->
  let m' := bt_insert lk (joined l r) (bt_remove rk m) in
  tree_ok m' /\ forall a, view m' a = view m a.
Proof.
  intros Hm Hl Hr Hmg. pose proof (mergeable_facts _ _ Hmg) as (He & _).
  pose proof (ok_start _ _ _ Hm Hl) as ->. pose proof (ok_start _ _ _ Hm Hr) as ->.
  pose proof (ok_vma _ _ _ Hm Hl) as Hlok. pose proof (ok_vma _ _ _ Hm Hr) as Hrok.
  pose proof (joined_ok _ _ Hlok Hrok Hmg) as Hj.
  set (m1 := bt_remove (v_start r) m). assert (Hm1 : tree_ok m1) by by apply remove_ok.
  assert (Hl1 : bt_get (v_start l) m1 = Some l).
  { unfold m1. rewrite get_remove by apply Hm. destruct (Z.eqb_spec (v_start l) (v_start r)); [|done].
    destruct Hlok as (_ & ? & _). lia. }
  set (m2 := bt_remove (v_start l) m1). assert (Hm2 : tree_ok m2) by by apply remove_ok.
  assert (Hc : clear m2 (v_start (joined l r)) (v_end (joined l r))).
  { intros k v. unfold m2. rewrite get_remove by apply Hm1. destruct (Z.eqb_spec k (v_start l)); [done|]. intros Hg.
    pose proof (remove_clear _ _ _ Hm Hr k v Hg) as Hc1. assert (Hc2 : v_end v <= v_start l \/ v_end l <= v_start v).
    { apply (remove_clear m1 _ l Hm1 Hl1 k v). rewrite get_remove by apply Hm1. by rewrite (proj2 (Z.eqb_neq _ _)). }
    pose proof (ok_vma _ _ _ Hm1 Hg) as (_ & ? & _). destruct Hlok as (_ & ? & _). destruct Hrok as (_ & ? & _). cbn. lia. }
  cbn zeta. rewrite <- (insert_remove (v_start l)) by apply Hm1. fold m2.
  change (v_start l) with (v_start (joined l r)). split; [by apply insert_ok|].
  intros a. rewrite insert_view by done. unfold m2. rewrite (remove_view m1 _ l) by done.
  unfold m1. rewrite (remove_view m _ r) by done.
  destruct (joined_page l r a Hmg) as [Hp1 Hp2]. destruct Hlok as (_ & ? & _). destruct Hrok as (_ & ? & _).
  destruct (contains (joined l r) a) eqn:E1.
  - apply contains_iff in E1. cbn in E1. rewrite Hp1. symmetry.
    destruct (decide (a < v_end l)); [apply (view_in m (v_start l)); [done..|lia]|].
    rewrite Hp2. apply (view_in m (v_start r)); [done..|lia].
  - apply contains_false in E1. cbn in E1.
    rewrite (proj2 (contains_false l a)) by lia. rewrite (proj2 (contains_false r a)) by lia. done.
Qed.

(** The two neighbours of a range decide whether it is clear. *)
Lemma clear_neighbours t s e :
  tree_ok (t_map t) -> s < e ->
  (match floor_le s (t_map t) with Some (_, prev) => s <? v_end prev | None => false end = false /\
   match ceil_gt s (t_map t) with Some (_, next) => v_start next <? e | None => false end = false) <->
  clear (t_map t) s e.
Proof.
  intros Hm Hlt. pose proof (floor_le_nearest s _ (ok_sorted _ Hm)) as Hf.
  pose proof (ceil_gt_nearest s _ (ok_sorted _ Hm)) as Hc. split.
  - intros [H1 H2] k w Hg. pose proof (ok_start _ _ _ Hm Hg) as Hk.
    destruct (decide (k <= s)).
    + left. destruct (floor_le _ _) as [[k1 w1]|]; [|by edestruct Hf]. destruct Hf as (_ & Hg1 & Hmax).
      to_prop. pose proof (Hmax _ _ l Hg) as Hle. destruct (decide (k = k1)) as [->|]; [by replace w with w1 by congruence|].
      pose proof (ok_disjoint _ Hm _ _ _ _ Hg Hg1 ltac:(lia)). pose proof (ok_vma _ _ _ Hm Hg1) as (_ & ? & _).
      pose proof (ok_start _ _ _ Hm Hg1). lia.
    + right. destruct (ceil_gt _ _) as [[k1 w1]|]; [|exfalso; eapply Hc; [|done]; cbn; lia]. destruct Hc as (_ & Hg1 & Hmin).
      to_prop. pose proof (Hmin k w ltac:(cbn; lia) Hg). pose proof (ok_start _ _ _ Hm Hg1). lia.
  - intros Hcl. split.
    + destruct (floor_le _ _) as [[k1 w1]|]; [|done]. destruct Hf as (Hk1 & Hg1 & _). apply Z.ltb_ge.
      pose proof (ok_start _ _ _ Hm Hg1). pose proof (ok_vma _ _ _ Hm Hg1) as (_ & ? & _). specialize (Hcl _ _ Hg1). cbn in Hk1. lia.
    + destruct (ceil_gt _ _) as [[k1 w1]|]; [|done]. destruct Hc as (Hk1 & Hg1 & _). apply Z.ltb_ge.
      pose proof (ok_start _ _ _ Hm Hg1). pose proof (ok_vma _ _ _ Hm Hg1) as (_ & ? & _). specialize (Hcl _ _ Hg1). cbn in Hk1. lia.
Qed.
