(* ===== verification/VmaTreeOps.v ===== *)
(** * The steps of the range operations

    What cutting one area, putting its fragments back and merging the result
    with its neighbours does to the tree: to its invariant, to the view of
    every address, to the entries of other keys, and to the balance between
    the calls mapped objects received and the areas that name them. *)

From stdpp Require Import strings.
From S2P Require Import Prelude BTree Vma VmaTree VmaTreeInv.

(** ** Calls received against areas that name the object *)

Definition names (b : Z) (v : Vma) : bool :=
  match object_of v with Some b' => b' =? b | None => false end.

(** Weight of an area in the count of [b]: of all areas, or ([shm]) of the
    SysV attachments. *)
Definition weight (shm : bool) (b : Z) (v : Vma) : Z :=
  if names b v && (negb shm || flags_contains (v_flags v) Flags.SYSVSHM) then 1 else 0.

Definition call_weight (shm : bool) (b : Z) (c : VmCall) : Z :=
  match shm, c with
  | false, vma_open b' => if b' =? b then 1 else 0
  | false, vma_close b' => if b' =? b then -1 else 0
  | true, shm_open b' => if b' =? b then 1 else 0
  | true, shm_close b' => if b' =? b then -1 else 0
  | _, _ => 0
  end.

Definition net (shm : bool) (b : Z) (o : VmOps) : Z := sumZ (call_weight shm b) (vm_calls o).

Definition mapped (shm : bool) (b : Z) (m : list (Z * Vma)) : Z := sumZ (fun p => weight shm b p.2) m.

(** Opens minus closes, less the areas that name the object. *)
Definition slack (shm : bool) (b : Z) (t : VmaTree) : Z := net shm b (t_ops t) - mapped shm b (t_map t).

(** Every object has received one open more than closes for each area. *)
Definition balanced (t : VmaTree) : Prop :=
  forall shm b, (shm = true -> shm_installed (t_ops t) = true) -> slack shm b t = 0.

(** From [t] to [t'] the slack changes by [d]. *)
Definition shifts (d : bool -> Z -> Z) (t t' : VmaTree) : Prop :=
  shm_installed (t_ops t') = shm_installed (t_ops t) /\
  forall shm b, (shm = true -> shm_installed (t_ops t) = true) -> slack shm b t' = slack shm b t + d shm b.

Definition steady : VmaTree -> VmaTree -> Prop := shifts (fun _ _ => 0).

Lemma shifts_trans d1 d2 d3 t1 t2 t3 :
  shifts d1 t1 t2 -> shifts d2 t2 t3 -> (forall shm b, d3 shm b = d1 shm b + d2 shm b) -> shifts d3 t1 t3.
Proof.
  intros [Hi1 H1] [Hi2 H2] Hd. split; [congruence|]. intros shm b Hs.
  rewrite H2, H1, Hd by (rewrite ?Hi1; done). lia.
Qed.

Lemma steady_refl t : steady t t.
Proof. split; [done|]. intros. lia. Qed.

Lemma steady_trans t1 t2 t3 : steady t1 t2 -> steady t2 t3 -> steady t1 t3.
Proof. intros. by eapply shifts_trans. Qed.

(** Every area of device memory is one whole page: a range of whole pages
    does not cut it. *)
Definition single_page (v : Vma) : Prop := (PAGE_SIZE_BYTES | v_start v) /\ v_end v = v_start v + PAGE_SIZE_BYTES.

Definition devices_ok (m : list (Z * Vma)) : Prop :=
  forall k v, bt_get k m = Some v -> is_phys (v_backing v) -> single_page v.

(** The balance of calls stays, and so do whole device pages. *)
Definition calm (t t' : VmaTree) : Prop := steady t t' /\ (devices_ok (t_map t) -> devices_ok (t_map t')).

Lemma calm_refl t : calm t t.
Proof. split; [apply steady_refl|done]. Qed.

Lemma calm_trans t1 t2 t3 : calm t1 t2 -> calm t2 t3 -> calm t1 t3.
Proof. intros [] []. split; [by eapply steady_trans|by auto]. Qed.

Lemma steady_balanced t t' : steady t t' -> balanced t -> balanced t'.
Proof. intros [Hi Hs] Hb shm b H. rewrite Hi in H. rewrite Hs, Hb by done. lia. Qed.

Lemma net_call shm b c o : net shm b (call c o) = net shm b o + call_weight shm b c.
Proof. unfold net, call. cbn. rewrite sumZ_app, sumZ_cons, sumZ_nil. lia. Qed.

Lemma net_opened shm b v o :
  (shm = true -> shm_installed o = true) -> net shm b (vma_opened v o) = net shm b o + weight shm b v.
Proof.
  intros H. unfold vma_opened, dispatch, weight, names, object_of.
  destruct (v_backing v); cbn; try (destruct (negb _); lia).
  destruct (flags_contains _ _), shm; cbn; rewrite ?H by done; rewrite ?net_call; cbn;
    destruct (shm_installed o), (backing =? b) eqn:E; cbn; rewrite ?net_call; cbn; rewrite ?E; lia.
Qed.

Lemma net_closed shm b v o :
  (shm = true -> shm_installed o = true) -> net shm b (vma_closed v o) = net shm b o - weight shm b v.
Proof.
  intros H. unfold vma_closed, dispatch, weight, names, object_of.
  destruct (v_backing v); cbn; try (destruct (negb _); lia).
  destruct (flags_contains _ _), shm; cbn; rewrite ?H by done; rewrite ?net_call; cbn;
    destruct (shm_installed o), (backing =? b) eqn:E; cbn; rewrite ?net_call; cbn; rewrite ?E; lia.
Qed.

Lemma installed_opened v o : shm_installed (vma_opened v o) = shm_installed o.
Proof.
  unfold vma_opened, dispatch. destruct (negb _), (object_of v), (v_backing v); cbn;
  destruct (shm_installed o) eqn:E; cbn; congruence.
Qed.

Lemma installed_closed v o : shm_installed (vma_closed v o) = shm_installed o.
Proof.
  unfold vma_closed, dispatch. destruct (negb _), (object_of v), (v_backing v); cbn;
  destruct (shm_installed o) eqn:E; cbn; congruence.
Qed.

Lemma sum_insert (f : Z * Vma -> Z) k v m :
  bt_get k m = None -> sumZ f (bt_insert k v m) = f (k, v) + sumZ f m.
Proof.
  induction m as [|[k' v'] m IH]; cbn [bt_insert bt_get]; intros Hg.
  - rewrite !sumZ_cons, sumZ_nil. lia.
  - destruct (Z.ltb_spec k k'); [rewrite !sumZ_cons; lia|]. destruct (k =? k'); [done|].
    rewrite !sumZ_cons, IH by done. lia.
Qed.

Lemma sum_remove (f : Z * Vma -> Z) k v m :
  sorted m -> bt_get k m = Some v -> sumZ f m = f (k, v) + sumZ f (bt_remove k m).
Proof.
  induction m as [|[k' v'] m IH]; cbn [bt_get]; intros Hs Hg; [done|].
  pose proof (sorted_cons_inv _ _ Hs) as [Hs' Hlt]. unfold bt_remove. rewrite filter_cons. cbn.
  destruct (Z.eqb_spec k k') as [->|Hne].
  - injection Hg as ->. rewrite decide_False by (by intros []). rewrite sumZ_cons. f_equal.
    symmetry. f_equal. apply remove_absent. intros [k1 v1] Hin. specialize (Hlt _ Hin). cbn in *. lia.
  - rewrite decide_True by done. rewrite !sumZ_cons, IH by done. unfold bt_remove. lia.
Qed.

(** ** Primitive changes of the state *)

Definition put (w : Vma) (t : VmaTree) : VmaTree :=
  {| t_map := bt_insert (v_start w) w (t_map t); t_ops := vma_opened w (t_ops t) |}.

Definition take (k : Z) (t : VmaTree) : VmaTree := set_map (bt_remove k (t_map t)) t.

Definition close (v : Vma) (t : VmaTree) : VmaTree := set_ops (vma_closed v (t_ops t)) t.

Lemma wp_map_take k (Q : option Vma -> VmaTree -> Prop) t :
  Q (bt_get k (t_map t)) (take k t) -> wp (Tree.map_take k) Q t.
Proof. done. Qed.

Lemma wp_map_put w (Q : unit -> VmaTree -> Prop) t :
  Q tt (put w t) -> wp (Tree.map_put (v_start w) w) Q t.
Proof. done. Qed.

Lemma wp_vma_closed v (Q : unit -> VmaTree -> Prop) t : Q tt (close v t) -> wp (Tree.vma_closed v) Q t.
Proof. done. Qed.

Lemma put_steady w t : bt_get (v_start w) (t_map t) = None -> steady t (put w t).
Proof.
  intros Hg. split; [apply installed_opened|]. intros shm b Hs. unfold slack, put, mapped. cbn.
  rewrite net_opened, sum_insert by done. cbn. lia.
Qed.

Lemma take_shifts k v t :
  sorted (t_map t) -> bt_get k (t_map t) = Some v -> shifts (fun shm b => weight shm b v) t (take k t).
Proof.
  intros Hs Hg. split; [done|]. intros shm b _. unfold slack, take, mapped. cbn.
  rewrite (sum_remove _ k v (t_map t)) by done. cbn. lia.
Qed.

Lemma close_shifts v t : shifts (fun shm b => - weight shm b v) t (close v t).
Proof.
  split; [apply installed_closed|]. intros shm b Hs. unfold slack, close. cbn. rewrite net_closed by done. lia.
Qed.

(** ** Fragments in ascending order within a gap of the tree *)

Fixpoint within (lo : Z) (ws : list Vma) (hi : Z) : Prop :=
  match ws with
  | [] => lo <= hi
  | w :: ws' => lo <= v_start w /\ vma_ok w /\ within (v_end w) ws' hi
  end.

Fixpoint frag_view (ws : list Vma) (a : Z) (d : option Page) : option Page :=
  match ws with
  | [] => d
  | w :: ws' => if contains w a then Some (page_at w a) else frag_view ws' a d
  end.

Definition puts (ws : list Vma) (t : VmaTree) : VmaTree := foldl (fun t w => put w t) t ws.

Lemma within_le lo ws hi : within lo ws hi -> lo <= hi.
Proof.
  revert lo. induction ws as [|w ws IH]; intros lo; cbn; [done|].
  intros (? & (_ & ? & _) & Hw). apply IH in Hw. lia.
Qed.

Lemma within_elem lo ws hi w : within lo ws hi -> w ∈ ws -> lo <= v_start w /\ v_end w <= hi /\ vma_ok w.
Proof.
  revert lo. induction ws as [|w' ws IH]; intros lo Hw Hin; [by apply not_elem_of_nil in Hin|].
  destruct Hw as (Hlo & Hok & Hw). apply elem_of_cons in Hin as [->|Hin].
  - apply within_le in Hw. done.
  - destruct (IH _ Hw Hin) as (? & ? & ?). destruct Hok as (_ & ? & _). split_and!; [lia|lia|done].
Qed.

Lemma frag_view_out lo ws hi a d : within lo ws hi -> a < lo \/ hi <= a -> frag_view ws a d = d.
Proof.
  intros Hw Ha. assert (forall w, w ∈ ws -> contains w a = false) as Hno.
  { intros w Hin. destruct (within_elem _ _ _ _ Hw Hin) as (? & ? & _). apply contains_false. lia. }
  clear Hw. induction ws as [|w ws IH]; [done|]. cbn. rewrite (Hno w) by left. apply IH. intros. apply Hno. by right.
Qed.

Lemma puts_spec ws lo hi t :
  tree_ok (t_map t) -> clear (t_map t) lo hi -> within lo ws hi ->
  tree_ok (t_map (puts ws t)) /\
  (forall a, view (t_map (puts ws t)) a = frag_view ws a (view (t_map t) a)) /\
  (forall k, k < lo \/ hi <= k -> bt_get k (t_map (puts ws t)) = bt_get k (t_map t)) /\
  (forall w, w ∈ ws -> bt_get (v_start w) (t_map (puts ws t)) = Some w) /\
  steady t (puts ws t).
Proof.
  revert lo t. induction ws as [|w ws IH]; intros lo t Hm Hc Hw.
  { split_and!; [done..| |apply steady_refl]. intros w Hw'. by apply not_elem_of_nil in Hw'. }
  destruct Hw as (Hlo & Hok & Hw). pose proof (within_le _ _ _ Hw) as Hhi.
  assert (Hcw : clear (t_map t) (v_start w) (v_end w)) by (eapply clear_sub; [done|lia..]).
  pose proof Hok as (_ & Hlt & _).
  assert (Hm1 : tree_ok (t_map (put w t))) by (by apply insert_ok).
  assert (Hc1 : clear (t_map (put w t)) (v_end w) hi).
  { apply insert_clear; [done| |lia]. eapply clear_sub; [exact Hc|lia..]. }
  destruct (IH (v_end w) (put w t) Hm1 Hc1 Hw) as (Hm' & Hv & Hg & Hin & Hst).
  cbn [puts foldl]. fold (puts ws (put w t)). split_and!; [done|..].
  - intros a. rewrite Hv. cbn [put t_map frag_view]. rewrite insert_view by done.
    destruct (contains w a) eqn:E; [|done]. apply contains_iff in E.
    rewrite (frag_view_out (v_end w) ws hi); [done..|lia].
  - intros k Hk. rewrite Hg by lia. cbn. rewrite get_insert by apply Hm. by rewrite (proj2 (Z.eqb_neq _ _)) by lia.
  - intros w' [->|Hin']%elem_of_cons; [|by apply Hin]. rewrite Hg by lia. cbn. rewrite get_insert by apply Hm.
    by rewrite Z.eqb_refl.
  - eapply steady_trans; [|exact Hst]. apply put_steady. by apply clear_fresh.
Qed.

(** ** Cutting an area at the ends of a range *)

Definition lefts (v : Vma) (s : Z) : list Vma := if v_start v <? s then [sub v (v_start v) s] else [].
Definition rights (v : Vma) (e : Z) : list Vma := if e <? v_end v then [sub v e (v_end v)] else [].

(** The range meets [v], and does not cut it where that would lose the
    address of device memory. *)
Definition meets (start end_ : Z) (v : Vma) : Prop := v_start v < end_ /\ start < v_end v.
Definition splits_ok (start end_ : Z) (v : Vma) : Prop :=
  is_phys (v_backing v) -> start <= v_start v /\ v_end v <= end_.

(** [f] changes the attributes of an area the way [g] changes its pages, and
    leaves its extent and its object alone. *)
Record changes (f : Vma -> Vma) (g : Page -> Page) : Prop := {
  ch_start : forall v, v_start (f v) = v_start v;
  ch_end : forall v, v_end (f v) = v_end v;
  ch_backing : forall v, v_backing (f v) = v_backing v;
  ch_rss : forall v, v_rss (f v) = v_rss v;
  ch_page : forall v a, page_at (f v) a = g (page_at v a);
}.

Lemma changes_ok f g v : changes f g -> vma_ok v -> vma_ok (f v).
Proof.
  intros [Hs He Hb Hr _]. unfold vma_ok, len_bytes. by rewrite Hs, He, Hb, Hr.
Qed.

Lemma changes_contains f g v a : changes f g -> contains (f v) a = contains v a.
Proof. intros [Hs He _ _ _]. unfold contains. by rewrite Hs, He. Qed.

Lemma uva_new_lt x : x < USER_VA_END -> uva_new x = Some x.
Proof. intros. unfold uva_new. by rewrite (proj2 (Z.ltb_lt _ _)). Qed.

Section cut.
Context (v : Vma) (start end_ : Z).
Hypothesis Hv : vma_ok v.
Hypothesis Hr : start < end_.
Hypothesis Hmeets : meets start end_ v.

Definition cut_s : Z := Z.max start (v_start v).
Definition cut_e : Z := Z.min end_ (v_end v).
Local Abbreviation s := cut_s.
Local Abbreviation e := cut_e.

Lemma cut_bounds : v_start v <= s /\ s < e /\ e <= v_end v /\ v_end v < USER_VA_END.
Proof. destruct Hv as (_ & ? & ? & _), Hmeets. unfold cut_s, cut_e. lia. Qed.

Lemma wp_put_left msg (Q : unit -> VmaTree -> Prop) t :
  Q tt (puts (lefts v s) t) -> wp (Tree.put_left v s msg) Q t.
Proof.
  pose proof cut_bounds as Hb. unfold Tree.put_left, lefts. destruct (v_start v <? s) eqn:E; [|by intros H].
  intros HQ. rewrite uva_new_lt by lia. wp_step. wp_step. apply wp_bind.
  eapply wp_done; [apply clone_subrange_run; [done|lia]|]. by apply wp_map_put.
Qed.

Lemma wp_middle msg (Q : Vma -> VmaTree -> Prop) t :
  Q (sub v s e) t -> wp (Tree.middle v s e msg) Q t.
Proof.
  pose proof cut_bounds as Hb. intros HQ. unfold Tree.middle. rewrite !uva_new_lt by lia. do 4 wp_step.
  eapply wp_done; [apply clone_subrange_run; [done|lia]|done].
Qed.

Lemma wp_put_right msg (Q : unit -> VmaTree -> Prop) t :
  Q tt (puts (rights v e) t) -> wp (Tree.put_right v e msg) Q t.
Proof.
  pose proof cut_bounds as Hb. unfold Tree.put_right, rights. destruct (e <? v_end v) eqn:E; [|by intros H].
  intros HQ. rewrite uva_new_lt by lia. wp_step. wp_step. apply wp_bind.
  eapply wp_done; [apply clone_subrange_run; [done|lia]|]. by apply wp_map_put.
Qed.

(** The fragments with [mid], nothing or the changed inside part. *)
Lemma frags_within mid :
  (forall w, w ∈ mid -> vma_ok w) -> mid = [] \/ (exists w, mid = [w] /\ v_start w = s /\ v_end w = e) ->
  within (v_start v) (lefts v s ++ mid ++ rights v e) (v_end v).
Proof.
  intros Hok Hmid. pose proof cut_bounds as Hb.
  assert (within e (rights v e) (v_end v)) as Hright.
  { unfold rights. destruct (Z.ltb_spec e (v_end v)); cbn; [|lia].
    split; [lia|]. split; [apply sub_ok; [done|lia..]|lia]. }
  assert (within s (mid ++ rights v e) (v_end v)) as Hmid'.
  { destruct Hmid as [->|(w & -> & Hs & He)].
    - revert Hright. destruct (rights v e); cbn; [lia|]. intros (? & ? & ?). split; [lia|done].
    - cbn. rewrite Hs, He. split; [lia|]. split; [apply Hok; left|done]. }
  unfold lefts. destruct (Z.ltb_spec (v_start v) s); cbn [app within].
  - cbn [sub v_start v_end]. split; [lia|]. split; [apply sub_ok; [done|lia..]|done].
  - replace (v_start v) with s by lia. done.
Qed.

Lemma frags_view mid a d :
  splits_ok start end_ v -> mid = [] \/ (exists w, mid = [w] /\ v_start w = s /\ v_end w = e) ->
  frag_view (lefts v s ++ mid ++ rights v e) a d =
    if contains v a then
      if (s <=? a) && (a <? e) then frag_view mid a d else Some (page_at v a)
    else d.
Proof.
  intros Hsp Hmid. pose proof cut_bounds as Hb.
  assert (Hphys : is_phys (v_backing v) -> s = v_start v /\ e = v_end v).
  { intros Hp. destruct (Hsp Hp). unfold cut_s, cut_e. lia. }
  assert (Hr' : frag_view (rights v e) a d = if (e <=? a) && (a <? v_end v) then Some (page_at v a) else d).
  { unfold rights. destruct (Z.ltb_spec e (v_end v)); cbn.
    - unfold contains. cbn. destruct ((e <=? a) && (a <? v_end v)); [|done].
      rewrite sub_page; [done|]. intros Hp. destruct (Hphys Hp). lia.
    - destruct (Z.leb_spec e a), (Z.ltb_spec a (v_end v)); cbn; done || lia. }
  assert (Hm' : frag_view (mid ++ rights v e) a d =
    if (s <=? a) && (a <? e) then frag_view mid a d else frag_view (rights v e) a d).
  { destruct Hmid as [->|(w & -> & Hs & He)]; cbn [app frag_view].
    - rewrite Hr'. destruct (Z.leb_spec s a), (Z.ltb_spec a e), (Z.leb_spec e a), (Z.ltb_spec a (v_end v)); cbn; done || lia.
    - unfold contains. rewrite Hs, He. by destruct ((s <=? a) && (a <? e)). }
  assert (Hcv : contains v a = (v_start v <=? a) && (a <? v_end v)) by done.
  unfold lefts. destruct (Z.ltb_spec (v_start v) s); cbn [app frag_view].
  - rewrite sub_page by done. rewrite Hm', Hr', Hcv. unfold contains. cbn.
    destruct (Z.leb_spec (v_start v) a), (Z.ltb_spec a s), (Z.leb_spec s a), (Z.ltb_spec a e), (Z.leb_spec e a), (Z.ltb_spec a (v_end v)); cbn; done || lia.
  - rewrite Hm', Hr', Hcv.
    destruct (Z.leb_spec (v_start v) a), (Z.leb_spec s a), (Z.ltb_spec a e), (Z.leb_spec e a), (Z.ltb_spec a (v_end v)); cbn; done || lia.
Qed.

End cut.

(** ** One area rewritten *)

(** [vw] with [h] applied between [s] and [e]. *)
Definition over (h : Page -> option Page) (s e : Z) (vw : Z -> option Page) (a : Z) : option Page :=
  if (s <=? a) && (a <? e) then vw a ≫= h else vw a.

(** The result of cutting [v] out of [t] and putting parts of it back: the
    addresses of [v] change by [h] where the range covers them, nothing else
    changes. *)
Definition recut (h : Page -> option Page) (start end_ : Z) (v : Vma) (t t' : VmaTree) : Prop :=
  tree_ok (t_map t') /\
  (forall a, view (t_map t') a =
     if contains v a then over h start end_ (view (t_map t)) a else view (t_map t) a) /\
  (forall k, k < v_start v \/ v_end v <= k -> bt_get k (t_map t') = bt_get k (t_map t)).

Lemma puts_frags_recut h mid v start end_ k t :
  tree_ok (t_map t) -> bt_get k (t_map t) = Some v -> start < end_ -> meets start end_ v ->
  splits_ok start end_ v ->
  (forall w, w ∈ mid -> vma_ok w) ->
  mid = [] \/ (exists w, mid = [w] /\ v_start w = cut_s v start /\ v_end w = cut_e v end_) ->
  (forall a, cut_s v start <= a < cut_e v end_ -> frag_view mid a None = h (page_at v a)) ->
  let t' := puts (lefts v (cut_s v start) ++ mid ++ rights v (cut_e v end_)) (take k t) in
  recut h start end_ v t t' /\
  steady (take k t) t' /\
  (forall w, w ∈ lefts v (cut_s v start) ++ mid ++ rights v (cut_e v end_) -> bt_get (v_start w) (t_map t') = Some w).
Proof.
  intros Hm Hg Hr Hmt Hsp Hok Hmid Hh. pose proof (ok_vma _ _ _ Hm Hg) as Hv. pose proof (ok_start _ _ _ Hm Hg) as Hk.
  assert (Hm0 : tree_ok (t_map (take k t))) by by apply remove_ok.
  assert (Hc0 : clear (t_map (take k t)) (v_start v) (v_end v)) by by apply remove_clear.
  pose proof (frags_within v start end_ Hv Hr Hmt mid Hok Hmid) as Hw.
  destruct (puts_spec _ _ _ _ Hm0 Hc0 Hw) as (Hm' & Hview & Hget & Hin & Hst).
  cbn zeta. split_and!; [split_and!; [done|..]|done|].
  - intros a. rewrite Hview. rewrite (frags_view v start end_) by done. cbn [take set_map t_map].
    rewrite (remove_view _ _ v) by done. unfold over. destruct (contains v a) eqn:Ec; [|done].
    rewrite (view_in (t_map t) k v a) by (try done; by apply contains_iff). apply contains_iff in Ec.
    replace ((start <=? a) && (a <? end_)) with ((cut_s v start <=? a) && (a <? cut_e v end_)).
    2: { unfold cut_s, cut_e. destruct (Z.leb_spec (Z.max start (v_start v)) a), (Z.ltb_spec a (Z.min end_ (v_end v))),
           (Z.leb_spec start a), (Z.ltb_spec a end_); cbn; done || lia. }
    destruct ((cut_s v start <=? a) && (a <? cut_e v end_)) eqn:E; [|done]. to_prop. cbn. apply Hh. lia.
  - intros k' Hk'. rewrite Hget by done. cbn. rewrite get_remove by apply Hm. pose proof Hv as (_ & ? & _).
    by rewrite (proj2 (Z.eqb_neq _ _)) by lia.
  - exact Hin.
Qed.

(** Whole device pages survive a rewrite that does not cut them. *)
Lemma recut_devices h start end_ k v t t' :
  tree_ok (t_map t) -> bt_get k (t_map t) = Some v -> splits_ok start end_ v -> recut h start end_ v t t' ->
  (forall a q, h (page_at v a) = Some q ->
     p_content q = p_content (page_at v a) /\
     (is_phys (v_backing v) -> exists w, bt_get (v_start v) (t_map t') = Some w /\ v_end w = v_end v)) ->
  devices_ok (t_map t) -> devices_ok (t_map t').
Proof.
  intros Hm Hg Hsp (Hm' & Hv & Hk) Hh Hd k' w Hg' Hph. pose proof (ok_start _ _ _ Hm' Hg') as ->.
  pose proof (ok_vma _ _ _ Hm' Hg') as (_ & ? & _).
  destruct (decide (v_start v <= v_start w < v_end v)) as [Hin|Hout]; [|eapply Hd; [|done]; rewrite <- Hk; [done|lia]].
  pose proof (view_in _ _ _ (v_start w) Hm' Hg' ltac:(lia)) as Hvw. rewrite Hv, (proj2 (contains_iff v _)) in Hvw by done.
  unfold over in Hvw. rewrite (view_in _ _ _ _ Hm Hg Hin) in Hvw.
  assert (Hpv : forall q, is_phys (p_content q) -> p_content q = p_content (page_at v (v_start w)) -> is_phys (v_backing v)).
  { intros q Hq Heq. rewrite Heq in Hq. cbn in Hq. by destruct (v_backing v). }
  assert (Hpw : is_phys (p_content (page_at w (v_start w)))) by (cbn; by destruct (v_backing w)).
  destruct ((start <=? v_start w) && (v_start w <? end_)) eqn:E; cbn in Hvw.
  - destruct (Hh _ _ Hvw) as [Hc Hw0]. pose proof (Hpv _ Hpw Hc) as Hvp. destruct (Hw0 Hvp) as (w0 & Hg0 & He0).
    pose proof (ok_start _ _ _ Hm' Hg0) as Hs0. destruct (Hd _ _ Hg Hvp) as [Hal Hend].
    destruct (decide (v_start w = v_start v)) as [Heq|Hne].
    + rewrite Heq in Hg'. replace w with w0 by congruence. unfold single_page. rewrite <- Hs0, He0. done.
    + pose proof (ok_disjoint _ Hm' _ _ _ _ Hg0 Hg' ltac:(lia)). lia.
  - exfalso. apply (inj Some) in Hvw. pose proof (Hpv _ Hpw ltac:(by rewrite Hvw)) as Hvp. destruct (Hsp Hvp).
    apply andb_false_iff in E as [E|E]; to_prop; lia.
Qed.

(** The taken original is closed after its fragments were opened: balance. *)
Lemma close_steady k v t t' :
  tree_ok (t_map t) -> bt_get k (t_map t) = Some v -> steady (take k t) t' -> steady t (close v t').
Proof.
  intros Hm Hg Hst. eapply shifts_trans; [by apply take_shifts, Hg; apply Hm|..].
  - eapply shifts_trans; [exact Hst|apply close_shifts|]. intros. by rewrite Z.add_0_l.
  - intros. cbn. lia.
Qed.

Lemma rewrite_one_parts f g start end_ v k msg t :
  changes f g ->
  tree_ok (t_map t) -> bt_get k (t_map t) = Some v -> start < end_ -> meets start end_ v ->
  splits_ok start end_ v ->
  wp (Tree.rewrite_one start end_ v f msg) (fun key t' =>
    key = cut_s v start /\
    recut (fun p => Some (g p)) start end_ v t t' /\
    bt_get key (t_map t') = Some (f (sub v (cut_s v start) (cut_e v end_))) /\
    calm t t' /\
    forall w, w ∈ lefts v (cut_s v start) ++ rights v (cut_e v end_) -> bt_get (v_start w) (t_map t') = Some w) (take k t).
Proof.
  intros Hf Hm Hg Hr Hmt Hsp. pose proof (ok_vma _ _ _ Hm Hg) as Hv.
  pose proof (cut_bounds v start end_ Hv Hr Hmt) as Hb.
  set (mid := f (sub v (cut_s v start) (cut_e v end_))).
  assert (Hmid : v_start mid = cut_s v start /\ v_end mid = cut_e v end_).
  { unfold mid. by rewrite (ch_start f g Hf), (ch_end f g Hf). }
  assert (Hcut : cut_ok v (cut_s v start)). { intros Hp. destruct (Hsp Hp). unfold cut_s. lia. }
  destruct (puts_frags_recut (fun p => Some (g p)) [mid] v start end_ k t) as (Hrec & Hst & Hget); try done.
  - intros w ->%list_elem_of_singleton. eapply changes_ok; [done|]. apply sub_ok; [done|lia..].
  - right. eauto.
  - intros a Ha. cbn. rewrite (proj2 (contains_iff mid a)) by lia. unfold mid.
    rewrite (ch_page f g Hf). by rewrite sub_page.
  - unfold Tree.rewrite_one. fold (cut_s v start) (cut_e v end_).
    apply wp_bind, (wp_put_left v start end_); [done..|]. apply wp_bind, (wp_middle v start end_); [done..|]. fold mid.
    apply wp_bind, wp_map_put. apply wp_bind, (wp_put_right v start end_); [done..|]. apply wp_bind, wp_vma_closed. apply wp_ret.
    replace (puts (rights v (cut_e v end_)) (put mid (puts (lefts v (cut_s v start)) (take k t))))
      with (puts (lefts v (cut_s v start) ++ [mid] ++ rights v (cut_e v end_)) (take k t))
      by (unfold puts; rewrite !foldl_app; done).
    assert (Hgm : bt_get (cut_s v start) (t_map (puts (lefts v (cut_s v start) ++ [mid] ++ rights v (cut_e v end_)) (take k t))) = Some mid).
    { specialize (Hget mid ltac:(apply elem_of_app; right; left)). rewrite <- Hget. f_equal. by destruct Hmid. }
    destruct Hmid as [-> Hme]. split_and!; [done|exact Hrec|exact Hgm|split; [by eapply close_steady|]|].
    + eapply (recut_devices (fun p => Some (g p)) start end_ k v); [done..|]. intros a q [= <-]. split.
      * rewrite <- (ch_page f g Hf). cbn. by rewrite (ch_backing f g Hf), (ch_start f g Hf).
      * intros Hp. destruct (Hsp Hp). exists mid. replace (v_start v) with (cut_s v start) by (unfold cut_s; lia).
        split; [exact Hgm|]. rewrite Hme. unfold cut_e. lia.
    + intros w Hw. apply Hget. rewrite !elem_of_app in *. tauto.
Qed.

Lemma rewrite_one_spec f g start end_ v k msg t :
  changes f g ->
  tree_ok (t_map t) -> bt_get k (t_map t) = Some v -> start < end_ -> meets start end_ v ->
  splits_ok start end_ v ->
  wp (Tree.rewrite_one start end_ v f msg) (fun key t' =>
    key = cut_s v start /\
    recut (fun p => Some (g p)) start end_ v t t' /\
    bt_get key (t_map t') = Some (f (sub v (cut_s v start) (cut_e v end_))) /\
    calm t t') (take k t).
Proof.
  intros. eapply wp_mono; [by eapply rewrite_one_parts|]. intros key t' (? & ? & ? & ? & _). done.
Qed.

(** ** Merging with the neighbours *)

Lemma weight_same shm b v w :
  v_flags v = v_flags w -> object_of v = object_of w -> weight shm b v = weight shm b w.
Proof. unfold weight, names. by intros -> ->. Qed.

Lemma replace_shifts k v w t :
  sorted (t_map t) -> bt_get k (t_map t) = Some v -> v_flags v = v_flags w -> object_of v = object_of w ->
  steady t (set_map (bt_insert k w (t_map t)) t).
Proof.
  intros Hs Hg Hf Ho. split; [done|]. intros shm b _. unfold slack, mapped. cbn.
  rewrite <- insert_remove, sum_insert by (rewrite ?get_remove, ?Z.eqb_refl by done; done).
  rewrite (sum_remove _ k v (t_map t)) by done. cbn. rewrite (weight_same shm b v w) by done. lia.
Qed.

(** [l] under [lk] absorbs its right neighbour [r] under [rk]. *)
Definition absorbed (lk : Z) (l : Vma) (rk : Z) (r : Vma) (t t' : VmaTree) : Prop :=
  bt_get lk (t_map t) = Some l /\ bt_get rk (t_map t) = Some r /\ mergeable_with_next l r = true /\
  t_map t' = bt_insert lk (joined l r) (bt_remove rk (t_map t)).

Lemma absorbed_get lk l rk r t t' :
  tree_ok (t_map t) -> absorbed lk l rk r t t' ->
  lk < rk /\ bt_get lk (t_map t') = Some (joined l r) /\ bt_get rk (t_map t') = None /\
  (forall k, k <> lk -> k <> rk -> bt_get k (t_map t') = bt_get k (t_map t)).
Proof.
  intros Hm (Hl & Hr & Hmg & Ht). apply mergeable_facts in Hmg as (He & _).
  pose proof (ok_start _ _ _ Hm Hl). pose proof (ok_start _ _ _ Hm Hr). destruct (ok_vma _ _ _ Hm Hl) as (_ & ? & _).
  assert (Hs := ok_sorted _ Hm). assert (Hs' := remove_sorted rk _ Hs). rewrite Ht.
  split; [lia|]. split; [by rewrite get_insert, Z.eqb_refl|]. split.
  - rewrite get_insert, get_remove, Z.eqb_refl by done. by rewrite (proj2 (Z.eqb_neq _ _)) by lia.
  - intros k ? ?. rewrite get_insert, get_remove by done. by rewrite !(proj2 (Z.eqb_neq _ _)) by lia.
Qed.

(** The take, close and store of a merge. *)
Lemma wp_absorb lk l rk r msg1 msg2 t :
  tree_ok (t_map t) -> bt_get lk (t_map t) = Some l -> bt_get rk (t_map t) = Some r ->
  mergeable_with_next l r = true ->
  wp (taken ← Tree.map_take rk; right ← expect taken msg1; Tree.vma_closed right ;; Tree.absorb lk right msg2)
    (fun _ t' => tree_ok (t_map t') /\ (forall a, view (t_map t') a = view (t_map t) a) /\
                 calm t t' /\ absorbed lk l rk r t t') t.
Proof.
  intros Hm Hl Hr Hmg. pose proof (mergeable_facts _ _ Hmg) as (He & _ & _ & _ & Hf & _ & _ & _ & _ & Ho & _).
  pose proof (ok_start _ _ _ Hm Hl). pose proof (ok_start _ _ _ Hm Hr). pose proof (ok_vma _ _ _ Hm Hl) as Hlok.
  pose proof (ok_vma _ _ _ Hm Hr) as Hrok. pose proof Hlok as (? & ? & ? & ? & ?). pose proof Hrok as (? & ? & ? & ? & ?).
  assert (Hs := ok_sorted _ Hm). apply wp_bind, wp_map_take. rewrite Hr. do 2 wp_step. apply wp_bind, wp_vma_closed.
  unfold Tree.absorb. do 2 wp_step. cbn [close take set_ops set_map t_map t_ops].
  assert (Hl' : bt_get lk (bt_remove rk (t_map t)) = Some l).
  { rewrite get_remove by done. by rewrite (proj2 (Z.eqb_neq _ _)) by lia. }
  rewrite Hl'. wp_step. wp_step. apply wp_bind. apply wp_add64.
  { unfold len_bytes, USER_VA_END, U64_MAX in *. lia. }
  apply wp_modify. destruct (merge_view _ _ _ _ _ Hm Hl Hr Hmg) as [Hm' Hv'].
  split_and!; [exact Hm'|exact Hv'| |done]. split.
  2: { intros Hd k w. cbn. rewrite get_insert by (by apply remove_sorted). destruct (k =? lk).
       - intros [= <-] Hp. cbn in Hp. exfalso. unfold mergeable_with_next in Hmg. do 8 (destruct (negb _); [done|]). by destruct (v_backing l).
       - rewrite get_remove by done. destruct (k =? rk); [done|]. apply Hd. }
  eapply shifts_trans; [apply (take_shifts rk r); done| |].
  - eapply shifts_trans; [apply (close_shifts r)| |intros; by rewrite Z.add_0_r].
    apply (replace_shifts lk l (joined l r) (close r (take rk t))); [by apply remove_sorted|done..].
  - intros. cbn. lia.
Qed.

Lemma wp_index k v (Q : Vma -> VmaTree -> Prop) t :
  bt_get k (t_map t) = Some v -> Q v t -> wp (Tree.index k) Q t.
Proof. intros Hg HQ. unfold Tree.index. do 2 wp_step. by rewrite Hg. Qed.

(** A merge attempt leaves the view alone; it changes the tree only by an
    absorption. *)
Definition merged (P : Z -> Vma -> Z -> Vma -> Prop) (t t' : VmaTree) : Prop :=
  tree_ok (t_map t') /\ (forall a, view (t_map t') a = view (t_map t) a) /\ calm t t' /\
  (t' = t \/ exists lk l rk r, P lk l rk r /\ absorbed lk l rk r t t').

Lemma try_merge_left_spec key cur t :
  tree_ok (t_map t) -> bt_get key (t_map t) = Some cur ->
  wp (Tree.try_merge_left key)
    (fun _ => merged (fun lk l rk r => rk = key /\ r = cur /\ floor_lt key (t_map t) = Some (lk, l)) t) t.
Proof.
  intros Hm Hg. unfold Tree.try_merge_left. do 2 wp_step.
  pose proof (floor_lt_nearest key (t_map t) (ok_sorted _ Hm)) as Hn.
  assert (Hsame : forall P, merged P t t) by (intros P; unfold merged; split_and!; [done..|apply calm_refl|by left]).
  destruct (floor_lt key (t_map t)) as [[lk l]|] eqn:E; [|by apply wp_ret].
  destruct Hn as (_ & Hl & _). apply wp_bind, (wp_index lk l); [done|]. apply wp_bind, (wp_index key cur); [done|].
  destruct (mergeable_with_next l cur) eqn:Hmg; cbn [negb]; [|by apply wp_ret].
  eapply wp_mono; [by apply wp_absorb|]. intros _ t' (? & ? & ? & ?). split_and!; [done..|].
  right. exists lk, l, key, cur. done.
Qed.

Lemma try_merge_right_spec key cur t :
  tree_ok (t_map t) -> bt_get key (t_map t) = Some cur ->
  wp (Tree.try_merge_right key) (fun _ => merged (fun lk l rk r => lk = key /\ l = cur) t) t.
Proof.
  intros Hm Hg. unfold Tree.try_merge_right. do 2 wp_step.
  pose proof (ceil_gt_nearest key (t_map t) (ok_sorted _ Hm)) as Hn.
  assert (Hsame : forall P, merged P t t) by (intros P; unfold merged; split_and!; [done..|apply calm_refl|by left]).
  destruct (ceil_gt key (t_map t)) as [[rk r]|] eqn:E; [|by apply wp_ret].
  destruct Hn as (_ & Hr & _). apply wp_bind, (wp_index key cur); [done|]. apply wp_bind, (wp_index rk r); [done|].
  destruct (mergeable_with_next cur r) eqn:Hmg; cbn [negb]; [|by apply wp_ret].
  eapply wp_mono; [by apply wp_absorb|]. intros _ t' (? & ? & ? & ?). split_and!; [done..|].
  right. exists key, cur, rk, r. done.
Qed.

(** After the left attempt, the area that holds what was at [key]. *)
Lemma floor_after_left key lk l cur t t' :
  tree_ok (t_map t) -> tree_ok (t_map t') -> absorbed lk l key cur t t' ->
  floor_lt key (t_map t) = Some (lk, l) -> floor_lt key (t_map t') = Some (lk, joined l cur).
Proof.
  intros Hm Hm' Habs Hfl. destruct (absorbed_get _ _ _ _ _ _ Hm Habs) as (Hlt & Hg1 & Hg2 & Hrest).
  pose proof (floor_lt_nearest key _ (ok_sorted _ Hm)) as Hn. rewrite Hfl in Hn. destruct Hn as (_ & _ & Hmax).
  eapply nearest_floor; [apply (floor_lt_nearest key), Hm'|cbn; lia|done|]. intros k' v' Hk' Hg'. cbn in Hk'.
  destruct (decide (k' = lk)) as [->|]; [lia|]. rewrite Hrest in Hg' by lia. by apply (Hmax _ v').
Qed.

(** Both attempts: the view stays; entries above survive, except a right
    neighbour whose pages are those of [cur]. *)
Definition settled (key : Z) (cur : Vma) (t t' : VmaTree) : Prop :=
  tree_ok (t_map t') /\ (forall a, view (t_map t') a = view (t_map t) a) /\ calm t t' /\
  (forall k, key < k ->
     bt_get k (t_map t') = bt_get k (t_map t) \/
     bt_get k (t_map t') = None /\
       exists r, bt_get k (t_map t) = Some r /\ v_end cur = k /\ forall a, page_at r a = page_at cur a).

Lemma settle_right key key' cur cur' t t1 t' :
  tree_ok (t_map t) -> tree_ok (t_map t1) -> (forall a, view (t_map t1) a = view (t_map t) a) -> calm t t1 ->
  (forall k, key < k -> bt_get k (t_map t1) = bt_get k (t_map t)) ->
  key' <= key -> v_end cur' = v_end cur -> (forall a, page_at cur' a = page_at cur a) ->
  merged (fun lk l rk r => lk = key' /\ l = cur') t1 t' -> settled key cur t t'.
Proof.
  intros Hm Hm1 Hv1 Hst1 Hsame Hle Hend Hpage (Hm' & Hv' & Hst' & Hch). split_and!; [done|..].
  - intros a. by rewrite Hv'.
  - by eapply calm_trans.
  - intros k Hk. rewrite <- Hsame by done.
    destruct Hch as [->|(lk & l & rk & r' & [-> ->] & Habs)]; [by left|].
    destruct (absorbed_get _ _ _ _ _ _ Hm1 Habs) as (_ & _ & Hnone & Hrest).
    destruct (decide (k = rk)) as [->|]; [|left; by rewrite Hrest by lia].
    right. split; [done|]. destruct Habs as (_ & Hr & Hmg & _). exists r'.
    pose proof (mergeable_facts _ _ Hmg) as (He & _). pose proof (ok_start _ _ _ Hm1 Hr).
    split_and!; [done|lia|]. intros a. destruct (joined_page _ _ a Hmg) as [_ <-]. apply Hpage.
Qed.

(** What a left attempt leaves at [key]: the area, or the neighbour that
    absorbed it. *)
Lemma left_attempt key cur t t1 :
  tree_ok (t_map t) -> bt_get key (t_map t) = Some cur ->
  merged (fun lk l rk r => rk = key /\ r = cur /\ floor_lt key (t_map t) = Some (lk, l)) t t1 ->
  exists key' cur',
    bt_get key' (t_map t1) = Some cur' /\ key' <= key /\ v_end cur' = v_end cur /\
    (forall a, page_at cur' a = page_at cur a) /\
    (forall k, key < k -> bt_get k (t_map t1) = bt_get k (t_map t)) /\
    (if contains_key key (t_map t1) then key' = key else floor_lt key (t_map t1) = Some (key', cur')).
Proof.
  intros Hm Hg (Hm1 & _ & _ & [->|(lk & l & rk & r & (-> & -> & Hfl) & Habs)]).
  - exists key, cur. unfold contains_key. rewrite Hg. by split_and!.
  - destruct (absorbed_get _ _ _ _ _ _ Hm Habs) as (Hlt & Hg1 & Hg2 & Hrest).
    exists lk, (joined l cur). unfold contains_key. rewrite Hg2. split_and!; [done|lia|done| | |exact (floor_after_left _ _ _ _ _ _ Hm Hm1 Habs Hfl)].
    + intros a. destruct Habs as (_ & _ & Hmg & _). destruct (joined_page _ _ a Hmg) as [-> ->]. done.
    + intros k Hk. apply Hrest; lia.
Qed.

Lemma merge_around_spec key cur t :
  tree_ok (t_map t) -> bt_get key (t_map t) = Some cur ->
  wp (Tree.merge_around key) (fun _ => settled key cur t) t.
Proof.
  intros Hm Hg. unfold Tree.merge_around. apply wp_bind. eapply wp_mono; [by apply try_merge_left_spec|].
  intros [] t1 Hmg. destruct (left_attempt _ _ _ _ Hm Hg Hmg) as (key' & cur' & Hg' & Hle & He & Hp & Hs & Hk).
  destruct Hmg as (Hm1 & Hv1 & Hst1 & _). apply wp_bind. unfold Tree.after_left. do 2 wp_step. wp_step.
  assert ((if contains_key key (t_map t1) then key
           else match floor_lt key (t_map t1) with Some (k, _) => k | None => key end) = key') as ->.
  { destruct (contains_key _ _); [done|]. by rewrite Hk. }
  eapply wp_mono; [by apply try_merge_right_spec|]. intros [] t' Hmg'. by eapply settle_right.
Qed.
