(* ===== verification/VmaTreeSpec.v ===== *)
(** * What the tree operations do

    Each operation of the tree against the view: insertion fills a clear
    range, removal empties one, and a rewrite applies a change to every page
    of a range and to no other. *)

From Stdlib Require Import Sorting.Sorted.
From stdpp Require Import strings.
From S2P Require Import Prelude BTree Vma VmaTree VmaTreeInv VmaTreeOps.

(** ** The keys an operation collects *)

(** [K] lists in ascending order the keys of the areas that meet the range. *)
Definition listing (start end_ : Z) (m : list (Z * Vma)) (K : list Z) : Prop :=
  StronglySorted Z.lt K /\ forall k, k ∈ K <-> exists v, bt_get k m = Some v /\ meets start end_ v.

Lemma keys_sorted (l : list (Z * Vma)) : sorted l -> StronglySorted Z.lt (map fst l).
Proof.
  induction l as [|p l IH]; intros Hs; cbn; [constructor|]. apply sorted_cons_inv in Hs as [Hs Hlt].
  constructor; [by apply IH|]. apply Forall_forall. intros k. rewrite list_elem_of_fmap.
  intros (q & -> & Hq). by apply Hlt.
Qed.

Lemma overlap_listing start end_ key m :
  tree_ok m -> (forall k v, bt_get k m = Some v -> k < key <-> k < end_) ->
  listing start end_ m (Tree.overlap_keys start key m).
Proof.
  intros Hm Hkey. unfold Tree.overlap_keys. split.
  - apply keys_sorted. apply filter_sorted. apply filter_sorted. apply Hm.
  - intros k. rewrite list_elem_of_fmap. split.
    + intros ([k' v] & -> & Hin). apply list_elem_of_filter in Hin as [Hv Hin]. cbn in *.
      apply range_lt_elem in Hin as [Hk Hg]; [|apply Hm]. exists v. split; [done|].
      unfold meets. rewrite <- (ok_start _ _ _ Hm Hg). split; [by apply (Hkey _ _ Hg)|done].
    + intros (v & Hg & Hk & Hv). exists (k, v). split; [done|]. apply list_elem_of_filter. split; [done|].
      apply range_lt_elem; [apply Hm|]. split; [|done]. apply (Hkey _ _ Hg). by rewrite (ok_start _ _ _ Hm Hg).
Qed.

Lemma raw_end_key_spec end_ key m :
  tree_ok m -> Tree.raw_end_key end_ = Some key ->
  end_ <= USER_VA_END /\ forall k v, bt_get k m = Some v -> k < key <-> k < end_.
Proof.
  intros Hm. unfold Tree.raw_end_key, uva_new. destruct (Z.ltb_spec end_ USER_VA_END).
  - intros [= <-]. split; [lia|done].
  - destruct (Z.eqb_spec end_ USER_VA_END) as [->|]; [|done]. rewrite (proj2 (Z.ltb_lt _ _)) by lia.
    intros [= <-]. split; [lia|]. intros k v Hg. pose proof (ok_start _ _ _ Hm Hg).
    destruct (ok_vma _ _ _ Hm Hg) as (? & ? & ? & _). lia.
Qed.

(** ** Walking the collected keys *)

Definition before (ks : list Z) (a : Z) : bool := match ks with [] => true | k :: _ => a <? k end.

Lemma sorted_app_lt (pre : list Z) k ks :
  StronglySorted Z.lt (pre ++ k :: ks) -> (forall x, x ∈ pre -> x < k) /\ (forall x, x ∈ ks -> k < x).
Proof.
  induction pre as [|y pre IH]; cbn; intros Hs; inversion Hs as [|? ? Hs' Hf]; subst.
  - split; [intros x Hx; by apply not_elem_of_nil in Hx|]. by apply Forall_forall.
  - destruct (IH Hs') as [H1 H2]. split; [|done]. rewrite Forall_forall in Hf.
    intros x [->|Hx]%elem_of_cons; [apply Hf, elem_mid|by apply H1].
Qed.

Lemma before_mono pre k ks a :
  StronglySorted Z.lt (pre ++ k :: ks) -> a < k -> before ks a = true.
Proof.
  intros Hs Ha. destruct (sorted_app_lt _ _ _ Hs) as [_ Hlt]. destruct ks as [|k' ks]; [done|].
  apply Z.ltb_lt. specialize (Hlt k' ltac:(left)). lia.
Qed.

Section walk.
Context (start end_ : Z) (m0 : list (Z * Vma)) (K : list Z).
Hypothesis Hm0 : tree_ok m0.
Hypothesis HK : listing start end_ m0 K.

(** Between a key and the next one only its own area is mapped. *)
Lemma gap pre k ks v a :
  K = pre ++ k :: ks -> bt_get k m0 = Some v -> k <= a -> before ks a = true ->
  start <= a < end_ -> contains v a = false -> view m0 a = None.
Proof.
  intros HKeq Hg Hka Hbf Ha Hc. apply view_none; [done|]. intros k' w Hg' Haw.
  apply contains_false in Hc. pose proof (ok_start _ _ _ Hm0 Hg). pose proof (ok_start _ _ _ Hm0 Hg').
  assert (Hin : k' ∈ K). { apply HK. exists w. split; [done|]. unfold meets. lia. }
  destruct HK as [Hs _]. rewrite HKeq in Hs, Hin. destruct (sorted_app_lt _ _ _ Hs) as [Hlt1 Hlt2].
  apply elem_of_app in Hin as [Hin|[->|Hin]%elem_of_cons].
  - specialize (Hlt1 _ Hin). pose proof (ok_disjoint _ Hm0 _ _ _ _ Hg' Hg Hlt1). lia.
  - replace w with v in * by congruence. done.
  - assert (a < k'); [|lia]. destruct ks as [|k2 ks]; [by apply not_elem_of_nil in Hin|]. cbn in Hbf. to_prop.
    apply elem_of_cons in Hin as [->|Hin]; [done|].
    destruct (sorted_app_lt (pre ++ [k]) k2 ks) as [_ Hlt3]; [by rewrite <- app_assoc|]. specialize (Hlt3 _ Hin). lia.
Qed.

Lemma later_clear pre k ks v a :
  K = pre ++ k :: ks -> bt_get k m0 = Some v -> before ks a = false -> contains v a = false.
Proof.
  intros HKeq Hg Hbf. destruct ks as [|k2 ks]; [done|]. cbn in Hbf. to_prop. apply contains_false.
  destruct HK as [Hs HK']. assert (Hin : k2 ∈ K) by (rewrite HKeq; apply elem_of_app; right; right; left).
  apply HK' in Hin as (w & Hg' & _). rewrite HKeq in Hs. destruct (sorted_app_lt _ _ _ Hs) as [_ Hlt].
  specialize (Hlt k2 ltac:(left)). pose proof (ok_disjoint _ Hm0 _ _ _ _ Hg Hg' Hlt). lia.
Qed.

Context (h : Page -> option Page).

(** The view after the keys before [ks] were handled. *)
Definition half (ks : list Z) (vw : Z -> option Page) : Prop :=
  forall a, vw a = if before ks a then over h start end_ (view m0) a else view m0 a.

Lemma half_init : half K (view m0).
Proof.
  intros a. unfold over. destruct (before K a) eqn:Hb; [|done].
  destruct ((start <=? a) && (a <? end_)) eqn:Ea; [|done]. to_prop.
  assert (view m0 a = None) as ->; [|done]. apply view_none; [done|]. intros k v Hg Ha.
  assert (Hin : k ∈ K). { apply HK. exists v. split; [done|]. unfold meets. lia. }
  pose proof (ok_start _ _ _ Hm0 Hg). destruct K as [|k1 K']; [by apply not_elem_of_nil in Hin|]. cbn in Hb. to_prop.
  destruct HK as [Hs _]. apply elem_of_cons in Hin as [->|Hin]; [lia|].
  destruct (sorted_app_lt [] k1 K' Hs) as [_ Hlt]. specialize (Hlt _ Hin). lia.
Qed.

Lemma half_step pre k ks v vw vw' :
  K = pre ++ k :: ks -> bt_get k m0 = Some v -> half (k :: ks) vw ->
  (forall a, vw' a = if contains v a then over h start end_ vw a else vw a) -> half ks vw'.
Proof.
  intros HKeq Hg Hhalf Hstep a. rewrite Hstep. specialize (Hhalf a). cbn in Hhalf.
  pose proof (ok_start _ _ _ Hm0 Hg) as Hk. destruct HK as [Hs _]. rewrite HKeq in Hs.
  destruct (Z.ltb_spec a k) as [Hak|Hak].
  - rewrite (before_mono pre k ks a) by done. rewrite (proj2 (contains_false v a)) by lia. done.
  - destruct (before ks a) eqn:Hb.
    + destruct (contains v a) eqn:Hc; unfold over; rewrite Hhalf; [done|].
      destruct ((start <=? a) && (a <? end_)) eqn:Ea; [|done]. to_prop. by rewrite (gap pre k ks v a).
    + by rewrite (later_clear pre k ks v a).
Qed.

(** A key whose area the change leaves as it is can be passed over. *)
Lemma half_skip pre k ks v vw :
  K = pre ++ k :: ks -> bt_get k m0 = Some v -> (forall a, h (page_at v a) = Some (page_at v a)) ->
  half (k :: ks) vw -> half ks vw.
Proof.
  intros HKeq Hg Hfix Hhalf. eapply half_step; [done..|]. intros a. destruct (contains v a) eqn:Hc; [|done].
  unfold over. destruct ((start <=? a) && (a <? end_)); [|done]. rewrite (Hhalf a).
  apply contains_iff in Hc. pose proof (ok_start _ _ _ Hm0 Hg). cbn [before]. rewrite (proj2 (Z.ltb_ge _ _)) by lia.
  rewrite (view_in m0 k v a) by done. cbn. by rewrite Hfix.
Qed.

Lemma half_nil vw : half [] vw <-> forall a, vw a = over h start end_ (view m0) a.
Proof. done. Qed.

End walk.

(** ** Loops that rewrite the areas of a range *)

(** What the body of the loop does for the key of an area [v]. [absorbs]:
    it may also take away the next area, when that one already has what the
    change gives to [v]. *)
Definition step_post (absorbs : bool) (h : Page -> option Page) (start end_ : Z)
    (R : VmaTree -> VmaTree -> Prop) (v : Vma) (t t' : VmaTree) : Prop :=
  tree_ok (t_map t') /\ R t t' /\
  (forall a, view (t_map t') a =
     if contains v a then over h start end_ (view (t_map t)) a else view (t_map t) a) /\
  (forall k, v_end v <= k ->
     bt_get k (t_map t') = bt_get k (t_map t) \/
     absorbs = true /\ bt_get k (t_map t') = None /\
       exists r, bt_get k (t_map t) = Some r /\ k = v_end v /\ forall a, h (page_at v a) = Some (page_at r a)).

Section loop.
Context (start end_ : Z) (t0 : VmaTree) (K : list Z) (h : Page -> option Page).
Context (R : VmaTree -> VmaTree -> Prop) (absorbs : bool) (body : Z -> M VmaTree unit).
(** The areas whose key may be gone when the loop reaches it, and the panics
    that may then end the loop. *)
Context (Gone : Vma -> Prop) (E : string -> Prop).
Hypothesis Hm0 : tree_ok (t_map t0).
Hypothesis HK : listing start end_ (t_map t0) K.
Hypothesis HRrefl : forall t, R t t.
Hypothesis HRtrans : forall t1 t2 t3, R t1 t2 -> R t2 t3 -> R t1 t3.
Hypothesis Hbody : forall k v t,
  bt_get k (t_map t0) = Some v -> meets start end_ v -> tree_ok (t_map t) -> bt_get k (t_map t) = Some v ->
  wp (body k) (fun _ => step_post absorbs h start end_ R v t) t.
Hypothesis Habsorb : forall k v r,
  absorbs = true -> bt_get k (t_map t0) = Some v -> meets start end_ v ->
  bt_get (v_end v) (t_map t0) = Some r -> meets start end_ r ->
  (forall a, h (page_at v a) = Some (page_at r a)) -> Gone r.
Hypothesis Hgone : forall v a, Gone v -> h (page_at v a) = Some (page_at v a).
Hypothesis Habsent : forall k v t,
  bt_get k (t_map t0) = Some v -> Gone v -> tree_ok (t_map t) -> bt_get k (t_map t) = None ->
  wpe E (body k) (fun _ t' => t' = t) t.

Definition loop_inv (ks : list Z) (t : VmaTree) : Prop :=
  (exists pre, K = pre ++ ks) /\ tree_ok (t_map t) /\ R t0 t /\
  half start end_ (t_map t0) h ks (view (t_map t)) /\
  (forall k v, k ∈ ks -> bt_get k (t_map t0) = Some v ->
     bt_get k (t_map t) = Some v \/ bt_get k (t_map t) = None /\ Gone v).

(** The keys still to do are as they were, or gone with no need of a change. *)
Lemma remaining_step pre k ks v t t' :
  K = pre ++ k :: ks -> bt_get k (t_map t0) = Some v -> meets start end_ v ->
  (forall k' v', k' ∈ ks -> bt_get k' (t_map t0) = Some v' ->
     bt_get k' (t_map t) = Some v' \/ bt_get k' (t_map t) = None /\ Gone v') ->
  step_post absorbs h start end_ R v t t' ->
  forall k' v', k' ∈ ks -> bt_get k' (t_map t0) = Some v' ->
    bt_get k' (t_map t') = Some v' \/ bt_get k' (t_map t') = None /\ Gone v'.
Proof.
  intros HKeq Hg0 Hmt Hrem (_ & _ & _ & Hk') k' v' Hin Hg'. pose proof HK as [Hs HK']. pose proof Hs as Hs0.
  rewrite HKeq in Hs. destruct (sorted_app_lt _ _ _ Hs) as [_ Hlt]. specialize (Hlt _ Hin).
  pose proof (ok_disjoint _ Hm0 _ _ _ _ Hg0 Hg' Hlt) as Hle.
  assert (Hmt' : meets start end_ v').
  { assert (k' ∈ K) as Hin' by (rewrite HKeq; apply elem_of_app; right; by right).
    apply HK' in Hin' as (w & Hgw & ?). by replace v' with w by congruence. }
  destruct (Hrem k' v' Hin Hg') as [Ho|[Ho ?]];
    destruct (Hk' k' Hle) as [Heq|(Hab & Hn & r & Hr & -> & Hp)]; rewrite ?Heq, ?Ho; auto.
  right. split; [done|]. replace v' with r in * by congruence. by apply (Habsorb k v r).
Qed.

Lemma rewrite_loop_or_panic :
  wpe E (for_each K body) (fun _ t' =>
    tree_ok (t_map t') /\ R t0 t' /\
    forall a, view (t_map t') a = over h start end_ (view (t_map t0)) a) t0.
Proof.
  eapply wpe_mono; [apply (wpe_for_each E body loop_inv)|].
  - split_and!; [by exists []|done|apply HRrefl| |by auto]. by apply half_init.
  - intros k ks t ((pre & HKeq) & Hm & HR & Hhalf & Hrem).
    assert (Hin : k ∈ K) by (rewrite HKeq; apply elem_mid).
    apply HK in Hin as (v & Hg0 & Hmt).
    assert (HKeq' : K = (pre ++ [k]) ++ ks) by (by rewrite <- app_assoc).
    destruct (Hrem k v ltac:(left) Hg0) as [Hg|[Hnone Hfix]].
    + apply wpe_wp. eapply wp_mono; [by apply (Hbody k v)|]. intros [] t' Hpost. pose proof Hpost as (Hm' & HR' & Hv' & _).
      split_and!; [by eexists|done|by eapply HRtrans|by eapply half_step|].
      eapply remaining_step; [done..| |done]. intros k' v' Hin2. apply Hrem. by right.
    + eapply wpe_mono; [by apply (Habsent k v)|]. intros [] t' ->.
      split_and!; [by eexists|done|done|eapply half_skip; [done..|by auto|done]|].
      intros k' v' Hin2. apply Hrem. by right.
  - intros [] t' (_ & ? & ? & ? & _). done.
Qed.

End loop.

Lemma rewrite_loop start end_ t0 K h R absorbs body (Gone : Vma -> Prop) :
  tree_ok (t_map t0) -> listing start end_ (t_map t0) K ->
  (forall t, R t t) -> (forall t1 t2 t3, R t1 t2 -> R t2 t3 -> R t1 t3) ->
  (forall k v t, bt_get k (t_map t0) = Some v -> meets start end_ v -> tree_ok (t_map t) ->
     bt_get k (t_map t) = Some v -> wp (body k) (fun _ => step_post absorbs h start end_ R v t) t) ->
  (forall k v r, absorbs = true -> bt_get k (t_map t0) = Some v -> meets start end_ v ->
     bt_get (v_end v) (t_map t0) = Some r -> meets start end_ r ->
     (forall a, h (page_at v a) = Some (page_at r a)) -> Gone r) ->
  (forall v a, Gone v -> h (page_at v a) = Some (page_at v a)) ->
  (forall k v t, bt_get k (t_map t0) = Some v -> Gone v -> tree_ok (t_map t) -> bt_get k (t_map t) = None ->
     wp (body k) (fun _ t' => t' = t) t) ->
  wp (for_each K body) (fun _ t' =>
    tree_ok (t_map t') /\ R t0 t' /\
    forall a, view (t_map t') a = over h start end_ (view (t_map t0)) a) t0.
Proof.
  intros Hm0 HK HRr HRt Hb Ha Hg Habs. apply (wp_of_wpe (fun _ => False)); [tauto|].
  apply (rewrite_loop_or_panic start end_ t0 K h R absorbs body Gone); [done..|].
  intros k v t ? ? ? ?. by apply wpe_wp, (Habs k v).
Qed.
