(* ===== verification/VmaTreeRange.v ===== *)
(** * Specifications of the tree operations

    Insertion, removal and the rewrites of a range, each by its effect on the
    view, on the invariant and on the balance of calls. *)

From stdpp Require Import strings.
From S2P Require Import Prelude BTree Vma VmaTree VmaTreeInv VmaTreeOps VmaTreeSpec.

(** ** Changes of attributes, on areas and on pages *)

Definition page_protect (prot : Z) (pkey : option Z) (p : Page) : Page :=
  {| p_prot := prot; p_may_prot := p_may_prot p;
     p_pkey := match pkey with Some k => k | None => p_pkey p end; p_flags := p_flags p;
     p_anon_name := p_anon_name p; p_uffd := p_uffd p; p_mempolicy := p_mempolicy p; p_content := p_content p |}.

Definition page_flags (f : Z -> Z) (p : Page) : Page :=
  {| p_prot := p_prot p; p_may_prot := p_may_prot p; p_pkey := p_pkey p; p_flags := f (p_flags p);
     p_anon_name := p_anon_name p; p_uffd := p_uffd p; p_mempolicy := p_mempolicy p; p_content := p_content p |}.

Definition page_uffd (ctx : option Z) (p : Page) : Page :=
  {| p_prot := p_prot p; p_may_prot := p_may_prot p; p_pkey := p_pkey p; p_flags := p_flags p;
     p_anon_name := p_anon_name p; p_uffd := ctx; p_mempolicy := p_mempolicy p; p_content := p_content p |}.

Definition page_name (n : option string) (p : Page) : Page :=
  {| p_prot := p_prot p; p_may_prot := p_may_prot p; p_pkey := p_pkey p; p_flags := p_flags p;
     p_anon_name := n; p_uffd := p_uffd p; p_mempolicy := p_mempolicy p; p_content := p_content p |}.

Definition page_policy (f : option MemPolicy -> option MemPolicy) (p : Page) : Page :=
  {| p_prot := p_prot p; p_may_prot := p_may_prot p; p_pkey := p_pkey p; p_flags := p_flags p;
     p_anon_name := p_anon_name p; p_uffd := p_uffd p; p_mempolicy := f (p_mempolicy p); p_content := p_content p |}.

(** The new flag word of [update_flags_range]. *)
Definition flags_update (set clear f : Z) : Z :=
  if flags_contains f Flags.SECRETMEM
  then flags_difference (flags_union f (flags_difference set Flags.LOCKED_MASK)) (flags_difference clear Flags.LOCKED_MASK)
  else flags_difference (flags_union f set) clear.

(** The new flag word of [set_uffd_range]. *)
Definition flags_register (ctx : option Z) (modes f : Z) : Z :=
  match ctx with
  | Some _ => flags_union (flags_difference f Flags.UFFD_MASK) (Z.land modes Flags.UFFD_MASK)
  | None => flags_difference f Flags.UFFD_MASK
  end.

Definition flags_seal (f : Z) : Z := flags_union f Flags.SEALED.

Lemma protect_changes prot pkey : changes (Tree.protect prot pkey) (page_protect prot pkey).
Proof. by destruct pkey. Qed.

Lemma flags_changes set clear : changes (Tree.change_flags set clear) (page_flags (flags_update set clear)).
Proof.
  unfold Tree.change_flags.
  split; intros v; try intros a; try (by destruct (flags_contains (v_flags v) _)).
  unfold page_at, page_flags, flags_update. cbn. by destruct (flags_contains (v_flags v) _).
Qed.

Lemma uffd_changes ctx modes :
  changes (Tree.register_uffd ctx modes) (fun p => page_flags (flags_register ctx modes) (page_uffd ctx p)).
Proof. by destruct ctx. Qed.

Lemma seal_changes : changes Tree.seal (page_flags flags_seal).
Proof. done. Qed.

Lemma name_changes n : changes (set_anon_name n) (page_name n).
Proof. done. Qed.

Lemma policy_changes pol : changes (set_mempolicy pol) (page_policy (fun _ => pol)).
Proof. done. Qed.

(** [(f | a) & !b] twice is the same as once. *)
Lemma union_difference_idem f a b :
  flags_difference (flags_union (flags_difference (flags_union f a) b) a) b =
  flags_difference (flags_union f a) b.
Proof.
  unfold flags_difference, flags_union. apply Z.bits_inj. intros n. rewrite !Z.ldiff_spec, !Z.lor_spec, !Z.ldiff_spec, !Z.lor_spec.
  by destruct (Z.testbit f n), (Z.testbit a n), (Z.testbit b n).
Qed.

(** ** A rewrite followed by the merge attempts *)

Lemma take_absent k t : tree_ok (t_map t) -> bt_get k (t_map t) = None -> take k t = t.
Proof.
  intros Hm Hg. unfold take. rewrite remove_absent; [by destruct t|]. intros [k' v] Hin. cbn. intros ->.
  apply get_elem in Hin; [|apply Hm]. congruence.
Qed.

Lemma settled_step_post f g start end_ v t t1 t' :
  changes f g -> vma_ok v -> start < end_ -> meets start end_ v -> splits_ok start end_ v ->
  recut (fun p => Some (g p)) start end_ v t t1 -> calm t t1 ->
  settled (cut_s v start) (f (sub v (cut_s v start) (cut_e v end_))) t1 t' ->
  step_post true (fun p => Some (g p)) start end_ calm v t t'.
Proof.
  intros Hf Hv Hr Hmt Hsp (Hm1 & Hv1 & Hk1) Hst1 (Hm' & Hv' & Hst' & Hk').
  pose proof (cut_bounds v start end_ Hv Hr Hmt) as Hb. split_and!; [done|by eapply calm_trans|..].
  - intros a. by rewrite Hv', Hv1.
  - intros k Hk. destruct (Hk' k ltac:(lia)) as [Heq|(Hn & r & Hgr & He & Hp)]; rewrite <- (Hk1 k) by lia; [by left|].
    right. split_and!; [done..|]. exists r. rewrite (ch_end f g Hf) in He. cbn in He.
    split_and!; [done|lia|]. intros a. rewrite Hp, (ch_page f g Hf), sub_page; [done|].
    intros Hph. destruct (Hsp Hph). unfold cut_s. lia.
Qed.

Lemma rewrite_merge_spec f g start end_ v k msg t :
  changes f g ->
  tree_ok (t_map t) -> bt_get k (t_map t) = Some v -> start < end_ -> meets start end_ v -> splits_ok start end_ v ->
  wp (mid_key ← Tree.rewrite_one start end_ v f msg; Tree.merge_around mid_key)
    (fun _ => step_post true (fun p => Some (g p)) start end_ calm v t) (take k t).
Proof.
  intros Hf Hm Hg Hr Hmt Hsp. pose proof (ok_vma _ _ _ Hm Hg) as Hv.
  apply wp_bind. eapply wp_mono; [by eapply rewrite_one_spec|]. intros key t1 (-> & Hrec & Hget & Hst).
  eapply wp_mono; [apply merge_around_spec; [apply Hrec|exact Hget]|]. intros [] t' Hset.
  by eapply settled_step_post.
Qed.

(** No area of device memory is cut by the range. *)
Definition no_phys_cut (start end_ : Z) (m : list (Z * Vma)) : Prop :=
  forall k v, bt_get k m = Some v -> meets start end_ v -> splits_ok start end_ v.

(** The change [g] over the range, with the balance of calls and whole device
    pages kept. *)
Definition rewritten (g : Page -> Page) (start end_ : Z) (t t' : VmaTree) : Prop :=
  tree_ok (t_map t') /\ calm t t' /\
  forall a, view (t_map t') a = over (fun p => Some (g p)) start end_ (view (t_map t)) a.

Lemma overlap_listing_lt start end_ m : tree_ok m -> listing start end_ m (Tree.overlap_keys start end_ m).
Proof. intros Hm. by apply overlap_listing. Qed.

(** ** The walk over the collected keys is complete *)

(** Every address of the range is mapped by an area [objection] has nothing against. *)
Definition all_covered (objection : Vma -> option Error) (start end_ : Z) (m : list (Z * Vma)) : Prop :=
  forall a, start <= a < end_ -> exists k v, bt_get k m = Some v /\ v_start v <= a < v_end v /\ objection v = None.

Definition uncovered (objection : Vma -> option Error) (hole : Error) (start end_ : Z) (m : list (Z * Vma)) (e : Error) : Prop :=
  (e = hole /\ exists a, start <= a < end_ /\ view m a = None) \/
  (exists k v, bt_get k m = Some v /\ meets start end_ v /\ objection v = Some e).

Section coverage.
Context (objection : Vma -> option Error) (hole : Error) (start end_ : Z) (m : list (Z * Vma)).
Hypothesis Hm : tree_ok m.

(** What the walk knows at [cursor]: addresses below are covered, and areas
    it has passed end at or before it. *)
Definition walked (cursor : Z) (l : list (Z * Vma)) : Prop :=
  start <= cursor /\ sorted l /\
  (forall k v, (k, v) ∈ l -> k < end_ /\ bt_get k m = Some v) /\
  (forall a, start <= a < cursor -> exists k v, bt_get k m = Some v /\ v_start v <= a < v_end v /\ objection v = None) /\
  (forall k v, bt_get k m = Some v -> k < end_ -> (k, v) ∈ l \/ v_end v <= cursor).

Lemma walked_hole cursor l : walked cursor l -> (forall k v, (k, v) ∈ l -> cursor < k) -> cursor < end_ -> view m cursor = None.
Proof.
  intros (_ & _ & _ & _ & Hout) Hlt Hc. apply view_none; [done|]. intros k v Hg Ha.
  pose proof (ok_start _ _ _ Hm Hg). destruct (Hout k v Hg ltac:(lia)) as [Hin|]; [|lia]. specialize (Hlt _ _ Hin). lia.
Qed.

Lemma walked_pass cursor k v l c' :
  walked cursor ((k, v) :: l) -> cursor <= c' -> v_end v <= c' ->
  (forall a, cursor <= a < c' -> v_start v <= a < v_end v /\ objection v = None) -> walked c' l.
Proof.
  intros (Hs & Hso & Hin & Hcov & Hout) Hle Hend Hnew. apply sorted_cons_inv in Hso as [Hso _].
  destruct (Hin k v ltac:(left)) as [_ Hg]. split_and!; [lia|done|intros; apply Hin; by right|..].
  - intros a Ha. destruct (decide (a < cursor)); [apply Hcov; lia|]. exists k, v. split; [done|]. apply Hnew. lia.
  - intros k' v' Hg' Hk'. destruct (Hout k' v' Hg' Hk') as [[[= -> ->]|Hin']%elem_of_cons|]; [right; lia|by left|right; lia].
Qed.

Lemma coverage_spec l cursor :
  walked cursor l ->
  match Tree.coverage objection hole end_ cursor l with
  | Ok c => (c < end_ -> view m c = None /\ start <= c) /\ (end_ <= c -> all_covered objection start end_ m)
  | Err e => uncovered objection hole start end_ m e
  end.
Proof.
  revert cursor. induction l as [|[k v] l IH]; intros cursor Hw; cbn [Tree.coverage].
  - split.
    + intros Hc. split; [|apply Hw]. eapply walked_hole; [done| |done]. intros ? ? H. by apply not_elem_of_nil in H.
    + intros Hc a Ha. destruct Hw as (_ & _ & _ & Hcov & _). apply Hcov. lia.
  - pose proof Hw as (Hs & Hso & Hin & Hcov & Hout). destruct (Hin k v ltac:(left)) as [Hk Hg].
    pose proof (ok_start _ _ _ Hm Hg) as Hks. pose proof (ok_vma _ _ _ Hm Hg) as (_ & Hlt & _).
    apply sorted_cons_inv in Hso as [_ Hhead].
    bool_case (v_end v <=? cursor); [apply IH; eapply walked_pass; [done|lia..]|].
    bool_case (cursor <? v_start v).
    + left. split; [done|]. exists cursor. split; [lia|]. eapply walked_hole; [done| |lia].
      intros k' v' [[= -> ->]|Hin']%elem_of_cons; [lia|]. specialize (Hhead _ Hin'). cbn in Hhead. lia.
    + destruct (objection v) as [e|] eqn:Ea.
      * right. exists k, v. split_and!; [done| |done]. unfold meets. lia.
      * assert (Hw' : walked (v_end v) l) by (eapply walked_pass; [done|lia|lia|]; intros; split; [lia|done]).
        bool_case (end_ <=? v_end v); [|by apply IH]. split; [lia|]. intros _ a Ha. destruct Hw' as (_ & _ & _ & Hcov' & _).
        apply Hcov'. lia.
Qed.

End coverage.

Lemma covered_spec objection hole start end_ t :
  tree_ok (t_map t) -> start < end_ ->
  match Tree.covered objection hole start end_ t with
  | Ok _ => all_covered objection start end_ (t_map t)
  | Err e => uncovered objection hole start end_ (t_map t) e
  end.
Proof.
  intros Hm Hlt. unfold Tree.covered.
  pose proof (coverage_spec objection hole start end_ (t_map t) Hm (range_lt end_ (t_map t)) start) as Hc.
  assert (Hw : walked objection start end_ (t_map t) start (range_lt end_ (t_map t))).
  { split_and!; [lia|apply filter_sorted, Hm|intros k v; apply range_lt_elem, Hm|lia|].
    intros k v Hg Hk. left. apply range_lt_elem; [apply Hm|done]. }
  specialize (Hc Hw). destruct (Tree.coverage _ _ _ _ _) as [c|e]; [|done]. destruct Hc as [H1 H2].
  bool_case (c <? end_); [|by apply H2]. destruct (H1 E). left. split; [done|]. exists c. split; [lia|done].
Qed.

(** ** Insertion *)

Lemma insert_spec v t :
  tree_ok (t_map t) -> (v_start v < v_end v -> vma_ok v) ->
  wp (Tree.insert v) (fun r t' =>
    match r with
    | Ok _ =>
        v_start v < v_end v /\ clear (t_map t) (v_start v) (v_end v) /\ tree_ok (t_map t') /\ steady t t' /\
        ((is_phys (v_backing v) -> single_page v) -> devices_ok (t_map t) -> devices_ok (t_map t')) /\
        forall a, view (t_map t') a = if contains v a then Some (page_at v a) else view (t_map t) a
    | Err e => e = Inval /\ t' = t /\ (v_end v <= v_start v \/ ~ clear (t_map t) (v_start v) (v_end v))
    end) t.
Proof.
  intros Hm Hv. unfold Tree.insert. bool_case (v_end v <=? v_start v); [apply wp_ret; auto|]. specialize (Hv ltac:(lia)).
  do 2 wp_step. pose proof (clear_neighbours t (v_start v) (v_end v) Hm ltac:(lia)) as Hiff.
  destruct (match floor_le _ _ with Some _ => _ | None => _ end) eqn:E1.
  { apply wp_ret. split_and!; [done..|]. right. intros Hc. by apply Hiff in Hc as [? _]. }
  destruct (match ceil_gt _ _ with Some _ => _ | None => _ end) eqn:E2.
  { apply wp_ret. split_and!; [done..|]. right. intros Hc. by apply Hiff in Hc as [_ ?]. }
  pose proof (proj1 Hiff (conj eq_refl eq_refl)) as Hc. apply wp_bind, wp_map_put. apply wp_bind.
  eapply wp_mono; [apply (merge_around_spec (v_start v) v (put v t))|].
  - by apply insert_ok.
  - cbn. rewrite get_insert by apply Hm. by rewrite Z.eqb_refl.
  - intros [] t' (Hm' & Hv' & [Hst' Hd'] & _). apply wp_ret. split_and!; [lia|done|done| | |].
    + eapply steady_trans; [|done]. apply put_steady. by apply clear_fresh.
    + intros Hvd Hd. apply Hd'. intros k w. cbn. rewrite get_insert by apply Hm. destruct (k =? v_start v); [by intros [= <-]|apply Hd].
    + intros a. rewrite Hv'. by apply insert_view.
Qed.

(** ** Rewrites of a range *)

Lemma mprotect_spec start end_ prot pkey t :
  tree_ok (t_map t) -> no_phys_cut start end_ (t_map t) ->
  wp (Tree.mprotect_range_with_pkey start end_ prot pkey) (fun r t' =>
    match r with
    | Ok _ => start < end_ /\ all_covered (Tree.may_admit prot) start end_ (t_map t) /\
              rewritten (page_protect prot pkey) start end_ t t'
    | Err e => t' = t /\ (e = Inval /\ end_ <= start \/ uncovered (Tree.may_admit prot) Inval start end_ (t_map t) e)
    end) t.
Proof.
  intros Hm Hph. unfold Tree.mprotect_range_with_pkey. bool_case (end_ <=? start); [apply wp_ret; auto|].
  do 2 wp_step. pose proof (covered_spec (Tree.may_admit prot) Inval start end_ t Hm ltac:(lia)) as Hc.
  destruct (Tree.covered _ _ _ _ _) as [[]|e]; [|apply wp_ret; auto]. do 2 wp_step. apply wp_bind.
  eapply wp_mono; [eapply (rewrite_loop start end_ t _ (fun p => Some (page_protect prot pkey p)) calm true)
    with (Gone := fun v => forall a, page_protect prot pkey (page_at v a) = page_at v a)|].
  - done.
  - by apply overlap_listing_lt.
  - apply calm_refl.
  - apply calm_trans.
  - intros k v t1 Hg Hmt Hm1 Hg1. unfold Tree.mprotect_step. apply wp_bind, wp_map_take. rewrite Hg1.
    eapply rewrite_merge_spec; [apply protect_changes|done|done|lia|done|by eapply Hph].
  - intros k v r _ Hg Hmt Hgr Hmr Hp a. specialize (Hp a). apply (inj Some) in Hp. rewrite <- Hp. by destruct pkey.
  - intros v a Hgone. by rewrite Hgone.
  - intros k v t1 Hg Hgone Hm1 Hn. unfold Tree.mprotect_step. apply wp_bind, wp_map_take. rewrite Hn.
    apply wp_ret. by apply take_absent.
  - intros [] t' Hpost. apply wp_ret. split_and!; [lia|done|exact Hpost].
Qed.

(** No area of the range already has what the change gives to the area on
    its left. *)
Definition stays_apart (g : Page -> Page) (start end_ : Z) (m : list (Z * Vma)) : Prop :=
  forall k v r, bt_get k m = Some v -> meets start end_ v -> bt_get (v_end v) m = Some r -> meets start end_ r ->
    g (page_at v (v_end v)) <> page_at r (v_end v).

Lemma rewrite_merge_loop f g start end_ t :
  changes f g -> tree_ok (t_map t) -> start < end_ -> no_phys_cut start end_ (t_map t) ->
  stays_apart g start end_ (t_map t) ->
  wp (for_each (Tree.overlap_keys start end_ (t_map t)) (Tree.rewrite_merge_step start end_ f))
    (fun _ => rewritten g start end_ t) t.
Proof.
  intros Hf Hm Hr Hph Hap.
  apply (rewrite_loop start end_ t _ (fun p => Some (g p)) calm true) with (Gone := fun _ => False).
  - done.
  - by apply overlap_listing_lt.
  - apply calm_refl.
  - apply calm_trans.
  - intros k v t1 Hg Hmt Hm1 Hg1. unfold Tree.rewrite_merge_step. apply wp_bind, wp_map_take. rewrite Hg1. do 2 wp_step.
    eapply rewrite_merge_spec; [done..|by eapply Hph].
  - intros k v r _ Hg Hmt Hgr Hmr Hp. eapply (Hap k v r); [done..|]. specialize (Hp (v_end v)). congruence.
  - done.
  - done.
Qed.

(** Without that, the loop may also end at a key that the step before it
    absorbed; in no other way. *)
Lemma rewrite_merge_loop_or_panic f g start end_ t :
  changes f g -> (forall v a, g (g (page_at v a)) = g (page_at v a)) ->
  tree_ok (t_map t) -> start < end_ -> no_phys_cut start end_ (t_map t) ->
  wpe (eq "collected key") (for_each (Tree.overlap_keys start end_ (t_map t)) (Tree.rewrite_merge_step start end_ f))
    (fun _ => rewritten g start end_ t) t.
Proof.
  intros Hf Hid Hm Hr Hph.
  apply (rewrite_loop_or_panic start end_ t _ (fun p => Some (g p)) calm true)
    with (Gone := fun v => forall a, g (page_at v a) = page_at v a).
  - done.
  - by apply overlap_listing_lt.
  - apply calm_refl.
  - apply calm_trans.
  - intros k v t1 Hg Hmt Hm1 Hg1. unfold Tree.rewrite_merge_step. apply wp_bind, wp_map_take. rewrite Hg1. do 2 wp_step.
    eapply rewrite_merge_spec; [done..|by eapply Hph].
  - intros k v r _ Hg Hmt Hgr Hmr Hp a. specialize (Hp a). apply (inj Some) in Hp. rewrite <- Hp. apply Hid.
  - intros v a Hgone. by rewrite Hgone.
  - intros k v t1 Hg Hgone Hm1 Hn. unfold Tree.rewrite_merge_step. apply wpe_bind_wp, wp_map_take. by rewrite Hn.
Qed.

Lemma update_flags_spec start end_ set clr t :
  tree_ok (t_map t) -> start < end_ -> no_phys_cut start end_ (t_map t) ->
  stays_apart (page_flags (flags_update set clr)) start end_ (t_map t) ->
  wp (Tree.update_flags_range start end_ set clr)
    (fun _ => rewritten (page_flags (flags_update set clr)) start end_ t) t.
Proof.
  intros. unfold Tree.update_flags_range. rewrite (proj2 (Z.leb_gt _ _)) by done. do 2 wp_step.
  by apply rewrite_merge_loop; [apply flags_changes|..].
Qed.

Lemma set_uffd_spec start end_ ctx modes t :
  let g := fun p => page_flags (flags_register ctx modes) (page_uffd ctx p) in
  tree_ok (t_map t) -> start < end_ -> no_phys_cut start end_ (t_map t) -> stays_apart g start end_ (t_map t) ->
  wp (Tree.set_uffd_range start end_ ctx modes) (fun _ => rewritten g start end_ t) t.
Proof.
  intros g ? ? ? ?. unfold Tree.set_uffd_range. rewrite (proj2 (Z.leb_gt _ _)) by done. do 2 wp_step.
  by apply rewrite_merge_loop; [apply uffd_changes|..].
Qed.

Lemma rewrite_alone_loop f g start end_ t :
  changes f g -> tree_ok (t_map t) -> start < end_ -> no_phys_cut start end_ (t_map t) ->
  wp (for_each (Tree.overlap_keys start end_ (t_map t)) (fun k =>
        o ← Tree.map_take k; v ← expect o "collected key"; Tree.rewrite_one start end_ v f "UVA in range" ;; ret tt))
    (fun _ => rewritten g start end_ t) t.
Proof.
  intros Hf Hm Hr Hph.
  apply (rewrite_loop start end_ t _ (fun p => Some (g p)) calm false) with (Gone := fun _ => False).
  - done.
  - by apply overlap_listing_lt.
  - apply calm_refl.
  - apply calm_trans.
  - intros k v t1 Hg Hmt Hm1 Hg1. apply wp_bind, wp_map_take. rewrite Hg1. do 2 wp_step. apply wp_bind.
    eapply wp_mono; [by eapply rewrite_one_spec; try done; eapply Hph|]. intros key t' (-> & (? & ? & Hk) & _ & ?).
    apply wp_ret. split_and!; [done..|]. intros k' Hk'. left. apply Hk. by right.
  - done.
  - done.
  - done.
Qed.

Lemma seal_spec start end_ t :
  tree_ok (t_map t) -> no_phys_cut start end_ (t_map t) ->
  wp (Tree.seal_range start end_) (fun r t' =>
    match r with
    | Ok _ => start < end_ /\ all_covered (fun _ => None) start end_ (t_map t) /\
              rewritten (page_flags flags_seal) start end_ t t'
    | Err e => e = Inval /\ t' = t /\ (end_ <= start \/ exists a, start <= a < end_ /\ view (t_map t) a = None)
    end) t.
Proof.
  intros Hm Hph. unfold Tree.seal_range. bool_case (end_ <=? start); [apply wp_ret; auto|].
  do 2 wp_step. pose proof (covered_spec (fun _ => None) Inval start end_ t Hm ltac:(lia)) as Hc.
  destruct (Tree.covered _ _ _ _ _) as [[]|e].
  - do 2 wp_step. apply wp_bind. eapply wp_mono; [apply (rewrite_alone_loop Tree.seal (page_flags flags_seal) start end_ t);
      [apply seal_changes|done|lia|done]|].
    intros [] t' Hpost. apply wp_ret. split_and!; [lia|done..].
  - apply wp_ret. destruct Hc as [[-> Hh]|(k & v & _ & _ & ?)]; [auto|done].
Qed.
