(* ===== verification/VmaTreeEdit.v ===== *)
(** * Removal, naming, policies, growth and the read-only queries *)

From stdpp Require Import strings.
From S2P Require Import Prelude BTree Vma VmaTree VmaTreeInv VmaTreeOps VmaTreeSpec VmaTreeRange.

(** ** Removal of a range *)

(** The part of the area under [k] that the range covers. *)
Definition piece (start end_ : Z) (m : list (Z * Vma)) (k : Z) (w : Vma) : Prop :=
  exists v, bt_get k m = Some v /\ w = sub v (cut_s v start) (cut_e v end_).

Section remove.
Context (start end_ : Z) (t0 : VmaTree) (K : list Z).
Hypothesis Hr : start < end_.
Hypothesis Hm0 : tree_ok (t_map t0).
Hypothesis HK : listing start end_ (t_map t0) K.
Hypothesis Hph : no_phys_cut start end_ (t_map t0).

Local Abbreviation gone := (fun _ : Page => None).

(** One turn of the loop. *)
Lemma remove_step_spec k v (Q : list Vma -> VmaTree -> Prop) rm ks t :
  tree_ok (t_map t) -> bt_get k (t_map t) = Some v -> meets start end_ v -> splits_ok start end_ v ->
  (forall t', recut gone start end_ v t t' -> calm t t' ->
     wp (Tree.remove_loop start end_ ks (rm ++ [sub v (cut_s v start) (cut_e v end_)])) Q t') ->
  wp (Tree.remove_loop start end_ (k :: ks) rm) Q t.
Proof.
  intros Hm Hg Hmt Hsp HQ. pose proof (ok_vma _ _ _ Hm Hg) as Hv.
  destruct (puts_frags_recut gone [] v start end_ k t) as (Hrec & Hst & _); try done.
  { intros w Hw. by apply not_elem_of_nil in Hw. } { by left. }
  cbn [Tree.remove_loop]. fold (cut_s v start) (cut_e v end_). apply wp_bind, wp_map_take. rewrite Hg. do 2 wp_step.
  fold (cut_s v start) (cut_e v end_). apply wp_bind, (wp_put_left v start end_); [done..|].
  apply wp_bind, (wp_middle v start end_); [done..|]. apply wp_bind, (wp_put_right v start end_); [done..|].
  apply wp_bind, wp_vma_closed.
  replace (puts (rights v (cut_e v end_)) (puts (lefts v (cut_s v start)) (take k t)))
    with (puts (lefts v (cut_s v start) ++ [] ++ rights v (cut_e v end_)) (take k t))
    by (unfold puts; rewrite !foldl_app; done).
  apply HQ; [exact Hrec|]. split; [by eapply close_steady|]. eapply (recut_devices gone start end_ k v); [done..|]. by intros a q.
Qed.

Lemma remove_loop_spec ks pre rm t :
  K = pre ++ ks -> tree_ok (t_map t) -> calm t0 t ->
  half start end_ (t_map t0) gone ks (view (t_map t)) ->
  (forall k v, k ∈ ks -> bt_get k (t_map t0) = Some v -> bt_get k (t_map t) = Some v) ->
  Forall2 (piece start end_ (t_map t0)) pre rm ->
  wp (Tree.remove_loop start end_ ks rm) (fun out t' =>
    tree_ok (t_map t') /\ calm t0 t' /\
    (forall a, view (t_map t') a = over gone start end_ (view (t_map t0)) a) /\
    Forall2 (piece start end_ (t_map t0)) K out) t.
Proof.
  revert pre rm t. induction ks as [|k ks IH]; intros pre rm t HKeq Hm Hst Hhalf Hrem Hrm.
  { apply wp_ret. rewrite HKeq, app_nil_r. done. }
  assert (Hin : k ∈ K) by (rewrite HKeq; apply elem_mid). apply HK in Hin as (v & Hg0 & Hmt).
  eapply remove_step_spec; [done|by apply Hrem; [left|]|done|by eapply Hph|]. intros t' (Hm' & Hv' & Hk') Hst'.
  apply (IH (pre ++ [k])); [by rewrite <- app_assoc|done|by eapply calm_trans|by eapply half_step|..].
  - intros k' v' Hin' Hg'. destruct HK as [Hs _]. rewrite HKeq in Hs. destruct (sorted_app_lt _ _ _ Hs) as [_ Hlt].
    rewrite Hk'; [apply Hrem; [by right|done]|]. right. eapply (ok_disjoint _ Hm0); [exact Hg0|exact Hg'|by apply Hlt].
  - apply Forall2_app; [done|]. constructor; [by exists v|constructor].
Qed.

End remove.

(** The removed parts are the mapped addresses of the range, ascending. *)
Definition removed_parts (start end_ : Z) (m : list (Z * Vma)) (out : list Vma) : Prop :=
  exists K, listing start end_ m K /\ Forall2 (piece start end_ m) K out.

Definition emptied (start end_ : Z) (t t' : VmaTree) : Prop :=
  tree_ok (t_map t') /\ calm t t' /\
  forall a, view (t_map t') a = over (fun _ => None) start end_ (view (t_map t)) a.

Lemma remove_range_spec start end_ t :
  tree_ok (t_map t) -> start < end_ <= USER_VA_END -> no_phys_cut start end_ (t_map t) ->
  wp (Tree.remove_range_raw_end start end_) (fun out t' =>
    emptied start end_ t t' /\ removed_parts start end_ (t_map t) out) t.
Proof.
  intros Hm Hr Hph. unfold Tree.remove_range_raw_end. rewrite (proj2 (Z.leb_gt _ _)) by lia.
  destruct (Tree.raw_end_key end_) as [key|] eqn:Ek.
  - destruct (raw_end_key_spec _ _ _ Hm Ek) as [_ Hkey]. do 2 wp_step.
    pose proof (overlap_listing start end_ key _ Hm Hkey) as HK.
    eapply wp_mono; [eapply (remove_loop_spec start end_ t (Tree.overlap_keys start key (t_map t)));
      [lia|done|done|done|by rewrite app_nil_l|done|apply calm_refl|by apply half_init|done|constructor]|].
    intros out t' (? & ? & ? & ?). split; [done|]. by exists (Tree.overlap_keys start key (t_map t)).
  - exfalso. unfold Tree.raw_end_key, uva_new in Ek. destruct (Z.ltb_spec end_ USER_VA_END); [done|].
    rewrite (proj2 (Z.eqb_eq _ _)), (proj2 (Z.ltb_lt _ _)) in Ek by lia. done.
Qed.

Lemma removed_parts_view start end_ m out a p :
  tree_ok m -> start < end_ -> no_phys_cut start end_ m -> removed_parts start end_ m out ->
  (start <= a < end_ /\ view m a = Some p) <-> exists w, w ∈ out /\ v_start w <= a < v_end w /\ page_at w a = p.
Proof.
  intros Hm Hr Hph (K & HK & Hout). split.
  - intros [Ha Hv]. apply view_some in Hv as (k & v & Hg & Hav & Hp); [|done].
    assert (Hmt : meets start end_ v) by (unfold meets; lia).
    assert (Hin : k ∈ K) by (apply HK; eauto). apply list_elem_of_lookup in Hin as [i Hi].
    destruct (Forall2_lookup_l _ _ _ _ _ Hout Hi) as (w & Hw & v' & Hg' & ->). replace v' with v in * by congruence.
    exists (sub v (cut_s v start) (cut_e v end_)). split; [by eapply list_elem_of_lookup_2|].
    cbn. split; [unfold cut_s, cut_e; lia|]. rewrite sub_page; [done|]. intros Hp'. destruct (Hph _ _ Hg Hmt Hp'). unfold cut_s. lia.
  - intros (w & Hin & Ha & Hp). apply list_elem_of_lookup in Hin as [i Hi].
    destruct (Forall2_lookup_r _ _ _ _ _ Hout Hi) as (k & Hk & v & Hg & ->). apply list_elem_of_lookup_2 in Hk.
    apply HK in Hk as (v' & Hg' & Hmt). replace v' with v in * by congruence. cbn in Ha.
    unfold cut_s, cut_e in Ha. split; [lia|]. rewrite sub_page in Hp.
    + rewrite (view_in m k v a); [by f_equal|done..|lia].
    + intros Hp'. destruct (Hph _ _ Hg Hmt Hp'). unfold cut_s. lia.
Qed.

Lemma removed_parts_ok start end_ m out w :
  tree_ok m -> start < end_ -> removed_parts start end_ m out -> w ∈ out -> vma_ok w.
Proof.
  intros Hm Hr (K & HK & Hout) Hin. apply list_elem_of_lookup in Hin as [i Hi].
  destruct (Forall2_lookup_r _ _ _ _ _ Hout Hi) as (k & Hk & v & Hg & ->). apply list_elem_of_lookup_2 in Hk.
  apply HK in Hk as (v' & Hg' & [? ?]). replace v' with v in * by congruence. pose proof (ok_vma _ _ _ Hm Hg) as Hv.
  pose proof Hv as (? & ? & _). apply sub_ok; [done|unfold cut_s, cut_e; lia..].
Qed.

(** ** Naming anonymous memory *)

Lemma name_step_spec start end_ name k v t :
  tree_ok (t_map t) -> bt_get k (t_map t) = Some v -> start < end_ -> meets start end_ v -> splits_ok start end_ v ->
  wp (Tree.anon_name_step start end_ name k)
    (fun _ => step_post true (fun p => Some (page_name name p)) start end_ calm v t) t.
Proof.
  intros Hm Hg Hr Hmt Hsp. unfold Tree.anon_name_step. apply wp_bind, wp_map_take. rewrite Hg. do 2 wp_step.
  pose proof (ok_vma _ _ _ Hm Hg) as Hv. apply wp_bind.
  eapply wp_mono; [eapply rewrite_one_spec; [apply name_changes|done..]|]. intros key t1 (-> & Hrec & Hget & Hst).
  pose proof Hrec as (Hm1 & _). set (mid := set_anon_name name (sub v (cut_s v start) (cut_e v end_))) in *.
  apply wp_bind. eapply wp_mono; [apply try_merge_left_spec; [done|exact Hget]|]. intros [] t2 Hmg.
  destruct (left_attempt _ _ _ _ Hm1 Hget Hmg) as (key' & cur' & Hg' & Hle & He & Hp & Hs & Hk).
  destruct Hmg as (Hm2 & Hv2 & Hst2 & _). do 2 wp_step. apply wp_bind.
  assert (wp (if contains_key (cut_s v start) (t_map t2) then ret (cut_s v start)
              else p ← expect (floor_lt (cut_s v start) (t_map t2)) "left VMA"; ret p.1)
            (fun k t => k = key' /\ t = t2) t2) as Hkey.
  { destruct (contains_key _ _); [by apply wp_ret|]. rewrite Hk. do 2 wp_step. by apply wp_ret. }
  eapply wp_mono; [exact Hkey|]. intros k2 t3 [-> ->].
  eapply wp_mono; [by apply try_merge_right_spec|]. intros [] t' Hmg'.
  eapply settled_step_post; [apply name_changes|done..|]. by eapply settle_right.
Qed.

Lemma set_anon_name_spec start end_ name t :
  tree_ok (t_map t) -> stays_apart (page_name name) start end_ (t_map t) ->
  wp (Tree.set_anon_name_range start end_ name) (fun r t' =>
    match r with
    | Ok _ => start < end_ /\ all_covered Tree.anon_admit start end_ (t_map t) /\ rewritten (page_name name) start end_ t t'
    | Err e => t' = t /\ (e = Inval /\ end_ <= start \/ uncovered Tree.anon_admit NoMem start end_ (t_map t) e)
    end) t.
Proof.
  intros Hm Hap. unfold Tree.set_anon_name_range. bool_case (end_ <=? start); [apply wp_ret; auto|].
  do 2 wp_step. pose proof (covered_spec Tree.anon_admit NoMem start end_ t Hm ltac:(lia)) as Hc.
  destruct (Tree.covered _ _ _ _ _) as [[]|e]; [|apply wp_ret; auto]. do 2 wp_step. apply wp_bind.
  eapply wp_mono; [eapply (rewrite_loop start end_ t _ (fun p => Some (page_name name p)) calm true)
    with (Gone := fun _ => False)|].
  - done.
  - by apply overlap_listing_lt.
  - apply calm_refl.
  - apply calm_trans.
  - intros k v t1 Hg Hmt Hm1 Hg1. apply name_step_spec; [done|done|lia|done|].
    intros Hphys. exfalso. pose proof (ok_vma _ _ _ Hm Hg) as (_ & Hlt & _). destruct Hmt as [Hm1' Hm2'].
    destruct (Hc (Z.max start (v_start v)) ltac:(lia)) as (k' & w & Hgw & Hw & Hadm).
    assert (w = v) as ->.
    { pose proof (floor_covering _ _ _ _ Hm Hgw Hw) as F1.
      pose proof (floor_covering _ _ _ (Z.max start (v_start v)) Hm Hg ltac:(lia)) as F2. congruence. }
    unfold Tree.anon_admit in Hadm. by destruct (v_backing v).
  - intros k v r _ Hg Hmt Hgr Hmr Hp. eapply (Hap k v r); [done..|]. specialize (Hp (v_end v)). congruence.
  - done.
  - done.
  - intros [] t' Hpost. apply wp_ret. split_and!; [lia|done|exact Hpost].
Qed.

(** ** NUMA policies *)

Definition plain (w : Vma) (t : VmaTree) : VmaTree := set_map (bt_insert (v_start w) w (t_map t)) t.

Lemma plains_puts ws t :
  t_map (foldl (fun t w => plain w t) t ws) = t_map (puts ws t) /\ t_ops (foldl (fun t w => plain w t) t ws) = t_ops t.
Proof.
  assert (forall t1 t2, t_map t1 = t_map t2 ->
    t_map (foldl (fun t w => plain w t) t1 ws) = t_map (puts ws t2) /\
    t_ops (foldl (fun t w => plain w t) t1 ws) = t_ops t1) as H; [|by apply H].
  induction ws as [|w ws IH]; intros t1 t2 Heq; [done|]. cbn [foldl puts].
  destruct (IH (plain w t1) (put w t2)) as [-> ->]; [by cbn; rewrite Heq|done].
Qed.

Lemma policy_step_spec f g start end_ k v t :
  changes f g -> tree_ok (t_map t) -> bt_get k (t_map t) = Some v -> start < end_ -> meets start end_ v ->
  splits_ok start end_ v ->
  wp (Tree.policy_step start end_ f k) (fun _ =>
    step_post false (fun p => Some (g p)) start end_ (fun t t' => t_ops t' = t_ops t) v t) t.
Proof.
  intros Hf Hm Hg Hr Hmt Hsp. pose proof (ok_vma _ _ _ Hm Hg) as Hv.
  pose proof (cut_bounds v start end_ Hv Hr Hmt) as Hb.
  set (mid := f (sub v (cut_s v start) (cut_e v end_))).
  destruct (puts_frags_recut (fun p => Some (g p)) [mid] v start end_ k t) as (Hrec & _ & _); try done.
  - intros w ->%list_elem_of_singleton. eapply changes_ok; [done|]. apply sub_ok; [done|lia..].
  - right. exists mid. unfold mid. by rewrite (ch_start f g Hf), (ch_end f g Hf).
  - intros a Ha. cbn. rewrite (proj2 (contains_iff mid a)).
    2: { unfold mid. rewrite (ch_start f g Hf), (ch_end f g Hf). cbn. lia. }
    unfold mid. rewrite (ch_page f g Hf), sub_page; [done|]. intros Hp. destruct (Hsp Hp). unfold cut_s. lia.
  - assert (wp (Tree.policy_step start end_ f k) (fun _ t' =>
      t' = foldl (fun t w => plain w t) (take k t) (lefts v (cut_s v start) ++ [mid] ++ rights v (cut_e v end_))) t) as Hrun.
    { unfold Tree.policy_step. apply wp_bind, wp_map_take. rewrite Hg. do 2 wp_step. fold (cut_s v start) (cut_e v end_).
      rewrite !uva_new_lt by lia. unfold lefts, rights.
      destruct (v_start v <? cut_s v start), (cut_e v end_ <? v_end v);
        repeat first [wp_step | apply (wp_middle v start end_ Hv Hr Hmt) |
          eapply wp_done; [apply clone_subrange_run; [done|lia]|cbn beta] | progress unfold Tree.insert_plain]; done. }
    eapply wp_mono; [exact Hrun|]. intros [] t' ->.
    destruct (plains_puts (lefts v (cut_s v start) ++ [mid] ++ rights v (cut_e v end_)) (take k t)) as [Hmap Hops].
    destruct Hrec as (Hm' & Hv' & Hk'). unfold step_post. rewrite Hmap, Hops. split_and!; [done..|].
    intros k' Hk2. left. apply Hk'. by right.
Qed.

Lemma rewrite_range_spec f g start end_ t :
  changes f g -> tree_ok (t_map t) -> no_phys_cut start end_ (t_map t) ->
  wp (Tree.rewrite_range start end_ f) (fun _ t' =>
    tree_ok (t_map t') /\ t_ops t' = t_ops t /\
    forall a, view (t_map t') a = over (fun p => Some (g p)) start end_ (view (t_map t)) a) t.
Proof.
  intros Hf Hm Hph. unfold Tree.rewrite_range. bool_case (end_ <=? start).
  { apply wp_ret. split_and!; [done..|]. intros a. unfold over.
    by replace ((start <=? a) && (a <? end_)) with false by (destruct (Z.leb_spec start a), (Z.ltb_spec a end_); cbn; lia || done). }
  do 2 wp_step.
  apply (rewrite_loop start end_ t _ (fun p => Some (g p)) (fun t t' => t_ops t' = t_ops t) false) with (Gone := fun _ => False).
  - done.
  - by apply overlap_listing_lt.
  - done.
  - by intros t1 t2 t3 -> ->.
  - intros k v t1 Hg Hmt Hm1 Hg1. apply policy_step_spec; [done|done|done|lia|done|by eapply Hph].
  - done.
  - done.
  - done.
Qed.

(** The walk of [set_home_node_range] only reads. *)
Lemma home_ranges_spec start end_ l ranges t :
  start < USER_VA_END -> (forall k v, (k, v) ∈ l -> vma_ok v) ->
  wp (Tree.home_ranges start end_ l ranges) (fun _ t' => t' = t) t.
Proof.
  intros Hs. revert ranges. induction l as [|[k v] l IH]; intros ranges Hl; cbn [Tree.home_ranges]; [by apply wp_ret|].
  assert (Hv : vma_ok v) by (apply (Hl k); left). assert (Hl' : forall k v, (k, v) ∈ l -> vma_ok v) by (intros ? ? ?; eapply Hl; by right).
  destruct (v_end v <=? start); [by apply IH|]. destruct (v_mempolicy v) as [p|]; [|by apply IH].
  destruct (_ || _); [|by apply wp_ret]. destruct Hv as (? & ? & ? & _).
  rewrite !uva_new_lt by lia. do 4 wp_step. by apply IH.
Qed.

Lemma home_fails_unchanged start end_ home t :
  tree_ok (t_map t) -> start < USER_VA_END ->
  wpe (fun _ => True) (Tree.set_home_node_range start end_ home) (fun r t' => is_Some r -> t' = t) t.
Proof.
  intros Hm Hs. unfold Tree.set_home_node_range. apply wpe_bind_wp, wp_gets. apply wpe_bind_wp.
  eapply wp_mono; [apply home_ranges_spec; [done|]|].
  { intros k v Hin. apply range_lt_elem in Hin as [_ Hg]; [|apply Hm]. by eapply ok_vma. }
  intros [e|[|p ranges]] t' ->; [by apply wpe_ret|by apply wpe_ret|]. 
  unfold wpe, mbind, M_bind, bind. destruct (for_each _ _ t) as [[[] t']|]; [|done]. cbn. by intros [].
Qed.

(** ** Growing a stack downwards *)

Lemma page_set_start v s a : v_backing v = Anonymous -> page_at (set_start s v) a = page_at v a.
Proof. intros Hb. unfold page_at. cbn. by rewrite Hb. Qed.

Lemma extend_growsdown_spec cur new t :
  tree_ok (t_map t) -> 0 <= new ->
  (forall v, bt_get cur (t_map t) = Some v -> v_backing v = Anonymous) ->
  wp (Tree.extend_growsdown_start cur new) (fun r t' =>
    match r with
    | Ok _ => exists v, bt_get cur (t_map t) = Some v /\ flags_contains (v_flags v) Flags.GROWSDOWN = true /\
        new < cur /\ new mod PAGE_SIZE_BYTES = 0 /\ clear (t_map t) new cur /\
        tree_ok (t_map t') /\ t_ops t' = t_ops t /\
        forall a, view (t_map t') a = if (new <=? a) && (a <? cur) then Some (page_at v a) else view (t_map t) a
    | Err e => e = Inval /\ t' = t
    end) t.
Proof.
  intros Hm H0 Hanon. unfold Tree.extend_growsdown_start. bool_case (cur <=? new); [by apply wp_ret|].
  destruct (Z.land new (PAGE_SIZE_BYTES - 1) =? 0) eqn:Eal; cbn [negb]; [|by apply wp_ret]. do 2 wp_step.
  pose proof (floor_lt_nearest cur _ (ok_sorted _ Hm)) as Hn.
  destruct (match floor_lt _ _ with Some _ => _ | None => _ end) eqn:El; [by apply wp_ret|].
  apply wp_bind, wp_map_take. destruct (bt_get cur (t_map t)) as [v|] eqn:Hg.
  2: { apply wp_ret. split; [done|]. by apply take_absent. }
  specialize (Hanon v eq_refl). pose proof (ok_start _ _ _ Hm Hg) as ->. pose proof (ok_vma _ _ _ Hm Hg) as Hv.
  assert (Hback : bt_insert (v_start v) v (bt_remove (v_start v) (t_map t)) = t_map t).
  { rewrite insert_remove by apply Hm. apply get_ext; [apply insert_sorted, Hm|apply Hm|]. intros k.
    rewrite get_insert by apply Hm. by destruct (Z.eqb_spec k (v_start v)) as [->|]. }
  destruct (flags_contains (v_flags v) Flags.GROWSDOWN) eqn:Ef; cbn [negb].
  2: { apply wp_bind. unfold Tree.map_reinsert. wp_step. wp_step. split; [done|]. unfold take, set_map. cbn. rewrite Hback. by destruct t. }
  assert (Hcl : clear (t_map t) new (v_start v)).
  { intros k w Hgw. pose proof (ok_start _ _ _ Hm Hgw) as Hk. destruct (decide (k < v_start v)) as [Hlt|]; [|lia].
    left. destruct (floor_lt _ _) as [[k1 w1]|]; [|by edestruct Hn]. destruct Hn as (_ & Hg1 & Hmax). to_prop.
    pose proof (Hmax _ _ Hlt Hgw). destruct (decide (k = k1)) as [->|]; [by replace w with w1 by congruence|].
    pose proof (ok_disjoint _ Hm _ _ _ _ Hgw Hg1 ltac:(lia)). pose proof (ok_start _ _ _ Hm Hg1).
    pose proof (ok_vma _ _ _ Hm Hg1) as (_ & ? & _). lia. }
  set (w := set_start new v). pose proof Hv as (? & ? & ? & ? & ?).
  assert (Hw : vma_ok w) by (unfold vma_ok, len_bytes, w in *; cbn; rewrite Hanon; cbn; split_and!; (done || lia)).
  assert (Hcw : clear (t_map (take (v_start v) t)) (v_start w) (v_end w)).
  { intros k u Hgu. pose proof (remove_clear _ _ _ Hm Hg k u Hgu) as Hc1.
    assert (Hgu' : bt_get k (t_map t) = Some u) by (cbn in Hgu; rewrite get_remove in Hgu by apply Hm; by destruct (k =? v_start v)).
    specialize (Hcl _ _ Hgu'). pose proof (ok_vma _ _ _ Hm Hgu') as (_ & ? & _). cbn. lia. }
  assert (Hmt : tree_ok (t_map (take (v_start v) t))) by by apply remove_ok.
  apply wp_bind. unfold Tree.map_reinsert. wp_step. wp_step. exists v.
  split_and!; [done|done|lia| |done|by apply (insert_ok _ w)|done|].
  - to_prop. change (PAGE_SIZE_BYTES - 1) with (pow2 12 - 1) in Eal. by rewrite land_align in Eal.
  - intros a. etransitivity; [exact (insert_view _ w a Hmt Hw Hcw)|]. cbn [take set_map t_map].
    rewrite (remove_view _ _ v) by done. unfold w at 2. rewrite page_set_start by done.
    destruct (contains v a) eqn:Ec.
    + pose proof Ec as Ec'. apply contains_iff in Ec'. rewrite (proj2 (contains_iff w a)) by (cbn; lia).
      rewrite (view_in (t_map t) (v_start v) v a) by done. by destruct (_ && _).
    + unfold contains in Ec |- *. cbn. destruct (Z.leb_spec new a), (Z.ltb_spec a (v_end v)), (Z.ltb_spec a (v_start v)),
        (Z.leb_spec (v_start v) a); cbn in *; done || lia.
Qed.

(** ** Queries *)

Lemma find_containing_spec t a v :
  tree_ok (t_map t) ->
  Tree.find_containing t a = Some v <-> bt_get (v_start v) (t_map t) = Some v /\ v_start v <= a < v_end v.
Proof.
  intros Hm. unfold Tree.find_containing. split.
  - pose proof (floor_le_nearest a _ (ok_sorted _ Hm)) as Hn. destruct (floor_le _ _) as [[k w]|]; [|done].
    destruct Hn as (_ & Hg & _). destruct (contains w a) eqn:E; [|done]. intros [= ->]. apply contains_iff in E.
    split; [|done]. by rewrite <- (ok_start _ _ _ Hm Hg).
  - intros [Hg Ha]. rewrite (floor_covering _ _ _ _ Hm Hg Ha). by rewrite (proj2 (contains_iff v a)).
Qed.

Lemma find_containing_view t a :
  view (t_map t) a = option_map (fun v => page_at v a) (Tree.find_containing t a).
Proof. unfold view, Tree.find_containing. destruct (floor_le _ _) as [[k v]|]; [|done]. by destruct (contains v a). Qed.

(** Some area that meets the range has [P]. *)
Lemma exists_meets (P : Vma -> bool) start end_ key m :
  tree_ok m -> Tree.raw_end_key end_ = Some key ->
  existsb (fun p => (start <? v_end p.2) && P p.2) (range_lt key m) = true <->
  exists k v, bt_get k m = Some v /\ meets start end_ v /\ P v = true.
Proof.
  intros Hm Hk. destruct (raw_end_key_spec _ _ _ Hm Hk) as [_ Hkey]. rewrite existsb_exists. split.
  - intros ([k v] & Hin & Hp). apply list_elem_of_In in Hin. apply range_lt_elem in Hin as [Hlt Hg]; [|apply Hm]. to_prop.
    exists k, v. split_and!; [done| |done]. pose proof (ok_start _ _ _ Hm Hg) as ->. apply (Hkey _ _ Hg) in Hlt. done.
  - intros (k & v & Hg & [Hlt Hgt] & Hp). exists (k, v). split.
    + apply list_elem_of_In, range_lt_elem; [apply Hm|]. split; [|done]. apply (Hkey _ _ Hg). by rewrite (ok_start _ _ _ Hm Hg).
    + cbn in *. rewrite (proj2 (Z.ltb_lt _ _)) by done. done.
Qed.

Definition sealed (p : Page) : bool := flags_contains (p_flags p) Flags.SEALED.

Lemma any_sealed_spec t start end_ :
  tree_ok (t_map t) -> start < end_ <= USER_VA_END ->
  Tree.any_sealed_raw_end t start end_ = false <->
  forall a p, start <= a < end_ -> view (t_map t) a = Some p -> sealed p = false.
Proof.
  intros Hm Hr. unfold Tree.any_sealed_raw_end. destruct (Tree.raw_end_key end_) as [key|] eqn:Ek.
  2: { exfalso. unfold Tree.raw_end_key, uva_new in Ek. destruct (Z.ltb_spec end_ USER_VA_END); [done|].
       rewrite (proj2 (Z.eqb_eq _ _)), (proj2 (Z.ltb_lt _ _)) in Ek by lia. done. }
  rewrite <- not_true_iff_false.
  rewrite (exists_meets (fun v => flags_contains (v_flags v) Flags.SEALED) start end_ key (t_map t) Hm Ek). split.
  - intros Hno a p Ha Hv. apply view_some in Hv as (k & v & Hg & Hav & <-); [|done]. apply not_true_iff_false. intros Hs.
    apply Hno. exists k, v. split_and!; [done| |done]. unfold meets. lia.
  - intros Hall (k & v & Hg & [? ?] & Hs). pose proof (ok_vma _ _ _ Hm Hg) as (_ & ? & _).
    specialize (Hall (Z.max start (v_start v)) (page_at v (Z.max start (v_start v))) ltac:(lia)).
    rewrite (view_in _ k v) in Hall by (done || lia). specialize (Hall eq_refl). unfold sealed in Hall. cbn in Hall. congruence.
Qed.

Lemma may_walk_coverage end_ prot cursor l :
  Tree.may_walk end_ prot cursor l =
  match Tree.coverage (Tree.may_admit prot) Inval end_ cursor l with Ok c => end_ <=? c | Err _ => false end.
Proof.
  revert cursor. induction l as [|[k v] l IH]; intros cursor; cbn; [done|].
  destruct (v_end v <=? cursor); [apply IH|]. destruct (cursor <? v_start v); [done|].
  unfold Tree.may_admit. destruct (flags_contains _ _); cbn; [|done].
  destruct (end_ <=? v_end v) eqn:E; [by rewrite E|apply IH].
Qed.

(** The audit accepts exactly the well-ordered trees. *)
Lemma audit_from_ok m :
  forall prev, tree_ok m -> (forall k v, bt_get k m = Some v -> prev <= k) -> Tree.audit_from prev m = Ok tt.
Proof.
  induction m as [|[k v] m IH]; intros prev Hm Hlo; [done|]. cbn [Tree.audit_from].
  assert (Hg : bt_get k ((k, v) :: m) = Some v) by (cbn; by rewrite Z.eqb_refl).
  pose proof (ok_start _ _ _ Hm Hg) as Hk. pose proof (ok_vma _ _ _ Hm Hg) as (_ & Hlt & _).
  specialize (Hlo _ _ Hg) as Hlo'. rewrite (proj2 (Z.ltb_ge _ _)), (proj2 (Z.leb_gt _ _)) by lia.
  pose proof (ok_sorted _ Hm) as Hs. apply sorted_cons_inv in Hs as [Hs Hhead].
  assert (Hsub : forall k' w, bt_get k' m = Some w -> bt_get k' ((k, v) :: m) = Some w /\ k < k').
  { intros k' w Hg'. assert (k < k') by (apply (Hhead (k', w)); by apply get_elem). cbn.
    rewrite (proj2 (Z.eqb_neq _ _)) by lia. done. }
  apply IH.
  - split; [done|..].
    + intros k' w Hg'. by apply (ok_entry _ Hm), Hsub.
    + intros k1 w1 k2 w2 H1 H2. by apply (ok_disjoint _ Hm k1 w1 k2 w2); apply Hsub.
  - intros k' w Hg'. destruct (Hsub _ _ Hg') as [Hg2 ?]. by apply (ok_disjoint _ Hm k v k' w).
Qed.

Lemma audit_ok t : tree_ok (t_map t) -> Tree.audit_no_overlap t = Ok tt.
Proof.
  intros Hm. apply audit_from_ok; [done|]. intros k v Hg. rewrite (ok_start _ _ _ Hm Hg). by apply (ok_vma _ _ _ Hm Hg).
Qed.
