(* ===== verification/TreeRefine.v ===== *)
(** * The tree as a map from addresses to pages

    An abstract memory map ([Z -> option Page]) with the operations of the
    tree, stated without areas; the tree implements it. *)

From stdpp Require Import strings.
From S2P Require Import Prelude BTree Vma VmaTree VmaTreeInv VmaTreeOps VmaTreeSpec VmaTreeRange VmaTreeEdit.

Inductive TreeOp :=
| OpInsert (v : Vma)
| OpRemove (start end_ : Z)
| OpProtect (start end_ prot : Z) (pkey : option Z)
| OpSeal (start end_ : Z)
| OpFind (a : Z).

Inductive TreeAns :=
| AnsUnit (r : KResult unit)
| AnsPage (o : option Page).

Definition run_op (op : TreeOp) : M VmaTree TreeAns :=
  match op with
  | OpInsert v => r ← Tree.insert v; ret (AnsUnit r)
  | OpRemove s e => Tree.remove_range_raw_end s e ;; ret (AnsUnit (Ok tt))
  | OpProtect s e prot pkey => r ← Tree.mprotect_range_with_pkey s e prot pkey; ret (AnsUnit r)
  | OpSeal s e => r ← Tree.seal_range s e; ret (AnsUnit r)
  | OpFind a => t ← get; ret (AnsPage (option_map (fun v => page_at v a) (Tree.find_containing t a)))
  end.

(** ** The memory map *)

Definition range (s e a : Z) : bool := (s <=? a) && (a <? e).

Definition free (f : Z -> option Page) (s e : Z) : Prop := forall a, s <= a < e -> f a = None.

(** Every address of the range is mapped, and may get the protection. *)
Definition may_protect (f : Z -> option Page) (s e prot : Z) : Prop :=
  forall a, s <= a < e -> exists p, f a = Some p /\ flags_contains (p_may_prot p) prot = true.

Inductive map_step : TreeOp -> (Z -> option Page) -> TreeAns -> (Z -> option Page) -> Prop :=
| map_insert v f :
    v_start v < v_end v -> free f (v_start v) (v_end v) ->
    map_step (OpInsert v) f (AnsUnit (Ok tt)) (fun a => if range (v_start v) (v_end v) a then Some (page_at v a) else f a)
| map_insert_refused v f :
    v_end v <= v_start v \/ (exists a p, range (v_start v) (v_end v) a = true /\ f a = Some p) ->
    map_step (OpInsert v) f (AnsUnit (Err Inval)) f
| map_remove s e f :
    map_step (OpRemove s e) f (AnsUnit (Ok tt)) (fun a => if range s e a then None else f a)
| map_protect s e prot pkey f :
    s < e -> may_protect f s e prot ->
    map_step (OpProtect s e prot pkey) f (AnsUnit (Ok tt))
      (fun a => if range s e a then page_protect prot pkey <$> f a else f a)
| map_protect_refused s e prot pkey f err :
    err = Inval /\ (e <= s \/ exists a, s <= a < e /\ f a = None) \/
    err = Access /\ (exists a p, s <= a < e /\ f a = Some p /\ flags_contains (p_may_prot p) prot = false) ->
    map_step (OpProtect s e prot pkey) f (AnsUnit (Err err)) f
| map_seal s e f :
    s < e -> (forall a, s <= a < e -> f a <> None) ->
    map_step (OpSeal s e) f (AnsUnit (Ok tt)) (fun a => if range s e a then page_flags flags_seal <$> f a else f a)
| map_seal_refused s e f :
    e <= s \/ (exists a, s <= a < e /\ f a = None) ->
    map_step (OpSeal s e) f (AnsUnit (Err Inval)) f
| map_find a f : map_step (OpFind a) f (AnsPage (f a)) f.

(** ** The refinement *)

(** Arguments the kernel passes: areas are well formed, ranges lie in the
    user range and do not cut physical memory. *)
Definition op_ok (m : list (Z * Vma)) (op : TreeOp) : Prop :=
  match op with
  | OpInsert v => v_start v < v_end v -> vma_ok v
  | OpRemove s e => s < e <= USER_VA_END /\ no_phys_cut s e m
  | OpProtect s e _ _ | OpSeal s e => no_phys_cut s e m
  | OpFind _ => True
  end.

(** The tree [t] does the step of its view. *)
Definition refines (op : TreeOp) (t : VmaTree) (ans : TreeAns) (t' : VmaTree) : Prop :=
  tree_ok (t_map t') /\ steady t t' /\
  exists f', map_step op (view (t_map t)) ans f' /\ forall a, view (t_map t') a = f' a.

Lemma not_clear m s e : tree_ok m -> ~ clear m s e -> s < e -> exists a p, range s e a = true /\ view m a = Some p.
Proof.
  intros Hm Hn Hse.
  destruct (List.existsb (fun p => (s <? v_end p.2) && (v_start p.2 <? e)) m) eqn:E.
  - apply existsb_exists in E as ([k v] & Hin & Hb). apply list_elem_of_In, get_elem in Hin; [|apply Hm]. cbn in Hb. to_prop.
    pose proof (ok_vma _ _ _ Hm Hin) as (? & ? & _). exists (Z.max s (v_start v)), (page_at v (Z.max s (v_start v))). split.
    + unfold range. apply andb_true_iff. split; [apply Z.leb_le|apply Z.ltb_lt]; lia.
    + eapply view_in; [done..|lia].
  - exfalso. apply Hn. intros k v Hg. destruct (decide (v_end v <= s \/ e <= v_start v)) as [|Hno]; [done|exfalso].
    apply not_true_iff_false in E. apply E, existsb_exists. exists (k, v). apply get_elem in Hg; [|apply Hm].
    split; [by apply list_elem_of_In|]. cbn. apply andb_true_iff. split; apply Z.ltb_lt; lia.
Qed.

Lemma insert_refines v t :
  tree_ok (t_map t) -> op_ok (t_map t) (OpInsert v) -> wp (run_op (OpInsert v)) (refines (OpInsert v) t) t.
Proof.
  intros Hm Hv. cbn. apply wp_bind. eapply wp_mono; [by apply insert_spec|]. intros [[]|e] t' Hr; apply wp_ret.
  - destruct Hr as (Hlt & Hc & Hm' & Hst & _ & Hv'). split_and!; [done..|]. eexists. split; [|exact Hv'].
    apply map_insert; [done|]. intros a Ha. by eapply clear_view.
  - destruct Hr as (-> & -> & Hwhy). split_and!; [done|apply steady_refl|]. eexists. split; [|done].
    apply map_insert_refused. destruct (decide (v_end v <= v_start v)); [by left|]. right.
    destruct Hwhy as [|Hn]; [done|]. apply not_clear; [done|done|lia].
Qed.

Lemma remove_refines s e t :
  tree_ok (t_map t) -> op_ok (t_map t) (OpRemove s e) -> wp (run_op (OpRemove s e)) (refines (OpRemove s e) t) t.
Proof.
  intros Hm [Hr Hph]. cbn. apply wp_bind. eapply wp_mono; [by apply remove_range_spec|].
  intros out t' [(Hm' & [Hst _] & Hv') _]. apply wp_ret. split_and!; [done..|]. eexists. split; [apply map_remove|].
  intros a. rewrite Hv'. unfold over, range. destruct (_ && _); [|done]. by destruct (view (t_map t) a).
Qed.

(** What a covering walk found, by the view. *)
Lemma covered_view prot s e m :
  tree_ok m -> all_covered (Tree.may_admit prot) s e m -> may_protect (view m) s e prot.
Proof.
  intros Hm Hc a Ha. destruct (Hc a Ha) as (k & v & Hg & Hb & Hadm). exists (page_at v a).
  split; [by eapply view_in|]. unfold Tree.may_admit in Hadm. cbn. by destruct (flags_contains _ _).
Qed.

Lemma uncovered_view prot s e m err :
  tree_ok m -> s < e -> uncovered (Tree.may_admit prot) Inval s e m err ->
  err = Inval /\ (exists a, s <= a < e /\ view m a = None) \/
  err = Access /\ (exists a p, s <= a < e /\ view m a = Some p /\ flags_contains (p_may_prot p) prot = false).
Proof.
  intros Hm Hse [[-> Hh]|(k & v & Hg & [? ?] & Hadm)]; [by left|right].
  pose proof (ok_vma _ _ _ Hm Hg) as (? & ? & _). unfold Tree.may_admit in Hadm.
  destruct (flags_contains (v_may_prot v) prot) eqn:Ef; [done|]. injection Hadm as <-. split; [done|].
  exists (Z.max s (v_start v)), (page_at v (Z.max s (v_start v))). split_and!; [lia..|eapply view_in; [done..|lia]|done].
Qed.

Lemma protect_refines s e prot pkey t :
  tree_ok (t_map t) -> op_ok (t_map t) (OpProtect s e prot pkey) ->
  wp (run_op (OpProtect s e prot pkey)) (refines (OpProtect s e prot pkey) t) t.
Proof.
  intros Hm Hph. cbn. apply wp_bind. destruct (decide (e <= s)) as [Hle|Hlt].
  { unfold Tree.mprotect_range_with_pkey. bool_case (e <=? s); [|lia]. apply wp_ret, wp_ret.
    split_and!; [done|apply steady_refl|]. eexists. split; [|done]. apply map_protect_refused. auto. }
  eapply wp_mono; [by apply mprotect_spec|]. intros [[]|err] t' Hr; apply wp_ret.
  - destruct Hr as (_ & Hc & Hm' & [Hst _] & Hv'). split_and!; [done..|]. eexists.
    split; [apply map_protect; [lia|by apply covered_view]|]. intros a. rewrite Hv'. unfold over, range.
    destruct (_ && _); [|done]. by destruct (view (t_map t) a).
  - destruct Hr as [-> Hwhy]. split_and!; [done|apply steady_refl|]. eexists. split; [|done]. apply map_protect_refused.
    destruct Hwhy as [[-> ?]|Hu]; [lia|].
    destruct (uncovered_view prot s e _ _ Hm ltac:(lia) Hu) as [[-> ?]|[-> ?]]; auto.
Qed.

Lemma seal_refines s e t :
  tree_ok (t_map t) -> op_ok (t_map t) (OpSeal s e) -> wp (run_op (OpSeal s e)) (refines (OpSeal s e) t) t.
Proof.
  intros Hm Hph. cbn. apply wp_bind. eapply wp_mono; [by apply seal_spec|]. intros [[]|err] t' Hr; apply wp_ret.
  - destruct Hr as (Hlt & Hc & Hm' & [Hst _] & Hv'). split_and!; [done..|]. eexists. split; [apply map_seal; [done|]|].
    + intros a Ha. destruct (Hc a Ha) as (k & v & Hg & Hb & _). by rewrite (view_in _ _ _ _ Hm Hg Hb).
    + intros a. rewrite Hv'. unfold over, range. destruct (_ && _); [|done]. by destruct (view (t_map t) a).
  - destruct Hr as (-> & -> & Hwhy). split_and!; [done|apply steady_refl|]. eexists. split; [|done].
    by apply map_seal_refused.
Qed.

Lemma find_refines a t : tree_ok (t_map t) -> wp (run_op (OpFind a)) (refines (OpFind a) t) t.
Proof.
  intros Hm. cbn. apply wp_bind, wp_get, wp_ret. rewrite <- find_containing_view.
  split_and!; [done|apply steady_refl|]. eexists. split; [apply map_find|done].
Qed.

Lemma op_refines op t : tree_ok (t_map t) -> op_ok (t_map t) op -> wp (run_op op) (refines op t) t.
Proof.
  intros Hm Hop. destruct op;
    [by apply insert_refines|by apply remove_refines|by apply protect_refines|by apply seal_refines|by apply find_refines].
Qed.
