(* ===== verification/Hole.v ===== *)
(** * Search for unmapped ranges

    [crates/kernel/mm-vmm/src/hole.rs] and the limits of
    [address_space/limits.rs]: the top-down and bottom-up searches for a gap
    between areas. A search returns the highest (lowest) aligned address
    whose range is clear, and fails only when no such address exists. *)

From Stdlib Require Import Sorting.Sorted.
From stdpp Require Import strings.
From S2P Require Import Prelude BTree Vma VmaTree VmaTreeInv VmaTreeOps.

Module Hole.

Definition MIN_USER_VA : Z := PAGE_SIZE_BYTES.
Definition MMAP_TOP : Z := USER_VA_END - 0x1000000.
Definition STACK_GROW_MAX : Z := 8 * 1024 * 1024.

Definition hole_clear (t : VmaTree) (start end_ : Z) : bool :=
  if match floor_le start (t_map t) with Some (_, v) => start <? v_end v | None => false end then false
  else if match ceil_gt start (t_map t) with Some (_, v) => v_start v <? end_ | None => false end then false
  else true.

Definition align_down (addr align : Z) : Z := Z.land addr (not64 (align - 1)).

Definition align_up (addr align : Z) : Z := Z.land (wrap64 (addr + (align - 1))) (not64 (align - 1)).

(** The loop over the areas from the highest down, and the test that
    follows it. *)
Fixpoint topdown (len mmap_top align top : Z) (l : list Vma) : option Z :=
  match l with
  | [] =>
      if len <=? sat_sub top MIN_USER_VA then
        let at_ := align_down (top - len) align in
        if MIN_USER_VA <=? at_ then uva_new at_ else None
      else None
  | v :: l' =>
      let s := Z.max (v_start v) MIN_USER_VA in
      let e := Z.min (v_end v) mmap_top in
      if e <=? s then topdown len mmap_top align top l'
      else
        let at_ := align_down (top - len) align in
        if (len <=? sat_sub top e) && ((e <=? at_) && (MIN_USER_VA <=? at_)) then uva_new at_
        else topdown len mmap_top align s l'
  end.

Definition find_hole_aligned (t : VmaTree) (len mmap_top align : Z) : option Z :=
  if (len =? 0) || (sat_sub mmap_top MIN_USER_VA <? len) then None
  else topdown len mmap_top align mmap_top (rev (map snd (t_map t))).

Fixpoint bottomup (len align low : Z) (l : list Vma) : option Z :=
  match l with
  | [] => if len <=? sat_sub MMAP_TOP low then uva_new low else None
  | v :: l' =>
      if v_end v <=? low then bottomup len align low l'
      else if len <=? sat_sub (v_start v) low then uva_new low
      else
        let low := align_up (v_end v) align in
        if sat_sub MMAP_TOP len <? low then None else bottomup len align low l'
  end.

Definition find_hole_bottom_up_aligned (t : VmaTree) (len mmap_floor align : Z) : option Z :=
  let floor := align_up (Z.max mmap_floor MIN_USER_VA) align in
  if (len =? 0) || (sat_sub MMAP_TOP floor <? len) then None
  else bottomup len align floor (map snd (t_map t)).

End Hole.

(** ** Alignment *)

Lemma align_down_spec x j :
  0 <= x < 2 ^ 64 -> (j < 64)%nat ->
  let d := Hole.align_down x (pow2 j) in
  (pow2 j | d) /\ 0 <= d <= x /\ forall y, (pow2 j | y) -> y <= x -> y <= d.
Proof.
  intros Hx Hj. cbn zeta. unfold Hole.align_down.
  assert (Z.land x (not64 (pow2 j - 1)) = pow2 j * (x / pow2 j)) as ->.
  { unfold not64, U64_MAX. apply Z.bits_inj'. intros n Hn. rewrite Z.land_spec, Z.lxor_spec.
    replace (pow2 j - 1) with (Z.ones (Z.of_nat j)) by (unfold pow2; rewrite Z.ones_equiv; lia).
    replace (2 ^ 64 - 1) with (Z.ones 64) by done.
    rewrite Z.mul_comm. unfold pow2. rewrite <- Z.shiftr_div_pow2, <- Z.shiftl_mul_pow2 by lia.
    rewrite Z.testbit_ones, Z.testbit_ones by lia.
    destruct (Z.ltb_spec n (Z.of_nat j)).
    - rewrite Z.shiftl_spec_low by lia. rewrite (proj2 (Z.leb_le 0 n)), (proj2 (Z.ltb_lt n 64)) by lia. cbn. by rewrite andb_false_r.
    - rewrite Z.shiftl_spec, Z.shiftr_spec by lia. replace (n - Z.of_nat j + Z.of_nat j) with n by lia.
      rewrite (proj2 (Z.leb_le 0 n)) by lia. cbn. destruct (Z.ltb_spec n 64); cbn; [by rewrite andb_true_r|].
      rewrite andb_false_r. symmetry. destruct (decide (x = 0)) as [->|]; [by rewrite Z.bits_0|].
      apply Z.bits_above_log2; [lia|]. apply Z.log2_lt_pow2; [lia|]. apply Z.lt_le_trans with (2 ^ 64); [lia|].
      apply Z.pow_le_mono_r; lia. }
  pose proof (pow2_pos j) as Hp. pose proof (Z.mul_div_le x (pow2 j) Hp). split_and!.
  - by exists (x / pow2 j); lia.
  - pose proof (Z.div_pos x (pow2 j)). nia.
  - lia.
  - intros y [q ->] Hy. rewrite Z.mul_comm. apply Z.mul_le_mono_nonneg_l; [lia|]. apply Z.div_le_lower_bound; lia.
Qed.

Lemma align_up_spec x j :
  0 <= x -> x + pow2 j <= 2 ^ 64 -> (j < 64)%nat ->
  let u := Hole.align_up x (pow2 j) in
  (pow2 j | u) /\ x <= u /\ forall y, (pow2 j | y) -> x <= y -> u <= y.
Proof.
  intros Hx Hmax Hj. pose proof (pow2_pos j) as Hp. unfold Hole.align_up, wrap64. rewrite Z.mod_small by lia.
  destruct (align_down_spec (x + (pow2 j - 1)) j ltac:(lia) Hj) as (Hd & Hle & Hgr). cbn zeta.
  fold (Hole.align_down (x + (pow2 j - 1)) (pow2 j)). set (u := Hole.align_down _ _) in *.
  assert (Hxu : x <= u).
  { destruct Hd as [q Hq]. destruct (decide (x <= u)); [done|].
    assert (u + pow2 j <= u); [|lia]. apply Hgr; [exists (q + 1)|]; lia. }
  split_and!; [done|done|]. intros y [q ->] Hy. destruct Hd as [r Hr]. rewrite Hr in *.
  assert (r <= q); [|nia]. destruct (decide (r <= q)); [done|]. nia.
Qed.

(** ** What the searches look for *)

(** [[a, a + len)] is clear, aligned and within [[lo, hi)]. *)
Definition fits (m : list (Z * Vma)) (len j lo hi a : Z) : Prop :=
  lo <= a /\ a + len <= hi /\ (j | a) /\ clear m a (a + len).

(** The areas of a tree from the lowest up, and from the highest down. *)
Lemma areas_ascending m : tree_ok m -> StronglySorted (fun v w => v_end v <= v_start w) (map snd m).
Proof.
  intros Hm. pose proof (ok_sorted _ Hm) as Hs.
  assert (forall l, (forall p, p ∈ l -> p ∈ m) -> sorted l -> StronglySorted (fun v w => v_end v <= v_start w) (map snd l)) as H;
    [|by apply H].
  induction l as [|[k v] l IH]; intros Hin Hl; [constructor|]. cbn. apply sorted_cons_inv in Hl as [Hl Hhead].
  constructor; [apply IH; [intros; apply Hin; by right|done]|]. apply Forall_forall. intros w.
  rewrite list_elem_of_fmap. intros ([k' w'] & -> & Hw). cbn.
  assert (Hg : bt_get k m = Some v) by (apply get_elem; [done|]; apply Hin; left).
  assert (Hg' : bt_get k' m = Some w') by (apply get_elem; [done|]; apply Hin; by right).
  rewrite <- (ok_start _ _ _ Hm Hg'). by apply (ok_disjoint _ Hm k v k' w'); [..|apply (Hhead _ Hw)].
Qed.

Lemma ssorted_snoc {A} (R : A -> A -> Prop) l x :
  StronglySorted R l -> (forall y, y ∈ l -> R y x) -> StronglySorted R (l ++ [x]).
Proof.
  induction 1 as [|y l Hs IH Hf]; intros Hx; cbn; [repeat constructor|].
  constructor; [apply IH; intros; apply Hx; by right|]. apply Forall_app. split; [done|].
  constructor; [apply Hx; left|constructor].
Qed.

Lemma areas_descending m : tree_ok m -> StronglySorted (fun v w => v_end w <= v_start v) (rev (map snd m)).
Proof.
  intros Hm. induction (areas_ascending m Hm) as [|v l Hs IH Hf]; [constructor|]. cbn.
  apply ssorted_snoc; [done|]. intros w Hw. rewrite Forall_forall in Hf. apply Hf. by apply list_elem_of_In, in_rev, list_elem_of_In.
Qed.

Lemma elem_areas m v : tree_ok m -> v ∈ map snd m <-> bt_get (v_start v) m = Some v.
Proof.
  intros Hm. rewrite list_elem_of_fmap. split.
  - intros ([k w] & -> & Hin). cbn. apply get_elem in Hin; [|apply Hm]. by rewrite <- (ok_start _ _ _ Hm Hin).
  - intros Hg. apply get_elem in Hg; [|apply Hm]. by exists (v_start v, v).
Qed.

Section topdown.
Context (m : list (Z * Vma)) (len mmap_top : Z) (j : nat).
Hypothesis Hm : tree_ok m.
Hypothesis Hlen : 0 < len.
Hypothesis Htop : Hole.MIN_USER_VA <= mmap_top <= USER_VA_END.
Hypothesis Hj : (j < 64)%nat.
Local Abbreviation MIN := Hole.MIN_USER_VA.
Local Abbreviation feasible := (fits m len (pow2 j) MIN mmap_top).

(** Every fitting address lies below [top]; the areas already passed lie at
    or above it, or outside the searched range. *)
Definition searched (top : Z) (l : list Vma) : Prop :=
  MIN <= top <= mmap_top /\
  (forall a, feasible a -> a + len <= top) /\
  (forall k v, bt_get k m = Some v ->
     v ∈ l \/ v_end v <= MIN \/ mmap_top <= v_start v \/ top <= Z.max (v_start v) MIN) /\
  (forall v, v ∈ l -> bt_get (v_start v) m = Some v /\ (top = mmap_top \/ v_end v <= top)) /\
  StronglySorted (fun v w => v_end w <= v_start v) l.

(** The answer of a search from above. *)
Definition highest (o : option Z) : Prop :=
  match o with
  | Some a => feasible a /\ forall a', feasible a' -> a' <= a
  | None => forall a', ~ feasible a'
  end.

(** The candidate below [top] is the answer if the areas still ahead end at
    or before it. *)
Lemma candidate_highest top l :
  searched top l -> len <= top - MIN ->
  let at_ := Hole.align_down (top - len) (pow2 j) in
  MIN <= at_ -> (forall v, v ∈ l -> v_end v <= at_) -> highest (uva_new at_).
Proof.
  intros (Ht & Hfe & Hall & _) Hfit at_ Hmin Hl. assert (MIN = 4096) as HM by done.
  assert (USER_VA_END < 2 ^ 64) by done.
  destruct (align_down_spec (top - len) j ltac:(lia) Hj) as (Hd & Hle & Hgr). fold at_ in Hd, Hle, Hgr.
  rewrite uva_new_lt by lia. split.
  - split_and!; [done|lia|done|]. intros k v Hg. destruct (Hall k v Hg) as [Hin|Hout]; [left; by apply Hl|].
    lia.
  - intros a' Ha'. specialize (Hfe a' Ha'). destruct Ha' as (_ & _ & Hdiv & _). apply Hgr; [done|lia].
Qed.

Lemma topdown_spec l top : searched top l -> highest (Hole.topdown len mmap_top (pow2 j) top l).
Proof.
  assert (HM : MIN = 4096) by done. assert (HU : USER_VA_END < 2 ^ 64) by done.
  revert top. induction l as [|v l IH]; intros top Hs; cbn [Hole.topdown]; pose proof Hs as (Ht & Hfe & Hall & Hin & Hso).
  - unfold sat_sub. bool_case (len <=? Z.max (top - MIN) 0).
    + destruct (align_down_spec (top - len) j ltac:(lia) Hj) as (Hd & Hle & Hgr).
      bool_case (MIN <=? Hole.align_down (top - len) (pow2 j)).
      * eapply candidate_highest; [done|lia|done|]. intros v Hv. by apply not_elem_of_nil in Hv.
      * intros a' Ha'. specialize (Hfe _ Ha'). destruct Ha' as (? & _ & Hdiv & _). specialize (Hgr a' Hdiv). lia.
    + intros a' Ha'. specialize (Hfe _ Ha'). destruct Ha' as (? & _). lia.
  - inversion Hso as [|? ? Hso' Hf]; subst. rewrite Forall_forall in Hf.
    destruct (Hin v ltac:(left)) as [Hg Hvtop]. pose proof (ok_vma _ _ _ Hm Hg) as (Hv0 & Hvlt & _).
    bool_case (Z.min (v_end v) mmap_top <=? Z.max (v_start v) MIN).
    { apply IH. split_and!; [lia..|done| |intros; apply Hin; by right|done]. intros k w Hgw.
      destruct (Hall k w Hgw) as [[->|]%elem_of_cons|]; [lia|by left|by right]. }
    destruct (_ && _) eqn:Ec.
    + unfold sat_sub in Ec. to_prop. eapply candidate_highest; [done|lia|done|].
      destruct (align_down_spec (top - len) j ltac:(lia) Hj) as (_ & Hle & _).
      intros w [->|Hw]%elem_of_cons; [lia|]. specialize (Hf _ Hw). lia.
    + apply IH. split_and!; [lia|lia| | | |done].
      * intros a' Ha'. specialize (Hfe _ Ha'). destruct Ha' as (Hlo & Hhi & Hdiv & Hcl).
        destruct (Hcl _ _ Hg) as [Hge|]; [|lia]. exfalso.
        destruct (align_down_spec (top - len) j ltac:(lia) Hj) as (_ & Hle & Hgr). specialize (Hgr a' Hdiv ltac:(lia)).
        apply andb_false_iff in Ec as [Ec|Ec]; [unfold sat_sub in Ec; to_prop; lia|].
        apply andb_false_iff in Ec as [Ec|Ec]; to_prop; lia.
      * intros k w Hgw. destruct (Hall k w Hgw) as [[->|]%elem_of_cons|?]; [right; lia|by left|right; lia].
      * intros w Hw. split; [apply Hin; by right|]. right. specialize (Hf _ Hw). lia.
Qed.

End topdown.

Lemma find_hole_highest t len mmap_top j :
  tree_ok (t_map t) -> 0 < len -> Hole.MIN_USER_VA <= mmap_top <= USER_VA_END -> (j < 64)%nat ->
  highest (t_map t) len mmap_top j (Hole.find_hole_aligned t len mmap_top (pow2 j)).
Proof.
  intros Hm Hlen Htop Hj. unfold Hole.find_hole_aligned. rewrite (proj2 (Z.eqb_neq _ _)) by lia. cbn [orb].
  unfold sat_sub. bool_case (Z.max (mmap_top - Hole.MIN_USER_VA) 0 <? len).
  { intros a' (? & ? & _). lia. }
  apply topdown_spec; [done..|]. split_and!; [lia..| | | |by apply areas_descending].
  - intros a (_ & ? & _). done.
  - intros k v Hg. left. apply list_elem_of_In. rewrite <- in_rev. apply list_elem_of_In, elem_areas; [done|].
    by rewrite <- (ok_start _ _ _ Hm Hg).
  - intros v Hv. split; [|by left]. apply elem_areas; [done|]. by apply list_elem_of_In, in_rev, list_elem_of_In.
Qed.

Section bottomup.
Context (m : list (Z * Vma)) (len floor : Z) (j : nat).
Hypothesis Hm : tree_ok m.
Hypothesis Hlen : 0 < len.
Hypothesis Hfloor : 0 <= floor.
Hypothesis Hj : (j < 47)%nat.
Local Abbreviation feasible := (fits m len (pow2 j) floor Hole.MMAP_TOP).

(** The answer of a search from below. *)
Definition lowest (o : option Z) : Prop :=
  match o with
  | Some a => feasible a /\ forall a', feasible a' -> a <= a'
  | None => forall a', ~ feasible a'
  end.

(** [low] is aligned and fits below the ceiling; fitting addresses lie at or
    above it; the areas already passed end at or before it. *)
Definition climbed (low : Z) (l : list Vma) : Prop :=
  floor <= low /\ (pow2 j | low) /\ low + len <= Hole.MMAP_TOP /\
  (forall a, feasible a -> low <= a) /\
  (forall k v, bt_get k m = Some v -> v ∈ l \/ v_end v <= low) /\
  (forall v, v ∈ l -> bt_get (v_start v) m = Some v) /\
  StronglySorted (fun v w => v_end v <= v_start w) l.

Lemma low_lowest low l : climbed low l -> (forall v, v ∈ l -> low + len <= v_start v) -> lowest (uva_new low).
Proof.
  intros (Hlo & Hal & Hhi & Hfe & Hall & _) Hl. rewrite uva_new_lt by (unfold Hole.MMAP_TOP in *; lia).
  split; [|done]. split_and!; [done..|]. intros k v Hg. destruct (Hall k v Hg) as [Hin|]; [right; by apply Hl|by left].
Qed.

Lemma bottomup_spec l low : climbed low l -> lowest (Hole.bottomup len (pow2 j) low l).
Proof.
  assert (HT : Hole.MMAP_TOP = USER_VA_END - 16777216) by done. assert (HU : USER_VA_END = 2 ^ 47) by done.
  assert (Hp : pow2 j <= 2 ^ 47) by (apply Z.pow_le_mono_r; lia).
  revert low. induction l as [|v l IH]; intros low Hc; cbn [Hole.bottomup]; pose proof Hc as (Hlo & Hal & Hhi & Hfe & Hall & Hin & Hso).
  - rewrite (proj2 (Z.leb_le _ _)) by (unfold sat_sub; lia). eapply low_lowest; [done|].
    intros v Hv. by apply not_elem_of_nil in Hv.
  - inversion Hso as [|? ? Hso' Hf]; subst. rewrite Forall_forall in Hf.
    assert (Hg : bt_get (v_start v) m = Some v) by (apply Hin; left).
    pose proof (ok_vma _ _ _ Hm Hg) as (Hv0 & Hvlt & Hvmax & _).
    bool_case (v_end v <=? low).
    { apply IH. split_and!; [done..| |intros; apply Hin; by right|done]. intros k w Hgw.
      destruct (Hall k w Hgw) as [[->|]%elem_of_cons|]; auto. }
    unfold sat_sub. bool_case (len <=? Z.max (v_start v - low) 0).
    { eapply low_lowest; [done|]. intros w [->|Hw]%elem_of_cons; [lia|]. specialize (Hf _ Hw). lia. }
    assert (H64 : 2 ^ 47 + 2 ^ 47 <= 2 ^ 64) by done.
    destruct (align_up_spec (v_end v) j ltac:(lia) ltac:(lia) ltac:(lia)) as (Hd & Hle & Hls). set (u := Hole.align_up _ _) in *.
    assert (Hfe' : forall a, feasible a -> u <= a).
    { intros a Ha. specialize (Hfe _ Ha). destruct Ha as (_ & _ & Hdiv & Hcl). apply Hls; [done|].
      destruct (Hcl _ _ Hg); lia. }
    bool_case (Z.max (Hole.MMAP_TOP - len) 0 <? u).
    + intros a Ha. specialize (Hfe' _ Ha). destruct Ha as (? & ? & _). lia.
    + apply IH. split_and!; [lia|done|lia|done| |intros; apply Hin; by right|done].
      intros k w Hgw. destruct (Hall k w Hgw) as [[->|]%elem_of_cons|?]; [right; lia|by left|right; lia].
Qed.

End bottomup.

Lemma find_hole_lowest t len mmap_floor j :
  tree_ok (t_map t) -> 0 < len -> 0 <= mmap_floor < USER_VA_END -> (j < 47)%nat ->
  lowest (t_map t) len (Z.max mmap_floor Hole.MIN_USER_VA) j
    (Hole.find_hole_bottom_up_aligned t len mmap_floor (pow2 j)).
Proof.
  intros Hm Hlen Hfl Hj. unfold Hole.find_hole_bottom_up_aligned. rewrite (proj2 (Z.eqb_neq _ _)) by lia. cbn [orb].
  assert (HM : Hole.MIN_USER_VA = 4096) by done. assert (HU : USER_VA_END = 2 ^ 47) by done.
  assert (Hp : pow2 j <= 2 ^ 47) by (apply Z.pow_le_mono_r; lia). assert (H64 : 2 ^ 47 + 2 ^ 47 <= 2 ^ 64) by done.
  destruct (align_up_spec (Z.max mmap_floor Hole.MIN_USER_VA) j ltac:(lia) ltac:(lia) ltac:(lia)) as (Hd & Hle & Hls).
  set (u := Hole.align_up _ _) in *. unfold sat_sub. bool_case (Z.max (Hole.MMAP_TOP - u) 0 <? len).
  { intros a' (? & ? & Hdiv & _). specialize (Hls a' Hdiv). lia. }
  apply bottomup_spec; [done|lia..|]. split_and!; [done|done|lia| | | |by apply areas_ascending].
  - intros a (? & _ & Hdiv & _). by apply Hls.
  - intros k v Hg. left. apply elem_areas; [done|]. by rewrite <- (ok_start _ _ _ Hm Hg).
  - intros v Hv. by apply elem_areas.
Qed.

(** [hole_clear] decides whether a range meets no area. *)
Lemma hole_clear_spec t start end_ :
  tree_ok (t_map t) -> start < end_ -> Hole.hole_clear t start end_ = true <-> clear (t_map t) start end_.
Proof.
  intros Hm Hlt. unfold Hole.hole_clear. pose proof (floor_le_nearest start _ (ok_sorted _ Hm)) as Hf.
  pose proof (ceil_gt_nearest start _ (ok_sorted _ Hm)) as Hc. split.
  - destruct (match floor_le _ _ with Some _ => _ | None => _ end) eqn:E1; [done|].
    destruct (match ceil_gt _ _ with Some _ => _ | None => _ end) eqn:E2; [done|]. intros _.
    apply (clear_neighbours t start end_ Hm Hlt). done.
  - intros Hcl. apply (clear_neighbours t start end_ Hm Hlt) in Hcl as [-> ->]. done.
Qed.
