(* ===== verification/Rmap.v ===== *)
(** * Reverse maps and memory-deny-write-execute

    [crates/kernel/mm-vmm/src/anon_vma.rs], [file_rmap.rs] and
    [address_space/mdwe.rs]: the chains that lead from an anonymous family or
    a file back to the address ranges that map it, the writable-mapping state
    that sealing a file consults, and the policy that keeps memory from
    becoming executable. An address space is named by its identity; whether
    it is still alive is a parameter of the walks. *)

From stdpp Require Import strings.
From S2P Require Import Prelude Vma VmaTree.

(** ** Chains of anonymous families *)

Module AnonVma.

Record RmapTarget := { mm : Z; start : Z; end_ : Z }.

Definition attach (m s e : Z) (chain : list RmapTarget) : list RmapTarget :=
  chain ++ [{| mm := m; start := s; end_ := e |}].

Definition matches (m s e : Z) (t : RmapTarget) : bool := (mm t =? m) && (start t =? s) && (end_ t =? e).

(** [iter().position(p)]. *)
Fixpoint position (p : RmapTarget -> bool) (l : list RmapTarget) : option nat :=
  match l with
  | [] => None
  | t :: l' => if p t then Some O else option_map S (position p l')
  end.

(** [Vec::swap_remove]: the last element takes the place of the removed one. *)
Definition swap_remove (i : nat) (l : list RmapTarget) : list RmapTarget :=
  match last l with
  | None => l
  | Some x => take (length l - 1) (<[i := x]> l)
  end.

Definition detach (m s e : Z) (chain : list RmapTarget) : list RmapTarget :=
  match position (matches m s e) chain with
  | Some i => swap_remove i chain
  | None => chain
  end.

Definition walk (alive : Z -> bool) (chain : list RmapTarget) : list (Z * Z * Z) :=
  map (fun t => (mm t, start t, end_ t)) (filter (fun t => alive (mm t) = true) chain).

Definition live_target_count (alive : Z -> bool) (chain : list RmapTarget) : nat :=
  length (filter (fun t => alive (mm t) = true) chain).

Definition raw_chain_len (chain : list RmapTarget) : nat := length chain.

Definition gc_dangling (alive : Z -> bool) (chain : list RmapTarget) : list RmapTarget :=
  filter (fun t => alive (mm t) = true) chain.

End AnonVma.

(** ** Intervals of a file *)

Module FileRmap.

Record FileRmapTarget := {
  seq : Z;
  mm : Z;
  start : Z;
  end_ : Z;
  file_page_start : Z;
  may_write : bool;
}.

Record FileRmapState := {
  targets : list FileRmapTarget;
  next_seq : Z;
  pending_writable : Z;
  writable_denied : bool;
}.

Definition new : FileRmapState :=
  {| targets := []; next_seq := 1; pending_writable := 0; writable_denied := false |}.

Definition set_targets (l : list FileRmapTarget) (s : FileRmapState) : FileRmapState :=
  {| targets := l; next_seq := next_seq s; pending_writable := pending_writable s; writable_denied := writable_denied s |}.
Definition set_pending (n : Z) (s : FileRmapState) : FileRmapState :=
  {| targets := targets s; next_seq := next_seq s; pending_writable := n; writable_denied := writable_denied s |}.
Definition set_denied (b : bool) (s : FileRmapState) : FileRmapState :=
  {| targets := targets s; next_seq := next_seq s; pending_writable := pending_writable s; writable_denied := b |}.

Definition reserve_writable (s : FileRmapState) : KResult FileRmapState :=
  if writable_denied s then Err Perm
  else match checked_add (pending_writable s) 1 with
  | Some n => Ok (set_pending n s)
  | None => Err NoMem
  end.

(** [Drop for WritableMapReservation]. *)
Definition drop_reservation : M FileRmapState unit :=
  s ← get;
  kassert (negb (pending_writable s =? 0)) "state.pending_writable != 0" ;;
  n ← sub64 (pending_writable s) 1;
  modify (set_pending n).

Definition attach (m st e fps : Z) (w : bool) (s : FileRmapState) : FileRmapState :=
  {| targets := targets s ++ [{| seq := next_seq s; mm := m; start := st; end_ := e; file_page_start := fps; may_write := w |}];
     next_seq := Z.max (wrap64 (next_seq s + 1)) 1;
     pending_writable := pending_writable s;
     writable_denied := writable_denied s |}.

Definition detach (m st e : Z) (s : FileRmapState) : FileRmapState :=
  set_targets (filter (fun t => negb (mm t =? m) || (start t <? st) || (e <? end_ t) = true) (targets s)) s.

Inductive WriteSealError := Busy.

(** [publish] is the answer of the caller's compare-and-swap. *)
Definition commit_write_seal (alive : Z -> bool) (publish : bool) (s : FileRmapState)
    : (WriteSealError + bool) * FileRmapState :=
  let s := set_targets (filter (fun t => alive (mm t) = true) (targets s)) s in
  let was_denied := writable_denied s in
  if negb was_denied && (negb (pending_writable s =? 0) || existsb may_write (targets s)) then (inl Busy, s)
  else
    let s := if was_denied then s else set_denied true s in
    let s := if negb publish && negb was_denied then set_denied false s else s in
    (inr publish, s).

(** The span of [target] inside the file pages [[first, end)]: address, first
    page and number of pages. *)
Definition span (alive : Z -> bool) (first last : Z) (t : FileRmapTarget) : option (Z * Z * Z * Z) :=
  let pages := (end_ t - start t) / PAGE_SIZE_BYTES in
  let target_end := sat_add (file_page_start t) pages in
  let lo := Z.max first (file_page_start t) in
  let hi := Z.min last target_end in
  if hi <=? lo then None
  else if alive (mm t) then
    Some (mm t, start t + (lo - file_page_start t) * PAGE_SIZE_BYTES, lo, hi - lo)
  else None.

(** [find_map] over the targets after the cursor. *)
Fixpoint next_visit (alive : Z -> bool) (first last after : Z) (l : list FileRmapTarget)
    : option (Z * (Z * Z * Z * Z)) :=
  match l with
  | [] => None
  | t :: l' =>
      if after <? seq t then
        match span alive first last t with
        | Some v => Some (seq t, v)
        | None => next_visit alive first last after l'
        end
      else next_visit alive first last after l'
  end.

(** Each turn moves the cursor to the target it visited: the number of
    targets bounds the turns. *)
Fixpoint walk_loop (fuel : nat) (alive : Z -> bool) (first last after : Z) (s : FileRmapState)
    : list (Z * Z * Z * Z) :=
  match fuel with
  | O => []
  | S fuel' =>
      match next_visit alive first last after (targets s) with
      | None => []
      | Some (sq, v) => v :: walk_loop fuel' alive first last sq s
      end
  end.

Definition walk_range (alive : Z -> bool) (first last : Z) (s : FileRmapState) : list (Z * Z * Z * Z) :=
  if last <=? first then [] else walk_loop (S (length (targets s))) alive first last 0 s.

Definition walk_page (alive : Z -> bool) (page_index : Z) (s : FileRmapState) : list (Z * Z) :=
  map (fun '(m, va, _, _) => (m, va)) (walk_range alive page_index (sat_add page_index 1) s).

Definition live_target_count (alive : Z -> bool) (s : FileRmapState) : nat :=
  length (filter (fun t => alive (mm t) = true) (targets s)).

End FileRmap.

(** ** Memory-deny-write-execute *)

Module Mdwe.

Inductive MdweRequest := Disabled | RefuseExecGain | RefuseExecGainNoInherit.

Inductive MdweSetError := Immutable.

Definition DISABLED : Z := 0.
Definition REFUSE : Z := 1.
Definition REFUSE_NO_INHERIT : Z := 2.

Definition encode (r : MdweRequest) : Z :=
  match r with
  | Disabled => DISABLED
  | RefuseExecGain => REFUSE
  | RefuseExecGainNoInherit => REFUSE_NO_INHERIT
  end.

Definition get (state : Z) : MdweRequest :=
  if state =? REFUSE then RefuseExecGain
  else if state =? REFUSE_NO_INHERIT then RefuseExecGainNoInherit
  else Disabled.

(** [inherited_from] and [inherit_from]. *)
Definition inherited_from (parent : Z) : Z :=
  encode (match get parent with RefuseExecGainNoInherit => Disabled | state => state end).

(** Proof that the owner admitted one new mapping. *)
Record MdweAdmission := { owner : Z; admitted_prot : Z }.

Definition validate (a : MdweAdmission) (who prot : Z) : KResult unit :=
  if negb (owner a =? who) || negb (admitted_prot a =? prot) then Err Inval else Ok tt.

(** [set]: one pass of the compare-and-swap loop, which a lone writer wins. *)
Definition set (request : MdweRequest) (state : Z) : (MdweSetError + unit) * Z :=
  let requested := encode request in
  if negb (state =? DISABLED) then
    (if state =? requested then inr tt else inl Immutable, state)
  else (inr tt, requested).

Definition denies (state old new : Z) : bool :=
  if match get state with Disabled => true | _ => false end || negb (flags_contains new Prot.EXEC) then false
  else flags_contains new Prot.WRITE || negb (flags_contains old Prot.EXEC).

End Mdwe.
