(* ===== verification/RmapSpec.v ===== *)
(** * The reverse map of a file

    The walk over the intervals of a file, which releases the lock between
    visits and finds its place again by sequence numbers, visits what one pass
    over the intervals finds; and a write seal, once published, excludes
    writable shared mappings for good. *)

From Stdlib Require Import Sorting.Sorted.
From stdpp Require Import relations strings list.
From S2P Require Import Prelude Vma VmaTree Rmap.

Import FileRmap.

(** Sequence numbers ascend, and the next one is above them all. *)
Record rmap_ok (st : FileRmapState) : Prop := {
  ro_sorted : StronglySorted (fun a b => seq a < seq b) (targets st);
  ro_range : forall t, t ∈ targets st -> 0 < seq t < next_seq st;
}.

Lemma new_rmap_ok : rmap_ok new.
Proof. constructor; [constructor|]. intros t Ht. by apply elem_of_nil in Ht. Qed.

Lemma sorted_filter {A} (R : A -> A -> Prop) (P : A -> Prop) `{!forall x, Decision (P x)} l :
  StronglySorted R l -> StronglySorted R (filter P l).
Proof.
  induction 1 as [|x l Hl IH Hx]; [constructor|]. rewrite filter_cons. destruct (decide (P x)); [|done].
  constructor; [done|]. rewrite Forall_forall in *. intros y Hy. apply Hx. by apply list_elem_of_filter in Hy as [_ ?].
Qed.

Lemma attach_ok m s e fps w st :
  rmap_ok st -> 0 < next_seq st < U64_MAX -> rmap_ok (attach m s e fps w st).
Proof.
  intros [Hs Hr] Hn. assert (Hnext : Z.max (wrap64 (next_seq st + 1)) 1 = next_seq st + 1).
  { rewrite wrap64_small by lia. lia. }
  constructor; cbn; rewrite ?Hnext.
  - induction (targets st) as [|x l IH]; cbn; [by repeat constructor|]. inversion Hs as [|? ? Hl Hx]; subst.
    constructor; [apply IH; [done|]; intros t Ht; apply Hr; by right|].
    apply Forall_app. split; [done|]. constructor; [|done]. cbn. apply Hr. left.
  - intros t Ht. apply elem_of_app in Ht as [Ht|Ht]; [specialize (Hr t Ht); lia|]. apply list_elem_of_singleton in Ht as ->. cbn. lia.
Qed.

Lemma detach_ok m s e st : rmap_ok st -> rmap_ok (detach m s e st).
Proof.
  intros [Hs Hr]. constructor; cbn; [by apply sorted_filter|]. intros t Ht. apply list_elem_of_filter in Ht as [_ Ht]. by apply Hr.
Qed.

(** ** The cursor loop is a single pass *)

Section walk.
Context (alive : Z -> bool) (first last : Z).

(** What one pass over the intervals finds, with the sequence numbers. *)
Definition pairs (l : list FileRmapTarget) : list (Z * (Z * Z * Z * Z)) :=
  omap (fun t => pair (seq t) <$> span alive first last t) l.

Definition after (sq : Z) (l : list (Z * (Z * Z * Z * Z))) : list (Z * (Z * Z * Z * Z)) := filter (fun p => sq < p.1) l.

Lemma next_visit_head sq l : next_visit alive first last sq l = head (after sq (pairs l)).
Proof.
  unfold after, pairs. induction l as [|t l IH]; [done|]. cbn [next_visit omap list_omap].
  destruct (span alive first last t) as [v|]; cbn [fmap option_fmap option_map].
  - rewrite filter_cons. cbn [fst]. bool_case (sq <? seq t); [by rewrite decide_True|]. by rewrite decide_False by lia.
  - destruct (sq <? seq t); apply IH.
Qed.

Lemma pairs_elem p l : p ∈ pairs l -> exists t, t ∈ l /\ seq t = p.1 /\ span alive first last t = Some p.2.
Proof.
  intros (t & Ht & Hp)%list_elem_of_omap. exists t. destruct (span alive first last t) as [v|]; [|done].
  by injection Hp as <-.
Qed.

Lemma pairs_sorted l :
  StronglySorted (fun a b => seq a < seq b) l -> StronglySorted (fun a b : Z * _ => a.1 < b.1) (pairs l).
Proof.
  induction 1 as [|t l Hl IH Ht]; [constructor|]. unfold pairs in *. cbn.
  destruct (span alive first last t) as [v|]; cbn; [|done]. constructor; [done|].
  rewrite Forall_forall in Ht. apply Forall_forall. intros p Hp. apply pairs_elem in Hp as (t' & Hin & <- & _). by apply Ht.
Qed.

Lemma after_all sq l : (forall p, p ∈ l -> sq < p.1) -> after sq l = l.
Proof.
  unfold after. induction l as [|p l IH]; intros H; [done|]. rewrite filter_cons, decide_True by (apply H; left).
  f_equal. apply IH. intros q Hq. apply H. by right.
Qed.

(** Moving the cursor to the first entry drops exactly that entry. *)
Lemma after_step sq l p rest :
  StronglySorted (fun a b : Z * _ => a.1 < b.1) l -> after sq l = p :: rest -> rest = after p.1 l.
Proof.
  intros Hs. induction Hs as [|q l Hl IH Hq]; [done|]. unfold after in *. rewrite !filter_cons. rewrite Forall_forall in Hq.
  destruct (decide (sq < q.1)) as [Hlt|Hge].
  - intros [= <- <-]. rewrite decide_False by lia. fold (after sq l) (after q.1 l).
    rewrite !after_all; [done|by intros x Hx; apply Hq|intros x Hx; specialize (Hq x Hx); lia].
  - intros Heq. rewrite decide_False; [by apply IH|].
    assert (Hin : p ∈ filter (fun p => sq < p.1) l) by (rewrite Heq; left). apply list_elem_of_filter in Hin as [? _]. lia.
Qed.

Lemma walk_loop_spec fuel sq st :
  StronglySorted (fun a b => seq a < seq b) (targets st) -> (length (after sq (pairs (targets st))) < fuel)%nat ->
  walk_loop fuel alive first last sq st = map snd (after sq (pairs (targets st))).
Proof.
  intros Hs. revert sq. induction fuel as [|fuel IH]; intros sq Hf; [lia|]. cbn [walk_loop]. rewrite next_visit_head.
  destruct (after sq (pairs (targets st))) as [|[sq' v] rest] eqn:E; [done|]. cbn [head map].
  apply after_step in E as ->; [|by apply pairs_sorted]. cbn [fst snd length] in *. f_equal. apply IH. lia.
Qed.

Lemma pairs_length l : (length (pairs l) <= length l)%nat.
Proof. unfold pairs. induction l as [|t l IH]; [done|]. cbn. destruct (span alive first last t); cbn; lia. Qed.

Lemma walk_range_spec st :
  rmap_ok st -> walk_range alive first last st = if last <=? first then [] else omap (span alive first last) (targets st).
Proof.
  intros [Hs Hr]. unfold walk_range. destruct (last <=? first); [done|].
  assert (Hall : after 0 (pairs (targets st)) = pairs (targets st)).
  { apply after_all. intros p Hp. apply pairs_elem in Hp as (t & Ht & <- & _). by apply Hr. }
  rewrite walk_loop_spec; rewrite ?Hall; [|done|pose proof (pairs_length (targets st)); lia].
  unfold pairs. clear. induction (targets st) as [|t l IH]; [done|]. cbn. by destruct (span alive first last t); cbn; rewrite IH.
Qed.

End walk.

(** A page of the file is found at an address exactly when a live interval
    has it there. *)
Lemma walk_page_spec alive i st mm_ va :
  rmap_ok st -> 0 <= i < U64_MAX ->
  (forall t, t ∈ targets st -> 0 <= start t <= end_ t /\ 0 <= file_page_start t /\ file_page_start t + (end_ t - start t) <= U64_MAX) ->
  (mm_, va) ∈ walk_page alive i st <->
  exists t, t ∈ targets st /\ alive (mm t) = true /\ mm t = mm_ /\
    file_page_start t <= i < file_page_start t + (end_ t - start t) / PAGE_SIZE_BYTES /\
    va = start t + (i - file_page_start t) * PAGE_SIZE_BYTES.
Proof.
  intros Hok Hi Ht. unfold walk_page. rewrite walk_range_spec by done.
  assert (Hsat : sat_add i 1 = i + 1) by (unfold sat_add; lia). rewrite Hsat, (proj2 (Z.leb_gt (i + 1) i)) by lia.
  rewrite list_elem_of_fmap. setoid_rewrite list_elem_of_omap.
  assert (Hspan : forall t, t ∈ targets st -> sat_add (file_page_start t) ((end_ t - start t) / PAGE_SIZE_BYTES)
    = file_page_start t + (end_ t - start t) / PAGE_SIZE_BYTES).
  { intros t Hin. destruct (Ht t Hin) as (? & ? & ?). unfold sat_add, PAGE_SIZE_BYTES.
    pose proof (Z.div_le_upper_bound (end_ t - start t) 4096 (end_ t - start t) ltac:(lia) ltac:(lia)).
    pose proof (Z.div_pos (end_ t - start t) 4096). lia. }
  split.
  - intros ([[[m v] pg] n] & Heq & t & Hin & Hs). injection Heq as -> ->. exists t. unfold span in Hs. rewrite Hspan in Hs by done.
    bool_case (Z.min (i + 1) (file_page_start t + (end_ t - start t) / PAGE_SIZE_BYTES) <=? Z.max i (file_page_start t)); [done|].
    destruct (alive (mm t)) eqn:Ea; [|done]. injection Hs as -> <- _ _.
    split_and!; [done|done|done|lia|lia|]. f_equal. f_equal. lia.
  - intros (t & Hin & Ha & <- & Hb & ->). exists (mm t, start t + (i - file_page_start t) * PAGE_SIZE_BYTES, i, 1).
    split; [done|]. exists t. split; [done|]. unfold span. rewrite Hspan by done.
    rewrite (proj2 (Z.leb_gt _ _)) by lia. rewrite Ha. f_equal. rewrite Z.max_l, Z.min_l by lia. f_equal. lia.
Qed.

(** ** Write seals *)

(** What can happen to the intervals of a file between calls: reservations
    are taken and dropped, mappings come and go (a private one that may be
    written without a reservation), and a seal is asked for. *)
Inductive owner_step (alive : Z -> bool) : FileRmapState -> FileRmapState -> Prop :=
| os_reserve st st' : reserve_writable st = Ok st' -> owner_step alive st st'
| os_drop st st' : drop_reservation st = Done (tt, st') -> owner_step alive st st'
| os_attach m s e fps w st : owner_step alive st (attach m s e fps w st)
| os_detach m s e st : owner_step alive st (detach m s e st)
| os_seal publish st : owner_step alive st (commit_write_seal alive publish st).2.

(** No reservation for a writable mapping, and none to come. *)
Definition sealed_off (st : FileRmapState) : Prop := writable_denied st = true /\ pending_writable st = 0.

Lemma sealed_off_step alive st st' : sealed_off st -> owner_step alive st st' -> sealed_off st'.
Proof.
  intros (Hd & Hp) Hst. destruct Hst as [st st' Hr|st st' Hr|m s e fps w st|m s e st|publish st]; [| |done|done|].
  - unfold reserve_writable in Hr. by rewrite Hd in Hr.
  - exfalso. unfold drop_reservation in Hr. cbv [mbind M_bind bind get kassert] in Hr. by rewrite Hp in Hr.
  - unfold commit_write_seal. cbn. rewrite Hd. cbn. rewrite andb_false_r. done.
Qed.

Lemma owner_step_pending alive st st' : 0 <= pending_writable st -> owner_step alive st st' -> 0 <= pending_writable st'.
Proof.
  intros Hp Hst. destruct Hst as [st st' Hr|st st' Hr|m s e fps w st|m s e st|publish st]; [| |done|done|].
  - unfold reserve_writable, checked_add in Hr. destruct (writable_denied st); [done|].
    destruct (_ <=? _); [|done]. injection Hr as <-. cbn. lia.
  - unfold drop_reservation, sub64 in Hr. cbv [mbind M_bind bind get kassert] in Hr. destruct (pending_writable st =? 0); [done|].
    cbn in Hr. bool_case (1 <=? pending_writable st); [|done]. injection Hr as <-. cbn. lia.
  - unfold commit_write_seal. cbn. by destruct (writable_denied st), publish, (pending_writable st =? 0), (existsb _ _).
Qed.

Lemma commit_sealed_off alive st st' :
  writable_denied st = false -> commit_write_seal alive true st = (inr true, st') ->
  sealed_off st' /\ forall t, t ∈ targets st' -> may_write t = false.
Proof.
  intros Hd. unfold commit_write_seal. cbn. rewrite Hd. cbn.
  destruct (pending_writable st =? 0) eqn:Ep; cbn; [|done].
  destruct (existsb may_write _) eqn:Ex; [done|]. intros [= <-]. to_prop. split; [done|]. cbn. intros t Hin.
  destruct (may_write t) eqn:Ew; [|done]. exfalso. apply not_true_iff_false in Ex. apply Ex, existsb_exists.
  exists t. split; [by apply list_elem_of_In|done].
Qed.

(** When a seal is refused. *)
Lemma seal_busy alive st :
  writable_denied st = false ->
  (commit_write_seal alive true st).1 = inl Busy <->
  pending_writable st <> 0 \/ exists t, t ∈ targets st /\ alive (mm t) = true /\ may_write t = true.
Proof.
  intros Hd. unfold commit_write_seal. cbn. rewrite Hd. cbn. bool_case (pending_writable st =? 0); cbn; [|naive_solver].
  destruct (existsb may_write _) eqn:Ex; cbn; (split; [intros Heq; try done|]).
  - right. apply existsb_exists in Ex as (t & Hin & Hw). apply list_elem_of_In, list_elem_of_filter in Hin as [? ?]. eauto.
  - done.
  - intros [?|(t & Hin & Ha & Hw)]; [done|]. exfalso. apply not_true_iff_false in Ex. apply Ex, existsb_exists.
    exists t. split; [|done]. apply list_elem_of_In, list_elem_of_filter. done.
Qed.
