(* ===== verification/Account.v ===== *)
(** * Accounting of an address space

    [crates/kernel/mm-vmm/src/address_space/accounting.rs] and [rss.rs]: the
    counters of virtual bytes, of installed page-table entries by class, of
    page-table frames and of faults, and the resident-set figures read from
    them. The counters are atomics, which wrap at 2^64. *)

From stdpp Require Import strings.
From S2P Require Import Prelude BTree Vma VmaTree.

(** ** Resident pages ([rss.rs]) *)

Record RssPages := { anon : Z; file : Z; shmem : Z; swapents : Z; hugetlb : Z }.

Inductive RssClass := ClassAnon | ClassFile | ClassShmem | ClassDevice | ClassHugetlb | ClassUntracked.

Record RssTally := { tally_pages : RssPages; device : Z }.

Module Rss.

Definition PAGE_BYTES : Z := 4096.
Definition BYTES_PER_KIB : Z := 1024.

Definition total {S} (r : RssPages) : M S Z :=
  x ← add64 (anon r) (file r);
  add64 x (shmem r).

Definition kib (pages : Z) : Z := sat_mul pages (PAGE_BYTES / BYTES_PER_KIB).

Section backing.
(** [FileBacking::huge_page_size]. *)
Context (huge_page_size : Z -> Z).

Definition class_of (b : VmaBacking) : RssClass :=
  match b with
  | Anonymous => ClassAnon
  | File o _ => if negb (huge_page_size o =? 0) then ClassHugetlb else ClassFile
  | KernelBytes _ _ => ClassFile
  | KernelFrame _ | KernelPages _ _ => ClassShmem
  | PhysRange _ _ => ClassDevice
  | Special => ClassUntracked
  end.

Definition pages_per_leaf (v : Vma) : Z :=
  match v_backing v with
  | File o _ => if huge_page_size o =? 0 then 1 else huge_page_size o / PAGE_BYTES
  | _ => 1
  end.

End backing.

Definition no_tally : RssTally :=
  {| tally_pages := {| anon := 0; file := 0; shmem := 0; swapents := 0; hugetlb := 0 |}; device := 0 |}.

Definition add (class : RssClass) (pages : Z) : M RssTally unit :=
  t ← get;
  let p := tally_pages t in
  match class with
  | ClassAnon =>
      x ← add64 (anon p) pages;
      modify (fun t => {| tally_pages := {| anon := x; file := file p; shmem := shmem p; swapents := swapents p;
                                            hugetlb := hugetlb p |}; device := device t |})
  | ClassFile =>
      x ← add64 (file p) pages;
      modify (fun t => {| tally_pages := {| anon := anon p; file := x; shmem := shmem p; swapents := swapents p;
                                            hugetlb := hugetlb p |}; device := device t |})
  | ClassShmem =>
      x ← add64 (shmem p) pages;
      modify (fun t => {| tally_pages := {| anon := anon p; file := file p; shmem := x; swapents := swapents p;
                                            hugetlb := hugetlb p |}; device := device t |})
  | ClassDevice =>
      x ← add64 (device t) pages;
      modify (fun t => {| tally_pages := p; device := x |})
  | ClassHugetlb =>
      x ← add64 (hugetlb p) pages;
      modify (fun t => {| tally_pages := {| anon := anon p; file := file p; shmem := shmem p; swapents := swapents p;
                                            hugetlb := x |}; device := device t |})
  | ClassUntracked => ret tt
  end.

Definition add_swap : M RssTally unit :=
  t ← get;
  let p := tally_pages t in
  x ← add64 (swapents p) 1;
  modify (fun t => {| tally_pages := {| anon := anon p; file := file p; shmem := shmem p; swapents := x;
                                        hugetlb := hugetlb p |}; device := device t |}).

Definition hiwater_rss (latched live : Z) : Z := if live <? latched then latched else live.

End Rss.

(** ** The counters ([accounting.rs]) *)

Record VmAccounting := {
  virtual_bytes : Z;
  peak_virtual_bytes : Z;
  committed_virtual_bytes : Z;
  locked_virtual_bytes : Z;
  anon_pte_mappings : Z;
  file_pte_mappings : Z;
  swap_pte_mappings : Z;
  kernel_pte_mappings : Z;
  device_pte_mappings : Z;
  hugetlb_pte_mappings : Z;
  root_page_table_frames : Z;
  page_table_frames : Z;
  faults : Z;
  mlock_transitions : Z;
  pinned_pages : Z;
  hiwater_rss_pages : Z;
}.

Definition set_virtual_bytes (x : Z) (a : VmAccounting) : VmAccounting :=
  {| virtual_bytes := x; peak_virtual_bytes := peak_virtual_bytes a;
     committed_virtual_bytes := committed_virtual_bytes a; locked_virtual_bytes := locked_virtual_bytes a;
     anon_pte_mappings := anon_pte_mappings a; file_pte_mappings := file_pte_mappings a;
     swap_pte_mappings := swap_pte_mappings a; kernel_pte_mappings := kernel_pte_mappings a;
     device_pte_mappings := device_pte_mappings a; hugetlb_pte_mappings := hugetlb_pte_mappings a;
     root_page_table_frames := root_page_table_frames a; page_table_frames := page_table_frames a;
     faults := faults a; mlock_transitions := mlock_transitions a; pinned_pages := pinned_pages a;
     hiwater_rss_pages := hiwater_rss_pages a |}.

Definition set_peak_virtual_bytes (x : Z) (a : VmAccounting) : VmAccounting :=
  {| virtual_bytes := virtual_bytes a; peak_virtual_bytes := x;
     committed_virtual_bytes := committed_virtual_bytes a; locked_virtual_bytes := locked_virtual_bytes a;
     anon_pte_mappings := anon_pte_mappings a; file_pte_mappings := file_pte_mappings a;
     swap_pte_mappings := swap_pte_mappings a; kernel_pte_mappings := kernel_pte_mappings a;
     device_pte_mappings := device_pte_mappings a; hugetlb_pte_mappings := hugetlb_pte_mappings a;
     root_page_table_frames := root_page_table_frames a; page_table_frames := page_table_frames a;
     faults := faults a; mlock_transitions := mlock_transitions a; pinned_pages := pinned_pages a;
     hiwater_rss_pages := hiwater_rss_pages a |}.

Definition set_committed_virtual_bytes (x : Z) (a : VmAccounting) : VmAccounting :=
  {| virtual_bytes := virtual_bytes a; peak_virtual_bytes := peak_virtual_bytes a; committed_virtual_bytes := x;
     locked_virtual_bytes := locked_virtual_bytes a; anon_pte_mappings := anon_pte_mappings a;
     file_pte_mappings := file_pte_mappings a; swap_pte_mappings := swap_pte_mappings a;
     kernel_pte_mappings := kernel_pte_mappings a; device_pte_mappings := device_pte_mappings a;
     hugetlb_pte_mappings := hugetlb_pte_mappings a; root_page_table_frames := root_page_table_frames a;
     page_table_frames := page_table_frames a; faults := faults a; mlock_transitions := mlock_transitions a;
     pinned_pages := pinned_pages a; hiwater_rss_pages := hiwater_rss_pages a |}.

Definition set_locked_virtual_bytes (x : Z) (a : VmAccounting) : VmAccounting :=
  {| virtual_bytes := virtual_bytes a; peak_virtual_bytes := peak_virtual_bytes a;
     committed_virtual_bytes := committed_virtual_bytes a; locked_virtual_bytes := x;
     anon_pte_mappings := anon_pte_mappings a; file_pte_mappings := file_pte_mappings a;
     swap_pte_mappings := swap_pte_mappings a; kernel_pte_mappings := kernel_pte_mappings a;
     device_pte_mappings := device_pte_mappings a; hugetlb_pte_mappings := hugetlb_pte_mappings a;
     root_page_table_frames := root_page_table_frames a; page_table_frames := page_table_frames a;
     faults := faults a; mlock_transitions := mlock_transitions a; pinned_pages := pinned_pages a;
     hiwater_rss_pages := hiwater_rss_pages a |}.

Definition set_anon_pte_mappings (x : Z) (a : VmAccounting) : VmAccounting :=
  {| virtual_bytes := virtual_bytes a; peak_virtual_bytes := peak_virtual_bytes a;
     committed_virtual_bytes := committed_virtual_bytes a; locked_virtual_bytes := locked_virtual_bytes a;
     anon_pte_mappings := x; file_pte_mappings := file_pte_mappings a; swap_pte_mappings := swap_pte_mappings a;
     kernel_pte_mappings := kernel_pte_mappings a; device_pte_mappings := device_pte_mappings a;
     hugetlb_pte_mappings := hugetlb_pte_mappings a; root_page_table_frames := root_page_table_frames a;
     page_table_frames := page_table_frames a; faults := faults a; mlock_transitions := mlock_transitions a;
     pinned_pages := pinned_pages a; hiwater_rss_pages := hiwater_rss_pages a |}.

Definition set_file_pte_mappings (x : Z) (a : VmAccounting) : VmAccounting :=
  {| virtual_bytes := virtual_bytes a; peak_virtual_bytes := peak_virtual_bytes a;
     committed_virtual_bytes := committed_virtual_bytes a; locked_virtual_bytes := locked_virtual_bytes a;
     anon_pte_mappings := anon_pte_mappings a; file_pte_mappings := x; swap_pte_mappings := swap_pte_mappings a;
     kernel_pte_mappings := kernel_pte_mappings a; device_pte_mappings := device_pte_mappings a;
     hugetlb_pte_mappings := hugetlb_pte_mappings a; root_page_table_frames := root_page_table_frames a;
     page_table_frames := page_table_frames a; faults := faults a; mlock_transitions := mlock_transitions a;
     pinned_pages := pinned_pages a; hiwater_rss_pages := hiwater_rss_pages a |}.

Definition set_swap_pte_mappings (x : Z) (a : VmAccounting) : VmAccounting :=
  {| virtual_bytes := virtual_bytes a; peak_virtual_bytes := peak_virtual_bytes a;
     committed_virtual_bytes := committed_virtual_bytes a; locked_virtual_bytes := locked_virtual_bytes a;
     anon_pte_mappings := anon_pte_mappings a; file_pte_mappings := file_pte_mappings a; swap_pte_mappings := x;
     kernel_pte_mappings := kernel_pte_mappings a; device_pte_mappings := device_pte_mappings a;
     hugetlb_pte_mappings := hugetlb_pte_mappings a; root_page_table_frames := root_page_table_frames a;
     page_table_frames := page_table_frames a; faults := faults a; mlock_transitions := mlock_transitions a;
     pinned_pages := pinned_pages a; hiwater_rss_pages := hiwater_rss_pages a |}.

Definition set_kernel_pte_mappings (x : Z) (a : VmAccounting) : VmAccounting :=
  {| virtual_bytes := virtual_bytes a; peak_virtual_bytes := peak_virtual_bytes a;
     committed_virtual_bytes := committed_virtual_bytes a; locked_virtual_bytes := locked_virtual_bytes a;
     anon_pte_mappings := anon_pte_mappings a; file_pte_mappings := file_pte_mappings a;
     swap_pte_mappings := swap_pte_mappings a; kernel_pte_mappings := x;
     device_pte_mappings := device_pte_mappings a; hugetlb_pte_mappings := hugetlb_pte_mappings a;
     root_page_table_frames := root_page_table_frames a; page_table_frames := page_table_frames a;
     faults := faults a; mlock_transitions := mlock_transitions a; pinned_pages := pinned_pages a;
     hiwater_rss_pages := hiwater_rss_pages a |}.

Definition set_device_pte_mappings (x : Z) (a : VmAccounting) : VmAccounting :=
  {| virtual_bytes := virtual_bytes a; peak_virtual_bytes := peak_virtual_bytes a;
     committed_virtual_bytes := committed_virtual_bytes a; locked_virtual_bytes := locked_virtual_bytes a;
     anon_pte_mappings := anon_pte_mappings a; file_pte_mappings := file_pte_mappings a;
     swap_pte_mappings := swap_pte_mappings a; kernel_pte_mappings := kernel_pte_mappings a;
     device_pte_mappings := x; hugetlb_pte_mappings := hugetlb_pte_mappings a;
     root_page_table_frames := root_page_table_frames a; page_table_frames := page_table_frames a;
     faults := faults a; mlock_transitions := mlock_transitions a; pinned_pages := pinned_pages a;
     hiwater_rss_pages := hiwater_rss_pages a |}.

Definition set_hugetlb_pte_mappings (x : Z) (a : VmAccounting) : VmAccounting :=
  {| virtual_bytes := virtual_bytes a; peak_virtual_bytes := peak_virtual_bytes a;
     committed_virtual_bytes := committed_virtual_bytes a; locked_virtual_bytes := locked_virtual_bytes a;
     anon_pte_mappings := anon_pte_mappings a; file_pte_mappings := file_pte_mappings a;
     swap_pte_mappings := swap_pte_mappings a; kernel_pte_mappings := kernel_pte_mappings a;
     device_pte_mappings := device_pte_mappings a; hugetlb_pte_mappings := x;
     root_page_table_frames := root_page_table_frames a; page_table_frames := page_table_frames a;
     faults := faults a; mlock_transitions := mlock_transitions a; pinned_pages := pinned_pages a;
     hiwater_rss_pages := hiwater_rss_pages a |}.

Definition set_page_table_frames (x : Z) (a : VmAccounting) : VmAccounting :=
  {| virtual_bytes := virtual_bytes a; peak_virtual_bytes := peak_virtual_bytes a;
     committed_virtual_bytes := committed_virtual_bytes a; locked_virtual_bytes := locked_virtual_bytes a;
     anon_pte_mappings := anon_pte_mappings a; file_pte_mappings := file_pte_mappings a;
     swap_pte_mappings := swap_pte_mappings a; kernel_pte_mappings := kernel_pte_mappings a;
     device_pte_mappings := device_pte_mappings a; hugetlb_pte_mappings := hugetlb_pte_mappings a;
     root_page_table_frames := root_page_table_frames a; page_table_frames := x; faults := faults a;
     mlock_transitions := mlock_transitions a; pinned_pages := pinned_pages a;
     hiwater_rss_pages := hiwater_rss_pages a |}.

Definition set_faults (x : Z) (a : VmAccounting) : VmAccounting :=
  {| virtual_bytes := virtual_bytes a; peak_virtual_bytes := peak_virtual_bytes a;
     committed_virtual_bytes := committed_virtual_bytes a; locked_virtual_bytes := locked_virtual_bytes a;
     anon_pte_mappings := anon_pte_mappings a; file_pte_mappings := file_pte_mappings a;
     swap_pte_mappings := swap_pte_mappings a; kernel_pte_mappings := kernel_pte_mappings a;
     device_pte_mappings := device_pte_mappings a; hugetlb_pte_mappings := hugetlb_pte_mappings a;
     root_page_table_frames := root_page_table_frames a; page_table_frames := page_table_frames a; faults := x;
     mlock_transitions := mlock_transitions a; pinned_pages := pinned_pages a;
     hiwater_rss_pages := hiwater_rss_pages a |}.

Definition set_mlock_transitions (x : Z) (a : VmAccounting) : VmAccounting :=
  {| virtual_bytes := virtual_bytes a; peak_virtual_bytes := peak_virtual_bytes a;
     committed_virtual_bytes := committed_virtual_bytes a; locked_virtual_bytes := locked_virtual_bytes a;
     anon_pte_mappings := anon_pte_mappings a; file_pte_mappings := file_pte_mappings a;
     swap_pte_mappings := swap_pte_mappings a; kernel_pte_mappings := kernel_pte_mappings a;
     device_pte_mappings := device_pte_mappings a; hugetlb_pte_mappings := hugetlb_pte_mappings a;
     root_page_table_frames := root_page_table_frames a; page_table_frames := page_table_frames a;
     faults := faults a; mlock_transitions := x; pinned_pages := pinned_pages a;
     hiwater_rss_pages := hiwater_rss_pages a |}.

Definition set_pinned_pages (x : Z) (a : VmAccounting) : VmAccounting :=
  {| virtual_bytes := virtual_bytes a; peak_virtual_bytes := peak_virtual_bytes a;
     committed_virtual_bytes := committed_virtual_bytes a; locked_virtual_bytes := locked_virtual_bytes a;
     anon_pte_mappings := anon_pte_mappings a; file_pte_mappings := file_pte_mappings a;
     swap_pte_mappings := swap_pte_mappings a; kernel_pte_mappings := kernel_pte_mappings a;
     device_pte_mappings := device_pte_mappings a; hugetlb_pte_mappings := hugetlb_pte_mappings a;
     root_page_table_frames := root_page_table_frames a; page_table_frames := page_table_frames a;
     faults := faults a; mlock_transitions := mlock_transitions a; pinned_pages := x;
     hiwater_rss_pages := hiwater_rss_pages a |}.

Definition set_hiwater_rss_pages (x : Z) (a : VmAccounting) : VmAccounting :=
  {| virtual_bytes := virtual_bytes a; peak_virtual_bytes := peak_virtual_bytes a;
     committed_virtual_bytes := committed_virtual_bytes a; locked_virtual_bytes := locked_virtual_bytes a;
     anon_pte_mappings := anon_pte_mappings a; file_pte_mappings := file_pte_mappings a;
     swap_pte_mappings := swap_pte_mappings a; kernel_pte_mappings := kernel_pte_mappings a;
     device_pte_mappings := device_pte_mappings a; hugetlb_pte_mappings := hugetlb_pte_mappings a;
     root_page_table_frames := root_page_table_frames a; page_table_frames := page_table_frames a;
     faults := faults a; mlock_transitions := mlock_transitions a; pinned_pages := pinned_pages a;
     hiwater_rss_pages := x |}.

(** [VmAccountingSnapshot]. *)
Record VmAccountingSnapshot := {
  s_virtual_bytes : Z;
  s_peak_virtual_bytes : Z;
  s_committed_virtual_bytes : Z;
  s_locked_virtual_bytes : Z;
  s_anon_pte_mappings : Z;
  s_file_pte_mappings : Z;
  s_swap_pte_mappings : Z;
  s_kernel_pte_mappings : Z;
  s_device_pte_mappings : Z;
  s_hugetlb_pte_mappings : Z;
  s_root_page_table_frames : Z;
  s_page_table_frames : Z;
  s_faults : Z;
  s_mlock_transitions : Z;
  s_pinned_pages : Z;
  s_hiwater_rss_pages : Z;
}.

Module Accounting.

Definition new (root_pa : Z) : VmAccounting :=
  {| virtual_bytes := 0; peak_virtual_bytes := 0; committed_virtual_bytes := 0; locked_virtual_bytes := 0;
     anon_pte_mappings := 0; file_pte_mappings := 0; swap_pte_mappings := 0; kernel_pte_mappings := 0;
     device_pte_mappings := 0; hugetlb_pte_mappings := 0;
     root_page_table_frames := (if root_pa =? 0 then 0 else 1);
     page_table_frames := (if root_pa =? 0 then 0 else 1); faults := 0; mlock_transitions := 0;
     pinned_pages := 0; hiwater_rss_pages := 0 |}.

Definition bytes (v : Vma) : Z := v_end v - v_start v.

Definition committed (v : Vma) : bool :=
  match v_backing v with
  | Anonymous => true
  | File _ _ | KernelBytes _ _ => negb (flags_contains (v_flags v) Flags.SHARED)
  | _ => false
  end.

Definition add_vma (v : Vma) (a : VmAccounting) : VmAccounting :=
  let n := bytes v in
  let current := sat_add (virtual_bytes a) n in
  let a := set_virtual_bytes (wrap64 (virtual_bytes a + n)) a in
  let a := set_peak_virtual_bytes (Z.max (peak_virtual_bytes a) current) a in
  let a := if committed v then set_committed_virtual_bytes (wrap64 (committed_virtual_bytes a + n)) a else a in
  if flags_contains (v_flags v) Flags.LOCKED
  then set_locked_virtual_bytes (wrap64 (locked_virtual_bytes a + n)) a else a.

Definition remove_vma (v : Vma) (a : VmAccounting) : VmAccounting :=
  let n := bytes v in
  let a := set_virtual_bytes (wrap64 (virtual_bytes a - n)) a in
  let a := if committed v then set_committed_virtual_bytes (wrap64 (committed_virtual_bytes a - n)) a else a in
  if flags_contains (v_flags v) Flags.LOCKED
  then set_locked_virtual_bytes (wrap64 (locked_virtual_bytes a - n)) a else a.

Definition from_vmas (root_pa : Z) (t : VmaTree) : VmAccounting :=
  foldl (fun a p => add_vma p.2 a) (new root_pa) (t_map t).

Definition replace_locked_range (old new_ : Z) (a : VmAccounting) : VmAccounting :=
  if old =? new_ then a
  else
    let a := if old <? new_ then set_locked_virtual_bytes (wrap64 (locked_virtual_bytes a + (new_ - old))) a
             else set_locked_virtual_bytes (wrap64 (locked_virtual_bytes a - (old - new_))) a in
    set_mlock_transitions (wrap64 (mlock_transitions a + 1)) a.

Definition fault (a : VmAccounting) : VmAccounting := set_faults (wrap64 (faults a + 1)) a.

Definition charge_pinned (n : Z) (a : VmAccounting) : VmAccounting := set_pinned_pages (wrap64 (pinned_pages a + n)) a.

Definition release_pinned (n : Z) (a : VmAccounting) : VmAccounting := set_pinned_pages (sat_sub (pinned_pages a) n) a.

Definition page_table_frame_allocated (a : VmAccounting) : VmAccounting :=
  set_page_table_frames (wrap64 (page_table_frames a + 1)) a.

Definition page_table_frame_released (a : VmAccounting) : VmAccounting :=
  set_page_table_frames (wrap64 (page_table_frames a - 1)) a.

(** [counter]: the counter of a class, with its update. *)
Definition counter (k : RssClass) : option ((VmAccounting -> Z) * (Z -> VmAccounting -> VmAccounting)) :=
  match k with
  | ClassAnon => Some (anon_pte_mappings, set_anon_pte_mappings)
  | ClassFile => Some (file_pte_mappings, set_file_pte_mappings)
  | ClassShmem => Some (kernel_pte_mappings, set_kernel_pte_mappings)
  | ClassDevice => Some (device_pte_mappings, set_device_pte_mappings)
  | ClassHugetlb => Some (hugetlb_pte_mappings, set_hugetlb_pte_mappings)
  | ClassUntracked => None
  end.

(** ** Reading *)

Definition raw_snapshot (a : VmAccounting) : VmAccountingSnapshot :=
  {| s_virtual_bytes := virtual_bytes a; s_peak_virtual_bytes := peak_virtual_bytes a;
     s_committed_virtual_bytes := committed_virtual_bytes a; s_locked_virtual_bytes := locked_virtual_bytes a;
     s_anon_pte_mappings := anon_pte_mappings a; s_file_pte_mappings := file_pte_mappings a;
     s_swap_pte_mappings := swap_pte_mappings a; s_kernel_pte_mappings := kernel_pte_mappings a;
     s_device_pte_mappings := device_pte_mappings a; s_hugetlb_pte_mappings := hugetlb_pte_mappings a;
     s_root_page_table_frames := root_page_table_frames a; s_page_table_frames := page_table_frames a;
     s_faults := faults a; s_mlock_transitions := mlock_transitions a; s_pinned_pages := pinned_pages a;
     s_hiwater_rss_pages := 0 |}.

Definition rss_pages (s : VmAccountingSnapshot) : RssPages :=
  {| anon := s_anon_pte_mappings s; file := s_file_pte_mappings s; shmem := s_kernel_pte_mappings s;
     swapents := s_swap_pte_mappings s; hugetlb := s_hugetlb_pte_mappings s |}.

Definition with_hiwater (x : Z) (s : VmAccountingSnapshot) : VmAccountingSnapshot :=
  {| s_virtual_bytes := s_virtual_bytes s; s_peak_virtual_bytes := s_peak_virtual_bytes s;
     s_committed_virtual_bytes := s_committed_virtual_bytes s;
     s_locked_virtual_bytes := s_locked_virtual_bytes s; s_anon_pte_mappings := s_anon_pte_mappings s;
     s_file_pte_mappings := s_file_pte_mappings s; s_swap_pte_mappings := s_swap_pte_mappings s;
     s_kernel_pte_mappings := s_kernel_pte_mappings s; s_device_pte_mappings := s_device_pte_mappings s;
     s_hugetlb_pte_mappings := s_hugetlb_pte_mappings s; s_root_page_table_frames := s_root_page_table_frames s;
     s_page_table_frames := s_page_table_frames s; s_faults := s_faults s;
     s_mlock_transitions := s_mlock_transitions s; s_pinned_pages := s_pinned_pages s; s_hiwater_rss_pages := x |}.

Definition snapshot {S} (a : VmAccounting) : M S VmAccountingSnapshot :=
  let s := raw_snapshot a in
  live ← Rss.total (rss_pages s);
  ret (with_hiwater (Rss.hiwater_rss (hiwater_rss_pages a) live) s).

(** [VmAccountingSnapshot::default], and one round of the fold of
    [global_accounting_snapshot]. *)
Definition empty_snapshot : VmAccountingSnapshot :=
  {| s_virtual_bytes := 0; s_peak_virtual_bytes := 0; s_committed_virtual_bytes := 0;
     s_locked_virtual_bytes := 0; s_anon_pte_mappings := 0; s_file_pte_mappings := 0; s_swap_pte_mappings := 0;
     s_kernel_pte_mappings := 0; s_device_pte_mappings := 0; s_hugetlb_pte_mappings := 0;
     s_root_page_table_frames := 0; s_page_table_frames := 0; s_faults := 0; s_mlock_transitions := 0;
     s_pinned_pages := 0; s_hiwater_rss_pages := 0 |}.

Definition fold_snapshot (out next : VmAccountingSnapshot) : VmAccountingSnapshot :=
  {| s_virtual_bytes := sat_add (s_virtual_bytes out) (s_virtual_bytes next);
     s_peak_virtual_bytes := sat_add (s_peak_virtual_bytes out) (s_peak_virtual_bytes next);
     s_committed_virtual_bytes := sat_add (s_committed_virtual_bytes out) (s_committed_virtual_bytes next);
     s_locked_virtual_bytes := sat_add (s_locked_virtual_bytes out) (s_locked_virtual_bytes next);
     s_anon_pte_mappings := sat_add (s_anon_pte_mappings out) (s_anon_pte_mappings next);
     s_file_pte_mappings := sat_add (s_file_pte_mappings out) (s_file_pte_mappings next);
     s_swap_pte_mappings := sat_add (s_swap_pte_mappings out) (s_swap_pte_mappings next);
     s_kernel_pte_mappings := sat_add (s_kernel_pte_mappings out) (s_kernel_pte_mappings next);
     s_device_pte_mappings := sat_add (s_device_pte_mappings out) (s_device_pte_mappings next);
     s_hugetlb_pte_mappings := s_hugetlb_pte_mappings out;
     s_root_page_table_frames := sat_add (s_root_page_table_frames out) (s_root_page_table_frames next);
     s_page_table_frames := sat_add (s_page_table_frames out) (s_page_table_frames next);
     s_faults := sat_add (s_faults out) (s_faults next);
     s_mlock_transitions := sat_add (s_mlock_transitions out) (s_mlock_transitions next);
     s_pinned_pages := sat_add (s_pinned_pages out) (s_pinned_pages next);
     s_hiwater_rss_pages := sat_add (s_hiwater_rss_pages out) (s_hiwater_rss_pages next) |}.

Fixpoint fold_owners {S} (owners : list VmAccounting) (out : VmAccountingSnapshot) : M S VmAccountingSnapshot :=
  match owners with
  | [] => ret out
  | a :: owners' =>
      next ← snapshot a;
      fold_owners owners' (fold_snapshot out next)
  end.

Definition global_accounting_snapshot {S} (owners : list VmAccounting) : M S VmAccountingSnapshot :=
  fold_owners owners empty_snapshot.

(** ** Page-table entries *)

(** [fetch_max] of the resident total on the high-water mark. *)
Definition latch_hiwater : M VmAccounting unit :=
  a ← get;
  live ← Rss.total (rss_pages (raw_snapshot a));
  modify (fun a => set_hiwater_rss_pages (Z.max (hiwater_rss_pages a) live) a).

Section leaves.
Context (huge_page_size : Z -> Z).

Definition install_pte (v : Vma) : M VmAccounting unit :=
  let n := Rss.pages_per_leaf huge_page_size v in
  modify (fun a => match counter (Rss.class_of huge_page_size (v_backing v)) with
                   | Some (c, set_c) => set_c (wrap64 (c a + n)) a
                   | None => a
                   end) ;;
  latch_hiwater.

Definition remove_pte (v : Vma) : M VmAccounting unit :=
  let n := Rss.pages_per_leaf huge_page_size v in
  modify (fun a => match counter (Rss.class_of huge_page_size (v_backing v)) with
                   | Some (c, set_c) => set_c (sat_sub (c a) n) a
                   | None => a
                   end).

End leaves.

Definition install_swap_pte : M VmAccounting unit :=
  modify (fun a => set_swap_pte_mappings (wrap64 (swap_pte_mappings a + 1)) a).

Definition remove_swap_pte : M VmAccounting unit :=
  modify (fun a => set_swap_pte_mappings (sat_sub (swap_pte_mappings a) 1) a).

Definition seed_ptes (t : RssTally) : M VmAccounting unit :=
  let p := tally_pages t in
  modify (fun a => set_anon_pte_mappings (wrap64 (anon_pte_mappings a + anon p)) a) ;;
  modify (fun a => set_file_pte_mappings (wrap64 (file_pte_mappings a + file p)) a) ;;
  modify (fun a => set_kernel_pte_mappings (wrap64 (kernel_pte_mappings a + shmem p)) a) ;;
  modify (fun a => set_device_pte_mappings (wrap64 (device_pte_mappings a + device t)) a) ;;
  modify (fun a => set_hugetlb_pte_mappings (wrap64 (hugetlb_pte_mappings a + hugetlb p)) a) ;;
  modify (fun a => set_swap_pte_mappings (wrap64 (swap_pte_mappings a + swapents p)) a) ;;
  latch_hiwater.

End Accounting.
