(* ===== verification/AccountSpec.v ===== *)
(** * Resident-set accounting

    The counters of installed page-table entries against a ledger of the
    entries themselves: every class counts exactly the pages of its entries,
    no update overflows or clamps, and the high-water mark is the largest
    resident set there ever was. *)

From stdpp Require Import strings list.
From S2P Require Import Prelude BTree Vma VmaTree Account.

#[export] Instance rss_class_eq_dec : EqDecision RssClass.
Proof. solve_decision. Defined.

Section ledger.
Context (huge_page_size : Z -> Z).

(** What is charged for a present entry of an area. *)
Definition leaf (v : Vma) : RssClass * Z :=
  (Rss.class_of huge_page_size (v_backing v), Rss.pages_per_leaf huge_page_size v).

Inductive PteEvent :=
| PteInstall (v : Vma)
| PteRemove (v : Vma)
| PresentToSwap (v : Vma)
| SwapToPresent (v : Vma)
| SwapRemove.

Definition run_event (ev : PteEvent) : M VmAccounting unit :=
  match ev with
  | PteInstall v => Accounting.install_pte huge_page_size v
  | PteRemove v => Accounting.remove_pte huge_page_size v
  | PresentToSwap v => Accounting.remove_pte huge_page_size v ;; Accounting.install_swap_pte
  | SwapToPresent v => Accounting.remove_swap_pte ;; Accounting.install_pte huge_page_size v
  | SwapRemove => Accounting.remove_swap_pte
  end.

(** Present entries, swap entries, and the largest resident set so far. *)
Record Ledger := { leaves : list (RssClass * Z); swapped : Z; peak : Z }.

Definition of_class (k : RssClass) (l : list (RssClass * Z)) : Z := sumZ (fun x => if decide (x.1 = k) then x.2 else 0) l.

Definition resident (l : list (RssClass * Z)) : Z := of_class ClassAnon l + of_class ClassFile l + of_class ClassShmem l.

(** All the pages there are, of any class. *)
Definition pages_of (l : list (RssClass * Z)) : Z := sumZ snd l.

(** Entries are removed after they were installed, and what is mapped can be
    counted in 64 bits. *)
Inductive ledger_step : PteEvent -> Ledger -> Ledger -> Prop :=
| led_install v l k pk :
    pages_of (leaf v :: l) <= U64_MAX ->
    ledger_step (PteInstall v) {| leaves := l; swapped := k; peak := pk |}
      {| leaves := leaf v :: l; swapped := k; peak := Z.max pk (resident (leaf v :: l)) |}
| led_remove v l l' k pk :
    l ≡ₚ leaf v :: l' ->
    ledger_step (PteRemove v) {| leaves := l; swapped := k; peak := pk |} {| leaves := l'; swapped := k; peak := pk |}
| led_to_swap v l l' k pk :
    l ≡ₚ leaf v :: l' -> k < U64_MAX ->
    ledger_step (PresentToSwap v) {| leaves := l; swapped := k; peak := pk |} {| leaves := l'; swapped := k + 1; peak := pk |}
| led_from_swap v l k pk :
    0 < k -> pages_of (leaf v :: l) <= U64_MAX ->
    ledger_step (SwapToPresent v) {| leaves := l; swapped := k; peak := pk |}
      {| leaves := leaf v :: l; swapped := k - 1; peak := Z.max pk (resident (leaf v :: l)) |}
| led_swap_remove l k pk :
    0 < k -> ledger_step SwapRemove {| leaves := l; swapped := k; peak := pk |} {| leaves := l; swapped := k - 1; peak := pk |}.

Inductive ledger_steps : list PteEvent -> Ledger -> Ledger -> Prop :=
| led_nil L : ledger_steps [] L L
| led_cons ev evs L1 L2 L3 : ledger_step ev L1 L2 -> ledger_steps evs L2 L3 -> ledger_steps (ev :: evs) L1 L3.

Definition no_leaves : Ledger := {| leaves := []; swapped := 0; peak := 0 |}.

(** ** The counters follow the ledger *)

Definition class_count (k : RssClass) (a : VmAccounting) : Z :=
  match Accounting.counter k with Some (c, _) => c a | None => 0 end.

Record rss_ok (a : VmAccounting) (L : Ledger) : Prop := {
  rs_class : forall k, k <> ClassUntracked -> class_count k a = of_class k (leaves L);
  rs_swap : swap_pte_mappings a = swapped L /\ 0 <= swapped L <= U64_MAX;
  rs_peak : hiwater_rss_pages a = peak L;
  rs_pages : (forall x, x ∈ leaves L -> 0 <= x.2) /\ pages_of (leaves L) <= U64_MAX;
}.

Hypothesis Hhuge : forall o, 0 <= huge_page_size o.

Lemma leaf_pages v : 0 <= (leaf v).2.
Proof.
  cbn. unfold Rss.pages_per_leaf. destruct (v_backing v); try done. specialize (Hhuge backing).
  bool_case (huge_page_size backing =? 0); [done|]. apply Z.div_pos; [lia|done].
Qed.

Lemma of_class_cons k x l : of_class k (x :: l) = (if decide (x.1 = k) then x.2 else 0) + of_class k l.
Proof. apply sumZ_cons. Qed.

Lemma of_class_nonneg k l : (forall x, x ∈ l -> 0 <= x.2) -> 0 <= of_class k l.
Proof. intros H. apply sumZ_nonneg. intros x Hx. destruct (decide _); [by apply H|done]. Qed.

(** The classes split the pages. *)
Lemma classes_le l : (forall x, x ∈ l -> 0 <= x.2) ->
  resident l + of_class ClassDevice l + of_class ClassHugetlb l <= pages_of l.
Proof.
  unfold resident, pages_of. induction l as [|[k n] l IH]; intros H; [done|]. rewrite !of_class_cons, sumZ_cons. cbn [fst snd].
  specialize (IH ltac:(intros; apply H; by right)). pose proof (H (k, n) ltac:(left)) as Hn. cbn [snd] in Hn.
  destruct k; repeat (destruct (decide (_ = _)); try done); lia.
Qed.

Lemma total_run {S} (r : RssPages) (Q : Z -> S -> Prop) s :
  0 <= anon r -> 0 <= file r -> 0 <= shmem r -> anon r + file r + shmem r <= U64_MAX ->
  Q (anon r + file r + shmem r) s -> wp (Rss.total r) Q s.
Proof.
  intros Ha Hf Hs Hb HQ. unfold Rss.total. apply wp_bind, wp_add64; [lia|]. apply wp_add64; [lia|done].
Qed.

(** A change of one counter. *)
Lemma class_count_set k k' c set_c x a :
  Accounting.counter k = Some (c, set_c) ->
  class_count k' (set_c x a) = if decide (k' = k) then x else class_count k' a.
Proof.
  destruct k; cbn [Accounting.counter]; intros [= <- <-]; destruct k'; destruct (decide _); done.
Qed.

Lemma set_frame k c set_c x a :
  Accounting.counter k = Some (c, set_c) ->
  swap_pte_mappings (set_c x a) = swap_pte_mappings a /\ hiwater_rss_pages (set_c x a) = hiwater_rss_pages a.
Proof. by destruct k; cbn [Accounting.counter]; intros [= <- <-]. Qed.

Definition tracks (a : VmAccounting) (l : list (RssClass * Z)) : Prop :=
  forall k, k <> ClassUntracked -> class_count k a = of_class k l.

Lemma resident_total {S} a l (Q : Z -> S -> Prop) s :
  tracks a l -> (forall x, x ∈ l -> 0 <= x.2) -> pages_of l <= U64_MAX -> Q (resident l) s ->
  wp (Rss.total (Accounting.rss_pages (Accounting.raw_snapshot a))) Q s.
Proof.
  intros Ht Hn Hp HQ. pose proof (classes_le l Hn) as Hle. unfold resident in *.
  pose proof (Ht ClassAnon ltac:(done)) as H1. pose proof (Ht ClassFile ltac:(done)) as H2. pose proof (Ht ClassShmem ltac:(done)) as H3.
  pose proof (of_class_nonneg ClassAnon l Hn). pose proof (of_class_nonneg ClassFile l Hn). pose proof (of_class_nonneg ClassShmem l Hn).
  pose proof (of_class_nonneg ClassDevice l Hn). pose proof (of_class_nonneg ClassHugetlb l Hn).
  cbn in H1, H2, H3. apply total_run; cbn; rewrite ?H1, ?H2, ?H3; try lia. done.
Qed.

Lemma latch_spec a l (Q : unit -> VmAccounting -> Prop) :
  tracks a l -> (forall x, x ∈ l -> 0 <= x.2) -> pages_of l <= U64_MAX ->
  Q tt (set_hiwater_rss_pages (Z.max (hiwater_rss_pages a) (resident l)) a) -> wp Accounting.latch_hiwater Q a.
Proof.
  intros Ht Hn Hp HQ. unfold Accounting.latch_hiwater. apply wp_bind, wp_get, wp_bind. eapply resident_total; [done..|].
  by apply wp_modify.
Qed.

(** Charging an entry to its class. *)
Lemma charged_tracks v a l :
  tracks a l -> (forall x, x ∈ l -> 0 <= x.2) -> pages_of (leaf v :: l) <= U64_MAX ->
  let a' := match Accounting.counter (leaf v).1 with Some (c, set_c) => set_c (wrap64 (c a + (leaf v).2)) a | None => a end in
  tracks a' (leaf v :: l) /\ swap_pte_mappings a' = swap_pte_mappings a /\ hiwater_rss_pages a' = hiwater_rss_pages a.
Proof.
  intros Ht Hn Hp. pose proof (leaf_pages v) as Hv. destruct (leaf v) as [kv n]. cbn [fst snd] in *.
  unfold pages_of in Hp. rewrite sumZ_cons in Hp. cbn [snd] in Hp. pose proof (classes_le l Hn) as Hle. unfold resident, pages_of in Hle.
  assert (Hc : forall k, 0 <= of_class k l) by (intros; by apply of_class_nonneg).
  pose proof (Hc ClassAnon). pose proof (Hc ClassFile). pose proof (Hc ClassShmem). pose proof (Hc ClassDevice). pose proof (Hc ClassHugetlb).
  destruct (Accounting.counter kv) as [[c set_c]|] eqn:Ek; cbn zeta.
  - destruct (set_frame kv c set_c (wrap64 (c a + n)) a Ek) as [? ?]. split_and!; [|done..]. intros k Hk.
    rewrite (class_count_set kv k c set_c _ a Ek), of_class_cons. cbn [fst snd].
    destruct (decide (k = kv)) as [->|]; [rewrite decide_True by done|rewrite decide_False by done; by rewrite Ht].
    pose proof (Ht kv Hk) as Hkv. unfold class_count in Hkv. rewrite Ek in Hkv. rewrite Hkv, wrap64_small; [lia|].
    destruct kv; try done; lia.
  - split_and!; [|done..]. intros k Hk. rewrite of_class_cons, decide_False; [by rewrite Ht|]. by destruct kv; intros <-.
Qed.

Lemma pte_install_spec v l k pk a :
  rss_ok a {| leaves := l; swapped := k; peak := pk |} -> pages_of (leaf v :: l) <= U64_MAX ->
  wp (Accounting.install_pte huge_page_size v)
    (fun _ a' => rss_ok a' {| leaves := leaf v :: l; swapped := k; peak := Z.max pk (resident (leaf v :: l)) |}) a.
Proof.
  intros [Ht [Hs Hk] Hpk [Hn _]] Hp. cbn [leaves swapped peak] in *. unfold Accounting.install_pte. apply wp_bind, wp_modify.
  destruct (charged_tracks v a l Ht Hn Hp) as (Ht' & Hs' & Hh'). cbn [leaf fst snd] in Ht', Hs', Hh'.
  assert (Hn' : forall x, x ∈ leaf v :: l -> 0 <= x.2).
  { intros x [->|Hx]%elem_of_cons; [apply leaf_pages|by apply Hn]. }
  eapply latch_spec; [exact Ht'|done..|]. constructor; cbn [leaves swapped peak].
  - intros k' Hk'. rewrite <- (Ht' k' Hk'). by destruct k'.
  - cbn. by rewrite Hs'.
  - cbn. by rewrite Hh', Hpk.
  - done.
Qed.

Lemma of_class_perm k l l' : l ≡ₚ l' -> of_class k l = of_class k l'.
Proof. intros H. unfold of_class. by rewrite H. Qed.

Lemma pte_remove_spec v l l' k pk a :
  rss_ok a {| leaves := l; swapped := k; peak := pk |} -> l ≡ₚ leaf v :: l' ->
  wp (Accounting.remove_pte huge_page_size v) (fun _ a' => rss_ok a' {| leaves := l'; swapped := k; peak := pk |}) a.
Proof.
  intros [Ht [Hs Hk] Hpk [Hn Hp]] Hl. cbn [leaves swapped peak] in *. unfold Accounting.remove_pte. apply wp_modify.
  assert (Hn' : forall x, x ∈ l' -> 0 <= x.2) by (intros x Hx; apply Hn; rewrite Hl; by right).
  assert (Hcl : forall k', of_class k' l = (if decide ((leaf v).1 = k') then (leaf v).2 else 0) + of_class k' l').
  { intros k'. by rewrite (of_class_perm _ _ _ Hl), of_class_cons. }
  assert (Hp' : pages_of l' <= U64_MAX).
  { unfold pages_of in *. rewrite Hl, sumZ_cons in Hp. pose proof (leaf_pages v). lia. }
  change (Rss.class_of huge_page_size (v_backing v)) with (leaf v).1 in *. change (Rss.pages_per_leaf huge_page_size v) with (leaf v).2 in *.
  destruct (leaf v) as [kv n]. cbn [fst snd] in *.
  destruct (Accounting.counter kv) as [[c set_c]|] eqn:Ek.
  - destruct (set_frame kv c set_c (sat_sub (c a) n) a Ek) as [Hf1 Hf2]. constructor; cbn [leaves swapped peak]; [|by rewrite Hf1|by rewrite Hf2|done].
    intros k' Hk'. rewrite (class_count_set kv k' c set_c _ a Ek). destruct (decide (k' = kv)) as [->|].
    + pose proof (Ht kv Hk') as Hkv. unfold class_count in Hkv. rewrite Ek, Hcl, decide_True in Hkv by done.
      pose proof (of_class_nonneg kv l' Hn'). unfold sat_sub. lia.
    + by rewrite Ht, Hcl, decide_False by done.
  - constructor; cbn [leaves swapped peak]; [|done..]. intros k' Hk'. rewrite Ht by done. rewrite Hcl, decide_False; [done|].
    by destruct kv; intros <-.
Qed.

Lemma swap_in_spec l k pk a :
  rss_ok a {| leaves := l; swapped := k; peak := pk |} -> k < U64_MAX ->
  wp Accounting.install_swap_pte (fun _ a' => rss_ok a' {| leaves := l; swapped := k + 1; peak := pk |}) a.
Proof.
  intros [Ht [Hs Hk] Hpk Hp] Hlt. cbn [leaves swapped peak] in *. apply wp_modify. constructor; cbn [leaves swapped peak]; [|split|done..].
  - intros k' Hk'. rewrite <- (Ht k' Hk'). by destruct k'.
  - cbn. rewrite Hs. apply wrap64_small. lia.
  - lia.
Qed.

Lemma swap_out_spec l k pk a :
  rss_ok a {| leaves := l; swapped := k; peak := pk |} -> 0 < k ->
  wp Accounting.remove_swap_pte (fun _ a' => rss_ok a' {| leaves := l; swapped := k - 1; peak := pk |}) a.
Proof.
  intros [Ht [Hs Hk] Hpk Hp] Hlt. cbn [leaves swapped peak] in *. apply wp_modify. constructor; cbn [leaves swapped peak]; [|split|done..].
  - intros k' Hk'. rewrite <- (Ht k' Hk'). by destruct k'.
  - cbn. rewrite Hs. unfold sat_sub. lia.
  - lia.
Qed.

Lemma event_spec ev L L' a : ledger_step ev L L' -> rss_ok a L -> wp (run_event ev) (fun _ a' => rss_ok a' L') a.
Proof.
  intros Hst Ha. destruct Hst as [v l k pk Hp|v l l' k pk Hl|v l l' k pk Hl Hk|v l k pk Hk Hp|l k pk Hk]; cbn [run_event].
  - by apply pte_install_spec.
  - by eapply pte_remove_spec.
  - apply wp_bind. eapply wp_mono; [by eapply pte_remove_spec|]. intros [] a' Ha'. by apply swap_in_spec.
  - apply wp_bind. eapply wp_mono; [by eapply swap_out_spec|]. intros [] a' Ha'. by apply pte_install_spec.
  - by apply swap_out_spec.
Qed.

Lemma events_spec evs L L' a : ledger_steps evs L L' -> rss_ok a L -> wp (for_each evs run_event) (fun _ a' => rss_ok a' L') a.
Proof.
  intros Hst. revert a. induction Hst as [L|ev evs L1 L2 L3 H1 _ IH]; intros a Ha; [by apply wp_ret|]. cbn [for_each].
  apply wp_bind. eapply wp_mono; [by eapply event_spec|]. intros [] a' Ha'. by apply IH.
Qed.

Lemma new_rss_ok root_pa : rss_ok (Accounting.new root_pa) no_leaves.
Proof. constructor; cbn; [by intros []|done..|]. split; [|done]. intros x Hx. by apply not_elem_of_nil in Hx. Qed.

(** ** Seeding a child *)

(** The tally [fork] keeps while it copies entries. *)
Definition tally_leaves (l : list (RssClass * Z)) : M RssTally unit := for_each l (fun x => Rss.add x.1 x.2).

Definition tally_of (l : list (RssClass * Z)) : RssTally :=
  {| tally_pages := {| anon := of_class ClassAnon l; file := of_class ClassFile l; shmem := of_class ClassShmem l;
                       swapents := 0; hugetlb := of_class ClassHugetlb l |};
     device := of_class ClassDevice l |}.

Lemma of_class_app k l l' : of_class k (l ++ l') = of_class k l + of_class k l'.
Proof. apply sumZ_app. Qed.

Lemma tally_step l x : (forall y, y ∈ l ++ [x] -> 0 <= y.2) -> pages_of (l ++ [x]) <= U64_MAX ->
  wp (Rss.add x.1 x.2) (fun _ t => t = tally_of (l ++ [x])) (tally_of l).
Proof.
  intros Hn Hp. pose proof (classes_le _ Hn) as Hle. unfold resident in Hle.
  assert (Hc : forall k, 0 <= of_class k (l ++ [x])) by (intros; by apply of_class_nonneg).
  pose proof (Hc ClassAnon). pose proof (Hc ClassFile). pose proof (Hc ClassShmem). pose proof (Hc ClassDevice). pose proof (Hc ClassHugetlb).
  destruct x as [k n]. unfold tally_of. rewrite !of_class_app, !of_class_cons in *. cbn [fst snd] in *.
  change (of_class ?c []) with 0 in *. unfold Rss.add. apply wp_bind, wp_get. cbn [tally_pages anon file shmem swapents hugetlb device].
  destruct k; repeat (destruct (decide (_ = _)); try done); rewrite ?Z.add_0_r in *;
    try (apply wp_bind, wp_add64; [lia|]; apply wp_modify; done). by apply wp_ret.
Qed.

Lemma tally_spec l l' :
  (forall y, y ∈ l ++ l' -> 0 <= y.2) -> pages_of (l ++ l') <= U64_MAX ->
  wp (tally_leaves l') (fun _ t => t = tally_of (l ++ l')) (tally_of l).
Proof.
  unfold tally_leaves. revert l. induction l' as [|x l' IH]; intros l Hn Hp; [apply wp_ret; by rewrite app_nil_r|].
  assert (Hpre : l ++ x :: l' = (l ++ [x]) ++ l') by (by rewrite <- app_assoc). rewrite Hpre in *. cbn [for_each]. apply wp_bind.
  eapply wp_mono; [apply tally_step; [intros y Hy; apply Hn, elem_of_app; by left|]|].
  - unfold pages_of in *. rewrite sumZ_app in Hp. pose proof (sumZ_nonneg snd l') as Hnn.
    specialize (Hnn ltac:(intros y Hy; apply Hn, elem_of_app; by right)). lia.
  - intros [] t ->. by apply IH.
Qed.

(** A child seeded with the tally of the entries it received has the counts
    it would have if it had installed them. *)
Lemma seed_spec root_pa l :
  (forall y, y ∈ l -> 0 <= y.2) -> pages_of l <= U64_MAX ->
  wp (Accounting.seed_ptes (tally_of l))
    (fun _ a => rss_ok a {| leaves := l; swapped := 0; peak := resident l |}) (Accounting.new root_pa).
Proof.
  intros Hn Hp. pose proof (classes_le l Hn) as Hle. unfold resident in Hle.
  assert (Hc : forall k, 0 <= of_class k l) by (intros; by apply of_class_nonneg).
  pose proof (Hc ClassAnon). pose proof (Hc ClassFile). pose proof (Hc ClassShmem). pose proof (Hc ClassDevice). pose proof (Hc ClassHugetlb).
  unfold Accounting.seed_ptes. do 6 (apply wp_bind, wp_modify). cbn [tally_of tally_pages anon file shmem device hugetlb swapents].
  eapply (latch_spec _ l); [|done..|].
  - intros [] Hk; cbn -[of_class]; rewrite ?Z.add_0_l, ?wrap64_small by lia; done.
  - constructor; cbn [leaves swapped peak]; [|done| |done].
    + intros [] Hk; cbn -[of_class]; rewrite ?Z.add_0_l, ?wrap64_small by lia; done.
    + cbn -[resident]. unfold resident. lia.
Qed.

(** The mark is never below the resident set. *)
Lemma peak_high evs L L' :
  (forall x, x ∈ leaves L -> 0 <= x.2) -> resident (leaves L) <= peak L -> ledger_steps evs L L' -> resident (leaves L') <= peak L'.
Proof.
  intros Hn Hr Hst. induction Hst as [L|ev evs L1 L2 L3 H1 _ IH]; [done|].
  assert (Hdrop : forall v l l', l ≡ₚ leaf v :: l' -> (forall x, x ∈ l -> 0 <= x.2) ->
    (forall x, x ∈ l' -> 0 <= x.2) /\ resident l' <= resident l).
  { intros v l l' Hl Hl0. split; [intros x Hx; apply Hl0; rewrite Hl; by right|]. pose proof (leaf_pages v).
    unfold resident. rewrite !(of_class_perm _ _ _ Hl), !of_class_cons. repeat destruct (decide _); lia. }
  assert (Hadd : forall v l, (forall x, x ∈ l -> 0 <= x.2) -> forall x, x ∈ leaf v :: l -> 0 <= x.2).
  { intros v l Hl x [->|Hx]%elem_of_cons; [apply leaf_pages|by apply Hl]. }
  apply IH; destruct H1 as [v l k pk Hp|v l l' k pk Hl|v l l' k pk Hl Hk|v l k pk Hk Hp|l k pk Hk]; cbn [leaves peak] in *;
    try destruct (Hdrop _ _ _ Hl Hn) as [? ?]; eauto; lia.
Qed.

End ledger.

(** The aggregate over all address spaces adds every counter but one: it
    reports no huge pages, however many are mapped. *)
Lemma global_omits_hugetlb {S} owners (s : S) :
  wpe (fun _ => True) (Accounting.global_accounting_snapshot owners) (fun out _ => s_hugetlb_pte_mappings out = 0) s.
Proof.
  unfold Accounting.global_accounting_snapshot.
  assert (H : forall acc, s_hugetlb_pte_mappings acc = 0 ->
    wpe (fun _ => True) (Accounting.fold_owners owners acc) (fun out _ => s_hugetlb_pte_mappings out = 0) s); [|by apply H].
  revert s. induction owners as [|a owners IH]; intros s acc Hacc; cbn [Accounting.fold_owners]; [by apply wpe_ret|].
  apply wpe_bind. assert (Htriv : forall (m : M S VmAccountingSnapshot), wpe (fun _ => True) m (fun _ _ => True) s).
  { intros m. unfold wpe. by destruct (m s) as [[]|]. }
  eapply wpe_mono; [apply Htriv|]. intros next s1 _. by apply IH.
Qed.
