(* ===== verification/AddrSpace.v ===== *)
(** * Address spaces

    [crates/kernel/mm-vmm/src/address_space/] ([layout.rs], [limits.rs],
    [layout_state.rs], [accounting.rs], [mmap_ops.rs], [ops.rs],
    [mdwe.rs]) and [mmap.rs]: the state of an address space, placing mappings
    and removing them.

    Each operation runs with the write lock of the address space held, so it
    is one step. The methods of a mapped file and the hooks of other crates
    are the fields of [Env]; the notifications to profilers, which change
    nothing here, are left out. *)

From stdpp Require Import strings.
From S2P Require Import Prelude BTree Vma VmaTree Hole Rmap Account.

(** ** What other crates answer *)

Inductive FileBackingError := FbAcces | FbBadf | FbInval | FbIo | FbNoMem | FbOpNotSupp | FbAgain.

Record Env := {
  may_split : Z -> bool;
  huge_page_size : Z -> Z;
  file_rmap_of : Z -> option Z;
  mmap_setup : Z -> Z -> Z -> Z -> option FileBackingError;
  admit_mmap_addr : Z -> bool;
  try_reserve : nat -> bool;
  wants_remap : Z -> bool;
  is_shmem : Z -> bool;
}.

(** ** Layout *)

Module Layout.

Definition is_aligned (va : Z) : bool := va mod PAGE_SIZE_BYTES =? 0.

Definition validate_aligned (va : Z) : KResult unit := if is_aligned va then Ok tt else Err Inval.

Definition validate_len (len : Z) : KResult unit :=
  if (len =? 0) || negb (len mod PAGE_SIZE_BYTES =? 0) then Err Inval else Ok tt.

Definition end_of (start len : Z) : KResult Z :=
  match checked_add start len with
  | Some e => match uva_new e with Some e => Ok e | None => Err Inval end
  | None => Err Inval
  end.

Definition end_of_raw (start len : Z) : KResult Z :=
  match checked_add start len with Some e => Ok e | None => Err Inval end.

End Layout.

(** ** The address space *)

(** Calls a userfaultfd context receives while a mapping moves. *)
Inductive UffdCall :=
| change_begin (ctx : Z)
| change_complete (ctx from to len : Z)
| change_abort (ctx : Z).

Record AddressSpace := {
  vmas : VmaTree;
  self_weak : Z;
  mmap_base : Z;
  mmap_topdown : bool;
  mlock_future : bool;
  mlock_onfault : bool;
  mdwe : Z;
  has_uffd : bool;
  accounting : VmAccounting;
  anon_chains : Z -> list AnonVma.RmapTarget;
  anon_next_id : Z;
  file_rmaps : Z -> FileRmap.FileRmapState;
  uffd_calls : list UffdCall;
}.

(** Updates of one field. *)
Definition set_vmas (x : VmaTree) (s : AddressSpace) : AddressSpace :=
  {| vmas := x; self_weak := self_weak s; mmap_base := mmap_base s;
     mmap_topdown := mmap_topdown s; mlock_future := mlock_future s;
     mlock_onfault := mlock_onfault s; mdwe := mdwe s; has_uffd := has_uffd s;
     accounting := accounting s; anon_chains := anon_chains s; anon_next_id := anon_next_id s;
     file_rmaps := file_rmaps s; uffd_calls := uffd_calls s |}.
Definition set_mmap_base (x : Z) (s : AddressSpace) : AddressSpace :=
  {| vmas := vmas s; self_weak := self_weak s; mmap_base := x; mmap_topdown := mmap_topdown s;
     mlock_future := mlock_future s; mlock_onfault := mlock_onfault s; mdwe := mdwe s;
     has_uffd := has_uffd s; accounting := accounting s; anon_chains := anon_chains s;
     anon_next_id := anon_next_id s; file_rmaps := file_rmaps s; uffd_calls := uffd_calls s
     |}.
Definition set_mmap_topdown (x : bool) (s : AddressSpace) : AddressSpace :=
  {| vmas := vmas s; self_weak := self_weak s; mmap_base := mmap_base s; mmap_topdown := x;
     mlock_future := mlock_future s; mlock_onfault := mlock_onfault s; mdwe := mdwe s;
     has_uffd := has_uffd s; accounting := accounting s; anon_chains := anon_chains s;
     anon_next_id := anon_next_id s; file_rmaps := file_rmaps s; uffd_calls := uffd_calls s
     |}.
Definition set_mlock_future (x : bool) (s : AddressSpace) : AddressSpace :=
  {| vmas := vmas s; self_weak := self_weak s; mmap_base := mmap_base s;
     mmap_topdown := mmap_topdown s; mlock_future := x; mlock_onfault := mlock_onfault s;
     mdwe := mdwe s; has_uffd := has_uffd s; accounting := accounting s;
     anon_chains := anon_chains s; anon_next_id := anon_next_id s; file_rmaps := file_rmaps s;
     uffd_calls := uffd_calls s |}.
Definition set_mlock_onfault (x : bool) (s : AddressSpace) : AddressSpace :=
  {| vmas := vmas s; self_weak := self_weak s; mmap_base := mmap_base s;
     mmap_topdown := mmap_topdown s; mlock_future := mlock_future s; mlock_onfault := x;
     mdwe := mdwe s; has_uffd := has_uffd s; accounting := accounting s;
     anon_chains := anon_chains s; anon_next_id := anon_next_id s; file_rmaps := file_rmaps s;
     uffd_calls := uffd_calls s |}.
Definition set_mdwe (x : Z) (s : AddressSpace) : AddressSpace :=
  {| vmas := vmas s; self_weak := self_weak s; mmap_base := mmap_base s;
     mmap_topdown := mmap_topdown s; mlock_future := mlock_future s;
     mlock_onfault := mlock_onfault s; mdwe := x; has_uffd := has_uffd s;
     accounting := accounting s; anon_chains := anon_chains s; anon_next_id := anon_next_id s;
     file_rmaps := file_rmaps s; uffd_calls := uffd_calls s |}.
Definition set_has_uffd (x : bool) (s : AddressSpace) : AddressSpace :=
  {| vmas := vmas s; self_weak := self_weak s; mmap_base := mmap_base s;
     mmap_topdown := mmap_topdown s; mlock_future := mlock_future s;
     mlock_onfault := mlock_onfault s; mdwe := mdwe s; has_uffd := x;
     accounting := accounting s; anon_chains := anon_chains s; anon_next_id := anon_next_id s;
     file_rmaps := file_rmaps s; uffd_calls := uffd_calls s |}.
Definition set_accounting (x : VmAccounting) (s : AddressSpace) : AddressSpace :=
  {| vmas := vmas s; self_weak := self_weak s; mmap_base := mmap_base s;
     mmap_topdown := mmap_topdown s; mlock_future := mlock_future s;
     mlock_onfault := mlock_onfault s; mdwe := mdwe s; has_uffd := has_uffd s;
     accounting := x; anon_chains := anon_chains s; anon_next_id := anon_next_id s;
     file_rmaps := file_rmaps s; uffd_calls := uffd_calls s |}.
Definition set_anon_chains (x : Z -> list AnonVma.RmapTarget) (s : AddressSpace) : AddressSpace :=
  {| vmas := vmas s; self_weak := self_weak s; mmap_base := mmap_base s;
     mmap_topdown := mmap_topdown s; mlock_future := mlock_future s;
     mlock_onfault := mlock_onfault s; mdwe := mdwe s; has_uffd := has_uffd s;
     accounting := accounting s; anon_chains := x; anon_next_id := anon_next_id s;
     file_rmaps := file_rmaps s; uffd_calls := uffd_calls s |}.
Definition set_anon_next_id (x : Z) (s : AddressSpace) : AddressSpace :=
  {| vmas := vmas s; self_weak := self_weak s; mmap_base := mmap_base s;
     mmap_topdown := mmap_topdown s; mlock_future := mlock_future s;
     mlock_onfault := mlock_onfault s; mdwe := mdwe s; has_uffd := has_uffd s;
     accounting := accounting s; anon_chains := anon_chains s; anon_next_id := x;
     file_rmaps := file_rmaps s; uffd_calls := uffd_calls s |}.
Definition set_file_rmaps (x : Z -> FileRmap.FileRmapState) (s : AddressSpace) : AddressSpace :=
  {| vmas := vmas s; self_weak := self_weak s; mmap_base := mmap_base s;
     mmap_topdown := mmap_topdown s; mlock_future := mlock_future s;
     mlock_onfault := mlock_onfault s; mdwe := mdwe s; has_uffd := has_uffd s;
     accounting := accounting s; anon_chains := anon_chains s; anon_next_id := anon_next_id s;
     file_rmaps := x; uffd_calls := uffd_calls s |}.
Definition set_uffd_calls (x : list UffdCall) (s : AddressSpace) : AddressSpace :=
  {| vmas := vmas s; self_weak := self_weak s; mmap_base := mmap_base s;
     mmap_topdown := mmap_topdown s; mlock_future := mlock_future s;
     mlock_onfault := mlock_onfault s; mdwe := mdwe s; has_uffd := has_uffd s;
     accounting := accounting s; anon_chains := anon_chains s; anon_next_id := anon_next_id s;
     file_rmaps := file_rmaps s; uffd_calls := x |}.

(** [f?] for a fallible step. *)
Definition try_ {S A B} (r : KResult A) (k : A -> M S (KResult B)) : M S (KResult B) :=
  match r with Ok a => k a | Err e => ret (Err e) end.

Definition run_try {S A B} (m : M S (KResult A)) (k : A -> M S (KResult B)) : M S (KResult B) :=
  r ← m; try_ r k.

Notation "x ←! r ; k" := (try_ r (fun x => k)) (at level 20, r at level 100, k at level 200, right associativity).
Notation "x ←? m ; k" := (run_try m (fun x => k)) (at level 20, m at level 100, k at level 200, right associativity).

(** A change of the tree, under its lock. *)
Definition on_tree {A} (m : M VmaTree A) : M AddressSpace A := zoom vmas set_vmas m.

Definition account (f : VmAccounting -> VmAccounting) : M AddressSpace unit :=
  modify (fun s => set_accounting (f (accounting s)) s).

Definition fupd {A} (f : Z -> A) (k : Z) (x : A) : Z -> A := fun k' => if k' =? k then x else f k'.

Definition on_chain (id : Z) (f : list AnonVma.RmapTarget -> list AnonVma.RmapTarget) : M AddressSpace unit :=
  modify (fun s => set_anon_chains (fupd (anon_chains s) id (f (anon_chains s id))) s).

Definition on_rmap (id : Z) (f : FileRmap.FileRmapState -> FileRmap.FileRmapState) : M AddressSpace unit :=
  modify (fun s => set_file_rmaps (fupd (file_rmaps s) id (f (file_rmaps s id))) s).

Definition uffd_call (c : UffdCall) : M AddressSpace unit :=
  modify (fun s => set_uffd_calls (uffd_calls s ++ [c]) s).

Module Space.

(** [AddressSpace::new]. The hooks of SysV shared memory, the families of
    anonymous memory and the intervals of files are shared by all address
    spaces. *)
Definition new (root_pa self : Z) (shm : bool) (next_id : Z) (chains : Z -> list AnonVma.RmapTarget)
    (rmaps : Z -> FileRmap.FileRmapState) : AddressSpace :=
  {| vmas := Tree.new {| shm_installed := shm; vm_calls := [] |};
     self_weak := self;
     mmap_base := 0;
     mmap_topdown := true;
     mlock_future := false;
     mlock_onfault := false;
     mdwe := Mdwe.DISABLED;
     has_uffd := false;
     accounting := Accounting.new root_pa;
     anon_chains := chains;
     anon_next_id := next_id;
     file_rmaps := rmaps;
     uffd_calls := [] |}.

(** [AddressSpace::new_for_exec]. *)
Definition new_for_exec (root_pa : Z) (parent : AddressSpace) (self : Z) : AddressSpace :=
  set_mdwe (Mdwe.inherited_from (mdwe parent))
    (new root_pa self (shm_installed (t_ops (vmas parent))) (anon_next_id parent) (anon_chains parent) (file_rmaps parent)).

(** [AddressSpace::mdwe_set]. *)
Definition mdwe_set (request : Mdwe.MdweRequest) : M AddressSpace (Mdwe.MdweSetError + unit) :=
  s ← get;
  let '(r, x) := Mdwe.set request (mdwe s) in
  modify (set_mdwe x) ;;
  ret r.

(** The areas in address order ([VmaTree::iter]). *)
Definition areas (s : AddressSpace) : list Vma := map snd (t_map (vmas s)).

Definition overlaps (start end_ : Z) (v : Vma) : bool := (start <? v_end v) && (v_start v <? end_).

Definition set_mmap_layout (base : Z) (top_down : bool) (s : AddressSpace) : AddressSpace :=
  set_mmap_base base (set_mmap_topdown top_down s).

Definition set_mlock_future (enabled onfault : bool) : M AddressSpace unit :=
  modify (set_mlock_onfault (enabled && onfault)) ;;
  modify (set_mlock_future enabled).

Definition mlock_future_policy (s : AddressSpace) : bool * bool :=
  (mlock_future s, mlock_future s && mlock_onfault s).

Definition find_vma (s : AddressSpace) (va : Z) : option Vma :=
  option_map clone (Tree.find_containing (vmas s) va).

Definition snapshot_vmas (s : AddressSpace) : list Vma := map clone (areas s).

Definition total_mapped_bytes (s : AddressSpace) : Z :=
  foldl (fun a v => sat_add a (v_end v - v_start v)) 0 (areas s).

(** *** Reverse-map upkeep *)

Definition attach_area (s : AddressSpace) (v : Vma) (start end_ : Z) : M AddressSpace unit :=
  match v_anon_vma v with
  | Some av => on_chain av (AnonVma.attach (self_weak s) start end_)
  | None => ret tt
  end ;;
  match v_file_rmap v, v_backing v with
  | Some rmap, File _ off =>
      on_rmap rmap (FileRmap.attach (self_weak s) start end_ (off / PAGE_SIZE_BYTES)
                      (flags_contains (v_may_prot v) Prot.WRITE))
  | _, _ => ret tt
  end.

(** Lowest start and highest end of the areas that meet the range. *)
Definition super_range (start end_ : Z) (l : list Vma) : Z * Z :=
  foldl (fun '(lo, hi) v =>
      if overlaps start end_ v then (Z.min lo (v_start v), Z.max hi (v_end v)) else (lo, hi))
    (U64_MAX, 0) l.

Definition detach_anon (s : AddressSpace) (v : Vma) : M AddressSpace unit :=
  match v_anon_vma v with
  | Some av => on_chain av (AnonVma.detach (self_weak s) (v_start v) (v_end v))
  | None => ret tt
  end.

Definition detach_file (s : AddressSpace) (v : Vma) : M AddressSpace unit :=
  match v_file_rmap v, v_backing v with
  | Some rmap, File _ _ => on_rmap rmap (FileRmap.detach (self_weak s) (v_start v) (v_end v))
  | _, _ => ret tt
  end.

Definition rmap_resplit {A} (start end_ : Z) (op : M AddressSpace (KResult A)) : M AddressSpace (KResult A) :=
  s ← get;
  let '(lo, hi) := super_range start end_ (areas s) in
  if hi <? lo then op
  else
    let touched := List.filter (overlaps lo hi) (areas s) in
    for_each touched (detach_anon s) ;;
    for_each touched (detach_file s) ;;
    a ←? op;
    s ← get;
    for_each (List.filter (overlaps lo hi) (areas s)) (fun v => attach_area s v (v_start v) (v_end v)) ;;
    ret (Ok a).

(** *** Removing mappings *)

Definition remove_all (removed : list Vma) : M AddressSpace unit :=
  for_each removed (fun v => account (Accounting.remove_vma v)).

Definition munmap_locked (env : Env) (addr end_ : Z) : M AddressSpace (KResult unit) :=
  t ← gets vmas;
  if Tree.any_sealed_raw_end t addr end_ then ret (Err Perm)
  else if Tree.refuses_split_raw_end (may_split env) t addr end_ then ret (Err Inval)
  else
    removed ←? rmap_resplit addr end_
      (sv ← expect (uva_new addr) "uva";
       out ← on_tree (Tree.remove_range_raw_end sv end_);
       ret (Ok out));
    remove_all removed ;;
    ret (Ok tt).

Definition munmap (env : Env) (addr len : Z) : M AddressSpace (KResult unit) :=
  _ ←! Layout.validate_len len;
  _ ←! Layout.validate_aligned addr;
  end_ ←! Layout.end_of_raw addr len;
  munmap_locked env addr end_.

(** *** Placing mappings *)

Inductive MmapPlacement :=
| Advisory (hint : option Z)
| AdvisoryAligned (hint : option Z) (align : Z)
| Fixed (addr : Z)
| FixedNoReplace (addr : Z).

(** [MmapError]: an error of the manager, or [Exists]. *)
Inductive MmapError := Vmm (e : Error) | Exists.

Definition mtry {A B} (r : KResult A) (k : A -> MmapError + B) : MmapError + B :=
  match r with Ok a => k a | Err e => inl (Vmm e) end.

Definition unmapped_area_aligned (s : AddressSpace) (len align : Z) : option Z :=
  let anchor := mmap_base s in
  if mmap_topdown s then
    Hole.find_hole_aligned (vmas s) len (if anchor =? 0 then Hole.MMAP_TOP else anchor) align
  else Hole.find_hole_bottom_up_aligned (vmas s) len anchor align.

Definition unmapped_area (s : AddressSpace) (len : Z) : option Z := unmapped_area_aligned s len 1.

Definition get_unmapped_area (s : AddressSpace) (len : Z) : KResult Z :=
  match Layout.validate_len len with
  | Err e => Err e
  | Ok _ => match unmapped_area s len with Some a => Ok a | None => Err NoMem end
  end.

Definition placement_align (env : Env) (placement : MmapPlacement) (backing : VmaBacking) : Z :=
  Z.max (match backing with File b _ => Z.max (huge_page_size env b) 1 | _ => 1 end)
        (match placement with AdvisoryAligned _ align => Z.max align 1 | _ => 1 end).

(** The hint, when it can be honoured. *)
Definition from_hint (s : AddressSpace) (len align : Z) (hint : option Z) : option Z :=
  match hint with
  | Some h =>
      if Layout.is_aligned h && (Z.land h (align - 1) =? 0) then
        match Layout.end_of h len with
        | Ok e => if Hole.hole_clear (vmas s) h e then Some h else None
        | Err _ => None
        end
      else None
  | None => None
  end.

Definition place_advisory (s : AddressSpace) (len align : Z) (hint : option Z) : MmapError + (Z * option Z) :=
  match from_hint s len align hint with
  | Some h => inr (h, None)
  | None => match unmapped_area_aligned s len align with
            | Some a => inr (a, None)
            | None => inl (Vmm NoMem)
            end
  end.

(** Start of the mapping, and the end of the range to clear for [Fixed]. *)
Definition place (s : AddressSpace) (placement : MmapPlacement) (len align : Z) : MmapError + (Z * option Z) :=
  match placement with
  | Fixed h =>
      mtry (Layout.validate_aligned h) (fun _ =>
      if negb (Z.land h (align - 1) =? 0) then inl (Vmm Inval)
      else mtry (Layout.end_of h len) (fun e => inr (h, Some e)))
  | FixedNoReplace h =>
      mtry (Layout.validate_aligned h) (fun _ =>
      if negb (Z.land h (align - 1) =? 0) then inl (Vmm Inval)
      else mtry (Layout.end_of h len) (fun e =>
      if negb (Hole.hole_clear (vmas s) h e) then inl Exists else inr (h, None)))
  | Advisory hint => place_advisory s len align hint
  | AdvisoryAligned hint _ => place_advisory s len align hint
  end.

(** [MdweMode]. *)
Inductive MdweMode := Check_ | Vetted (admission : Mdwe.MdweAdmission) | Preserve.

Definition mdwe_admit_new_mapping (s : AddressSpace) (prot : Z) : KResult Mdwe.MdweAdmission :=
  if Mdwe.denies (mdwe s) prot prot then Err Access
  else Ok {| Mdwe.owner := self_weak s; Mdwe.admitted_prot := prot |}.

Definition mdwe_step (s : AddressSpace) (m : MdweMode) (prot : Z) : KResult unit :=
  match m with
  | Check_ => match mdwe_admit_new_mapping s prot with Ok _ => Ok tt | Err e => Err e end
  | Vetted a => Mdwe.validate a (self_weak s) prot
  | Preserve => Ok tt
  end.

(** [Vma::new_with_may]; the family identity is fresh. *)
Definition new_with_may (env : Env) (id start end_ prot may_prot flags : Z) (backing : VmaBacking) : Vma :=
  {| v_start := start; v_end := end_; v_prot := prot; v_may_prot := may_prot; v_pkey := 0; v_flags := flags;
     v_backing := backing; v_rss := 0;
     v_anon_vma := match backing with Anonymous => Some id | _ => None end;
     v_anon_pages := false;
     v_file_rmap := match backing with File b _ => file_rmap_of env b | _ => None end;
     v_anon_name := None; v_uffd := None; v_mempolicy := None; v_mapping_origin := None |}.

(** The lock flags a new mapping inherits. *)
Definition future_flags (s : AddressSpace) (flags : Z) : Z :=
  match mlock_future_policy s with
  | (false, _) => flags
  | (true, false) => flags_union flags Flags.LOCKED
  | (true, true) => flags_union flags Flags.LOCKED_MASK
  end.

(** The rmap whose writable count the mapping must reserve. *)
Definition writable_rmap (env : Env) (flags may_prot : Z) (backing : VmaBacking) : option Z :=
  match backing with
  | File b _ =>
      if flags_contains flags Flags.SHARED && flags_contains may_prot Prot.WRITE then file_rmap_of env b else None
  | _ => None
  end.

Definition merr {A} (e : MmapError) : M AddressSpace (MmapError + A) := ret (inl e).

(** The error of a refused [mmap_setup]. *)
Definition setup_error (e : FileBackingError) : Error :=
  match e with
  | FbAcces => Access
  | FbNoMem => NoMem
  | FbBadf | FbInval | FbIo | FbOpNotSupp | FbAgain => Inval
  end.

(** Insert the new area, account it and link the reverse map. *)
Definition insert_mapping (env : Env) (start end_ prot may_prot flags : Z) (backing : VmaBacking)
    : M AddressSpace (MmapError + Z) :=
  s ← get;
  let added := new_with_may env (anon_next_id s) start end_ prot may_prot flags backing in
  modify (fun s => set_anon_next_id
    (match backing with Anonymous => wrap64 (anon_next_id s + 1) | _ => anon_next_id s end) s) ;;
  r ← on_tree (Tree.insert (clone added));
  match r with
  | Err _ => merr (Vmm Inval)
  | Ok _ =>
      account (Accounting.add_vma added) ;;
      s ← get;
      match Tree.find_containing (vmas s) start with
      | Some v => attach_area s v start end_
      | None => ret tt
      end ;;
      ret (inr start)
  end.

(** Everything after the reservation: clear the destination of [Fixed], then
    insert. *)
Definition mmap_commit (env : Env) (start end_ : Z) (replace_end : option Z) (prot may_prot flags : Z)
    (backing : VmaBacking) : M AddressSpace (MmapError + Z) :=
  match replace_end with
  | Some e =>
      t ← gets vmas;
      if Tree.any_sealed t start e then merr (Vmm Perm)
      else if Tree.refuses_split (may_split env) t start e then merr (Vmm Inval)
      else
        removed ← on_tree (Tree.remove_range start e);
        remove_all removed ;;
        insert_mapping env start end_ prot may_prot flags backing
  | None => insert_mapping env start end_ prot may_prot flags backing
  end.

(** Run [m] with a writable reservation on [rmap] held, if there is one. *)
Definition with_reservation {A} (rmap : option Z) (m : M AddressSpace (MmapError + A)) : M AddressSpace (MmapError + A) :=
  match rmap with
  | None => m
  | Some id =>
      s ← get;
      match FileRmap.reserve_writable (file_rmaps s id) with
      | Err e => merr (Vmm e)
      | Ok st =>
          modify (fun s => set_file_rmaps (fupd (file_rmaps s) id st) s) ;;
          r ← m;
          zoom (fun s => file_rmaps s id) (fun x s => set_file_rmaps (fupd (file_rmaps s) id x) s)
            FileRmap.drop_reservation ;;
          ret r
      end
  end.

Definition mmap_with_may_at_inner_locked (env : Env) (placement : MmapPlacement) (len prot may_prot flags : Z)
    (backing : VmaBacking) (m : MdweMode) : M AddressSpace (MmapError + Z) :=
  match Layout.validate_len len with
  | Err e => merr (Vmm e)
  | Ok _ =>
      s ← get;
      let flags := future_flags s flags in
      let align := placement_align env placement backing in
      match place s placement len align with
      | inl e => merr e
      | inr (start, replace_end) =>
          match Layout.end_of start len with
          | Err e => merr (Vmm e)
          | Ok end_ =>
              if negb (admit_mmap_addr env start) then merr (Vmm Access)
              else match (match backing with
                          | File b off => mmap_setup env b start end_ (off / PAGE_SIZE_BYTES)
                          | _ => None
                          end) with
              | Some e => merr (Vmm (setup_error e))
              | None =>
                  match mdwe_step s m prot with
                  | Err e => merr (Vmm e)
                  | Ok _ =>
                      with_reservation (writable_rmap env flags may_prot backing)
                        (mmap_commit env start end_ replace_end prot may_prot flags backing)
                  end
              end
          end
      end
  end.

Definition mmap_with_may_at (env : Env) (placement : MmapPlacement) (len prot may_prot flags : Z)
    (backing : VmaBacking) : M AddressSpace (MmapError + Z) :=
  mmap_with_may_at_inner_locked env placement len prot may_prot flags backing Check_.

Definition mmap_with_may_at_admitted (env : Env) (placement : MmapPlacement) (len prot may_prot flags : Z)
    (backing : VmaBacking) (admission : Mdwe.MdweAdmission) : M AddressSpace (MmapError + Z) :=
  mmap_with_may_at_inner_locked env placement len prot may_prot flags backing (Vetted admission).

(** [map_err] of the callers without an [Exists] of their own. *)
Definition flatten (r : MmapError + Z) : KResult Z :=
  match r with
  | inr a => Ok a
  | inl (Vmm e) => Err e
  | inl Exists => Err Inval
  end.

Definition mmap_with_may (env : Env) (hint : option Z) (len prot may_prot flags : Z) (backing : VmaBacking)
    (fixed : bool) : M AddressSpace (KResult Z) :=
  match fixed, hint with
  | true, None => ret (Err Inval)
  | true, Some a => r ← mmap_with_may_at env (Fixed a) len prot may_prot flags backing; ret (flatten r)
  | false, h => r ← mmap_with_may_at env (Advisory h) len prot may_prot flags backing; ret (flatten r)
  end.

Definition mmap (env : Env) (hint : option Z) (len prot flags : Z) (backing : VmaBacking) (fixed : bool)
    : M AddressSpace (KResult Z) :=
  mmap_with_may env hint len prot (flags_union (flags_union Prot.READ Prot.WRITE) Prot.EXEC) flags backing fixed.

Definition mmap_preserving_prot_locked (env : Env) (hint : option Z) (len prot may_prot flags : Z)
    (backing : VmaBacking) (fixed : bool) : M AddressSpace (KResult Z) :=
  match fixed, hint with
  | true, None => ret (Err Inval)
  | true, Some a =>
      r ← mmap_with_may_at_inner_locked env (Fixed a) len prot may_prot flags backing Preserve; ret (flatten r)
  | false, h =>
      r ← mmap_with_may_at_inner_locked env (Advisory h) len prot may_prot flags backing Preserve; ret (flatten r)
  end.

End Space.
