(* ===== verification/AddrSpaceOps.v ===== *)
(** * Protecting, locking, sealing, growing and moving mappings

    [crates/kernel/mm-vmm/src/address_space/ops.rs], [ops/mprotect.rs],
    [mlock.rs], [uffd.rs], [mempolicy.rs], [mseal.rs] and [mremap.rs]. *)

From stdpp Require Import strings.
From S2P Require Import Prelude BTree Vma VmaTree Hole Rmap Account AddrSpace.

Module SpaceOps.
Import Space.

(** ** Protection ([ops/mprotect.rs]) *)

Record MprotectStep := { st_start : Z; st_len : Z; st_prot : Z; st_pkey : Z }.

Record MprotectOutcome := { o_steps : list MprotectStep; o_error : option Error }.

(** The area at the cursor, or the next one above. *)
Definition vma_at (t : VmaTree) (cursor : Z) : option Vma :=
  match floor_le cursor (t_map t) with
  | Some (_, v) =>
      if cursor <? v_end v then Some v
      else match ceil_ge cursor (t_map t) with Some (_, v) => Some v | None => None end
  | None => match ceil_ge cursor (t_map t) with Some (_, v) => Some v | None => None end
  end.

Section mprotect.
Context (env : Env) (requested : Z) (read_implies_exec : bool).
(** The caller's checks, per area. *)
Context (security : Vma -> Z -> option Error) (key_for : Vma -> Z).

(** The protection one area gets, and the first reason to refuse it. *)
Definition step_prot (v : Vma) : Z :=
  if read_implies_exec && flags_contains requested Prot.READ && flags_contains (v_may_prot v) Prot.EXEC
  then flags_union requested Prot.EXEC else requested.

Definition step_error (s : AddressSpace) (cursor end_ : Z) (v : Vma) : option Error :=
  let prot := step_prot v in
  if cursor <? v_start v then Some NoMem
  else if negb (flags_contains (v_may_prot v) prot) || Mdwe.denies (mdwe s) (v_prot v) prot then Some Access
  else match security v prot with
  | Some e => Some e
  | None =>
      if flags_contains (v_flags v) Flags.SEALED then Some Perm
      else if ((v_start v <? cursor) || (end_ <? v_end v)) && negb (vma_may_split (may_split env) v) then Some Inval
      else None
  end.

(** The checking walk: every turn passes one more area. *)
Fixpoint plan (fuel : nat) (s : AddressSpace) (end_ cursor : Z) (steps : list MprotectStep)
    : M AddressSpace (list MprotectStep * option Error) :=
  match fuel with
  | O => panic "loop bound"
  | S fuel' =>
      if end_ <=? cursor then ret (steps, None)
      else
        cursor_va ← expect (uva_new cursor) "validated user range";
        match vma_at (vmas s) cursor_va with
        | None => ret (steps, Some NoMem)
        | Some v =>
            match step_error s cursor end_ v with
            | Some e => ret (steps, Some e)
            | None =>
                let step_end := Z.min (v_end v) end_ in
                st ← expect (uva_new cursor) "validated user range";
                len ← sub64 step_end cursor;
                plan fuel' s end_ step_end
                  (steps ++ [{| st_start := st; st_len := len; st_prot := step_prot v;
                                st_pkey := key_for v |}])
            end
        end
  end.

(** Carry out the planned steps; an unexpected failure truncates them. *)
Fixpoint apply_steps (todo applied : list MprotectStep) (error : option Error) : M AddressSpace MprotectOutcome :=
  match todo with
  | [] => ret {| o_steps := applied; o_error := error |}
  | step :: todo' =>
      step_end ← add64 (st_start step) (st_len step);
      r ← rmap_resplit (st_start step) step_end
        (sv ← expect (uva_new (st_start step)) "validated user range";
         ev ← expect (uva_new step_end) "validated user range";
         on_tree (Tree.mprotect_range_with_pkey sv ev (st_prot step) (Some (st_pkey step))));
      match r with
      | Err e => ret {| o_steps := applied; o_error := Some e |}
      | Ok _ => apply_steps todo' (applied ++ [step]) error
      end
  end.

Definition mprotect_user_with_security (addr len : Z) : M AddressSpace (KResult MprotectOutcome) :=
  _ ←! Layout.validate_len len;
  _ ←! Layout.validate_aligned addr;
  end_ ←! Layout.end_of addr len;
  s ← get;
  let count := length (List.filter (overlaps addr end_) (areas s)) in
  if negb (try_reserve env count) then ret (Err NoMem)
  else
    p ← plan (S (S (length (areas s)))) s end_ addr [];
    out ← apply_steps p.1 [] p.2;
    ret (Ok out).

End mprotect.

Definition mprotect_user (env : Env) (addr len requested : Z) (read_implies_exec : bool) (key_for : Vma -> Z)
    : M AddressSpace (KResult MprotectOutcome) :=
  mprotect_user_with_security env requested read_implies_exec (fun _ _ => None) key_for addr len.

Definition mprotect (env : Env) (addr len prot : Z) : M AddressSpace (KResult unit) :=
  outcome ←? mprotect_user env addr len prot false v_pkey;
  match o_error outcome with
  | Some e => ret (Err e)
  | None => ret (Ok tt)
  end.

Definition range_sealed (s : AddressSpace) (addr len : Z) : bool :=
  match Layout.end_of_raw addr len with Ok e => Tree.any_sealed_raw_end (vmas s) addr e | Err _ => false end.

Definition range_refuses_split (env : Env) (s : AddressSpace) (addr len : Z) : bool :=
  match Layout.end_of_raw addr len with
  | Ok e => Tree.refuses_split_raw_end (may_split env) (vmas s) addr e
  | Err _ => false
  end.

Definition range_may (s : AddressSpace) (addr len prot : Z) : bool :=
  match Layout.end_of_raw addr len with Ok e => Tree.range_may_raw_end (vmas s) addr e prot | Err _ => false end.

Definition mseal_range (start end_ : Z) : M AddressSpace (KResult unit) := on_tree (Tree.seal_range start end_).

Definition audit (s : AddressSpace) : KResult unit := Tree.audit_no_overlap (vmas s).

(** ** Arguments of mseal ([mseal.rs]) *)

Definition mseal_len (len_in : Z) : KResult Z :=
  let len := Z.land (wrap64 (len_in + (PAGE_SIZE_BYTES - 1))) (not64 (PAGE_SIZE_BYTES - 1)) in
  if negb (len_in =? 0) && (len =? 0) then Err Inval else Ok len.

Definition mseal_args (start len_in flags : Z) : KResult (option (Z * Z)) :=
  if negb (flags =? 0) then Err Inval
  else if negb (Z.land start (PAGE_SIZE_BYTES - 1) =? 0) then Err Inval
  else match mseal_len len_in with
  | Err e => Err e
  | Ok len =>
      let end_ := wrap64 (start + len) in
      if end_ <? start then Err Inval
      else if end_ =? start then Ok None
      else Ok (Some (start, end_))
  end.

(** ** Flags, locking ([ops.rs], [mlock.rs]) *)

(** Locked bytes of the areas, within the range. *)
Definition locked_bytes (start end_ : Z) (l : list Vma) : Z :=
  sumZ (fun v => Z.min (v_end v) end_ - Z.max (v_start v) start)
    (List.filter (fun v => flags_contains (v_flags v) Flags.LOCKED && overlaps start end_ v) l).

Definition update_flags_range (start len set clear : Z) : M AddressSpace unit :=
  match uva_new (sat_add start len) with
  | None => ret tt
  | Some end_ =>
      old_locked ← gets (fun s => locked_bytes start end_ (areas s));
      on_tree (Tree.update_flags_range start end_ set clear) ;;
      new_locked ← gets (fun s => locked_bytes start end_ (areas s));
      account (Accounting.replace_locked_range old_locked new_locked)
  end.

Definition locked_bytes_in_range (s : AddressSpace) (start len : Z) : Z :=
  locked_bytes start (sat_add start len) (areas s).

Record LockedSpan := { sp_start : Z; sp_len : Z; sp_onfault : bool }.

Record MlockOutcome := { ml_spans : list LockedSpan; ml_error : option Error }.

Definition supports_mlock (v : Vma) : bool :=
  match v_backing v with PhysRange _ _ | Special => false | _ => true end.

Definition mlock_newflags (add : Z) (v : Vma) : Z :=
  flags_union (flags_difference (v_flags v) Flags.LOCKED_MASK) add.

(** Both ends are user addresses. *)
Definition user_range (s e : Z) : bool :=
  match uva_new s, uva_new e with Some _, Some _ => true | _, _ => false end.

(** The walk over the snapshot; it stops at the first hole. *)
Fixpoint lock_walk (s end_ add tmp : Z) (l : list Vma) (spans : list LockedSpan) : M AddressSpace (Z * MlockOutcome) :=
  match l with
  | [] => ret (tmp, {| ml_spans := spans; ml_error := None |})
  | v :: l' =>
      if tmp <? v_start v then ret (end_, {| ml_spans := spans; ml_error := Some NoMem |})
      else
        let seg_s := Z.max s (v_start v) in
        let seg_e := Z.min end_ (v_end v) in
        let tmp := v_end v in
        if negb (supports_mlock v) then lock_walk s end_ add tmp l' spans
        else
          let changed := negb (mlock_newflags add v =? v_flags v) in
          if changed && negb (user_range seg_s seg_e) then lock_walk s end_ add tmp l' spans
          else
            (if changed then update_flags_range seg_s (seg_e - seg_s) add (flags_difference Flags.LOCKED_MASK add)
             else ret tt) ;;
            lock_walk s end_ add tmp l'
              (match uva_new seg_s with
               | Some ss =>
                   if flags_contains add Flags.LOCKED
                   then spans ++ [{| sp_start := ss; sp_len := seg_e - seg_s;
                                     sp_onfault := flags_contains add Flags.LOCKONFAULT |}]
                   else spans
               | None => spans
               end)
  end.

Definition apply_vma_lock_flags (start len add : Z) : M AddressSpace MlockOutcome :=
  match checked_add start len with
  | None => ret {| ml_spans := []; ml_error := Some Inval |}
  | Some end_ =>
      if end_ =? start then ret {| ml_spans := []; ml_error := None |}
      else
        l ← gets snapshot_vmas;
        r ← lock_walk start end_ add start (List.filter (overlaps start end_) l) [];
        ret (if r.1 <? end_ then {| ml_spans := ml_spans r.2; ml_error := Some NoMem |} else r.2)
  end.

Fixpoint lock_all (add : Z) (onfault : bool) (l : list Vma) (spans : list LockedSpan) : M AddressSpace (list LockedSpan) :=
  match l with
  | [] => ret spans
  | v :: l' =>
      if negb (supports_mlock v) then lock_all add onfault l' spans
      else
        let len := v_end v - v_start v in
        (if negb (Z.land (v_flags v) Flags.LOCKED_MASK =? add)
         then update_flags_range (v_start v) len add (flags_difference Flags.LOCKED_MASK add)
         else ret tt) ;;
        lock_all add onfault l' (spans ++ [{| sp_start := v_start v; sp_len := len; sp_onfault := onfault |}])
  end.

Definition apply_mlockall_flags (future current onfault : bool) : M AddressSpace (list LockedSpan) :=
  Space.set_mlock_future future onfault ;;
  if negb current then ret []
  else
    let add := if onfault then Flags.LOCKED_MASK else Flags.LOCKED in
    l ← gets snapshot_vmas;
    lock_all add onfault l [].

Fixpoint unlock_all (l : list Vma) (cleared : list LockedSpan) : M AddressSpace (list LockedSpan) :=
  match l with
  | [] => ret cleared
  | v :: l' =>
      let len := v_end v - v_start v in
      if flags_intersects (v_flags v) Flags.LOCKED_MASK then
        update_flags_range (v_start v) len 0 Flags.LOCKED_MASK ;;
        unlock_all l' (cleared ++ [{| sp_start := v_start v; sp_len := len; sp_onfault := false |}])
      else unlock_all l' cleared
  end.

Definition munlock_all : M AddressSpace (list LockedSpan) :=
  Space.set_mlock_future false false ;;
  l ← gets snapshot_vmas;
  unlock_all l [].

(** ** Stack growth, names, policies, userfaultfd ([ops.rs], [uffd.rs]) *)

Definition try_grow_stack (va max_size max_grow : Z) : M AddressSpace bool :=
  s ← get;
  match Tree.find_growsdown_above (vmas s) va Hole.STACK_GROW_MAX with
  | None => ret false
  | Some v =>
      new_start ← expect (uva_new (Z.land va (not64 (PAGE_SIZE_BYTES - 1)))) "va in user range";
      if max_size <? sat_sub (v_end v) new_start then ret false
      else if max_grow <? sat_sub (v_start v) new_start then ret false
      else
        r ← on_tree (Tree.extend_growsdown_start (v_start v) new_start);
        ret (match r with Ok _ => true | Err _ => false end)
  end.

Definition set_anon_vma_name (addr len : Z) (name : option string) : M AddressSpace (KResult unit) :=
  if negb (Z.land addr (PAGE_SIZE_BYTES - 1) =? 0) then ret (Err Inval)
  else match checked_add len (PAGE_SIZE_BYTES - 1) with
  | None => ret (Err Inval)
  | Some n =>
      let rounded := Z.land n (not64 (PAGE_SIZE_BYTES - 1)) in
      if negb (len =? 0) && (rounded =? 0) then ret (Err Inval)
      else if rounded =? 0 then ret (Ok tt)
      else match checked_add addr rounded with
      | None => ret (Err Inval)
      | Some e =>
          match uva_new addr, uva_new e with
          | Some start, Some end_ => on_tree (Tree.set_anon_name_range start end_ name)
          | _, _ => ret (Err Inval)
          end
      end
  end.

Definition set_policy_range (start end_ : Z) (pol : option MemPolicy) : M AddressSpace unit :=
  match uva_new start, uva_new end_ with
  | Some s, Some e => on_tree (Tree.set_policy_range s e pol)
  | _, _ => ret tt
  end.

Definition set_home_node_range (start end_ home_node : Z) : M AddressSpace (option Tree.HomeNodeErr) :=
  match uva_new start, uva_new end_ with
  | Some s, Some e => on_tree (Tree.set_home_node_range s e home_node)
  | _, _ => ret (Some Tree.NoEnt)
  end.

Definition vma_policy_at (s : AddressSpace) (addr : Z) : option (option MemPolicy) :=
  match uva_new addr with
  | None => None
  | Some va => option_map v_mempolicy (Tree.find_containing (vmas s) va)
  end.

Definition set_uffd (start end_ ctx modes : Z) : M AddressSpace unit :=
  match uva_new start, uva_new end_ with
  | Some s, Some e =>
      modify (set_has_uffd true) ;;
      on_tree (Tree.set_uffd_range s e (Some ctx) modes)
  | _, _ => ret tt
  end.

Definition clear_uffd (start end_ : Z) : M AddressSpace unit :=
  match uva_new start, uva_new end_ with
  | Some s, Some e => on_tree (Tree.set_uffd_range s e None 0)
  | _, _ => ret tt
  end.

(** The facts about one area the userfaultfd handlers need. *)
Record UffdVma := {
  u_start : Z; u_end : Z; u_prot : Z; u_may_write : bool; u_write : bool; u_anonymous : bool; u_shmem : bool;
  u_shared : bool; u_locked : bool; u_modes : Z; u_ctx : option Z; u_file : option (Z * Z); u_anon_vma : option Z;
}.

Definition project (is_shmem : Z -> bool) (v : Vma) : UffdVma :=
  let file := match v_backing v with File b off => Some (b, off) | _ => None end in
  {| u_start := v_start v;
     u_end := v_end v;
     u_prot := v_prot v;
     u_may_write := flags_contains (v_may_prot v) Prot.WRITE;
     u_write := flags_contains (v_prot v) Prot.WRITE;
     u_anonymous := match v_backing v with Anonymous => true | _ => false end;
     u_shmem := match file with Some (b, _) => is_shmem b | None => false end;
     u_shared := flags_contains (v_flags v) Flags.SHARED;
     u_locked := flags_contains (v_flags v) Flags.LOCKED;
     u_modes := Z.land (v_flags v) Flags.UFFD_MASK;
     u_ctx := v_uffd v;
     u_file := file;
     u_anon_vma := v_anon_vma v |}.

(** Context and modes registered at an address. *)
Definition uffd_for (s : AddressSpace) (va : Z) : option (Z * Z) :=
  match Tree.find_containing (vmas s) va with
  | Some v => option_map (fun c => (c, Z.land (v_flags v) Flags.UFFD_MASK)) (v_uffd v)
  | None => None
  end.

Definition uffd_vma_at (env : Env) (s : AddressSpace) (va : Z) : option UffdVma :=
  option_map (project (is_shmem env)) (Tree.find_containing (vmas s) va).

Definition uffd_vmas_in (env : Env) (s : AddressSpace) (start end_ : Z) : list UffdVma :=
  map (project (is_shmem env)) (List.filter (overlaps start end_) (areas s)).

(** Charge a change against every distinct context of the range that tracks
    it; [wants] is the context's answer for the kind of change. *)
Fixpoint begin_walk (wants : Z -> bool) (l : list Vma) (out : list Z) : M AddressSpace (list Z) :=
  match l with
  | [] => ret out
  | v :: l' =>
      match v_uffd v with
      | None => begin_walk wants l' out
      | Some ctx =>
          if negb (wants ctx) then begin_walk wants l' out
          else if existsb (Z.eqb ctx) out then begin_walk wants l' out
          else uffd_call (change_begin ctx) ;; begin_walk wants l' (out ++ [ctx])
      end
  end.

Definition uffd_change_begin (wants : Z -> bool) (start end_ : Z) : M AddressSpace (list Z) :=
  s ← get;
  if negb (has_uffd s) then ret []
  else begin_walk wants (List.filter (overlaps start end_) (areas s)) [].

(** ** Moving mappings ([mremap.rs]) *)

(** The context charged for the move, with the modes to re-arm. *)
Definition remap_watch (env : Env) (old : Z) : M AddressSpace (option (Z * Z)) :=
  s ← get;
  if negb (has_uffd s) then ret None
  else match uffd_vma_at env s old with
  | None => ret None
  | Some hit =>
      match u_ctx hit with
      | None => ret None
      | Some ctx =>
          if negb (wants_remap env ctx) then ret None
          else uffd_call (change_begin ctx) ;; ret (Some (ctx, u_modes hit))
      end
  end.

Definition remap_done (w : option (Z * Z)) (from to len : Z) : M AddressSpace unit :=
  match w with
  | None => ret tt
  | Some (ctx, modes) =>
      e ← add64 to len;
      set_uffd to e ctx modes ;;
      uffd_call (change_complete ctx from to len)
  end.

Definition remap_failed (w : option (Z * Z)) : M AddressSpace unit :=
  match w with
  | None => ret tt
  | Some (ctx, _) => uffd_call (change_abort ctx)
  end.

Definition rebase_backing (b : VmaBacking) (delta : Z) : M AddressSpace VmaBacking :=
  match b with
  | File o off => off' ← add64 off delta; ret (File o off')
  | KernelBytes d off => off' ← add64 off delta; ret (KernelBytes d off')
  | KernelPages p off => off' ← add64 off delta; ret (KernelPages p off')
  | other => ret other
  end.

Section mremap.
Context (env : Env).
(** The page-table mover and the destination teardown of the caller. *)
Context (move_pages : Z -> Z -> Z -> option Error) (unmap_destination : Z -> Z -> option Error).

(** The unmap of the destination a fixed move makes first. *)
Definition clear_destination (fixed : bool) (hint : option Z) (new_size : Z) : option Error :=
  match fixed, hint with
  | true, Some d => unmap_destination d new_size
  | _, _ => None
  end.

(** Install the destination, move the pages, and undo on failure; then
    [finish] ends the move. *)
Definition install_and_move (watch : option (Z * Z)) (src : Vma) (old move_len new_size : Z) (hint : option Z)
    (fixed : bool) (finish : Z -> M AddressSpace (KResult Z)) : M AddressSpace (KResult Z) :=
  delta ← sub64 old (v_start src);
  moved_backing ← rebase_backing (v_backing src) delta;
  match clear_destination fixed hint new_size with
  | Some e => remap_failed watch ;; ret (Err e)
  | None =>
      r ← mmap_preserving_prot_locked env hint new_size (v_prot src) (v_may_prot src) (v_flags src) moved_backing fixed;
      match r with
      | Err e => remap_failed watch ;; ret (Err e)
      | Ok new_va =>
          match move_pages old new_va move_len with
          | Some e =>
              end_ ← add64 new_va new_size;
              munmap_locked env new_va end_ ;;
              remap_failed watch ;;
              ret (Err e)
          | None => finish new_va
          end
      end
  end.

Definition mremap_dontunmap (old old_size new_size : Z) (maymove fixed : bool) (new_addr : option Z) (old_end : Z)
    : M AddressSpace (KResult Z) :=
  if negb maymove || negb (new_size =? old_size) then ret (Err Inval)
  else
    watch ← remap_watch env old;
    s ← get;
    match find_vma s old with
    | None => ret (Err Fault)
    | Some src =>
        if (old_size =? 0) || (v_end src <? old_end) then ret (Err Fault)
        else
          install_and_move watch src old old_size new_size new_addr fixed (fun new_va =>
            remap_done watch old new_va old_size ;;
            ret (Ok new_va))
    end.

Definition mremap_full_with_move (old old_size new_size : Z) (maymove fixed dontunmap : bool) (new_addr : option Z)
    : M AddressSpace (KResult Z) :=
  if negb (Z.land old (PAGE_SIZE_BYTES - 1) =? 0) || (new_size =? 0) then ret (Err Inval)
  else match checked_add old old_size with
  | None => ret (Err Inval)
  | Some old_end =>
      let move_or_expand := fixed || dontunmap || (old_size <? new_size) in
      if dontunmap then mremap_dontunmap old old_size new_size maymove fixed new_addr old_end
      else
        watch ← (if ((old_size <=? new_size) || fixed) && (maymove || fixed)
                 then remap_watch env old else ret None);
        s ← get;
        match find_vma s old with
        | None => ret (Err Fault)
        | Some src =>
            let covered := if new_size <? old_size then new_size else old_size in
            match (if move_or_expand then
                     match checked_add old covered with
                     | None => Some Inval
                     | Some covered_end =>
                         if v_end src <? covered_end then Some Fault
                         else if (old_size =? 0) && negb (flags_intersects (v_flags src) Flags.SHARED) then Some Inval
                         else None
                     end
                   else None) with
            | Some e => ret (Err e)
            | None =>
                if (new_size <? old_size) && negb fixed then
                  drop_va ← add64 old new_size;
                  match uva_new drop_va, uva_new (old + old_size) with
                  | Some da, Some e => munmap_locked env da e ;; ret (Ok old)
                  | _, _ => ret (Ok old)
                  end
                else if (new_size =? old_size) && negb fixed then ret (Ok old)
                else if negb maymove && negb fixed then ret (Err NoMem)
                else
                  let hint := if fixed then (match new_addr with Some a => Some a | None => Some old end) else None in
                  install_and_move watch src old (Z.min old_size new_size) new_size hint fixed (fun new_va =>
                    old_end_va ← add64 old old_size;
                    munmap_locked env old old_end_va ;;
                    remap_done watch old new_va old_size ;;
                    ret (Ok new_va))
            end
        end
  end.

End mremap.

(** ** Page-table entries and views ([ops.rs]) *)

Definition vma_count (s : AddressSpace) : nat := Tree.len (vmas s).

(** A step of the accounting; a panic of it is one of the address space. *)
Definition run_account (m : M VmAccounting unit) : M AddressSpace unit := zoom accounting set_accounting m.

Definition account_pte_remove_at (env : Env) (va : Z) : M AddressSpace unit :=
  s ← get;
  match Space.find_vma s va with
  | Some v => run_account (Accounting.remove_pte (huge_page_size env) v)
  | None => ret tt
  end.

Definition account_pte_install_at (env : Env) (va : Z) : M AddressSpace unit :=
  s ← get;
  match Space.find_vma s va with
  | Some v => run_account (Accounting.install_pte (huge_page_size env) v)
  | None => ret tt
  end.

Definition account_present_to_swap_at (env : Env) (va : Z) : M AddressSpace unit :=
  s ← get;
  match Space.find_vma s va with
  | Some v => run_account (Accounting.remove_pte (huge_page_size env) v) ;; run_account Accounting.install_swap_pte
  | None => ret tt
  end.

Definition account_swap_to_present_at (env : Env) (va : Z) : M AddressSpace unit :=
  s ← get;
  match Space.find_vma s va with
  | Some v => run_account Accounting.remove_swap_pte ;; run_account (Accounting.install_pte (huge_page_size env) v)
  | None => ret tt
  end.

Definition account_swap_remove : M AddressSpace unit := run_account Accounting.remove_swap_pte.

(** Section views: the origin every fragment of a view carries. *)
Definition set_mapping_origin (va : Z) : M AddressSpace bool :=
  t ← gets vmas;
  match Tree.find_containing_mut t va with
  | Some (k, v) =>
      on_tree (modify (fun t => set_map (bt_insert k (Vma.set_mapping_origin (Some va) v) (t_map t)) t)) ;;
      ret true
  | None => ret false
  end.

(** The walk that checks the members tile [[cursor, end)]. *)
Fixpoint tile_walk (origin cursor : Z) (l : list Vma) : KResult Z :=
  match l with
  | [] => Ok cursor
  | v :: l' =>
      if negb (v_start v =? cursor) || negb (bool_decide (v_mapping_origin v = Some origin)) then Err Inval
      else tile_walk origin (v_end v) l'
  end.

Definition mapping_origin_extent (s : AddressSpace) (origin : Z) : KResult (Z * Z) :=
  let areas := Space.snapshot_vmas s in
  match filter (fun v => v_mapping_origin v = Some origin) areas with
  | [] => Err Inval
  | v :: members =>
      let start := foldl (fun x w => Z.min x (v_start w)) (v_start v) members in
      let end_ := foldl (fun x w => Z.max x (v_end w)) (v_end v) members in
      match tile_walk origin start (List.filter (Space.overlaps start end_) areas) with
      | Err e => Err e
      | Ok cursor =>
          if negb (cursor =? end_) then Err Inval
          else match uva_new start with Some st => Ok (st, end_ - start) | None => Err Inval end
      end
  end.

Definition unmap_mapping_origin (env : Env) (origin : Z) : M AddressSpace (KResult unit) :=
  s ← get;
  match mapping_origin_extent s origin with
  | Err e => ret (Err e)
  | Ok (start, len) => Space.munmap env start len
  end.

(** *** Flushing file pages *)

Section flush.
(** [FileBacking::fsync_range], given the calls made before: whether it
    succeeds. *)
Context (fsync_range : list (Z * Z * Z) -> Z -> Z -> Z -> bool).

(** The loop over the areas, with the calls it makes. *)
Fixpoint flush_walk (start end_ cursor : Z) (calls : list (Z * Z * Z)) (l : list Vma) : list (Z * Z * Z) * KResult (Z * Z) :=
  match l with
  | [] => (calls, Err Inval)
  | v :: l' =>
      if v_end v <=? cursor then flush_walk start end_ cursor calls l'
      else if (cursor <? v_start v) || (end_ <=? v_start v) then (calls, Err Inval)
      else
        let overlap_end := Z.min (v_end v) end_ in
        let next calls :=
          if end_ <=? overlap_end then (calls, Ok (start, end_ - start))
          else flush_walk start end_ overlap_end calls l' in
        match v_backing v with
        | File backing off =>
            match checked_add off (cursor - v_start v), checked_add off (overlap_end - v_start v) with
            | Some file_start, Some file_end =>
                let calls' := calls ++ [(backing, file_start, file_end)] in
                if fsync_range calls backing file_start file_end then next calls' else (calls', Err Io)
            | _, _ => (calls, Err Inval)
            end
        | _ => next calls
        end
  end.

(** Where the flush ends: the end asked for, rounded up, or for size 0 the end
    of the area. *)
Definition flush_end (s : AddressSpace) (address size start : Z) : KResult Z :=
  if size =? 0 then
    match uva_new start with
    | None => Err Inval
    | Some va => match Tree.find_containing (vmas s) va with Some v => Ok (v_end v) | None => Err Inval end
    end
  else
    match checked_add address size with
    | None => Err Inval
    | Some raw =>
        match checked_add raw (PAGE_SIZE_BYTES - 1) with
        | Some value => Ok (Z.land value (not64 (PAGE_SIZE_BYTES - 1)))
        | None => Err Inval
        end
    end.

Definition flush_virtual_range (s : AddressSpace) (address size : Z) : list (Z * Z * Z) * KResult (Z * Z) :=
  let start := Z.land address (not64 (PAGE_SIZE_BYTES - 1)) in
  match flush_end s address size start with
  | Err e => ([], Err e)
  | Ok end_ =>
      if (end_ <=? start) || negb (bool_decide (is_Some (uva_new start))) || negb (bool_decide (is_Some (uva_new (end_ - 1))))
      then ([], Err Inval)
      else flush_walk start end_ start [] (Space.areas s)
  end.

End flush.

(** [tear] is the caller's check and edit of the page table. *)
Definition tear_file_page_if (env : Env) (va owner page_index : Z) (tear : bool) : M AddressSpace bool :=
  t ← gets vmas;
  match Tree.find_containing t va with
  | None => ret false
  | Some v =>
      if negb (bool_decide (v_file_rmap v = Some owner)) then ret false
      else match v_backing v with
      | File _ off =>
          x ← add64 off va;
          y ← sub64 x (v_start v);
          if negb (y / PAGE_SIZE_BYTES =? page_index) || negb tear then ret false
          else run_account (Accounting.remove_pte (huge_page_size env) v) ;; ret true
      | _ => ret false
      end
  end.

End SpaceOps.
