(* ===== verification/Extent.v ===== *)
(** * How many bytes have a property

    The number of mapped bytes with a property of their page, as a sum over
    the areas of a tree. It depends only on the view, so every change
    specified by its effect on the view has a known effect on the number:
    the accounting of an address space follows from the specifications of
    the tree operations. *)

From Stdlib Require Import Sorting.Sorted.
From stdpp Require Import strings.
From S2P Require Import Prelude BTree Vma VmaTree VmaTreeInv VmaTreeOps VmaTreeSpec VmaTreeRange VmaTreeEdit.

(** ** Sums over the areas that meet a range *)

Lemma filter_bool {A} (q : A -> bool) l : List.filter q l = filter (fun x => q x = true) l.
Proof. induction l as [|x l IH]; [done|]. rewrite filter_cons. cbn. rewrite IH. by destruct (q x). Qed.

Lemma ascending_nodup (l : list Z) : StronglySorted Z.lt l -> NoDup l.
Proof.
  induction 1 as [|x l Hl IH Hx]; constructor; [|done]. intros Hin. rewrite Forall_forall in Hx. specialize (Hx x Hin). lia.
Qed.

Lemma sum_filter_zero {A} (f g : A -> Z) (q : A -> bool) l :
  (forall x, x ∈ l -> (q x = true -> f x = g x) /\ (q x = false -> g x = 0)) ->
  sumZ f (List.filter q l) = sumZ g l.
Proof.
  induction l as [|x l IH]; intros H; [done|]. cbn [List.filter]. rewrite sumZ_cons.
  destruct (H x ltac:(left)) as [H1 H2]. rewrite <- IH by (intros y Hy; apply H; by right).
  destruct (q x); [rewrite sumZ_cons, H1|rewrite H2]; done.
Qed.

Lemma listing_perm start end_ m K :
  tree_ok m -> listing start end_ m K ->
  K ≡ₚ map fst (List.filter (fun p => (v_start p.2 <? end_) && (start <? v_end p.2)) m).
Proof.
  intros Hm [Hs HK]. apply NoDup_Permutation.
  - by apply ascending_nodup.
  - apply ascending_nodup, keys_sorted. rewrite filter_bool. apply filter_sorted, Hm.
  - intros k. rewrite HK, list_elem_of_fmap. setoid_rewrite list_elem_of_In. setoid_rewrite filter_In.
    split.
    + intros (v & Hg & ? & ?). exists (k, v). split; [done|]. split; [apply list_elem_of_In, get_elem; [apply Hm|done]|].
      cbn. apply andb_true_iff. split; by apply Z.ltb_lt.
    + intros ([k' v] & -> & Hin & Hb). apply list_elem_of_In, get_elem in Hin; [|apply Hm]. exists v. cbn in *. to_prop. done.
Qed.

(** ** Counting addresses *)

Fixpoint count (f : Z -> bool) (lo : Z) (n : nat) : Z :=
  match n with
  | O => 0
  | S n' => Z.b2z (f lo) + count f (lo + 1) n'
  end.

Lemma count_ext f g lo n :
  (forall a, lo <= a < lo + Z.of_nat n -> f a = g a) -> count f lo n = count g lo n.
Proof.
  revert lo. induction n as [|n IH]; intros lo H; [done|]. cbn. f_equal.
  - by rewrite H by lia.
  - apply IH. intros a Ha. apply H. lia.
Qed.

Lemma count_split f h lo n :
  count f lo n = count (fun a => f a && h a) lo n + count (fun a => f a && negb (h a)) lo n.
Proof.
  revert lo. induction n as [|n IH]; intros lo; [done|]. cbn. rewrite IH. destruct (f lo), (h lo); cbn; lia.
Qed.

Lemma count_none f lo n : (forall a, f a = false) -> count f lo n = 0.
Proof. intros H. revert lo. induction n as [|n IH]; intros lo; [done|]. cbn. by rewrite H, IH. Qed.

Lemma count_le f lo n : count f lo n <= Z.of_nat n.
Proof. revert lo. induction n as [|n IH]; intros lo; [done|]. cbn [count]. specialize (IH (lo + 1)). destruct (f lo); cbn [Z.b2z]; lia. Qed.

Lemma count_interval s e lo n :
  lo <= s <= e -> e <= lo + Z.of_nat n -> count (fun a => (s <=? a) && (a <? e)) lo n = e - s.
Proof.
  revert s lo. induction n as [|n IH]; intros s lo Hs He; [cbn; lia|].
  destruct (decide (s = e)) as [->|Hne].
  { rewrite count_none; [lia|]. intros a. destruct (Z.leb_spec e a), (Z.ltb_spec a e); cbn; lia. }
  cbn [count]. destruct (decide (lo = s)) as [->|Hlo].
  - rewrite Z.leb_refl, (proj2 (Z.ltb_lt s e)) by lia.
    rewrite (count_ext _ (fun a => (s + 1 <=? a) && (a <? e))); [rewrite IH by lia; cbn; lia|].
    intros a Ha. f_equal. rewrite (proj2 (Z.leb_le s a)) by lia. symmetry. apply Z.leb_le. lia.
  - rewrite (proj2 (Z.leb_gt s lo)) by lia. rewrite IH by lia. cbn. lia.
Qed.

(** ** Bytes of a range whose page has the property *)

(** The property is the same for all addresses of an area. *)
Definition uniform (P : Page -> bool) : Prop := forall v a b, P (page_at v a) = P (page_at v b).

Definition area_in (P : Page -> bool) (s e : Z) (v : Vma) : Z :=
  if P (page_at v (v_start v)) then Z.max 0 (Z.min (v_end v) e - Z.max (v_start v) s) else 0.

Definition extent_in (P : Page -> bool) (s e : Z) (m : list (Z * Vma)) : Z := sumZ (fun p => area_in P s e p.2) m.

Definition extent (P : Page -> bool) (m : list (Z * Vma)) : Z := extent_in P 0 USER_VA_END m.

(** The address is mapped with the property, inside the range. *)
Definition has (P : Page -> bool) (s e : Z) (m : list (Z * Vma)) (a : Z) : bool :=
  (s <=? a) && (a <? e) && match view m a with Some p => P p | None => false end.

(** The number of addresses the lemmas below count in. *)
Lemma addresses_exact : exists n, Z.of_nat n = USER_VA_END.
Proof. exists (Z.to_nat USER_VA_END). rewrite Z2Nat.id; [done|by unfold USER_VA_END]. Qed.

Lemma addresses : exists n, USER_VA_END <= Z.of_nat n.
Proof. destruct addresses_exact as [n Hn]. exists n. lia. Qed.

Section extent.
Context (P : Page -> bool).
Hypothesis HP : uniform P.

Lemma area_count v s e n :
  vma_ok v -> 0 <= s -> USER_VA_END <= Z.of_nat n ->
  area_in P s e v = count (fun a => (s <=? a) && (a <? e) && (contains v a && P (page_at v a))) 0 n.
Proof.
  intros (? & ? & ? & _) Hs Hn. unfold area_in. destruct (P (page_at v (v_start v))) eqn:Ep.
  - destruct (Z.le_gt_cases (Z.min (v_end v) e) (Z.max (v_start v) s)) as [Hle|Hgt].
    + rewrite count_none; [lia|]. intros a. unfold contains.
      destruct (Z.leb_spec s a), (Z.ltb_spec a e), (Z.leb_spec (v_start v) a), (Z.ltb_spec a (v_end v)); cbn; done || lia.
    + rewrite (count_ext _ (fun a => (Z.max (v_start v) s <=? a) && (a <? Z.min (v_end v) e))).
      * rewrite count_interval by lia. lia.
      * intros a _. rewrite (HP v a (v_start v)), Ep. unfold contains.
        destruct (Z.leb_spec s a), (Z.ltb_spec a e), (Z.leb_spec (v_start v) a), (Z.ltb_spec a (v_end v)),
          (Z.leb_spec (Z.max (v_start v) s) a), (Z.ltb_spec a (Z.min (v_end v) e)); cbn; done || lia.
  - symmetry. apply count_none. intros a. rewrite (HP v a (v_start v)), Ep. by rewrite !andb_false_r.
Qed.

Lemma extent_count m s e n :
  tree_ok m -> 0 <= s -> USER_VA_END <= Z.of_nat n -> extent_in P s e m = count (has P s e m) 0 n.
Proof.
  intros Hm Hs Hn. remember (length m) as l eqn:Hl. revert m Hl Hm.
  induction l as [|l IH]; intros m Hl Hm.
  { destruct m; [|done]. symmetry. apply count_none. intros a. unfold has. cbn. apply andb_false_r. }
  destruct m as [|[k v] m'] eqn:Em; [done|]. rewrite <- Em in *.
  assert (Hg : bt_get k m = Some v) by (apply get_elem; [apply Hm|subst m; left]).
  unfold extent_in. rewrite (sum_remove _ k v) by (try done; apply Hm). cbn [snd]. fold (extent_in P s e (bt_remove k m)).
  rewrite IH; [|pose proof (sum_remove (fun _ => 1) k v m (ok_sorted _ Hm) Hg) as Hlen; rewrite !sumZ_one in Hlen; lia
               |by apply remove_ok].
  rewrite (area_count v s e n) by (try done; by eapply ok_vma).
  rewrite (count_split (has P s e m) (contains v)). f_equal; apply count_ext; intros a _; unfold has.
  - destruct (contains v a) eqn:Ec; [|by rewrite !andb_false_r]. apply contains_iff in Ec.
    rewrite (view_in _ k v a Hm Hg Ec). by rewrite andb_true_r.
  - rewrite (remove_view _ k v a Hm Hg). destruct (contains v a); [by rewrite !andb_false_r|]. by rewrite andb_true_r.
Qed.


Lemma extent_in_view m m' s e :
  tree_ok m -> tree_ok m' -> 0 <= s -> (forall a, s <= a < e -> view m' a = view m a) ->
  extent_in P s e m' = extent_in P s e m.
Proof.
  intros Hm Hm' Hs Hv. destruct addresses as [n Hn]. rewrite !(extent_count _ s e n) by done. apply count_ext. intros a _.
  unfold has. destruct (Z.leb_spec s a), (Z.ltb_spec a e); cbn; [|done..]. by rewrite Hv.
Qed.

(** Only where the property holds matters. *)
Lemma extent_in_pointwise m m' s e :
  tree_ok m -> tree_ok m' -> 0 <= s -> (forall a, from_option P false (view m' a) = from_option P false (view m a)) ->
  extent_in P s e m' = extent_in P s e m.
Proof.
  intros Hm Hm' Hs Hv. destruct addresses as [n Hn]. rewrite !(extent_count _ s e n) by done. apply count_ext. intros a _.
  unfold has. f_equal. apply Hv.
Qed.

(** A change confined to a range changes the whole by what it changes there. *)
Lemma extent_confined m m' s e :
  tree_ok m -> tree_ok m' -> 0 <= s -> e <= USER_VA_END -> (forall a, ~ (s <= a < e) -> view m' a = view m a) ->
  extent P m' - extent_in P s e m' = extent P m - extent_in P s e m.
Proof.
  intros Hm Hm' Hs He Hv. destruct addresses as [n Hn]. unfold extent. rewrite !(extent_count _ _ _ n) by done.
  rewrite !(count_split (has P 0 _ _) (fun a => (s <=? a) && (a <? e)) 0 n).
  assert (Hin : forall x, count (fun a => has P 0 USER_VA_END x a && ((s <=? a) && (a <? e))) 0 n = count (has P s e x) 0 n).
  { intros x. apply count_ext. intros a _. unfold has.
    destruct (Z.leb_spec s a), (Z.ltb_spec a e), (Z.leb_spec 0 a), (Z.ltb_spec a USER_VA_END); cbn;
      try lia; by rewrite ?andb_false_r, ?andb_true_r. }
  rewrite !Hin. assert (Hout : forall x y, x + y - x = y) by lia. rewrite !Hout. apply count_ext. intros a _. unfold has.
  destruct (Z.leb_spec s a), (Z.ltb_spec a e); cbn; rewrite ?andb_false_r; [done|rewrite Hv by lia..]; done.
Qed.

Lemma extent_in_none m s e :
  tree_ok m -> 0 <= s -> (forall a, s <= a < e -> view m a = None) -> extent_in P s e m = 0.
Proof.
  intros Hm Hs Hv. destruct addresses as [n Hn]. rewrite (extent_count _ _ _ n) by done. apply count_none. intros a.
  unfold has. destruct (Z.leb_spec s a), (Z.ltb_spec a e); cbn; [|done..]. by rewrite Hv.
Qed.

Lemma extent_in_area m v :
  tree_ok m -> vma_ok v -> (forall a, contains v a = true -> view m a = Some (page_at v a)) ->
  extent_in P (v_start v) (v_end v) m = if P (page_at v (v_start v)) then len_bytes v else 0.
Proof.
  intros Hm Hv Hvw. pose proof Hv as (? & ? & ? & _). destruct addresses as [n Hn].
  rewrite (extent_count _ _ _ n) by done.
  transitivity (area_in P (v_start v) (v_end v) v).
  - rewrite (area_count _ _ _ n) by done. apply count_ext. intros a _. unfold has, contains.
    destruct ((v_start v <=? a) && (a <? v_end v)) eqn:E; cbn; [|done]. by rewrite Hvw.
  - unfold area_in, len_bytes. destruct (P _); lia.
Qed.

(** The part of an area that a range covers. *)
Lemma piece_bytes v start end_ :
  vma_ok v -> start < end_ -> meets start end_ v -> splits_ok start end_ v ->
  let w := sub v (cut_s v start) (cut_e v end_) in
  (if P (page_at w (v_start w)) then len_bytes w else 0) = area_in P start end_ v.
Proof.
  intros (? & ? & ? & _) Hr [? ?] Hsp w. unfold w, area_in. rewrite sub_page.
  - rewrite (HP v _ (v_start v)). unfold len_bytes, cut_s, cut_e. cbn. destruct (P _); lia.
  - intros Hph. specialize (Hsp Hph). unfold cut_s. lia.
Qed.

(** The parts a removal reports add up to what it removed. *)
Lemma extent_removed start end_ m out :
  tree_ok m -> start < end_ -> no_phys_cut start end_ m -> removed_parts start end_ m out ->
  sumZ (fun w => if P (page_at w (v_start w)) then len_bytes w else 0) out = extent_in P start end_ m.
Proof.
  intros Hm Hr Hph (K & [Hs HK] & Hout).
  set (F k := match bt_get k m with Some v => area_in P start end_ v | None => 0 end).
  transitivity (sumZ F K).
  - assert (Hmt : forall k, k ∈ K -> exists v, bt_get k m = Some v /\ meets start end_ v) by (intros k; apply HK).
    clear Hs HK. induction Hout as [|k w K' out' (v & Hg & ->) _ IH]; [done|]. rewrite !sumZ_cons. f_equal.
    + unfold F. rewrite Hg. destruct (Hmt k ltac:(left)) as (v' & Hg' & Hv'). replace v' with v in * by congruence.
      apply piece_bytes; [by eapply ok_vma|done..|by eapply Hph].
    + apply IH. intros k' Hk'. apply Hmt. by right.
  - transitivity (sumZ F (map fst (List.filter (fun p => (v_start p.2 <? end_) && (start <? v_end p.2)) m))).
    + apply sumZ_perm. symmetry. by apply listing_perm.
    + rewrite sumZ_map. apply sum_filter_zero. intros [k v] Hin. apply get_elem in Hin; [|apply Hm]. cbn. unfold F. split.
      * intros _. by rewrite Hin.
      * intros Hf. unfold area_in. destruct (P _); [|done]. pose proof (ok_vma _ _ _ Hm Hin) as (? & ? & _). to_prop.
        apply andb_false_iff in Hf as [Hf|Hf]; to_prop; lia.
Qed.

End extent.
