(* ===== verification/AddrSpaceInv.v ===== *)
(** * Invariant of an address space

    [space_ok]: the tree is well formed and maps device memory by single pages
    only, the calls
    on mapped objects balance, the byte counters equal the bytes mapped, and
    no reservation count is negative. The lemmas give the effect of the parts
    the operations share: upkeep of the reverse maps and accounting. *)

From stdpp Require Import strings.
From S2P Require Import Prelude BTree Vma VmaTree VmaTreeInv VmaTreeOps VmaTreeSpec VmaTreeRange.
From S2P Require Import VmaTreeEdit Extent Hole Rmap Account AddrSpace.

(** ** Byte counters *)

Inductive Counter := Virtual | Committed | Locked.

Definition counter (c : Counter) (a : VmAccounting) : Z :=
  match c with
  | Virtual => virtual_bytes a
  | Committed => committed_virtual_bytes a
  | Locked => locked_virtual_bytes a
  end.

(** The pages a counter is meant to count. *)
Definition counts (c : Counter) (p : Page) : bool :=
  match c with
  | Virtual => true
  | Committed =>
      match p_content p with
      | Anonymous => true
      | File _ _ | KernelBytes _ _ => negb (flags_contains (p_flags p) Flags.SHARED)
      | _ => false
      end
  | Locked => flags_contains (p_flags p) Flags.LOCKED
  end.

Lemma counts_uniform c : uniform (counts c).
Proof. intros v a b. destruct c; [done| |done]. cbn. by destruct (v_backing v). Qed.

Definition accounted (m : list (Z * Vma)) (acc : VmAccounting) : Prop := forall c, counter c acc = extent (counts c) m.

Lemma extent_bounds P m : uniform P -> tree_ok m -> 0 <= extent P m <= U64_MAX.
Proof.
  intros HP Hm. split.
  - apply sumZ_nonneg. intros p _. unfold area_in. destruct (P _); lia.
  - destruct (addresses_exact) as [n Hn]. unfold extent. rewrite (extent_count P HP m 0 USER_VA_END n) by (done || lia).
    pose proof (count_le (has P 0 USER_VA_END m) 0 n). unfold U64_MAX, USER_VA_END in *. lia.
Qed.

Definition weighs (c : Counter) (v : Vma) : Z := if counts c (page_at v (v_start v)) then len_bytes v else 0.

Lemma counter_add c v acc : 0 <= counter c acc + weighs c v <= U64_MAX -> 0 <= counter c acc <= U64_MAX ->
  counter c (Accounting.add_vma v acc) = counter c acc + weighs c v.
Proof.
  unfold weighs, Accounting.add_vma, Accounting.bytes, Accounting.committed, len_bytes. intros H H0.
  destruct c, (v_backing v) eqn:Eb; cbn in *; rewrite ?Eb in *; cbn in *;
    destruct (flags_contains (v_flags v) Flags.LOCKED), (flags_contains (v_flags v) Flags.SHARED); cbn in *;
    rewrite ?wrap64_small by done; lia.
Qed.

Lemma counter_remove c v acc : 0 <= counter c acc - weighs c v <= U64_MAX -> 0 <= counter c acc <= U64_MAX ->
  counter c (Accounting.remove_vma v acc) = counter c acc - weighs c v.
Proof.
  unfold weighs, Accounting.remove_vma, Accounting.bytes, Accounting.committed, len_bytes. intros H H0.
  destruct c, (v_backing v) eqn:Eb; cbn in *; rewrite ?Eb in *; cbn in *;
    destruct (flags_contains (v_flags v) Flags.LOCKED), (flags_contains (v_flags v) Flags.SHARED); cbn in *;
    rewrite ?wrap64_small by done; lia.
Qed.

(** Removing one by one areas that are all counted. *)
Lemma counter_remove_all c out acc :
  (forall w, w ∈ out -> 0 <= len_bytes w) -> 0 <= counter c acc <= U64_MAX -> sumZ (weighs c) out <= counter c acc ->
  counter c (foldl (fun a v => Accounting.remove_vma v a) acc out) = counter c acc - sumZ (weighs c) out.
Proof.
  revert acc. induction out as [|w out IH]; intros acc Hw Hc Hs; [rewrite sumZ_nil; cbn [foldl]; lia|]. rewrite sumZ_cons in *. cbn [foldl].
  assert (Hnn : forall x, x ∈ w :: out -> 0 <= weighs c x).
  { intros x Hx. unfold weighs. destruct (counts c _); [by apply Hw|done]. }
  pose proof (Hnn w ltac:(left)). pose proof (sumZ_nonneg (weighs c) out ltac:(intros x Hx; apply Hnn; by right)).
  assert (Hr : counter c (Accounting.remove_vma w acc) = counter c acc - weighs c w) by (apply counter_remove; lia).
  rewrite IH, Hr; [lia|intros x Hx; apply Hw; by right|lia|lia].
Qed.

(** ** The invariant *)

(** No mapped page is device memory. *)
Definition no_device (m : list (Z * Vma)) : Prop := forall a p, view m a = Some p -> ~ is_phys (p_content p).

Record space_ok (s : AddressSpace) : Prop := {
  so_tree : tree_ok (t_map (vmas s));
  so_devices : devices_ok (t_map (vmas s));
  so_balanced : balanced (vmas s);
  so_accounted : accounted (t_map (vmas s)) (accounting s);
  so_pending : forall id, 0 <= FileRmap.pending_writable (file_rmaps s id);
}.

Lemma phys_content v a : is_phys (p_content (page_at v a)) <-> is_phys (v_backing v).
Proof. cbn. by destruct (v_backing v). Qed.

Lemma plain_cut m s e :
  tree_ok m -> s < e -> (forall a p, s <= a < e -> view m a = Some p -> ~ is_phys (p_content p)) -> no_phys_cut s e m.
Proof.
  intros Hm Hr Hn k v Hg [? ?] Hph. exfalso. pose proof (ok_vma _ _ _ Hm Hg) as (? & ? & _).
  apply (Hn (Z.max s (v_start v)) (page_at v (Z.max s (v_start v)))); [lia|eapply view_in; [done..|lia]|by apply phys_content].
Qed.

Lemma no_device_cut m s e : tree_ok m -> no_device m -> no_phys_cut s e m.
Proof.
  intros Hm Hn k v Hg _ Hph. exfalso. pose proof (ok_vma _ _ _ Hm Hg) as (? & ? & _).
  apply (Hn (v_start v) (page_at v (v_start v))); [eapply view_in; [done..|lia]|by apply phys_content].
Qed.

(** A range that may cut areas: no device memory is mapped, or the range is
    one of whole pages. *)
Definition pagewise (s : AddressSpace) (lo hi : Z) : Prop :=
  no_device (t_map (vmas s)) \/ (PAGE_SIZE_BYTES | lo) /\ (PAGE_SIZE_BYTES | hi).

Lemma aligned_le a b : (PAGE_SIZE_BYTES | a) -> (PAGE_SIZE_BYTES | b) -> a < b + PAGE_SIZE_BYTES -> a <= b.
Proof. intros [x ->] [y ->]. unfold PAGE_SIZE_BYTES. lia. Qed.

Lemma pagewise_cut s lo hi : space_ok s -> pagewise s lo hi -> no_phys_cut lo hi (t_map (vmas s)).
Proof.
  intros Hs [Hn|[Hlo Hhi]]; [by apply no_device_cut; [apply Hs|]|]. intros k v Hg [? ?] Hph.
  destruct (so_devices _ Hs k v Hg Hph) as [Hal Hend]. rewrite Hend in *. split.
  - by apply aligned_le; [..|lia].
  - apply aligned_le; [by apply Z.divide_add_r; [|apply Z.divide_refl]|done|lia].
Qed.

(** [s'] has the areas, counters and settings of [s]; only reverse-map edges
    may differ. *)
Record relinked (s s' : AddressSpace) : Prop := {
  rl_vmas : vmas s' = vmas s;
  rl_accounting : accounting s' = accounting s;
  rl_self : self_weak s' = self_weak s;
  rl_base : mmap_base s' = mmap_base s;
  rl_topdown : mmap_topdown s' = mmap_topdown s;
  rl_future : mlock_future s' = mlock_future s;
  rl_onfault : mlock_onfault s' = mlock_onfault s;
  rl_mdwe : mdwe s' = mdwe s;
  rl_has : has_uffd s' = has_uffd s;
  rl_calls : uffd_calls s' = uffd_calls s;
  rl_pending : forall id, FileRmap.pending_writable (file_rmaps s' id) = FileRmap.pending_writable (file_rmaps s id);
  rl_denied : forall id, FileRmap.writable_denied (file_rmaps s' id) = FileRmap.writable_denied (file_rmaps s id);
}.

(** As [relinked], with the reservation counts free as well. *)
Record kept (s s' : AddressSpace) : Prop := {
  kp_vmas : vmas s' = vmas s;
  kp_accounting : accounting s' = accounting s;
  kp_self : self_weak s' = self_weak s;
  kp_base : mmap_base s' = mmap_base s;
  kp_topdown : mmap_topdown s' = mmap_topdown s;
  kp_future : mlock_future s' = mlock_future s;
  kp_onfault : mlock_onfault s' = mlock_onfault s;
  kp_mdwe : mdwe s' = mdwe s;
  kp_has : has_uffd s' = has_uffd s;
  kp_calls : uffd_calls s' = uffd_calls s;
  kp_denied : forall id, FileRmap.writable_denied (file_rmaps s' id) = FileRmap.writable_denied (file_rmaps s id);
}.

(** The settings alone. *)
Record settings (s s' : AddressSpace) : Prop := {
  st_self : self_weak s' = self_weak s;
  st_base : mmap_base s' = mmap_base s;
  st_topdown : mmap_topdown s' = mmap_topdown s;
  st_future : mlock_future s' = mlock_future s;
  st_onfault : mlock_onfault s' = mlock_onfault s;
  st_mdwe : mdwe s' = mdwe s;
  st_has : has_uffd s' = has_uffd s;
  st_calls : uffd_calls s' = uffd_calls s;
  st_pending : forall id, FileRmap.pending_writable (file_rmaps s' id) = FileRmap.pending_writable (file_rmaps s id);
  st_denied : forall id, FileRmap.writable_denied (file_rmaps s' id) = FileRmap.writable_denied (file_rmaps s id);
}.

Lemma relinked_refl s : relinked s s.
Proof. by constructor. Qed.

Lemma relinked_trans s1 s2 s3 : relinked s1 s2 -> relinked s2 s3 -> relinked s1 s3.
Proof. intros [] []. constructor; congruence. Qed.

Lemma settings_refl s : settings s s.
Proof. by constructor. Qed.

Lemma settings_trans s1 s2 s3 : settings s1 s2 -> settings s2 s3 -> settings s1 s3.
Proof. intros [] []. constructor; congruence. Qed.

Lemma relinked_settings s s' : relinked s s' -> settings s s'.
Proof. intros []. by constructor. Qed.

#[export] Hint Resolve relinked_refl relinked_trans settings_refl settings_trans relinked_settings : oxide.

Lemma relinked_ok s s' : relinked s s' -> space_ok s -> space_ok s'.
Proof.
  intros Hr Hs. constructor; try rewrite (rl_vmas _ _ Hr); try rewrite (rl_accounting _ _ Hr); try apply Hs.
  intros id. rewrite (rl_pending _ _ Hr). apply Hs.
Qed.

Lemma relinked_kept s s' : relinked s s' -> kept s s'.
Proof. intros []. by constructor. Qed.

#[export] Hint Resolve relinked_kept : oxide.

Lemma kept_ok s s' :
  kept s s' -> space_ok s -> (forall id, 0 <= FileRmap.pending_writable (file_rmaps s' id)) -> space_ok s'.
Proof.
  intros Hk Hs Hp. constructor; try rewrite (kp_vmas _ _ Hk); try rewrite (kp_accounting _ _ Hk); done || apply Hs.
Qed.

(** ** Upkeep of the reverse maps *)

Lemma fupd_pending s id f :
  (forall x, FileRmap.pending_writable (f x) = FileRmap.pending_writable x) ->
  forall k, FileRmap.pending_writable (fupd (file_rmaps s) id (f (file_rmaps s id)) k)
            = FileRmap.pending_writable (file_rmaps s k).
Proof. intros Hf k. unfold fupd. destruct (Z.eqb_spec k id) as [->|]; [apply Hf|done]. Qed.

Lemma fupd_denied s id f :
  (forall x, FileRmap.writable_denied (f x) = FileRmap.writable_denied x) ->
  forall k, FileRmap.writable_denied (fupd (file_rmaps s) id (f (file_rmaps s id)) k)
            = FileRmap.writable_denied (file_rmaps s k).
Proof. intros Hf k. unfold fupd. destruct (Z.eqb_spec k id) as [->|]; [apply Hf|done]. Qed.

Lemma wp_on_chain id f s0 s : relinked s0 s -> wp (on_chain id f) (fun _ => relinked s0) s.
Proof. intros H. apply wp_modify. eapply relinked_trans; [done|]. by constructor. Qed.

Lemma wp_on_rmap id f s0 s :
  (forall x, FileRmap.pending_writable (f x) = FileRmap.pending_writable x) ->
  (forall x, FileRmap.writable_denied (f x) = FileRmap.writable_denied x) ->
  relinked s0 s -> wp (on_rmap id f) (fun _ => relinked s0) s.
Proof.
  intros Hf Hd H. apply wp_modify. eapply relinked_trans; [done|]. constructor; try done; cbn; [by apply fupd_pending|by apply fupd_denied].
Qed.

Lemma wp_attach_area s v a b s0 s1 : relinked s0 s1 -> wp (Space.attach_area s v a b) (fun _ => relinked s0) s1.
Proof.
  intros H. unfold Space.attach_area. apply wp_bind.
  apply wp_mono with (P := fun _ => relinked s0).
  - destruct (v_anon_vma v); [by apply wp_on_chain|by apply wp_ret].
  - intros [] s2 H2. destruct (v_file_rmap v); [|by apply wp_ret]. destruct (v_backing v); try by apply wp_ret.
    by apply wp_on_rmap.
Qed.

Lemma wp_detach_anon s v s0 s1 : relinked s0 s1 -> wp (Space.detach_anon s v) (fun _ => relinked s0) s1.
Proof. intros H. unfold Space.detach_anon. destruct (v_anon_vma v); [by apply wp_on_chain|by apply wp_ret]. Qed.

Lemma wp_detach_file s v s0 s1 : relinked s0 s1 -> wp (Space.detach_file s v) (fun _ => relinked s0) s1.
Proof.
  intros H. unfold Space.detach_file. destruct (v_file_rmap v); [|by apply wp_ret].
  destruct (v_backing v); try by apply wp_ret. by apply wp_on_rmap.
Qed.

Lemma wp_relink_each {A} (body : A -> M AddressSpace unit) l s0 s :
  (forall x s1, relinked s0 s1 -> wp (body x) (fun _ => relinked s0) s1) ->
  relinked s0 s -> wp (for_each l body) (fun _ => relinked s0) s.
Proof. intros Hb H. apply (wp_for_each body (fun _ => relinked s0)); [done|]. intros x l' s1. apply Hb. Qed.

(** The change runs on the same areas, between two rounds of edge upkeep. *)
Lemma rmap_resplit_spec {A} a b (op : M AddressSpace (KResult A)) (Q : KResult A -> AddressSpace -> Prop) s :
  (forall s1, relinked s s1 -> wp op (fun r s2 => forall s3, relinked s2 s3 -> Q r s3) s1) ->
  wp (Space.rmap_resplit a b op) Q s.
Proof.
  intros Hop. unfold Space.rmap_resplit. do 2 wp_step.
  destruct (Space.super_range a b (Space.areas s)) as [lo hi]. destruct (hi <? lo).
  - eapply wp_mono; [by apply Hop, relinked_refl|]. intros r s2 H. apply H, relinked_refl.
  - apply wp_bind. eapply wp_mono; [apply (wp_relink_each _ _ s); [|apply relinked_refl]; intros; by apply wp_detach_anon|].
    intros [] s1 H1. apply wp_bind.
    eapply wp_mono; [apply (wp_relink_each _ _ s); [|done]; intros; by apply wp_detach_file|].
    intros [] s2 H2. unfold run_try. apply wp_bind. eapply wp_mono; [by apply Hop|]. intros [x|e] s3 H3; cbn.
    + do 2 wp_step. apply wp_bind.
      eapply wp_mono; [apply (wp_relink_each _ _ s3); [|apply relinked_refl]; intros; by apply wp_attach_area|].
      intros [] s4 H4. apply wp_ret. by apply H3.
    + apply wp_ret. apply H3, relinked_refl.
Qed.

(** ** Changes of the tree and of the accounting *)

Lemma wp_on_tree {A} (m : M VmaTree A) (Q : A -> AddressSpace -> Prop) s :
  wp m (fun a t => Q a (set_vmas t s)) (vmas s) -> wp (on_tree m) Q s.
Proof. apply wp_zoom. Qed.

Lemma wp_remove_all out (Q : unit -> AddressSpace -> Prop) s :
  Q tt (set_accounting (foldl (fun a v => Accounting.remove_vma v a) (accounting s) out) s) ->
  wp (Space.remove_all out) Q s.
Proof.
  revert s. unfold Space.remove_all. induction out as [|v out IH]; intros s H; [by destruct s|].
  cbn [for_each]. apply wp_bind, wp_modify, IH. exact H.
Qed.

(** ** Reservations *)

(** The body runs with the count of [rmap] raised, and finds it lowered back. *)
Lemma with_reservation_spec {A} rmap (m : M AddressSpace (Space.MmapError + A)) Q s :
  space_ok s ->
  (forall s1, kept s s1 -> space_ok s1 -> (forall id, rmap = Some id -> FileRmap.writable_denied (file_rmaps s id) = false) ->
     wp m (fun r s2 => settings s1 s2 /\ forall s3, kept s2 s3 ->
       (forall id, FileRmap.pending_writable (file_rmaps s3 id) = FileRmap.pending_writable (file_rmaps s id)) ->
       Q r s3) s1) ->
  (forall id e, rmap = Some id -> FileRmap.reserve_writable (file_rmaps s id) = Err e -> Q (inl (Space.Vmm e)) s) ->
  wp (Space.with_reservation rmap m) Q s.
Proof.
  intros Hs Hm Hq. unfold Space.with_reservation. destruct rmap as [id|].
  - do 2 wp_step. destruct (FileRmap.reserve_writable _) as [st|e] eqn:Er; [|by apply wp_ret, (Hq id)].
    assert (Hst : FileRmap.pending_writable st = FileRmap.pending_writable (file_rmaps s id) + 1 /\
      FileRmap.writable_denied st = FileRmap.writable_denied (file_rmaps s id) /\
      FileRmap.writable_denied (file_rmaps s id) = false).
    { unfold FileRmap.reserve_writable, checked_add in Er. destruct (FileRmap.writable_denied _) eqn:Ed; [done|].
      destruct (_ <=? _); [|done]. by injection Er as <-. }
    destruct Hst as (Hst & Hde & Hdf).
    assert (Hkept : forall s, FileRmap.writable_denied (file_rmaps s id) = FileRmap.writable_denied st ->
      kept s (set_file_rmaps (fupd (file_rmaps s) id st) s)).
    { intros s0 H0. constructor; try done. intros k. cbn. unfold fupd. by destruct (Z.eqb_spec k id) as [->|]. }
    pose proof (so_pending _ Hs id). apply wp_bind, wp_modify. match goal with |- wp _ _ ?x => set (s1 := x) end.
    apply wp_bind. eapply wp_mono; [apply (Hm s1)|].
    + by apply Hkept.
    + eapply kept_ok; [|done|]; [by apply Hkept|]. intros k. cbn. unfold fupd. destruct (k =? id); [lia|apply Hs].
    + by intros id' [= <-].
    + intros r s2 [Hset HQ]. assert (Hp : FileRmap.pending_writable (file_rmaps s2 id) = FileRmap.pending_writable st).
      { rewrite (st_pending _ _ Hset). cbn. unfold fupd. by rewrite Z.eqb_refl. }
      apply wp_bind, wp_zoom. unfold FileRmap.drop_reservation. do 4 wp_step.
      { apply negb_true_iff, Z.eqb_neq. lia. }
      do 2 wp_step; [lia|]. apply wp_modify, wp_ret, HQ.
      { constructor; try done. intros k. cbn. unfold fupd. by destruct (Z.eqb_spec k id) as [->|]. } intros k. cbn. unfold fupd.
      destruct (Z.eqb_spec k id) as [->|Hne]; [cbn; lia|]. rewrite (st_pending _ _ Hset). cbn. unfold fupd.
      by rewrite (proj2 (Z.eqb_neq _ _)).
  - eapply wp_mono; [apply (Hm s); [by constructor|done..]|]. intros r s2 [Hset HQ]. apply HQ; [by constructor|apply Hset].
Qed.
