(* ===== verification/AddrSpaceSpec.v ===== *)
(** * What mapping and unmapping do

    [munmap] and [mmap] by their effect on the view, with the invariant of
    the address space kept and every error leaving the areas as they were. *)

From stdpp Require Import strings.
From S2P Require Import Prelude BTree Vma VmaTree VmaTreeInv VmaTreeOps VmaTreeSpec VmaTreeRange.
From S2P Require Import VmaTreeEdit Extent Hole Rmap Account AddrSpace AddrSpaceInv.

(** The areas of an address space, by address. *)
Definition vw (s : AddressSpace) : Z -> option Page := view (t_map (vmas s)).

(** From [s] to [s'] the view becomes [f]; the invariant holds after, the
    settings and the balance of calls are those of before. *)
Definition changed (f : Z -> option Page) (s s' : AddressSpace) : Prop :=
  space_ok s' /\ settings s s' /\ steady (vmas s) (vmas s') /\ forall a, vw s' a = f a.

Lemma changed_relinked f s s1 s2 s3 : relinked s s1 -> changed f s1 s2 -> relinked s2 s3 -> changed f s s3.
Proof.
  intros H1 (Hok & Hset & Hst & Hv) H3. split_and!.
  - by eapply relinked_ok.
  - eauto with oxide.
  - by rewrite (rl_vmas _ _ H3), <- (rl_vmas _ _ H1).
  - intros a. unfold vw. rewrite (rl_vmas _ _ H3). apply Hv.
Qed.

Lemma changed_trans f g s1 s2 s3 : changed f s1 s2 -> changed g s2 s3 -> changed g s1 s3.
Proof.
  intros (_ & Hset & Hst & _) (Hok & Hset' & Hst' & Hv). split_and!; [done|eauto with oxide|by eapply steady_trans|done].
Qed.

Lemma changed_ext f g s s' : (forall a, f a = g a) -> changed f s s' -> changed g s s'.
Proof. intros H (? & ? & ? & Hv). split_and!; [done..|]. intros a. by rewrite Hv. Qed.

Lemma changed_refl s : space_ok s -> changed (vw s) s s.
Proof. intros. split_and!; [done|apply settings_refl|apply steady_refl|done]. Qed.

Lemma view_clear m s e : tree_ok m -> s < e -> (forall a, s <= a < e -> view m a = None) -> clear m s e.
Proof.
  intros Hm Hr Hv k v Hg. pose proof (ok_vma _ _ _ Hm Hg) as (? & ? & _).
  destruct (decide (v_end v <= s \/ e <= v_start v)) as [|Hn]; [done|exfalso].
  pose proof (Hv (Z.max s (v_start v)) ltac:(lia)) as Hnone. rewrite (view_in _ k v _ Hm Hg) in Hnone by lia. done.
Qed.

(** ** Unmapping *)

Definition nothing (_ : Page) : option Page := None.

Lemma emptied_space start end_ out t' s :
  space_ok s -> 0 <= start -> start < end_ <= USER_VA_END -> no_phys_cut start end_ (t_map (vmas s)) ->
  emptied start end_ (vmas s) t' -> removed_parts start end_ (t_map (vmas s)) out ->
  changed (over nothing start end_ (vw s)) s
    (set_accounting (foldl (fun a v => Accounting.remove_vma v a) (accounting s) out) (set_vmas t' s)).
Proof.
  intros Hs H0 Hr Hph (Hm' & [Hst Hd] & Hv') Hout. pose proof (so_tree _ Hs) as Hm.
  split_and!; [|by constructor|done|done]. constructor; cbn; [done| | | |apply Hs].
  - apply Hd, Hs.
  - eapply steady_balanced; [done|apply Hs].
  - intros c. pose proof (counts_uniform c) as Hu.
    pose proof (extent_removed _ Hu start end_ _ _ Hm ltac:(lia) Hph Hout) as Hsum. fold (weighs c) in Hsum.
    assert (Hout' : forall a, ~ (start <= a < end_) -> view (t_map t') a = view (t_map (vmas s)) a).
    { intros a Ha. rewrite Hv'. unfold over. destruct (Z.leb_spec start a), (Z.ltb_spec a end_); cbn; done || lia. }
    pose proof (extent_confined _ Hu _ _ start end_ Hm Hm' H0 ltac:(lia) Hout') as Hc.
    rewrite (extent_in_none _ Hu _ start end_ Hm' H0) in Hc.
    2: { intros a Ha. rewrite Hv'. unfold over. rewrite (proj2 (Z.leb_le _ _)), (proj2 (Z.ltb_lt _ _)) by lia.
         cbn. by destruct (view _ a). }
    pose proof (extent_bounds _ _ Hu Hm). pose proof (extent_bounds _ _ Hu Hm').
    rewrite counter_remove_all; rewrite ?(so_accounted _ Hs c), ?Hsum; try lia.
    intros w Hw. pose proof (removed_parts_ok start end_ _ _ _ Hm ltac:(lia) Hout Hw) as (? & ? & _). unfold len_bytes. lia.
Qed.

Lemma past_end_key end_ : USER_VA_END < end_ -> Tree.raw_end_key end_ = None.
Proof.
  intros. unfold Tree.raw_end_key, uva_new. rewrite (proj2 (Z.ltb_ge _ _)), (proj2 (Z.eqb_neq _ _)) by lia. done.
Qed.

(** The sealed pages of a range, by the view. *)
Definition seals (s : AddressSpace) (start end_ : Z) : Prop :=
  exists a p, start <= a < end_ /\ vw s a = Some p /\ sealed p = true.

Lemma any_sealed_seals s start end_ :
  space_ok s -> start < end_ <= USER_VA_END -> Tree.any_sealed_raw_end (vmas s) start end_ = true -> seals s start end_.
Proof.
  intros Hs Hr. unfold Tree.any_sealed_raw_end. destruct (Tree.raw_end_key end_) as [key|] eqn:Ek; [|done]. intros H.
  apply (exists_meets (fun v => flags_contains (v_flags v) Flags.SEALED) start end_ key) in H; [|apply Hs|done].
  destruct H as (k & v & Hg & [? ?] & Hf). pose proof (ok_vma _ _ _ (so_tree _ Hs) Hg) as (? & ? & _).
  exists (Z.max start (v_start v)), (page_at v (Z.max start (v_start v))).
  split_and!; [lia..|eapply view_in; [apply Hs|done|lia]|done].
Qed.

Lemma clear_unsealed s start end_ : space_ok s -> clear (t_map (vmas s)) start end_ -> ~ seals s start end_.
Proof. intros Hs Hc (a & p & Ha & Hv & _). unfold vw in Hv. by rewrite (clear_view _ start end_ a (so_tree _ Hs) Hc Ha) in Hv. Qed.

(** The range cuts an area whose object refuses to be split. *)
Definition refused (env : Env) (s : AddressSpace) (start end_ : Z) : Prop :=
  Tree.refuses_split_raw_end (may_split env) (vmas s) start end_ = true.

Lemma munmap_locked_spec env addr end_ s :
  space_ok s -> 0 <= addr < USER_VA_END -> addr < end_ -> no_phys_cut addr end_ (t_map (vmas s)) ->
  wp (Space.munmap_locked env addr end_) (fun r s' =>
    match r with
    | Ok _ =>
        if end_ <=? USER_VA_END
        then ~ seals s addr end_ /\ ~ refused env s addr end_ /\ changed (over nothing addr end_ (vw s)) s s'
        else relinked s s'
    | Err e => s' = s /\ end_ <= USER_VA_END /\ (e = Perm /\ seals s addr end_ \/ e = Inval /\ refused env s addr end_)
    end) s.
Proof.
  intros Hs Ha He Hph. unfold Space.munmap_locked. do 2 wp_step. bool_case (end_ <=? USER_VA_END).
  - destruct (Tree.any_sealed_raw_end _ _ _) eqn:Es.
    { apply wp_ret. split_and!; [done..|]. left. split; [done|]. by apply any_sealed_seals. }
    destruct (Tree.refuses_split_raw_end _ _ _ _) eqn:Er; [apply wp_ret; by auto|].
    assert (Hns : ~ seals s addr end_).
    { intros (a & p & Hr & Hv & Hse).
      pose proof (proj1 (any_sealed_spec (vmas s) addr end_ (so_tree _ Hs) ltac:(lia)) Es a p Hr Hv). congruence. }
    unfold run_try. apply wp_bind, rmap_resplit_spec. intros s1 H1. pose proof (relinked_ok _ _ H1 Hs) as Hs1.
    rewrite <- (rl_vmas _ _ H1) in Hph.
    apply wp_bind, (wp_expect _ _ addr); [apply uva_new_lt; lia|]. apply wp_bind, wp_on_tree.
    eapply wp_mono; [apply remove_range_spec; [apply Hs1|done|done]|].
    intros out t' [Hem Hout]. apply wp_ret. intros s3 H3. cbn. apply wp_bind, wp_remove_all, wp_ret.
    split_and!; [done|by unfold refused; rewrite Er|].
    pose proof (emptied_space addr end_ out t' s1 Hs1 ltac:(lia) ltac:(lia) Hph Hem Hout) as Hch.
    unfold vw at 1 in Hch. rewrite (rl_vmas _ _ H1) in Hch. eapply (changed_relinked _ _ _ _ _ H1 Hch).
    destruct H3. by constructor; cbn in *; try congruence.
  - unfold Tree.any_sealed_raw_end, Tree.refuses_split_raw_end. rewrite past_end_key by lia.
    unfold run_try. apply wp_bind, rmap_resplit_spec. intros s1 H1.
    apply wp_bind, (wp_expect _ _ addr); [apply uva_new_lt; lia|]. apply wp_bind, wp_on_tree.
    unfold Tree.remove_range_raw_end. rewrite (proj2 (Z.leb_gt _ _)), past_end_key by lia. apply wp_ret, wp_ret.
    intros s3 H3. cbn [try_]. apply wp_bind, wp_remove_all, wp_ret. cbn [foldl].
    eapply relinked_trans; [exact H1|]. destruct H3. by constructor.
Qed.

(** ** Mapping *)

(** The page [d] bytes into a new mapping. *)
Definition new_page (prot may_prot flags : Z) (backing : VmaBacking) (d : Z) : Page :=
  {| p_prot := prot; p_may_prot := may_prot; p_pkey := 0; p_flags := flags_difference flags Flags.UFFD_MASK;
     p_anon_name := None; p_uffd := None; p_mempolicy := None; p_content := content_at backing d |}.

(** [f] with a new mapping over [[start, end)]. *)
Definition mapped_over (start end_ prot may_prot flags : Z) (backing : VmaBacking) (f : Z -> option Page) (a : Z)
    : option Page :=
  if (start <=? a) && (a <? end_) then Some (new_page prot may_prot flags backing (a - start)) else f a.

(** Dropping flags outside [b] does not change whether [b] is there. *)
Lemma contains_difference f u b : Z.land b u = 0 -> flags_contains (flags_difference f u) b = flags_contains f b.
Proof.
  intros Hd. unfold flags_contains, flags_difference. f_equal. apply Z.bits_inj'. intros n Hn.
  assert (Hb : Z.testbit (Z.land b u) n = false) by (by rewrite Hd, Z.bits_0).
  rewrite !Z.land_spec, Z.ldiff_spec in *. by destruct (Z.testbit f n), (Z.testbit u n), (Z.testbit b n).
Qed.

Lemma contains_union f u b : Z.land b u = 0 -> flags_contains (flags_union f u) b = flags_contains f b.
Proof.
  intros Hd. unfold flags_contains, flags_union. f_equal. apply Z.bits_inj'. intros n Hn.
  assert (Hb : Z.testbit (Z.land b u) n = false) by (by rewrite Hd, Z.bits_0).
  rewrite !Z.land_spec, Z.lor_spec in *. by destruct (Z.testbit f n), (Z.testbit u n), (Z.testbit b n).
Qed.

Lemma weighs_clone c v : weighs c (clone v) = weighs c v.
Proof.
  unfold weighs. assert (counts c (page_at (clone v) (v_start (clone v))) = counts c (page_at v (v_start v))) as ->; [|done].
  destruct c; [done| |]; cbn; [destruct (v_backing v); cbn; try done; f_equal|]; by apply contains_difference.
Qed.

(** Device memory is mapped by the page. *)
Definition page_device (start end_ : Z) (backing : VmaBacking) : Prop :=
  is_phys backing -> (PAGE_SIZE_BYTES | start) /\ end_ = start + PAGE_SIZE_BYTES.

Lemma inserted_space v v' t' s :
  space_ok s -> vma_ok v -> clear (t_map (vmas s)) (v_start v) (v_end v) ->
  (forall c, weighs c v' = weighs c v) ->
  tree_ok (t_map t') -> steady (vmas s) t' -> devices_ok (t_map t') ->
  (forall a, view (t_map t') a = if contains v a then Some (page_at v a) else vw s a) ->
  changed (fun a => if contains v a then Some (page_at v a) else vw s a) s
    (set_accounting (Accounting.add_vma v' (accounting s)) (set_vmas t' s)).
Proof.
  intros Hs Hv Hc Hw Hm' Hst Hd Hv'. pose proof (so_tree _ Hs) as Hm. pose proof Hv as (? & ? & ? & _).
  split_and!; [|by constructor|done|done]. constructor; cbn; [done|done| | |apply Hs].
  - eapply steady_balanced; [done|apply Hs].
  - intros c. pose proof (counts_uniform c) as Hu.
    assert (Hout : forall a, ~ (v_start v <= a < v_end v) -> view (t_map t') a = view (t_map (vmas s)) a).
    { intros a Ha. rewrite Hv'. apply contains_false in Ha. by rewrite Ha. }
    pose proof (extent_confined _ Hu _ _ (v_start v) (v_end v) Hm Hm' ltac:(done) ltac:(lia) Hout) as He.
    rewrite (extent_in_none _ Hu (t_map (vmas s))) in He by (try done; intros a; by apply clear_view).
    rewrite (extent_in_area _ Hu (t_map t') v) in He.
    2,3: done.
    2: { intros a Ha. by rewrite Hv', Ha. }
    fold (weighs c v) in He. pose proof (extent_bounds _ _ Hu Hm). pose proof (extent_bounds _ _ Hu Hm').
    rewrite counter_add; rewrite ?(so_accounted _ Hs c), ?Hw; lia.
Qed.

Lemma insert_mapping_spec env start end_ prot may_prot flags backing s :
  space_ok s -> 0 <= start -> start < end_ < USER_VA_END -> backing_fits backing (end_ - start) -> page_device start end_ backing ->
  clear (t_map (vmas s)) start end_ ->
  wp (Space.insert_mapping env start end_ prot may_prot flags backing) (fun r s' =>
    r = inr start /\ changed (mapped_over start end_ prot may_prot flags backing (vw s)) s s') s.
Proof.
  intros Hs H0 Hr Hf Hnp Hc. unfold Space.insert_mapping. do 3 wp_step. apply wp_modify. cbn zeta.
  set (added := Space.new_with_may _ _ _ _ _ _ _ _). set (s1 := set_anon_next_id _ _).
  assert (Hv : vma_ok (clone added)) by (unfold vma_ok, len_bytes; cbn; unfold len_bytes; cbn; split_and!; try lia; done).
  apply wp_bind, wp_on_tree. change (vmas s1) with (vmas s).
  eapply wp_mono; [apply insert_spec; [apply Hs|done]|]. intros [[]|e] t'.
  2: { intros (_ & _ & [Hbad|Hbad]); [cbn in Hbad; lia|done]. }
  intros (_ & _ & Hm' & Hst & Hd & Hv'). apply wp_bind, wp_modify. do 2 wp_step. apply wp_bind.
  match goal with |- wp _ _ ?x => set (s2 := x) end.
  assert (Hch : changed (mapped_over start end_ prot may_prot flags backing (vw s)) s1 s2).
  { apply (inserted_space (clone added) added t' s1); try done; [by destruct Hs|intros c; symmetry; apply weighs_clone|]. apply Hd; [exact Hnp|apply Hs]. }
  apply wp_mono with (P := fun _ => relinked s2).
  - destruct (Tree.find_containing _ _); [by apply wp_attach_area, relinked_refl|by apply wp_ret, relinked_refl].
  - intros [] s3 H3. apply wp_ret. split; [done|]. by apply (changed_relinked _ s s1 s2 s3).
Qed.

Lemma mmap_commit_spec env start end_ replace_end prot may_prot flags backing s :
  space_ok s -> 0 <= start -> start < end_ < USER_VA_END -> backing_fits backing (end_ - start) -> page_device start end_ backing ->
  match replace_end with Some e => e = end_ /\ no_phys_cut start end_ (t_map (vmas s)) | None => clear (t_map (vmas s)) start end_ end ->
  wp (Space.mmap_commit env start end_ replace_end prot may_prot flags backing) (fun r s' =>
    match r with
    | inr a =>
        a = start /\ (replace_end <> None -> ~ seals s start end_ /\ ~ refused env s start end_) /\
        changed (mapped_over start end_ prot may_prot flags backing (vw s)) s s'
    | inl e =>
        s' = s /\ replace_end <> None /\
        (e = Space.Vmm Perm /\ seals s start end_ \/ e = Space.Vmm Inval /\ refused env s start end_)
    end) s.
Proof.
  intros Hs H0 Hr Hf Hnp Hrep. unfold Space.mmap_commit. destruct replace_end as [e|].
  - destruct Hrep as [-> Hph]. do 2 wp_step. destruct (Tree.any_sealed _ _ _) eqn:Es.
    { apply wp_ret. split_and!; [done..|]. left. split; [done|]. apply any_sealed_seals; [done|lia|exact Es]. }
    destruct (Tree.refuses_split _ _ _ _) eqn:Er; [apply wp_ret; by auto|].
    assert (Hns : ~ seals s start end_).
    { intros (a & p & Ha & Hv & Hse).
      pose proof (proj1 (any_sealed_spec (vmas s) start end_ (so_tree _ Hs) ltac:(lia)) Es a p Ha Hv). congruence. }
    apply wp_bind, wp_on_tree. unfold Tree.remove_range.
    eapply wp_mono; [apply remove_range_spec; [apply Hs|lia|done]|]. intros out t' [Hem Hout].
    apply wp_bind, wp_remove_all. match goal with |- wp _ _ ?x => set (s1 := x) end.
    assert (Hch : changed (over nothing start end_ (vw s)) s s1) by exact (emptied_space start end_ out t' s Hs H0 ltac:(lia) Hph Hem Hout).
    pose proof Hch as (Hs1 & Hset & Hst & Hv1).
    eapply wp_mono; [apply insert_mapping_spec; try done|].
    + apply view_clear; [apply Hs1|lia|]. intros a Ha. fold (vw s1 a). rewrite Hv1. unfold over.
      rewrite (proj2 (Z.leb_le _ _)), (proj2 (Z.ltb_lt _ _)) by lia. cbn. by destruct (vw s a).
    + intros r s' [-> (Hs' & Hset' & Hst' & Hv')]. split; [done|]. split; [|split_and!; [done| | |]].
      * intros _. split; [done|]. unfold refused. unfold Tree.refuses_split in Er. by rewrite Er.
      * by eapply settings_trans.
      * by eapply steady_trans.
      * intros a. rewrite Hv'. unfold mapped_over. destruct (_ && _) eqn:Ea; [done|]. rewrite Hv1. unfold over. by rewrite Ea.
  - eapply wp_mono; [by apply insert_mapping_spec|]. intros r s' [-> Hch]. done.
Qed.
