(* ===== verification/AddrSpaceMmap.v ===== *)
(** * Placement of new mappings

    Where [mmap] puts a mapping: exactly at a fixed address, at the hint when
    it can be used, and otherwise at the best address of the arena; and what
    it answers when it refuses. *)

From stdpp Require Import strings.
From S2P Require Import Prelude BTree Vma VmaTree VmaTreeInv VmaTreeOps VmaTreeSpec VmaTreeRange.
From S2P Require Import VmaTreeEdit Extent Hole Rmap Account AddrSpace AddrSpaceInv AddrSpaceSpec.

(** The arena anchor, with 0 for "not yet set". *)
Definition arena_top (s : AddressSpace) : Z := if mmap_base s =? 0 then Hole.MMAP_TOP else mmap_base s.

Definition layout_ok (s : AddressSpace) : Prop :=
  if mmap_topdown s then Hole.MIN_USER_VA <= arena_top s <= USER_VA_END else 0 <= mmap_base s < USER_VA_END.

(** The answer of the search in the direction of the layout: the highest
    (lowest) address that fits, or none fits. *)
Definition best (s : AddressSpace) (len : Z) (j : nat) (o : option Z) : Prop :=
  if mmap_topdown s then highest (t_map (vmas s)) len (arena_top s) j o
  else lowest (t_map (vmas s)) len (Z.max (mmap_base s) Hole.MIN_USER_VA) j o.

(** The address can hold the mapping as asked. *)
Definition usable (s : AddressSpace) (len : Z) (j : nat) (h : Z) : Prop :=
  (PAGE_SIZE_BYTES | h) /\ (pow2 j | h) /\ h + len < USER_VA_END /\ clear (t_map (vmas s)) h (h + len).

Definition hint_of (p : Space.MmapPlacement) : option Z :=
  match p with
  | Space.Advisory h | Space.AdvisoryAligned h _ => h
  | Space.Fixed h | Space.FixedNoReplace h => Some h
  end.

Definition placed (s : AddressSpace) (p : Space.MmapPlacement) (len : Z) (j : nat) (start : Z) : Prop :=
  match p with
  | Space.Fixed h => start = h /\ (PAGE_SIZE_BYTES | h) /\ (pow2 j | h)
  | Space.FixedNoReplace h => start = h /\ usable s len j h
  | Space.Advisory hint | Space.AdvisoryAligned hint _ =>
      (hint = Some start /\ usable s len j start) \/
      ((forall h, hint = Some h -> ~ usable s len j h) /\ best s len j (Some start))
  end.

(** A mapping of device memory is one page at a fixed address. *)
Definition pinned (p : Space.MmapPlacement) (len : Z) (backing : VmaBacking) : Prop :=
  is_phys backing ->
  len = PAGE_SIZE_BYTES /\ match p with Space.Fixed _ | Space.FixedNoReplace _ => True | _ => False end.

(** Why an address was refused. *)
Definition unplaced (s : AddressSpace) (p : Space.MmapPlacement) (len : Z) (j : nat) (e : Space.MmapError) : Prop :=
  match p with
  | Space.Fixed h =>
      e = Space.Vmm Inval /\ (~ (PAGE_SIZE_BYTES | h) \/ ~ (pow2 j | h) \/ USER_VA_END <= h + len)
  | Space.FixedNoReplace h =>
      e = Space.Vmm Inval /\ (~ (PAGE_SIZE_BYTES | h) \/ ~ (pow2 j | h) \/ USER_VA_END <= h + len) \/
      e = Space.Exists /\ ~ clear (t_map (vmas s)) h (h + len)
  | Space.Advisory hint | Space.AdvisoryAligned hint _ =>
      e = Space.Vmm NoMem /\ (forall h, hint = Some h -> ~ usable s len j h) /\ best s len j None
  end.

Lemma is_aligned_iff h : Layout.is_aligned h = true <-> (PAGE_SIZE_BYTES | h).
Proof. unfold Layout.is_aligned. rewrite Z.eqb_eq. by rewrite Z.mod_divide. Qed.

Lemma align_iff h j : (Z.land h (pow2 j - 1) =? 0) = true <-> (pow2 j | h).
Proof. by rewrite land_align, Z.eqb_eq, divide_mod. Qed.

Lemma end_of_spec h len :
  0 <= h < USER_VA_END -> 0 < len <= U64_MAX ->
  match Layout.end_of h len with
  | Ok e => e = h + len /\ e < USER_VA_END
  | Err e => e = Inval /\ USER_VA_END <= h + len
  end.
Proof.
  intros Hh Hl. unfold Layout.end_of, checked_add. bool_case (h + len <=? U64_MAX).
  - unfold uva_new. bool_case (h + len <? USER_VA_END); split; done || lia.
  - split; [done|]. unfold USER_VA_END, U64_MAX in *. lia.
Qed.

Lemma from_hint_spec s len j hint :
  space_ok s -> 0 < len <= U64_MAX -> (forall h, hint = Some h -> 0 <= h < USER_VA_END) ->
  match Space.from_hint s len (pow2 j) hint with
  | Some h => hint = Some h /\ usable s len j h
  | None => forall h, hint = Some h -> ~ usable s len j h
  end.
Proof.
  intros Hs Hl Hh. destruct hint as [h|]; [|done]. cbn. specialize (Hh h eq_refl).
  pose proof (end_of_spec h len Hh Hl) as He. pose proof (is_aligned_iff h). pose proof (align_iff h j).
  destruct (Layout.is_aligned h), (Z.land h (pow2 j - 1) =? 0); cbn.
  2-4: intros h' [= <-] (? & ? & _); intuition done.
  destruct (Layout.end_of h len) as [e|e].
  - destruct He as [-> He]. pose proof (hole_clear_spec (vmas s) h (h + len) (so_tree _ Hs) ltac:(lia)) as Hc.
    destruct (Hole.hole_clear _ _ _).
    + split; [done|]. split_and!; [by apply H|by apply H0|done|by apply Hc].
    + intros h' [= <-] (_ & _ & _ & Hcl). by apply Hc in Hcl.
  - intros h' [= <-] (_ & _ & ? & _). lia.
Qed.

Lemma search_spec s len j :
  space_ok s -> layout_ok s -> 0 < len -> (j < 47)%nat -> best s len j (Space.unmapped_area_aligned s len (pow2 j)).
Proof.
  intros Hs Hl Hlen Hj. unfold layout_ok, best, Space.unmapped_area_aligned in *. destruct (mmap_topdown s).
  - apply find_hole_highest; [apply Hs|done|done|lia].
  - by apply find_hole_lowest; [apply Hs|..].
Qed.

(** An address the search returns is free. *)
Lemma best_clear s len j a :
  layout_ok s -> 0 < len -> best s len j (Some a) -> 0 <= a < USER_VA_END /\ clear (t_map (vmas s)) a (a + len).
Proof.
  unfold layout_ok, best. intros Hl Hlen Hb.
  assert (Hole.MMAP_TOP < USER_VA_END /\ 0 <= Hole.MIN_USER_VA) by done.
  destruct (mmap_topdown s); destruct Hb as [(Hlo & Hhi & _ & Hc) _]; (split; [lia|done]).
Qed.

Lemma place_advisory_spec s len j hint :
  space_ok s -> layout_ok s -> 0 < len <= U64_MAX -> (j < 47)%nat ->
  (forall h, hint = Some h -> 0 <= h < USER_VA_END) ->
  match Space.place_advisory s len (pow2 j) hint with
  | inr (start, rep) =>
      rep = None /\ 0 <= start < USER_VA_END /\ placed s (Space.Advisory hint) len j start /\
      clear (t_map (vmas s)) start (start + len)
  | inl e => unplaced s (Space.Advisory hint) len j e
  end.
Proof.
  intros Hs Hl Hlen Hj Hh. unfold Space.place_advisory. pose proof (from_hint_spec s len j hint Hs Hlen Hh) as Hf.
  destruct (Space.from_hint _ _ _ _) as [h|].
  - destruct Hf as [-> Hu]. split_and!; [done|by apply Hh..|by left|apply Hu].
  - pose proof (search_spec s len j Hs Hl ltac:(lia) Hj) as Hb. destruct (Space.unmapped_area_aligned _ _ _) as [a|].
    + destruct (best_clear s len j a Hl ltac:(lia) Hb). split_and!; [done|lia..|by right|done].
    + by split_and!.
Qed.

Definition fixed (p : Space.MmapPlacement) : bool := match p with Space.Fixed _ => true | _ => false end.

Lemma place_spec s p len j :
  space_ok s -> layout_ok s -> 0 < len <= U64_MAX -> (j < 47)%nat ->
  (forall h, hint_of p = Some h -> 0 <= h < USER_VA_END) ->
  match Space.place s p len (pow2 j) with
  | inr (start, rep) =>
      0 <= start < USER_VA_END /\ placed s p len j start /\
      if fixed p then rep = Some (start + len) else rep = None /\ clear (t_map (vmas s)) start (start + len)
  | inl e => unplaced s p len j e
  end.
Proof.
  intros Hs Hl Hlen Hj Hh. destruct p as [hint|hint al|h|h]; cbn [Space.place fixed].
  - pose proof (place_advisory_spec s len j hint Hs Hl Hlen Hj Hh) as Hp.
    destruct (Space.place_advisory _ _ _ _) as [e|[start rep]]; [done|]. by destruct Hp as (-> & ? & ? & ?).
  - pose proof (place_advisory_spec s len j hint Hs Hl Hlen Hj Hh) as Hp.
    destruct (Space.place_advisory _ _ _ _) as [e|[start rep]]; [done|]. by destruct Hp as (-> & ? & ? & ?).
  - specialize (Hh h eq_refl). pose proof (end_of_spec h len Hh Hlen) as He. unfold Layout.validate_aligned.
    pose proof (is_aligned_iff h) as Ha. pose proof (align_iff h j) as Hb.
    destruct (Layout.is_aligned h); cbn; [|split; [done|left; by intros ?%Ha]].
    destruct (Z.land _ _ =? 0); cbn; [|split; [done|right; left; by intros ?%Hb]].
    destruct (Layout.end_of h len) as [e|e]; cbn; destruct He as [-> He]; [|auto].
    split_and!; [lia..|done|by apply Ha|by apply Hb|done].
  - specialize (Hh h eq_refl). pose proof (end_of_spec h len Hh Hlen) as He. unfold Layout.validate_aligned.
    pose proof (is_aligned_iff h) as Ha. pose proof (align_iff h j) as Hb.
    destruct (Layout.is_aligned h); cbn; [|left; split; [done|left; by intros ?%Ha]].
    destruct (Z.land _ _ =? 0); cbn; [|left; split; [done|right; left; by intros ?%Hb]].
    destruct (Layout.end_of h len) as [e|e]; cbn; destruct He as [-> He]; [|auto].
    pose proof (hole_clear_spec (vmas s) h (h + len) (so_tree _ Hs) ltac:(lia)) as Hc.
    destruct (Hole.hole_clear _ _ _); cbn; [|right; split; [done|by intros ?%Hc]].
    destruct Ha, Hb, Hc. split_and!; [lia|lia|done|unfold usable; split_and!; auto|done|auto].
Qed.

(** ** The whole operation *)

Section mmap.
Context (env : Env) (s : AddressSpace) (p : Space.MmapPlacement) (len prot may_prot flags : Z) (backing : VmaBacking).
Context (mode : Space.MdweMode) (j : nat).

(** Why a mapping is refused, in the order of the checks. *)
Inductive refusal : Space.MmapError -> Prop :=
| refuse_len : len = 0 \/ ~ (PAGE_SIZE_BYTES | len) -> refusal (Space.Vmm Inval)
| refuse_place e : unplaced s p len j e -> refusal e
| refuse_top a : placed s p len j a -> USER_VA_END <= a + len -> refusal (Space.Vmm Inval)
| refuse_addr a : placed s p len j a -> admit_mmap_addr env a = false -> refusal (Space.Vmm Access)
| refuse_setup a b off e :
    placed s p len j a -> backing = File b off -> mmap_setup env b a (a + len) (off / PAGE_SIZE_BYTES) = Some e ->
    refusal (Space.Vmm (Space.setup_error e))
| refuse_mdwe e : Space.mdwe_step s mode prot = Err e -> refusal (Space.Vmm e)
| refuse_write id e :
    Space.writable_rmap env (Space.future_flags s flags) may_prot backing = Some id ->
    FileRmap.reserve_writable (file_rmaps s id) = Err e -> refusal (Space.Vmm e)
| refuse_sealed a : p = Space.Fixed a -> seals s a (a + len) -> refusal (Space.Vmm Perm)
| refuse_split a : p = Space.Fixed a -> refused env s a (a + len) -> refusal (Space.Vmm Inval).

(** What a mapping made at [start] leaves. *)
Definition mmapped (start : Z) (s' : AddressSpace) : Prop :=
  placed s p len j start /\ 0 <= start /\ start + len < USER_VA_END /\ Space.mdwe_step s mode prot = Ok tt /\
  (fixed p = true -> ~ seals s start (start + len) /\ ~ refused env s start (start + len)) /\
  (forall id, Space.writable_rmap env (Space.future_flags s flags) may_prot backing = Some id ->
     FileRmap.writable_denied (file_rmaps s id) = false) /\
  changed (mapped_over start (start + len) prot may_prot (Space.future_flags s flags) backing (vw s)) s s'.

Hypothesis Hs : space_ok s.
Hypothesis Hl : layout_ok s.
Hypothesis Hlen : 0 <= len <= U64_MAX.
Hypothesis Hj : (j < 47)%nat.
Hypothesis Halign : Space.placement_align env p backing = pow2 j.
Hypothesis Hhint : forall h, hint_of p = Some h -> 0 <= h < USER_VA_END.
Hypothesis Hfits : backing_fits backing len.
Hypothesis Hdev : pinned p len backing.

Lemma placed_device start : placed s p len j start -> page_device start (start + len) backing.
Proof. intros Hp Hph. destruct (Hdev Hph) as [-> Hpin]. destruct p; try done; destruct Hp as [-> H]; (split; [apply H|done]). Qed.

Lemma changed_kept f s1 s2 s3 :
  kept s s1 -> changed f s1 s2 -> kept s2 s3 ->
  (forall id, FileRmap.pending_writable (file_rmaps s3 id) = FileRmap.pending_writable (file_rmaps s id)) -> changed f s s3.
Proof.
  intros H1 (Hok & Hset & Hst & Hv) H3 Hp. split_and!.
  - eapply kept_ok; [done..|]. intros id. rewrite Hp. apply Hs.
  - destruct H1, Hset, H3. constructor; congruence || done.
  - by rewrite (kp_vmas _ _ H3), <- (kp_vmas _ _ H1).
  - intros a. unfold vw. rewrite (kp_vmas _ _ H3). apply Hv.
Qed.

Lemma fixed_pagewise start s1 :
  fixed p = true -> (PAGE_SIZE_BYTES | len) -> placed s p len j start -> pagewise s1 start (start + len).
Proof.
  intros Hf Hd Hp. right. destruct p; try done. destruct Hp as (-> & Ha & _). split; [done|by apply Z.divide_add_r].
Qed.

(** The commit, with the writable reservation held around it. *)
Lemma commit_spec start rep :
  0 <= start -> 0 < len -> (PAGE_SIZE_BYTES | len) -> start + len < USER_VA_END -> placed s p len j start -> Space.mdwe_step s mode prot = Ok tt ->
  (if fixed p then rep = Some (start + len) else rep = None /\ clear (t_map (vmas s)) start (start + len)) ->
  wp (Space.with_reservation (Space.writable_rmap env (Space.future_flags s flags) may_prot backing)
        (Space.mmap_commit env start (start + len) rep prot may_prot (Space.future_flags s flags) backing))
    (fun r s' => match r with inr a => a = start /\ mmapped a s' | inl e => relinked s s' /\ refusal e end) s.
Proof.
  intros H0 Hpos Hdiv Hend Hp Hmd Hrep. apply with_reservation_spec; [done| |].
  - intros s1 H1 Hs1 Hden. eapply wp_mono; [apply mmap_commit_spec; try done; [lia|by replace (start + len - start) with len by lia|by apply placed_device|]|].
    { destruct (fixed p) eqn:Ef; [subst rep; split; [done|]; by apply pagewise_cut, fixed_pagewise|]. destruct Hrep as [-> Hc]. by rewrite (kp_vmas _ _ H1). }
    intros [e|a] s2 Hr.
    + destruct Hr as (-> & Hrep' & Hwhy). split; [apply settings_refl|]. intros s3 H3 Hpend. split.
      { destruct H1, H3. constructor; congruence || done. }
      destruct p as [| |h|h] eqn:Ep; cbn in Hrep; try (destruct Hrep; congruence). destruct Hp as [-> _].
      unfold seals, refused, vw in Hwhy. rewrite (kp_vmas _ _ H1) in Hwhy.
      destruct Hwhy as [[-> Hse]|[-> Hre]]; [by apply (refuse_sealed h)|by apply (refuse_split h)].
    + destruct Hr as (-> & Hfix & Hch). pose proof Hch as (_ & Hset & _). split; [done|]. intros s3 H3 Hpend. split; [done|].
      split_and!; try done.
      * intros Hf. rewrite Hf in Hrep. subst rep. destruct (Hfix ltac:(done)) as [Hn1 Hn2].
        unfold seals, refused, vw in *. by rewrite (kp_vmas _ _ H1) in *.
      * unfold vw in Hch |- *. rewrite (kp_vmas _ _ H1) in Hch. by eapply changed_kept.
  - intros id e Hid He. split; [apply relinked_refl|by eapply refuse_write].
Qed.

Lemma mmap_spec :
  wp (Space.mmap_with_may_at_inner_locked env p len prot may_prot flags backing mode) (fun r s' =>
    match r with
    | inr start => 0 < len /\ (PAGE_SIZE_BYTES | len) /\ mmapped start s'
    | inl e => relinked s s' /\ refusal e
    end) s.
Proof.
  unfold Space.mmap_with_may_at_inner_locked, Layout.validate_len.
  destruct ((len =? 0) || negb (len mod PAGE_SIZE_BYTES =? 0)) eqn:El.
  { apply wp_ret. split; [apply relinked_refl|]. apply refuse_len. apply orb_true_iff in El as [El|El]; to_prop; [by left|].
    right. intros Hd. apply Z.mod_divide in Hd; [|done]. lia. }
  apply orb_false_iff in El as [El1 El2]. to_prop. do 2 wp_step. cbn zeta. rewrite Halign.
  pose proof (place_spec s p len j Hs Hl ltac:(lia) Hj Hhint) as Hplace.
  destruct (Space.place _ _ _ _) as [e|[start rep]].
  { apply wp_ret. split; [apply relinked_refl|by apply refuse_place]. }
  destruct Hplace as (Hb & Hp & Hrep). pose proof (end_of_spec start len Hb ltac:(lia)) as He.
  destruct (Layout.end_of start len) as [e|e]; destruct He as [-> He].
  2: { apply wp_ret. split; [apply relinked_refl|by eapply refuse_top]. }
  destruct (admit_mmap_addr env start) eqn:Ead; cbn.
  2: { apply wp_ret. split; [apply relinked_refl|by eapply refuse_addr]. }
  destruct (match backing with File b off => _ | _ => None end) as [e|] eqn:Ese.
  { apply wp_ret. split; [apply relinked_refl|]. destruct backing as [|b off| | | | |] eqn:Eb; try done.
    by apply (refuse_setup start b off). }
  destruct (Space.mdwe_step s mode prot) as [[]|e] eqn:Emd.
  2: { apply wp_ret. split; [apply relinked_refl|by apply refuse_mdwe]. }
  eapply wp_mono; [apply commit_spec; [lia|lia|by apply Z.mod_divide|lia|done..]|]. intros [e|a] s' Hr; [done|].
  destruct Hr as [-> Hm]. split_and!; [lia|by apply Z.mod_divide|done].
Qed.

End mmap.
