(* ===== verification/AddrSpaceView.v ===== *)
(** * Section views

    The fragments of a view carry its origin through every split. Unmapping a
    view removes exactly the pages of its fragments, or nothing. Flushing a
    range reaches every file page of it. *)

From stdpp Require Import strings list.
From S2P Require Import Prelude BTree Vma VmaTree VmaTreeInv VmaTreeOps VmaTreeSpec VmaTreeRange.
From S2P Require Import VmaTreeEdit Extent Hole Rmap Account AddrSpace AddrSpaceOps AddrSpaceInv AddrSpaceSpec.
From S2P Require Import AddrSpaceMmap.

Import SpaceOps.

(** The address belongs to a fragment of the view. *)
Definition in_view (s : AddressSpace) (origin a : Z) : bool :=
  match Tree.find_containing (vmas s) a with Some v => bool_decide (v_mapping_origin v = Some origin) | None => false end.

Lemma in_view_iff s origin a :
  space_ok s ->
  in_view s origin a = true <->
  exists v, v ∈ Space.areas s /\ v_start v <= a < v_end v /\ v_mapping_origin v = Some origin.
Proof.
  intros Hs. pose proof (so_tree _ Hs) as Hm. unfold in_view. split.
  - destruct (Tree.find_containing (vmas s) a) as [v|] eqn:E; [|done]. intros Ho%bool_decide_eq_true.
    apply find_containing_spec in E as [Hg Hb]; [|done]. exists v. split_and!; [by apply elem_areas|lia..|done].
  - intros (v & Hv & Hb & Ho). apply elem_areas in Hv; [|done].
    rewrite (proj2 (find_containing_spec (vmas s) a v Hm)) by done. by apply bool_decide_eq_true.
Qed.

(** A walk that succeeds went over adjacent members. *)
Lemma tile_walk_spec origin c l e :
  tile_walk origin c l = Ok e ->
  (forall v, v ∈ l -> v_mapping_origin v = Some origin) /\
  (forall a, c <= a < e -> exists v, v ∈ l /\ v_start v <= a < v_end v).
Proof.
  revert c. induction l as [|v l IH]; intros c; cbn.
  { intros [= <-]. split; [intros v Hv; by apply not_elem_of_nil in Hv|lia]. }
  destruct (negb (v_start v =? c) || _) eqn:E; [done|]. to_prop.
  match goal with H : bool_decide _ = true |- _ => apply bool_decide_eq_true in H end.
  intros Hw. destruct (IH _ Hw) as [Ho Hc]. split.
  - intros w [->|Hw']%elem_of_cons; [done|by apply Ho].
  - intros a Ha. destruct (decide (a < v_end v)); [exists v; split; [apply elem_of_cons; by left|lia]|].
    destruct (Hc a ltac:(lia)) as (w & Hw' & Hb). exists w. split; [apply elem_of_cons; by right|done].
Qed.

Lemma fold_min_le l x : foldl (fun x w => Z.min x (v_start w)) x l <= x /\ forall w, w ∈ l -> foldl (fun x w => Z.min x (v_start w)) x l <= v_start w.
Proof.
  revert x. induction l as [|v l IH]; intros x; cbn; [split; [lia|intros w Hw; by apply not_elem_of_nil in Hw]|].
  destruct (IH (Z.min x (v_start v))) as [H1 H2]. split; [lia|]. intros w [->|Hw]%elem_of_cons; [lia|by apply H2].
Qed.

Lemma fold_max_ge l x : x <= foldl (fun x w => Z.max x (v_end w)) x l /\ forall w, w ∈ l -> v_end w <= foldl (fun x w => Z.max x (v_end w)) x l.
Proof.
  revert x. induction l as [|v l IH]; intros x; cbn; [split; [lia|intros w Hw; by apply not_elem_of_nil in Hw]|].
  destruct (IH (Z.max x (v_end v))) as [H1 H2]. split; [lia|]. intros w [->|Hw]%elem_of_cons; [lia|by apply H2].
Qed.

Lemma fold_max_bound l x b : x <= b -> (forall w, w ∈ l -> v_end w <= b) -> foldl (fun x w => Z.max x (v_end w)) x l <= b.
Proof.
  revert x. induction l as [|v l IH]; intros x Hx Hl; cbn; [done|].
  apply IH; [pose proof (Hl v (list_elem_of_here _ _)); lia|]. intros w Hw. apply Hl, elem_of_cons. by right.
Qed.

Lemma fold_min_bound l x b : b <= x -> (forall w, w ∈ l -> b <= v_start w) -> b <= foldl (fun x w => Z.min x (v_start w)) x l.
Proof.
  revert x. induction l as [|v l IH]; intros x Hx Hl; cbn; [done|].
  apply IH; [pose proof (Hl v (list_elem_of_here _ _)); lia|]. intros w Hw. apply Hl, elem_of_cons. by right.
Qed.

(** The areas a clone comes from. *)
Lemma elem_snapshot s w :
  space_ok s -> w ∈ Space.snapshot_vmas s ->
  exists v, v ∈ Space.areas s /\ v_start w = v_start v /\ v_end w = v_end v /\ v_mapping_origin w = v_mapping_origin v /\
    0 <= v_start v < v_end v /\ v_end v < USER_VA_END.
Proof.
  intros Hs (v & -> & Hv)%list_elem_of_fmap. exists v. pose proof Hv as Hg. apply elem_areas in Hg; [|apply Hs].
  destruct (ok_vma _ _ _ (so_tree _ Hs) Hg) as (? & ? & ? & _). split_and!; done.
Qed.

Lemma areas_snapshot s v : v ∈ Space.areas s -> clone v ∈ Space.snapshot_vmas s.
Proof. intros Hv. apply list_elem_of_fmap. by exists v. Qed.

(** The extent of a view is the set of its addresses. *)
Lemma origin_extent_spec s origin start len :
  space_ok s -> mapping_origin_extent s origin = Ok (start, len) ->
  0 <= start /\ 0 < len /\ start + len <= USER_VA_END /\ forall a, start <= a < start + len <-> in_view s origin a = true.
Proof.
  intros Hs. unfold mapping_origin_extent. pose proof (elem_snapshot s) as Hmem.
  destruct (filter _ (Space.snapshot_vmas s)) as [|v0 members] eqn:Ef; [done|].
  assert (Hsub : forall w, w ∈ v0 :: members <-> v_mapping_origin w = Some origin /\ w ∈ Space.snapshot_vmas s).
  { intros w. by rewrite <- Ef, list_elem_of_filter. }
  pose proof (fold_min_le members (v_start v0)) as [Hm1 Hm2]. pose proof (fold_max_ge members (v_end v0)) as [Hx1 Hx2].
  pose proof (fold_min_bound members (v_start v0) 0) as Hmb. pose proof (fold_max_bound members (v_end v0) USER_VA_END) as Hxb.
  set (st := foldl _ (v_start v0) members) in *. set (en := foldl _ (v_end v0) members) in *. clearbody st en.
  destruct (tile_walk _ _ _) as [c|e] eqn:Ew; [|done]. bool_case (negb (c =? en)); [done|]. subst c.
  unfold uva_new. destruct (st <? USER_VA_END); [|done]. intros [= <- <-].
  destruct (tile_walk_spec _ _ _ _ Ew) as [Ho Hcov].
  assert (Hb : forall w, w ∈ v0 :: members -> 0 <= v_start w < v_end w /\ v_end w <= USER_VA_END).
  { intros w [_ Hin]%Hsub. destruct (Hmem w Hs Hin) as (v & _ & -> & -> & _ & ? & ?). lia. }
  destruct (Hb v0 (list_elem_of_here _ _)) as [? ?].
  assert (Hb' : forall w, w ∈ members -> 0 <= v_start w /\ v_end w <= USER_VA_END).
  { intros w Hw. destruct (Hb w (list_elem_of_further _ _ _ Hw)). lia. }
  pose proof (Hmb ltac:(lia) (fun w Hw => proj1 (Hb' w Hw))). pose proof (Hxb ltac:(lia) (fun w Hw => proj2 (Hb' w Hw))).
  split_and!; [done|lia|lia|]. intros a. rewrite in_view_iff by done. split.
  - intros Ha. destruct (Hcov a ltac:(lia)) as (w & Hw & Ha'). pose proof (Ho w Hw) as Ho'.
    apply list_elem_of_In, filter_In in Hw as [Hw%list_elem_of_In _].
    destruct (Hmem w Hs Hw) as (v & Hv & E1 & E2 & E3 & _). exists v. split; [done|]. rewrite <- E1, <- E2, <- E3. done.
  - intros (v & Hv & Ha & Hvo). assert (Hin : clone v ∈ v0 :: members) by (apply Hsub; split; [done|by apply areas_snapshot]).
    apply elem_of_cons in Hin as [E|Hin].
    + apply (f_equal v_start) in E as E1. apply (f_equal v_end) in E as E2. cbn in E1, E2. lia.
    + pose proof (Hm2 _ Hin) as E1. pose proof (Hx2 _ Hin) as E2. cbn in E1, E2. lia.
Qed.

(** Unmapping a view takes away exactly its pages; a view that does not tile
    its range, and one that is sealed, stay. *)
Lemma view_unmap env origin s :
  space_ok s ->
  wp (unmap_mapping_origin env origin) (fun r s' =>
    match r with
    | Ok _ => space_ok s' /\ forall a, vw s' a = if in_view s origin a then None else vw s a
    | Err _ => s' = s
    end) s.
Proof.
  intros Hs. unfold unmap_mapping_origin. do 2 wp_step.
  destruct (mapping_origin_extent s origin) as [[start len]|e] eqn:Ee; [|by apply wp_ret].
  destruct (origin_extent_spec _ _ _ _ Hs Ee) as (Ha & Hl & He & Hv). unfold Space.munmap, try_.
  destruct (Layout.validate_len len) as [?|?] eqn:El; [|by apply wp_ret].
  destruct (Layout.validate_aligned start) as [?|?] eqn:Es; [|by apply wp_ret].
  unfold Layout.end_of_raw, checked_add. rewrite (proj2 (Z.leb_le _ _)) by (unfold USER_VA_END, U64_MAX in *; lia).
  eapply wp_mono; [apply munmap_locked_spec; [done|lia|lia|]|].
  { apply pagewise_cut; [done|right]. unfold Layout.validate_aligned in Es. pose proof (is_aligned_iff start) as [Hal _].
    destruct (Layout.is_aligned start); [specialize (Hal eq_refl)|done]. split; [done|]. apply Z.divide_add_r; [done|].
    unfold Layout.validate_len in El. destruct (_ || _) eqn:Eo; [done|]. apply orb_false_iff in Eo as [_ Eo]. to_prop.
    by apply Z.mod_divide. }
  rewrite (proj2 (Z.leb_le (start + len) _)) by done.
  intros [[]|e] s'; [|by intros [-> _]]. intros (_ & _ & Hok & _ & _ & Hvw). split; [done|]. intros x. rewrite Hvw. unfold over, nothing.
  specialize (Hv x). bool_case ((start <=? x) && (x <? start + len)).
  - rewrite (proj1 Hv) by lia. by destruct (vw s x).
  - destruct (in_view s origin x); [|done]. apply andb_false_iff in E. destruct (proj2 Hv eq_refl). destruct E; to_prop; lia.
Qed.

(** ** Flushing *)

(** The calls write the byte of the file the page starts with. *)
Definition flushed (calls : list (Z * Z * Z)) (c : VmaBacking) : Prop :=
  match c with
  | File backing off => exists lo hi, (backing, lo, hi) ∈ calls /\ lo <= off < hi
  | _ => True
  end.

Lemma flushed_app calls calls' c : flushed calls c -> flushed (calls ++ calls') c.
Proof. destruct c; try done. intros (lo & hi & Hin & Hb). exists lo, hi. split; [apply elem_of_app; by left|done]. Qed.

Lemma flush_walk_spec fsync start end_ cursor calls l calls' r :
  flush_walk fsync start end_ cursor calls l = (calls', Ok r) ->
  r = (start, end_ - start) /\ (exists more, calls' = calls ++ more) /\
  forall a, cursor <= a < end_ -> exists v, v ∈ l /\ v_start v <= a < v_end v /\ flushed calls' (p_content (page_at v a)).
Proof.
  revert cursor calls. induction l as [|v l IH]; intros cursor calls; cbn [flush_walk]; [done|].
  bool_case (v_end v <=? cursor).
  { intros H. destruct (IH _ _ H) as (-> & Hm & Hc). split_and!; [done|done|]. intros a Ha.
    destruct (Hc a Ha) as (w & Hw & ?). exists w. split; [apply elem_of_cons; by right|done]. }
  bool_case ((cursor <? v_start v) || (end_ <=? v_start v)); [done|].
  set (oe := Z.min (v_end v) end_).
  assert (Hnext : forall more, (forall a, cursor <= a < oe -> flushed (calls ++ more) (p_content (page_at v a))) ->
    (if end_ <=? oe then (calls ++ more, Ok (start, end_ - start)) else flush_walk fsync start end_ oe (calls ++ more) l) = (calls', Ok r) ->
    r = (start, end_ - start) /\ (exists more, calls' = calls ++ more) /\
    forall a, cursor <= a < end_ -> exists w, w ∈ v :: l /\ v_start w <= a < v_end w /\ flushed calls' (p_content (page_at w a))).
  { intros more Hv. bool_case (end_ <=? oe).
    - intros [= <- <-]. split_and!; [done|by exists more|]. intros a Ha. exists v.
      split_and!; [apply elem_of_cons; by left|lia|lia|apply Hv; lia].
    - intros Hw. destruct (IH _ _ Hw) as (-> & [more' ->] & Hc). split_and!; [done|exists (more ++ more'); by rewrite app_assoc|].
      intros a Ha. destruct (decide (a < oe)).
      + exists v. split_and!; [apply elem_of_cons; by left|lia|lia|apply flushed_app, Hv; lia].
      + destruct (Hc a ltac:(lia)) as (w & Hin & ?). exists w. split; [apply elem_of_cons; by right|done]. }
  destruct (v_backing v) as [|b off| | | | |] eqn:Eb;
    try (intros Hw; apply (Hnext []); [intros a _; cbn; by rewrite Eb|by rewrite app_nil_r]).
  unfold checked_add. destruct (_ <=? U64_MAX); [|done]. destruct (_ <=? U64_MAX); [|done]. destruct (fsync _ _ _ _); [|done].
  apply (Hnext [_]). intros a Ha. cbn. rewrite Eb. cbn. eexists _, _. split; [apply elem_of_app; right; by apply list_elem_of_singleton|lia].
Qed.

Lemma flush_end_ge s address size start e :
  0 <= address -> 0 < size -> flush_end s address size start = Ok e -> address + size <= e.
Proof.
  intros Ha Hz. unfold flush_end, checked_add. rewrite (proj2 (Z.eqb_neq size 0)) by lia.
  bool_case (address + size <=? U64_MAX); [|done]. bool_case (address + size + (PAGE_SIZE_BYTES - 1) <=? U64_MAX); [|done]. intros [= <-].
  destruct (align_up_spec (address + size) 12) as (_ & Hle & _); [unfold U64_MAX, PAGE_SIZE_BYTES in *; change (pow2 12) with 4096; lia..|].
  unfold Hole.align_up in Hle. rewrite wrap64_small in Hle by (change (pow2 12) with PAGE_SIZE_BYTES; unfold U64_MAX, PAGE_SIZE_BYTES in *; lia).
  exact Hle.
Qed.

(** A flush that succeeds went over a range without holes from the page of the
    address on, and wrote every file page of it. *)
Lemma flush_covers fsync s address size calls start len :
  space_ok s -> 0 <= address <= U64_MAX -> 0 <= size ->
  flush_virtual_range fsync s address size = (calls, Ok (start, len)) ->
  start <= address < start + PAGE_SIZE_BYTES /\ 0 < len /\ (0 < size -> address + size <= start + len) /\
  forall a, start <= a < start + len -> exists p, vw s a = Some p /\ flushed calls (p_content p).
Proof.
  intros Hs Ha Hz. unfold flush_virtual_range.
  destruct (align_down_spec address 12) as (Hd & Hle & Hgr); [unfold U64_MAX in *; lia|lia|].
  change (Z.land address _) with (Hole.align_down address (pow2 12)).
  set (st := Hole.align_down address (pow2 12)) in *. cbn zeta.
  assert (Hst : address < st + PAGE_SIZE_BYTES).
  { destruct (decide (st + PAGE_SIZE_BYTES <= address)) as [Hno|]; [|lia].
    specialize (Hgr (st + PAGE_SIZE_BYTES) ltac:(apply Z.divide_add_r; [done|by exists 1]) Hno). unfold PAGE_SIZE_BYTES in *. lia. }
  destruct (flush_end s address size st) as [e|] eqn:Ee; [|done].
  bool_case (e <=? st); [done|]. cbn [orb]. destruct (negb _ || negb _); [done|].
  intros Hw. destruct (flush_walk_spec _ _ _ _ _ _ _ _ Hw) as ([= -> ->] & _ & Hc). split_and!; [lia|lia|lia| |].
  - intros Hp. pose proof (flush_end_ge _ _ _ _ _ (proj1 Ha) Hp Ee). lia.
  - intros a Hr. destruct (Hc a ltac:(lia)) as (v & Hv & Hb & Hf). exists (page_at v a). split; [|done].
    apply view_some; [apply Hs|]. apply elem_areas in Hv; [|apply Hs]. eauto.
Qed.
