(* ===== verification/AddrSpaceProt.v ===== *)
(** * Changing protection

    [mprotect] checks the areas of the range from the lowest address up and
    plans one step per area until the first refusal; then every planned step
    is carried out. *)

From stdpp Require Import strings.
From S2P Require Import Prelude BTree Vma VmaTree VmaTreeInv VmaTreeOps VmaTreeSpec VmaTreeRange.
From S2P Require Import VmaTreeEdit Extent Hole Rmap Account AddrSpace AddrSpaceOps AddrSpaceInv AddrSpaceSpec.
From S2P Require Import AddrSpaceMmap.

Import SpaceOps.

(** ** Rewrites that no byte counter sees *)

Definition uncounted (g : Page -> Page) : Prop :=
  (forall c p, counts c (g p) = counts c p) /\ forall p, p_content (g p) = p_content p.

Definition all (g : Page -> Page) (p : Page) : option Page := Some (g p).

Lemma rewritten_space g start end_ t' s :
  space_ok s -> uncounted g -> rewritten g start end_ (vmas s) t' ->
  changed (over (all g) start end_ (vw s)) s (set_vmas t' s).
Proof.
  intros Hs [Hg Hgc] (Hm' & [Hst Hd] & Hv'). split_and!; [|by constructor|done|done].
  constructor; cbn; [done| | | |apply Hs].
  - apply Hd, Hs.
  - eapply steady_balanced; [done|apply Hs].
  - intros c. rewrite (so_accounted _ Hs c). symmetry. apply extent_in_pointwise; [apply counts_uniform|apply Hs|done|done|].
    intros a. rewrite Hv'. unfold over. destruct (_ && _); [|done]. destruct (view _ a) as [q|]; [|done]. cbn. apply Hg.
Qed.

Lemma protect_uncounted prot pkey : uncounted (page_protect prot pkey).
Proof. split; [by intros []|done]. Qed.

(** ** The area at the cursor *)

Lemma floor_passed m c :
  tree_ok m -> match floor_le c m with Some (_, w) => v_end w <= c | None => True end ->
  forall k v, bt_get k m = Some v -> k <= c -> v_end v <= c.
Proof.
  intros Hm Hw k v Hg Hk. pose proof (floor_le_nearest c _ (ok_sorted _ Hm)) as Hf.
  destruct (floor_le c m) as [[k1 w]|]; [|by edestruct Hf]. destruct Hf as (Hk1 & Hg1 & Hmax).
  pose proof (Hmax k v Hk Hg) as Hle. destruct (decide (k = k1)) as [->|]; [by replace v with w by congruence|].
  pose proof (ok_disjoint _ Hm _ _ _ _ Hg Hg1 ltac:(lia)). pose proof (ok_vma _ _ _ Hm Hg1) as (_ & ? & _).
  pose proof (ok_start _ _ _ Hm Hg1). lia.
Qed.

Lemma vma_at_spec t cursor :
  tree_ok (t_map t) ->
  match vma_at t cursor with
  | Some v => bt_get (v_start v) (t_map t) = Some v /\ cursor < v_end v /\
              (cursor < v_start v -> view (t_map t) cursor = None)
  | None => view (t_map t) cursor = None
  end.
Proof.
  intros Hm. unfold vma_at. pose proof (floor_passed _ cursor Hm) as Hp.
  pose proof (floor_le_nearest cursor _ (ok_sorted _ Hm)) as Hf.
  assert (Hnone : (forall k v, bt_get k (t_map t) = Some v -> k <= cursor -> v_end v <= cursor) -> view (t_map t) cursor = None).
  { intros H. apply view_none; [done|]. intros k v Hg Ha. pose proof (ok_start _ _ _ Hm Hg). specialize (H k v Hg). lia. }
  assert (Hc : (forall k v, bt_get k (t_map t) = Some v -> k <= cursor -> v_end v <= cursor) ->
    match ceil_ge cursor (t_map t) with
    | Some (_, v) => bt_get (v_start v) (t_map t) = Some v /\ cursor < v_end v /\
                     (cursor < v_start v -> view (t_map t) cursor = None)
    | None => view (t_map t) cursor = None
    end).
  { intros H. pose proof (ceil_ge_nearest cursor _ (ok_sorted _ Hm)) as Hc.
    destruct (ceil_ge cursor (t_map t)) as [[k v]|]; [|by auto]. destruct Hc as (Hk & Hg & _).
    pose proof (ok_start _ _ _ Hm Hg). subst k. pose proof (ok_vma _ _ _ Hm Hg) as (_ & ? & _).
    split_and!; [done|cbn in Hk; lia|auto]. }
  destruct (floor_le cursor (t_map t)) as [[k v]|].
  - destruct Hf as (Hk & Hg & _). pose proof (ok_start _ _ _ Hm Hg). subst k. bool_case (cursor <? v_end v).
    + split_and!; [done..|cbn in Hk; lia].
    + specialize (Hc (Hp ltac:(done))). by destruct (ceil_ge cursor (t_map t)) as [[k' v']|].
  - specialize (Hc (Hp I)). by destruct (ceil_ge cursor (t_map t)) as [[k' v']|].
Qed.

(** ** The plan *)

Section plan.
Context (env : Env) (requested : Z) (rie : bool) (security : Vma -> Z -> option Error) (key_for : Vma -> Z).
Context (s : AddressSpace) (addr end_ : Z).
Hypothesis Hs : space_ok s.
Hypothesis Hr : addr < end_ < USER_VA_END.
Hypothesis Ha : 0 <= addr.
Local Abbreviation step_prot := (step_prot requested rie).
Local Abbreviation step_error := (step_error env requested rie security s).

(** The steps cover [[lo, hi)] in order, each the part of one area that
    passes every check. *)
Fixpoint tiles (lo : Z) (steps : list MprotectStep) (hi : Z) : Prop :=
  match steps with
  | [] => lo = hi
  | st :: steps' =>
      st_start st = lo /\ 0 < st_len st /\
      (exists v, bt_get (v_start v) (t_map (vmas s)) = Some v /\ v_start v <= lo /\
         lo + st_len st = Z.min (v_end v) end_ /\ st_prot st = step_prot v /\ st_pkey st = key_for v /\
         step_error lo end_ v = None) /\
      tiles (lo + st_len st) steps' hi
  end.

Lemma tiles_snoc lo steps c st hi :
  tiles lo steps c -> tiles c [st] hi -> tiles lo (steps ++ [st]) hi.
Proof.
  revert lo. induction steps as [|x steps IH]; intros lo H1 H2; cbn in *; [by subst|].
  destruct H1 as (? & ? & ? & ?). split_and!; [done..|]. by apply IH.
Qed.

(** Why the walk stops short at [c]. *)
Definition stops (c : Z) (e : Error) : Prop :=
  (e = NoMem /\ vw s c = None) \/
  (exists v, bt_get (v_start v) (t_map (vmas s)) = Some v /\ v_start v <= c < v_end v /\ step_error c end_ v = Some e).

Definition planned (steps : list MprotectStep) (err : option Error) : Prop :=
  exists c, addr <= c /\ tiles addr steps c /\
    match err with None => c = end_ | Some e => c < end_ /\ stops c e end.

(** Areas the cursor has not passed. *)
Definition rank (c : Z) : nat := length (List.filter (fun v => c <? v_end v) (Space.areas s)).

Lemma rank_step c v : bt_get (v_start v) (t_map (vmas s)) = Some v -> c < v_end v -> (rank (v_end v) < rank c)%nat.
Proof.
  intros Hg Hc. unfold rank. assert (Hin : v ∈ Space.areas s) by (apply elem_areas; [apply Hs|done]).
  induction (Space.areas s) as [|w l IH]; [by apply not_elem_of_nil in Hin|]. cbn [List.filter].
  assert (Hle : Nat.le (length (List.filter (fun x => v_end v <? v_end x) l)) (length (List.filter (fun x => c <? v_end x) l))).
  { clear IH Hin. induction l as [|x l IHl]; [done|]. cbn [List.filter].
    bool_case (v_end v <? v_end x); bool_case (c <? v_end x); cbn; lia. }
  apply elem_of_cons in Hin as [<-|Hin].
  - rewrite Z.ltb_irrefl, (proj2 (Z.ltb_lt _ _)) by done. cbn. lia.
  - specialize (IH Hin). bool_case (v_end v <? v_end w); bool_case (c <? v_end w); cbn; lia.
Qed.

Lemma plan_spec fuel c steps st :
  addr <= c <= end_ -> tiles addr steps c -> (0 < fuel)%nat -> end_ <= c \/ (rank c < fuel)%nat ->
  wp (plan env requested rie security key_for fuel s end_ c steps)
    (fun r st' => st' = st /\ planned r.1 r.2) st.
Proof.
  revert c steps. induction fuel as [|fuel IH]; intros c steps Hc Ht H0 Hf; [lia|]. cbn [plan].
  bool_case (end_ <=? c).
  { apply wp_ret. split; [done|]. exists c. split_and!; [lia|done|cbn; lia]. }
  apply wp_bind, (wp_expect _ _ c); [apply uva_new_lt; lia|].
  pose proof (vma_at_spec (vmas s) c (so_tree _ Hs)) as Hv. destruct (vma_at _ _) as [v|].
  2: { apply wp_ret. split; [done|]. exists c. cbn. split_and!; [lia|done|lia|by left]. }
  destruct Hv as (Hg & Hcv & Hgap). destruct (step_error c end_ v) as [e|] eqn:Ee.
  - apply wp_ret. split; [done|]. exists c. cbn. split_and!; [lia|done|lia|].
    destruct (decide (c < v_start v)).
    + left. split; [|by apply Hgap]. unfold SpaceOps.step_error in Ee. rewrite (proj2 (Z.ltb_lt _ _)) in Ee by done. congruence.
    + right. exists v. split_and!; [done|lia|done|done].
  - assert (v_start v <= c).
    { unfold SpaceOps.step_error in Ee. destruct (Z.ltb_spec c (v_start v)); [done|lia]. }
    apply wp_bind, (wp_expect _ _ c); [apply uva_new_lt; lia|]. do 2 wp_step; [lia|]. apply IH.
    + lia.
    + eapply tiles_snoc; [done|]. cbn. split_and!; [done|lia|exists v; split_and!; done || lia|lia].
    + pose proof (rank_step c v Hg Hcv). lia.
    + pose proof (rank_step c v Hg Hcv). destruct (Z.le_gt_cases (v_end v) end_); [right|left; lia].
      rewrite Z.min_l by done. lia.
Qed.

(** ** Carrying out the plan *)

Definition protect_step (f : Z -> option Page) (st : MprotectStep) : Z -> option Page :=
  over (all (page_protect (st_prot st) (Some (st_pkey st)))) (st_start st) (st_start st + st_len st) f.

(** The view after the steps. *)
Definition protected (steps : list MprotectStep) (f : Z -> option Page) : Z -> option Page :=
  foldl protect_step f steps.

Lemma tiles_le lo steps hi : tiles lo steps hi -> lo <= hi.
Proof. revert lo. induction steps as [|st steps IH]; intros lo; cbn; [lia|]. intros (_ & ? & _ & H). apply IH in H. lia. Qed.

(** After the steps: every address of the tiled range has the protection
    its area gets, every other address is as it was. *)
Lemma protected_tiles steps lo hi f a :
  tiles lo steps hi -> (forall b, lo <= b -> f b = vw s b) ->
  (a < lo \/ hi <= a -> protected steps f a = f a) /\
  (lo <= a < hi -> exists v lo', bt_get (v_start v) (t_map (vmas s)) = Some v /\ v_start v <= lo' <= a /\ a < v_end v /\
     step_error lo' end_ v = None /\
     protected steps f a = Some (page_protect (step_prot v) (Some (key_for v)) (page_at v a))).
Proof.
  revert lo f. induction steps as [|st steps IH]; intros lo f Ht Hf; cbn in Ht.
  { subst. split; [done|lia]. }
  destruct Ht as (<- & Hlen & (v & Hg & Hlo & Hend & Hp & Hk & He) & Ht). pose proof (tiles_le _ _ _ Ht) as Hle.
  assert (Hf' : forall b, st_start st + st_len st <= b -> protect_step f st b = vw s b).
  { intros b Hb. unfold protect_step, over. rewrite (proj2 (Z.ltb_ge b _)), andb_false_r by done. apply Hf. lia. }
  destruct (IH _ _ Ht Hf') as [H1 H2]. change (protected (st :: steps) f) with (protected steps (protect_step f st)).
  split.
  - intros Ha'. rewrite H1 by lia. unfold protect_step, over.
    destruct (Z.leb_spec (st_start st) a), (Z.ltb_spec a (st_start st + st_len st)); cbn; done || lia.
  - intros Ha'. destruct (Z.lt_ge_cases a (st_start st + st_len st)) as [Hin|Hout]; [|apply H2; lia].
    exists v, (st_start st). split_and!; [done|done|lia|lia|done|]. rewrite H1 by lia. unfold protect_step, over.
    rewrite (proj2 (Z.leb_le _ _)), (proj2 (Z.ltb_lt _ _)) by lia. cbn. rewrite Hf by lia.
    unfold vw. rewrite (view_in _ _ _ _ (so_tree _ Hs) Hg) by lia. cbn. unfold all. by rewrite Hp, Hk.
Qed.

(** A step's part of its area may get the protection, as long as its pages
    are those of [s]. *)
Lemma step_admitted lo st v s1 :
  bt_get (v_start v) (t_map (vmas s)) = Some v -> v_start v <= lo -> 0 < st_len st -> lo + st_len st = Z.min (v_end v) end_ ->
  st_prot st = step_prot v -> step_error lo end_ v = None ->
  space_ok s1 -> (forall a, lo <= a -> vw s1 a = vw s a) ->
  forall e, ~ uncovered (Tree.may_admit (st_prot st)) Inval lo (lo + st_len st) (t_map (vmas s1)) e.
Proof.
  intros Hg Hlo Hlen Hend Hp He Hs1 Hv e. pose proof (so_tree _ Hs) as Hm.
  assert (Hpage : forall a, lo <= a < lo + st_len st -> vw s1 a = Some (page_at v a)).
  { intros a Hb. rewrite Hv by lia. eapply view_in; [done..|lia]. }
  intros [[_ (a & Hb & Hn)]|(k & w & Hgw & [? ?] & Hadm)].
  - specialize (Hpage a Hb). unfold vw in Hpage. congruence.
  - pose proof (ok_vma _ _ _ (so_tree _ Hs1) Hgw) as (? & ? & _).
    pose proof (Hpage (Z.max lo (v_start w)) ltac:(lia)) as Hpg. unfold vw in Hpg.
    rewrite (view_in _ k w) in Hpg by (try apply Hs1; done || lia). apply (inj Some) in Hpg.
    assert (Hmay : v_may_prot w = v_may_prot v) by exact (f_equal p_may_prot Hpg).
    unfold Tree.may_admit in Hadm. rewrite Hmay, Hp in Hadm. unfold SpaceOps.step_error in He.
    destruct (lo <? v_start v); [done|]. destruct (flags_contains (v_may_prot v) (step_prot v)); done.
Qed.

Hypothesis Hend_ : (PAGE_SIZE_BYTES | end_).

(** The walk is at a page boundary, or where an area starts. *)
Definition at_edge (c : Z) : Prop :=
  (PAGE_SIZE_BYTES | c) \/ forall v, bt_get (v_start v) (t_map (vmas s)) = Some v -> v_start v <= c < v_end v -> v_start v = c.

Lemma at_edge_next v : bt_get (v_start v) (t_map (vmas s)) = Some v -> at_edge (Z.min (v_end v) end_).
Proof.
  intros Hg. destruct (Z.min_spec (v_end v) end_) as [[? ->]|[? ->]]; [right|by left]. intros w Hgw Hw.
  pose proof (ok_vma _ _ _ (so_tree _ Hs) Hg) as (_ & ? & _).
  destruct (Z.lt_trichotomy (v_start w) (v_start v)) as [Hlt|[He|Hlt]].
  - pose proof (ok_disjoint _ (so_tree _ Hs) _ _ _ _ Hgw Hg Hlt). lia.
  - rewrite He in Hgw. assert (w = v) as -> by congruence. lia.
  - pose proof (ok_disjoint _ (so_tree _ Hs) _ _ _ _ Hg Hgw Hlt). lia.
Qed.

(** A step over a device page takes the whole page. *)
Lemma step_cut c v hi s1 :
  at_edge c -> bt_get (v_start v) (t_map (vmas s)) = Some v -> v_start v <= c < hi -> hi = Z.min (v_end v) end_ ->
  space_ok s1 -> (forall a, c <= a -> vw s1 a = vw s a) -> no_phys_cut c hi (t_map (vmas s1)).
Proof.
  intros Hedge Hg Hc Hhi Hs1 Hv k w Hgw [? ?] Hph. pose proof (so_tree _ Hs1) as Hm1.
  pose proof (ok_vma _ _ _ Hm1 Hgw) as (_ & ? & _). set (a := Z.max c (v_start w)).
  pose proof (Hv a ltac:(lia)) as Hat. unfold vw in Hat. rewrite (view_in _ _ _ a Hm1 Hgw), (view_in _ _ _ a (so_tree _ Hs) Hg) in Hat by lia.
  apply (inj Some) in Hat. assert (Hpv : is_phys (v_backing v)) by (apply (phys_content v a); rewrite <- Hat; by apply phys_content).
  destruct (so_devices _ Hs _ _ Hg Hpv) as [Hal He]. destruct (so_devices _ Hs1 _ _ Hgw Hph) as [Halw Hew].
  assert (Hcv : c = v_start v).
  { destruct Hedge as [Hd|Hd]; [|symmetry; apply Hd; [done|lia]]. pose proof (aligned_le _ _ Hd Hal). lia. }
  assert (Hev : v_end v <= end_).
  { rewrite He. destruct (Z.le_gt_cases (v_start v + PAGE_SIZE_BYTES) end_) as [|Hlt]; [done|].
    pose proof (aligned_le end_ (v_start v) Hend_ Hal). lia. }
  pose proof (aligned_le (v_start w) (v_start v) Halw Hal). pose proof (aligned_le (v_start v) (v_start w) Hal Halw). lia.
Qed.

Lemma apply_spec todo c hi applied err s1 :
  at_edge c -> addr <= c -> hi <= end_ -> tiles c todo hi -> changed (protected applied (vw s)) s s1 ->
  (forall a, c <= a -> protected applied (vw s) a = vw s a) ->
  wp (apply_steps todo applied err) (fun out s' =>
    out = {| o_steps := applied ++ todo; o_error := err |} /\ changed (protected (applied ++ todo) (vw s)) s s') s1.
Proof.
  revert c applied s1. induction todo as [|st todo IH]; intros c applied s1 Hedge Hc Hhi Ht Hch Hid; cbn [apply_steps].
  { apply wp_ret. by rewrite app_nil_r. }
  destruct Ht as (<- & Hlen & (v & Hg & Hlo & Hend & Hp & Hk & He) & Ht). pose proof (tiles_le _ _ _ Ht).
  do 2 wp_step; [unfold USER_VA_END, U64_MAX in *; lia|]. apply wp_bind, rmap_resplit_spec. intros s2 H2.
  apply wp_bind, (wp_expect _ _ (st_start st)); [apply uva_new_lt; lia|].
  apply wp_bind, (wp_expect _ _ (st_start st + st_len st)); [apply uva_new_lt; lia|].
  pose proof (changed_relinked _ s s s1 s2 (relinked_refl _) Hch H2) as Hch2. pose proof Hch2 as (Hs2 & _ & _ & Hv2).
  apply wp_on_tree. eapply wp_mono; [apply mprotect_spec; [apply Hs2|]|].
  { apply (step_cut _ v); [done..|lia|done|done|]. intros a Hb. rewrite Hv2. by apply Hid. }
  intros [[]|e] t' Hpost.
  - destruct Hpost as (_ & _ & Hrw). intros s3 H3.
    pose proof (rewritten_space _ _ _ _ _ Hs2 (protect_uncounted _ _) Hrw) as Hch3.
    pose proof (changed_relinked _ _ _ _ _ (relinked_refl s2) Hch3 H3) as Hch4.
    assert (Happ : applied ++ st :: todo = (applied ++ [st]) ++ todo) by (by rewrite <- app_assoc). rewrite Happ.
    apply (IH (st_start st + st_len st)); [rewrite Hend; by apply at_edge_next|lia|done|done| |].
    + eapply changed_ext, changed_trans; [|exact Hch2|exact Hch4]. intros a.
      unfold protected. rewrite foldl_app. cbn. unfold protect_step, over. by rewrite Hv2.
    + intros a Hb. unfold protected. rewrite foldl_app. cbn. unfold protect_step, over.
      rewrite (proj2 (Z.ltb_ge a _)) by lia. rewrite andb_false_r. apply Hid. lia.
  - exfalso. destruct Hpost as [_ [[_ ?]|Hunc]]; [lia|]. revert Hunc.
    eapply step_admitted; try done. intros a Hb. rewrite Hv2. by apply Hid.
Qed.

End plan.

Definition bad_range (addr len : Z) : Prop :=
  len = 0 \/ ~ (PAGE_SIZE_BYTES | len) \/ ~ (PAGE_SIZE_BYTES | addr) \/ USER_VA_END <= addr + len.

Lemma mprotect_user_spec env requested rie security key_for addr len s :
  space_ok s -> 0 <= addr < USER_VA_END -> 0 <= len <= U64_MAX ->
  wp (mprotect_user_with_security env requested rie security key_for addr len) (fun r s' =>
    match r with
    | Ok out =>
        ~ bad_range addr len /\ planned env requested rie security key_for s addr (addr + len) (o_steps out) (o_error out) /\
        changed (protected (o_steps out) (vw s)) s s'
    | Err e => s' = s /\ (e = Inval /\ bad_range addr len \/
        e = NoMem /\ try_reserve env (length (List.filter (Space.overlaps addr (addr + len)) (Space.areas s))) = false)
    end) s.
Proof.
  intros Hs Ha Hl. unfold mprotect_user_with_security, try_, Layout.validate_len, Layout.validate_aligned, bad_range.
  destruct ((len =? 0) || negb (len mod PAGE_SIZE_BYTES =? 0)) eqn:El.
  { apply wp_ret. split; [done|]. left. split; [done|]. apply orb_true_iff in El as [El|El]; to_prop; [by left|].
    right; left. intros Hd. apply Z.mod_divide in Hd; [|done]. lia. }
  apply orb_false_iff in El as [El1 El2]. to_prop. apply Z.mod_divide in El2; [|done].
  pose proof (is_aligned_iff addr) as Hal. destruct (Layout.is_aligned addr).
  2: { apply wp_ret. split; [done|]. left. split; [done|]. right; right; left. by intros ?%Hal. }
  pose proof (end_of_spec addr len Ha ltac:(lia)) as Hend.
  destruct (Layout.end_of addr len) as [e|e]; destruct Hend as [-> Hend]; [|apply wp_ret; by auto 8].
  do 2 wp_step. cbn zeta. destruct (try_reserve _ _) eqn:Er; cbn [negb]; [|apply wp_ret; by auto 8]. apply wp_bind.
  eapply wp_mono; [apply (plan_spec env requested rie security key_for s addr (addr + len)); [done|lia..|done|lia|]|].
  { right. unfold rank. pose proof (filter_length_le (fun v => addr <? v_end v) (Space.areas s)). lia. }
  destruct Hal as [Hal _]. specialize (Hal eq_refl). intros [steps err] s1 [-> Hpl]. cbn in Hpl. pose proof Hpl as (c & Hc & Ht & Hce). apply wp_bind.
  eapply wp_mono; [apply (apply_spec env requested rie security key_for s addr (addr + len)) with (c := addr) (hi := c) (applied := []);
    [done|lia|by apply Z.divide_add_r|by left|lia|destruct err; cbn in Hce; lia|done|by apply changed_refl|done]|].
  intros out s' [-> Hch]. apply wp_ret. split_and!; [|done|done].
  intros [?|[?|[?|?]]]; done || lia.
Qed.
