(* ===== verification/AddrSpaceLock.v ===== *)
(** * What locking and advising do

    [update_flags_range] and the walks of [mlock.rs] by their effect on the
    view: pages keep everything but the flags a process may change at will,
    the locked bytes follow, and no walk meets the missing key that ends a
    flag change over several areas. *)

From Stdlib Require Import Sorting.Sorted.
From stdpp Require Import strings list.
From S2P Require Import Prelude BTree Vma VmaTree VmaTreeInv VmaTreeOps VmaTreeSpec VmaTreeRange.
From S2P Require Import VmaTreeEdit Extent Hole Rmap Account AddrSpace AddrSpaceOps AddrSpaceInv AddrSpaceSpec.
From S2P Require Import AddrSpaceMmap AddrSpaceProt.

Import SpaceOps.

(** ** A range inside one area *)

Definition inside (t : VmaTree) (lo hi : Z) : Prop :=
  exists k v, bt_get k (t_map t) = Some v /\ v_start v <= lo /\ hi <= v_end v.

(** Every range inside one area that the rewritten range does not meet is
    still inside one. *)
Definition holds_apart (start end_ : Z) (t t' : VmaTree) : Prop :=
  forall lo hi, lo < hi -> hi <= start \/ end_ <= lo -> inside t lo hi -> inside t' lo hi.

Lemma absorbed_inside lk l rk r t t' lo hi :
  tree_ok (t_map t) -> absorbed lk l rk r t t' -> inside t lo hi -> inside t' lo hi.
Proof.
  intros Hm Habs (k & v & Hg & Hlo & Hhi). pose proof Habs as (Hl & Hr & Hmg & _).
  destruct (absorbed_get _ _ _ _ _ _ Hm Habs) as (_ & Hg1 & _ & Hrest). apply mergeable_facts in Hmg as (He & _).
  pose proof (ok_vma _ _ _ Hm Hl) as (_ & ? & _). pose proof (ok_vma _ _ _ Hm Hr) as (_ & ? & _).
  destruct (decide (k = lk)) as [->|Hn1]; [|destruct (decide (k = rk)) as [->|Hn2]].
  - exists lk, (joined l r). replace v with l in * by congruence. split; [done|]. cbn. lia.
  - exists lk, (joined l r). replace v with r in * by congruence. split; [done|]. cbn. lia.
  - exists k, v. by rewrite Hrest.
Qed.

Lemma merged_inside P t t' lo hi : tree_ok (t_map t) -> merged P t t' -> inside t lo hi -> inside t' lo hi.
Proof.
  intros Hm (_ & _ & _ & [->|(lk & l & rk & r & _ & Habs)]); [done|]. by eapply absorbed_inside.
Qed.

Lemma merge_around_inside key cur t :
  tree_ok (t_map t) -> bt_get key (t_map t) = Some cur ->
  wp (Tree.merge_around key) (fun _ t' => forall lo hi, inside t lo hi -> inside t' lo hi) t.
Proof.
  intros Hm Hg. unfold Tree.merge_around. apply wp_bind. eapply wp_mono; [by apply try_merge_left_spec|].
  intros [] t1 Hmg. destruct (left_attempt _ _ _ _ Hm Hg Hmg) as (key' & cur' & Hg' & _ & _ & _ & _ & Hk).
  apply wp_bind. unfold Tree.after_left. do 2 wp_step. wp_step.
  assert ((if contains_key key (t_map t1) then key
           else match floor_lt key (t_map t1) with Some (k, _) => k | None => key end) = key') as ->.
  { destruct (contains_key _ _); [done|]. by rewrite Hk. }
  eapply wp_mono; [apply try_merge_right_spec; [apply Hmg|done]|].
  intros [] t' Hmg' lo hi Hin. eapply merged_inside; [apply Hmg|done|]. by eapply merged_inside.
Qed.

(** The parts that stay on both sides of the rewritten range. *)
Lemma recut_apart h start end_ k v t t1 :
  tree_ok (t_map t) -> bt_get k (t_map t) = Some v -> start < end_ -> v_start v <= start -> end_ <= v_end v ->
  recut h start end_ v t t1 ->
  (forall w, w ∈ lefts v (cut_s v start) ++ rights v (cut_e v end_) -> bt_get (v_start w) (t_map t1) = Some w) ->
  holds_apart start end_ t t1.
Proof.
  intros Hm Hg Hr Hs He (_ & _ & Hk) Hw lo hi Hlt Hd (k' & w & Hg' & Hlo & Hhi).
  pose proof (ok_start _ _ _ Hm Hg). pose proof (ok_start _ _ _ Hm Hg').
  destruct (decide (k' = k)) as [->|Hne].
  - replace w with v in * by congruence. unfold cut_s, cut_e in Hw. rewrite Z.max_l, Z.min_l in Hw by done.
    destruct Hd as [Hd|Hd].
    + exists (v_start v), (sub v (v_start v) start). split; [|done]. apply (Hw (sub v (v_start v) start)), elem_of_app.
      left. unfold lefts. rewrite (proj2 (Z.ltb_lt _ _)) by lia. left.
    + exists end_, (sub v end_ (v_end v)). split; [|done]. apply (Hw (sub v end_ (v_end v))), elem_of_app.
      right. unfold rights. rewrite (proj2 (Z.ltb_lt _ _)) by lia. left.
  - exists k', w. split; [|done]. rewrite Hk; [done|]. pose proof (ok_vma _ _ _ Hm Hg') as (_ & ? & _).
    destruct (Z.lt_trichotomy k' k) as [Hl|[?|Hl]]; [lia|done|].
    pose proof (ok_disjoint _ Hm _ _ _ _ Hg Hg' Hl). lia.
Qed.

(** An area that holds the whole range is the only one collected. *)
Lemma single_key start end_ k v m :
  tree_ok m -> bt_get k m = Some v -> start < end_ -> v_start v <= start -> end_ <= v_end v ->
  Tree.overlap_keys start end_ m = [k].
Proof.
  intros Hm Hg Hr Hs He. destruct (overlap_listing_lt start end_ m Hm) as [Hso Hin].
  assert (Honly : forall k', k' ∈ Tree.overlap_keys start end_ m <-> k' = k).
  { intros k'. rewrite Hin. split; [|intros ->; exists v; unfold meets; split; [done|lia]].
    intros (w & Hg' & Hw1 & Hw2). pose proof (ok_start _ _ _ Hm Hg). pose proof (ok_start _ _ _ Hm Hg').
    destruct (Z.lt_trichotomy k' k) as [Hl|[?|Hl]]; [|done|]; exfalso.
    - pose proof (ok_disjoint _ Hm _ _ _ _ Hg' Hg Hl). lia.
    - pose proof (ok_disjoint _ Hm _ _ _ _ Hg Hg' Hl). lia. }
  destruct (Tree.overlap_keys start end_ m) as [|x l]; [by pose proof (proj2 (Honly k) eq_refl) as ?%not_elem_of_nil|].
  assert (x = k) as -> by (apply Honly; left). f_equal. destruct l as [|y l]; [done|].
  assert (y = k) as -> by (apply Honly; right; left). apply (StronglySorted_inv) in Hso as [_ Hlt].
  apply Forall_inv in Hlt. lia.
Qed.

Lemma update_flags_apart start end_ set clr t :
  tree_ok (t_map t) -> start < end_ -> inside t start end_ -> no_phys_cut start end_ (t_map t) ->
  wp (Tree.update_flags_range start end_ set clr) (fun _ t' =>
    rewritten (page_flags (flags_update set clr)) start end_ t t' /\ holds_apart start end_ t t') t.
Proof.
  intros Hm Hr (k & v & Hg & Hs & He) Hph.
  assert (Hmt : meets start end_ v) by (unfold meets; lia). pose proof (Hph _ _ Hg Hmt) as Hsp.
  set (g := page_flags (flags_update set clr)). pose proof (flags_changes set clr) as Hf. fold g in Hf.
  pose proof (single_key start end_ k v _ Hm Hg Hr Hs He) as Hkeys.
  apply wp_and.
  - apply update_flags_spec; [done..|]. intros k1 v1 r Hg1 Hm1 Hgr Hmr.
    destruct (overlap_listing_lt start end_ _ Hm) as [_ Hin]. rewrite Hkeys in Hin.
    assert (k1 = k) as -> by (apply list_elem_of_singleton, Hin; eauto).
    assert (v_end v1 = k) by (apply list_elem_of_singleton, Hin; eauto).
    pose proof (ok_start _ _ _ Hm Hg1). pose proof (ok_vma _ _ _ Hm Hg1) as (_ & ? & _). lia.
  - unfold Tree.update_flags_range. rewrite (proj2 (Z.leb_gt _ _)) by done. do 2 wp_step. rewrite Hkeys. cbn [for_each].
    apply wp_bind. unfold Tree.rewrite_merge_step. apply wp_bind, wp_map_take. rewrite Hg. do 2 wp_step. apply wp_bind.
    eapply wp_mono; [by eapply rewrite_one_parts|]. intros key t1 (-> & Hrec & Hget & _ & Hw).
    eapply wp_mono; [exact (merge_around_inside _ _ _ (proj1 Hrec) Hget)|]. intros [] t' Hmono.
    apply wp_ret. intros lo hi Hlt Hd Hin. apply Hmono. by eapply (recut_apart _ start end_ k v t t1).
Qed.

(** ** The flags a process may change at will *)

(** The lock state, the advice of madvise, and the reserved state of an NT
    region. *)
Definition SOFT : Z :=
  Flags.LOCKED + Flags.LOCKONFAULT + Flags.DONTFORK + Flags.WIPEONFORK + Flags.RAND_READ + Flags.SEQ_READ +
  Flags.DONTDUMP + Flags.MERGEABLE + Flags.HUGEPAGE + Flags.NOHUGEPAGE + Flags.NT_RESERVED.

Definition soft (f : Z) : Prop := flags_difference f SOFT = 0.

(** What is left of a page without them. *)
Definition hard : Page -> Page := page_flags (fun f => flags_difference f SOFT).

Lemma soft_bit f n : soft f -> 0 <= n -> Z.testbit SOFT n = false -> Z.testbit f n = false.
Proof.
  intros Hf Hn Hs. assert (Hb : Z.testbit (flags_difference f SOFT) n = false) by (rewrite Hf; apply Z.bits_0).
  unfold flags_difference in Hb. rewrite Z.ldiff_spec, Hs in Hb. by rewrite andb_true_r in Hb.
Qed.

Lemma update_soft set clr f :
  soft set -> soft clr -> flags_difference (flags_update set clr f) SOFT = flags_difference f SOFT.
Proof.
  intros Hs Hc. apply Z.bits_inj'. intros n Hn. unfold flags_update, flags_difference, flags_union.
  destruct (Z.testbit SOFT n) eqn:Eb; [by rewrite !Z.ldiff_spec, Eb, !andb_false_r|].
  pose proof (soft_bit _ _ Hs Hn Eb) as Es. pose proof (soft_bit _ _ Hc Hn Eb) as Ec.
  destruct (flags_contains f _); rewrite !Z.ldiff_spec, Eb, ?Z.lor_spec, ?Z.ldiff_spec, Es, Ec; cbn;
    by rewrite ?orb_false_r, ?andb_true_r.
Qed.

Lemma update_hard set clr p : soft set -> soft clr -> hard (page_flags (flags_update set clr) p) = hard p.
Proof. intros Hs Hc. unfold hard, page_flags. cbn. by rewrite update_soft. Qed.

Lemma hard_contains p b : Z.land b SOFT = 0 -> flags_contains (p_flags (hard p)) b = flags_contains (p_flags p) b.
Proof. intros Hb. by apply contains_difference. Qed.

Lemma hard_sealed p q : hard q = hard p -> sealed q = sealed p.
Proof. intros He. unfold sealed. by rewrite <- (hard_contains q), <- (hard_contains p), He. Qed.

(** Only the locked bytes can change. *)
Lemma hard_counts c p q : c <> Locked -> hard q = hard p -> counts c q = counts c p.
Proof.
  intros Hc He. pose proof (hard_contains q Flags.SHARED eq_refl) as Hq. pose proof (hard_contains p Flags.SHARED eq_refl) as Hp.
  rewrite He in Hq. assert (Hco : p_content q = p_content p) by exact (f_equal p_content He).
  destruct c; [done| |done]. cbn. by rewrite Hco, <- Hq, <- Hp.
Qed.

Lemma locked_extent s start end_ :
  tree_ok (t_map (vmas s)) -> start < end_ ->
  locked_bytes start end_ (Space.areas s) = extent_in (counts Locked) start end_ (t_map (vmas s)).
Proof.
  intros Hs Hr. unfold locked_bytes, extent_in. rewrite <- (sumZ_map (area_in (counts Locked) start end_) snd).
  apply sum_filter_zero. intros v ([k w] & -> & Hin)%list_elem_of_fmap. cbn [snd] in *.
  apply get_elem in Hin; [|apply Hs]. pose proof (ok_vma _ _ _ Hs Hin) as (_ & ? & _).
  unfold area_in, Space.overlaps. cbn. destruct (flags_contains (v_flags w) Flags.LOCKED); [|done].
  destruct (Z.ltb_spec start (v_end w)), (Z.ltb_spec (v_start w) end_); cbn; (split; [try done|try done]); lia.
Qed.

Lemma counter_replace c old new_ acc :
  0 <= counter c acc + (if c is Locked then new_ - old else 0) <= U64_MAX ->
  counter c (Accounting.replace_locked_range old new_ acc) = counter c acc + (if c is Locked then new_ - old else 0).
Proof.
  intros Hb. unfold Accounting.replace_locked_range. destruct (Z.eqb_spec old new_); [destruct c; lia|].
  destruct (old <? new_), c; cbn in *; rewrite ?wrap64_small by lia; lia.
Qed.

(** ** One change of flags *)

Definition reflagged (s s' : AddressSpace) : Prop :=
  space_ok s' /\ settings s s' /\ steady (vmas s) (vmas s') /\ forall a, hard <$> vw s' a = hard <$> vw s a.

Lemma reflagged_device s s' : reflagged s s' -> no_device (t_map (vmas s)) -> no_device (t_map (vmas s')).
Proof.
  intros (_ & _ & _ & Hv) Hn a p Hp. specialize (Hv a). unfold vw in Hv. rewrite Hp in Hv.
  destruct (view (t_map (vmas s)) a) as [q|] eqn:Eq; [|done]. apply (inj Some) in Hv.
  rewrite (f_equal p_content Hv : p_content p = p_content q). by apply (Hn a).
Qed.

Lemma reflagged_refl s : space_ok s -> reflagged s s.
Proof. intros Hs. split_and!; [done|apply settings_refl|apply steady_refl|done]. Qed.

Lemma reflagged_trans s1 s2 s3 : reflagged s1 s2 -> reflagged s2 s3 -> reflagged s1 s3.
Proof.
  intros (_ & H1 & H2 & H3) (? & H4 & H5 & H6).
  split_and!; [done|by eapply settings_trans|by eapply steady_trans|]. intros a. by rewrite H6.
Qed.

Lemma changed_reflagged set clr lo hi s s' :
  soft set -> soft clr -> changed (over (all (page_flags (flags_update set clr))) lo hi (vw s)) s s' -> reflagged s s'.
Proof.
  intros Hs Hc (Hok & Hset & Hst & Hv). split_and!; [done..|]. intros a. rewrite Hv. unfold over, all.
  destruct (_ && _); [|done]. destruct (vw s a) as [p|]; [|done]. cbn. by rewrite update_hard.
Qed.

Lemma inside_bounds s lo hi : space_ok s -> inside (vmas s) lo hi -> 0 <= lo /\ hi < USER_VA_END.
Proof. intros Hs (k & v & Hg & ? & ?). pose proof (ok_vma _ _ _ (so_tree _ Hs) Hg) as (? & ? & ? & _). lia. Qed.

(** The state after a rewrite of the flags and the matching change of the
    locked bytes. *)
Lemma reflagged_space set clr start end_ t' s :
  space_ok s -> soft set -> soft clr -> 0 <= start -> end_ <= USER_VA_END ->
  rewritten (page_flags (flags_update set clr)) start end_ (vmas s) t' ->
  changed (over (all (page_flags (flags_update set clr))) start end_ (vw s)) s
    (set_accounting (Accounting.replace_locked_range (extent_in (counts Locked) start end_ (t_map (vmas s)))
                       (extent_in (counts Locked) start end_ (t_map t')) (accounting s)) (set_vmas t' s)).
Proof.
  intros Hs Hset Hclr H0 Hend (Hm' & [Hst Hd] & Hv'). pose proof (so_tree _ Hs) as Hm.
  split_and!; [|by constructor|done|done]. constructor; cbn; [done| | | |apply Hs].
  - apply Hd, Hs.
  - eapply steady_balanced; [done|apply Hs].
  - intros c. pose proof (counts_uniform c) as Hu.
    assert (Hc : extent (counts c) (t_map t') = counter c (accounting s) +
      (if c is Locked then extent_in (counts Locked) start end_ (t_map t') - extent_in (counts Locked) start end_ (t_map (vmas s)) else 0)).
    { rewrite (so_accounted _ Hs c). assert (c = Locked \/ c <> Locked) as [->|Hn] by (destruct c; [by right|by right|by left]).
      - assert (Hout : forall a, ~ (start <= a < end_) -> view (t_map t') a = view (t_map (vmas s)) a).
        { intros a Ha. rewrite Hv'. unfold over. destruct (Z.leb_spec start a), (Z.ltb_spec a end_); cbn; done || lia. }
        pose proof (extent_confined _ Hu _ _ start end_ Hm Hm' H0 Hend Hout). lia.
      - transitivity (extent (counts c) (t_map (vmas s))); [|destruct c; cbn; congruence || lia].
        apply extent_in_pointwise; [done..|]. intros a. rewrite Hv'. unfold over. destruct (_ && _); [|done].
        destruct (view _ a) as [q|]; [|done]. cbn. apply hard_counts; [done|by apply update_hard]. }
    pose proof (extent_bounds _ _ Hu Hm'). rewrite counter_replace; lia.
Qed.

(** Within one area the change is exact, and the locked bytes are those of
    the pages that are locked after it. *)
Lemma update_flags_range_spec start len set clr s :
  space_ok s -> soft set -> soft clr -> 0 < len -> inside (vmas s) start (start + len) ->
  no_phys_cut start (start + len) (t_map (vmas s)) ->
  wp (update_flags_range start len set clr) (fun _ s' =>
    changed (over (all (page_flags (flags_update set clr))) start (start + len) (vw s)) s s' /\
    holds_apart start (start + len) (vmas s) (vmas s')) s.
Proof.
  intros Hs Hset Hclr Hlen Hin Hph. destruct (inside_bounds _ _ _ Hs Hin) as [H0 Hend]. unfold update_flags_range, sat_add.
  rewrite Z.min_l by (unfold USER_VA_END, U64_MAX in *; lia).
  rewrite uva_new_lt by lia. do 2 wp_step. rewrite locked_extent by (apply Hs || lia).
  apply wp_bind, wp_on_tree.
  eapply wp_mono; [apply update_flags_apart; [apply Hs|lia|done..]|]. intros [] t' [Hrw Hap].
  do 2 wp_step. rewrite locked_extent by (apply Hrw || lia). apply wp_modify. split; [|done].
  exact (reflagged_space set clr start (start + len) t' s Hs Hset Hclr H0 ltac:(lia) Hrw).
Qed.

(** ** The walks *)

(** The areas still to visit lie in order, each inside one area of now, and
    those of device memory are whole pages. *)
Definition laid (s : AddressSpace) (l : list Vma) : Prop :=
  StronglySorted (fun v w => v_end v <= v_start w) l /\
  forall w, w ∈ l -> v_start w < v_end w /\ inside (vmas s) (v_start w) (v_end w) /\
    forall p, vw s (v_start w) = Some p -> is_phys (p_content p) -> single_page w.

Lemma laid_step s s' v l lo hi :
  laid s (v :: l) -> hi <= v_end v -> reflagged s s' -> holds_apart lo hi (vmas s) (vmas s') -> laid s' l.
Proof.
  intros [Hso Hin] Hhi (_ & _ & _ & Hv) Hap. apply StronglySorted_inv in Hso as [Hso Hlt]. split; [done|]. intros w Hw.
  destruct (Hin w ltac:(by right)) as (? & Hi & Hd). rewrite Forall_forall in Hlt. specialize (Hlt w Hw).
  split_and!; [done|apply Hap; [done|lia|done]|]. intros p Hp Hph. specialize (Hv (v_start w)). rewrite Hp in Hv.
  destruct (vw s (v_start w)) as [q|] eqn:Eq; [|done]. apply (inj Some) in Hv. apply (Hd q eq_refl).
  by rewrite <- (f_equal p_content Hv : p_content p = p_content q).
Qed.

Lemma laid_tail s v l : laid s (v :: l) -> laid s l.
Proof.
  intros [Hso Hin]. apply StronglySorted_inv in Hso as [Hso _]. split; [done|]. intros w Hw. apply Hin. by right.
Qed.

Lemma laid_filter s (q : Vma -> bool) l : laid s l -> laid s (List.filter q l).
Proof.
  intros [Hso Hin]. split.
  - clear Hin. induction Hso as [|v l Hso IH Hv]; cbn; [constructor|]. destruct (q v); [|done]. constructor; [done|].
    rewrite Forall_forall in *. intros w Hw. apply Hv. apply list_elem_of_In, filter_In in Hw as [Hw _]. by apply list_elem_of_In.
  - intros w Hw. apply Hin. apply list_elem_of_In, filter_In in Hw as [Hw _]. by apply list_elem_of_In.
Qed.

Lemma laid_snapshot s : space_ok s -> laid s (Space.snapshot_vmas s).
Proof.
  intros Hs. pose proof (so_tree _ Hs) as Hm. unfold Space.snapshot_vmas, Space.areas. rewrite map_map. split.
  - assert (Hl : forall k v, (k, v) ∈ t_map (vmas s) -> bt_get k (t_map (vmas s)) = Some v).
    { intros k v. by apply get_elem, Hm. }
    pose proof (ok_sorted _ Hm) as Hso. revert Hl Hso. generalize (t_map (vmas s)) at 1 3 4. intros l Hl Hso.
    induction Hso as [|[k v] l Hso IH Hv]; cbn; [constructor|]. constructor; [apply IH; intros; apply Hl; by right|].
    apply Forall_forall. intros w ([k' w'] & -> & Hin)%list_elem_of_fmap. cbn. rewrite Forall_forall in Hv.
    pose proof (Hl k v ltac:(left)) as Hg. pose proof (Hl k' w' ltac:(by right)) as Hg'.
    rewrite <- (ok_start _ _ _ Hm Hg'). exact (ok_disjoint _ Hm _ _ _ _ Hg Hg' (Hv _ Hin)).
  - intros w ([k v] & -> & Hin)%list_elem_of_fmap. apply get_elem in Hin; [|apply Hm]. cbn.
    pose proof (ok_vma _ _ _ Hm Hin) as (_ & ? & _). split_and!; [done|by exists k, v|]. unfold vw.
    rewrite (view_in _ _ _ (v_start v) Hm Hin) by lia. intros p [= <-]. rewrite phys_content. exact (so_devices _ Hs k v Hin).
Qed.

(** A part of the area at hand cuts no device page, if it is not a part of
    one. *)
Lemma laid_cut s v l lo hi :
  space_ok s -> laid s (v :: l) -> v_start v <= lo -> lo < hi -> hi <= v_end v ->
  no_device (t_map (vmas s)) \/ (single_page v -> lo = v_start v /\ hi = v_end v) -> no_phys_cut lo hi (t_map (vmas s)).
Proof.
  intros Hs [_ Hl] Hlo Hr Hhi [Hn|Hpg]; [by apply no_device_cut; [apply Hs|]|]. intros k y Hg [? ?] Hph.
  destruct (Hl v ltac:(left)) as (Hv & (kx & x & Hgx & ? & ?) & Hd). pose proof (so_tree _ Hs) as Hm.
  pose proof (ok_start _ _ _ Hm Hg). pose proof (ok_start _ _ _ Hm Hgx).
  assert (k = kx) as ->.
  { destruct (Z.lt_trichotomy k kx) as [Hl'|[?|Hl']]; [|done|].
    - pose proof (ok_disjoint _ Hm _ _ _ _ Hg Hgx Hl'). lia.
    - pose proof (ok_disjoint _ Hm _ _ _ _ Hgx Hg Hl'). lia. }
  assert (x = y) as -> by congruence. destruct (so_devices _ Hs _ _ Hg Hph) as [Hal Hend].
  assert (Hsp : single_page v).
  { apply (Hd (page_at y (v_start v))); [eapply view_in; [done..|lia]|by apply phys_content]. }
  destruct (Hpg Hsp) as [-> ->]. destruct Hsp as [_ He]. lia.
Qed.

(** A change of flags on the way, over a part of the area at hand. *)
Lemma walk_step {A} (b : bool) lo hi set clr v l (k : M AddressSpace A) (Q : A -> AddressSpace -> Prop) s :
  space_ok s -> soft set -> soft clr -> laid s (v :: l) -> v_start v <= lo -> lo < hi -> hi <= v_end v ->
  no_device (t_map (vmas s)) \/ (single_page v -> lo = v_start v /\ hi = v_end v) ->
  (forall s', reflagged s s' -> laid s' l -> wp k Q s') ->
  wp ((if b then update_flags_range lo (hi - lo) set clr else ret tt) ;; k) Q s.
Proof.
  intros Hs Hset Hclr Hl Hlo Hr Hhi Hdev Hk. apply wp_bind. pose proof (laid_cut _ _ _ _ _ Hs Hl Hlo Hr Hhi Hdev) as Hph. destruct b.
  - destruct (proj2 Hl v ltac:(left)) as (_ & (kk & w & Hg & ? & ?) & _). replace hi with (lo + (hi - lo)) in Hhi, Hph by lia.
    eapply wp_mono; [apply update_flags_range_spec; [done..|lia| |done]; exists kk, w; split; [done|lia]|].
    intros [] s' [Hch Hap]. assert (reflagged s s') by (by apply (changed_reflagged set clr lo (lo + (hi - lo)))).
    apply Hk; [done|by eapply laid_step].
  - apply wp_ret, Hk; [by apply reflagged_refl|by eapply laid_tail].
Qed.

Lemma lock_walk_spec start end_ add tmp l spans s0 s :
  soft add -> soft (flags_difference Flags.LOCKED_MASK add) ->
  (forall w, w ∈ l -> Space.overlaps start end_ w = true) -> start < end_ -> pagewise s0 start end_ ->
  reflagged s0 s -> laid s l ->
  wp (lock_walk start end_ add tmp l spans) (fun _ => reflagged s0) s.
Proof.
  intros Hadd Hclr Hov Hr Hpw. revert s tmp spans. induction l as [|v l IH]; intros s tmp spans H0 Hl; cbn [lock_walk]; [by apply wp_ret|].
  pose proof (Hov v ltac:(left)) as Hv. unfold Space.overlaps in Hv. to_prop.
  destruct (proj2 Hl v ltac:(left)) as [? _].
  assert (Hnext : forall s' tmp spans, reflagged s s' -> laid s' l -> wp (lock_walk start end_ add tmp l spans) (fun _ => reflagged s0) s').
  { intros s' tmp' spans' Hs' Hl'. apply IH; [|by eapply reflagged_trans|done]. intros w Hw. apply Hov. by right. }
  pose proof (reflagged_refl s (proj1 H0)) as Hself. pose proof (laid_tail _ _ _ Hl) as Htl.
  destruct (tmp <? v_start v); [by apply wp_ret|]. destruct (supports_mlock v); cbn [negb]; [|by apply Hnext].
  destruct (_ && negb (user_range _ _)); [by apply Hnext|].
  eapply walk_step; [apply H0|done..|lia|lia|lia| |].
  - destruct Hpw as [Hn|[Ha Hb]]; [left; by apply (reflagged_device s0)|right]. intros [Hal He].
    assert (Hal' : (PAGE_SIZE_BYTES | v_end v)) by (rewrite He; by apply Z.divide_add_r; [|apply Z.divide_refl]).
    pose proof (aligned_le start (v_start v) Ha Hal). pose proof (aligned_le (v_end v) end_ Hal' Hb). lia.
  - intros s' Hs' Hl'. by apply Hnext.
Qed.

Lemma lock_all_spec add onfault l spans s0 s :
  soft add -> soft (flags_difference Flags.LOCKED_MASK add) -> reflagged s0 s -> laid s l ->
  wp (lock_all add onfault l spans) (fun _ => reflagged s0) s.
Proof.
  intros Hadd Hclr. revert s spans. induction l as [|v l IH]; intros s spans H0 Hl; cbn [lock_all]; [by apply wp_ret|].
  destruct (proj2 Hl v ltac:(left)) as [? _]. destruct (supports_mlock v); cbn [negb]; [|apply IH; [done|by eapply laid_tail]].
  eapply walk_step; [apply H0|done..|lia|by right|]. intros s' Hs' Hl'. apply IH; [by eapply reflagged_trans|done].
Qed.

Lemma unlock_all_spec l cleared s0 s : reflagged s0 s -> laid s l -> wp (unlock_all l cleared) (fun _ => reflagged s0) s.
Proof.
  revert s cleared. induction l as [|v l IH]; intros s cleared H0 Hl; cbn [unlock_all]; [by apply wp_ret|].
  destruct (proj2 Hl v ltac:(left)) as [? _].
  destruct (flags_intersects _ _); [|apply IH; [done|by eapply laid_tail]].
  eapply (walk_step true); [apply H0|done..|lia|by right|]. intros s' Hs' Hl'. apply IH; [by eapply reflagged_trans|done].
Qed.
