(* ===== verification/AddrSpaceMove.v ===== *)
(** * Moving mappings

    [mremap] without userfaultfd contexts: a move installs a mapping of the
    same object, with the same rights, from the same byte of the object on,
    and unmaps the source; a shrink drops the tail. *)

From stdpp Require Import strings.
From S2P Require Import Prelude BTree Vma VmaTree VmaTreeInv VmaTreeOps VmaTreeSpec VmaTreeRange.
From S2P Require Import VmaTreeEdit Extent Hole Rmap Account AddrSpace AddrSpaceOps AddrSpaceInv AddrSpaceSpec.
From S2P Require Import AddrSpaceMmap.

Import SpaceOps.

(** Documented of [FileBacking::huge_page_size]: zero, or the size of a page
    the hardware has, which is a power of two. *)
Definition huge_ok (env : Env) : Prop :=
  forall b, exists j, (j < 47)%nat /\ Z.max (huge_page_size env b) 1 = pow2 j.

Definition plain_place (fixed : bool) (hint : option Z) : Space.MmapPlacement :=
  match fixed, hint with
  | true, Some a => Space.Fixed a
  | _, h => Space.Advisory h
  end.

Lemma plain_align env fixed hint b :
  huge_ok env -> exists j, (j < 47)%nat /\ Space.placement_align env (plain_place fixed hint) b = pow2 j.
Proof.
  intros Hh. assert (Hp : forall al, Z.max al (match plain_place fixed hint with Space.AdvisoryAligned _ a => Z.max a 1 | _ => 1 end)
    = Z.max al 1) by (intros al; by destruct fixed, hint).
  unfold Space.placement_align. rewrite Hp. destruct b as [|o off| | | | |]; try (exists 0%nat; split; [lia|done]).
  destruct (Hh o) as (j & Hj & He). exists j. split; [done|]. rewrite He. pose proof (pow2_pos j). lia.
Qed.

Lemma rebase_run (b : VmaBacking) d len (Q : VmaBacking -> AddressSpace -> Prop) s :
  0 <= d -> 0 < len -> backing_fits (sub_content b d) len -> Q (sub_content b d) s -> wp (rebase_backing b d) Q s.
Proof.
  intros Hd Hl Hf HQ. unfold rebase_backing. destruct b; cbn in *; try by apply wp_ret.
  all: apply wp_bind, wp_add64; [lia|]; by apply wp_ret.
Qed.

(** The view after unmapping [[start, end)], or before it if the unmap was
    refused. *)
Definition maybe_emptied (env : Env) (start end_ : Z) (s s' : AddressSpace) : Prop :=
  (~ seals s start end_ /\ ~ refused env s start end_ /\ changed (over nothing start end_ (vw s)) s s') \/
  ((seals s start end_ \/ refused env s start end_) /\ s' = s).

Lemma maybe_emptied_ok env start end_ s s' : space_ok s -> maybe_emptied env start end_ s s' -> space_ok s' /\ settings s s'.
Proof. intros Hs [(_ & _ & ? & ? & _)|[_ ->]]; [done|]. split; [done|apply settings_refl]. Qed.

Lemma munmap_ignored env start end_ (Q : KResult unit -> AddressSpace -> Prop) s :
  space_ok s -> 0 <= start < end_ -> end_ <= USER_VA_END -> no_phys_cut start end_ (t_map (vmas s)) ->
  (forall r s', maybe_emptied env start end_ s s' -> Q r s') -> wp (Space.munmap_locked env start end_) Q s.
Proof.
  intros Hs Hb He Hph HQ. eapply wp_mono; [apply munmap_locked_spec; [done|lia|lia|done]|]. intros [[]|e] s' Hr; apply HQ.
  - rewrite (proj2 (Z.leb_le _ _)) in Hr by done. by left.
  - destruct Hr as (-> & _ & [[_ ?]|[_ ?]]); right; auto.
Qed.

Lemma src_area s old src :
  space_ok s -> Space.find_vma s old = Some src ->
  exists v, src = clone v /\ bt_get (v_start v) (t_map (vmas s)) = Some v /\ v_start v <= old < v_end v.
Proof.
  intros Hs Hf. unfold Space.find_vma in Hf. destruct (Tree.find_containing _ _) as [v|] eqn:Ef; [|done].
  injection Hf as <-. exists v. split; [done|]. apply find_containing_spec in Ef; [done|apply Hs].
Qed.

Section move.
Context (env : Env) (move_pages : Z -> Z -> Z -> option Error) (unmap_destination : Z -> Z -> option Error).
Context (s : AddressSpace) (old old_size new_size : Z) (src : Vma).
Hypothesis Henv : huge_ok env.
Hypothesis Hs : space_ok s.
Hypothesis Hl : layout_ok s.
Hypothesis Hsize : 0 < new_size <= U64_MAX.
Hypothesis Hold : 0 <= old < USER_VA_END.
(** [old] lies in [src], and the object has room for the new size. *)
Hypothesis Hsrc : Space.find_vma s old = Some src.
Hypothesis Hfits : backing_fits (sub_content (v_backing src) (old - v_start src)) new_size.
Hypothesis Hplain : ~ is_phys (v_backing src).

(** What the move installs over [[va, va + new_size)]. *)
Definition moved_over (va : Z) : (Z -> option Page) -> Z -> option Page :=
  mapped_over va (va + new_size) (v_prot src) (v_may_prot src) (Space.future_flags s (v_flags src))
    (sub_content (v_backing src) (old - v_start src)).

(** [va] is where the layout puts the destination. *)
Definition lands (fixed : bool) (hint : option Z) (va : Z) : Prop :=
  exists j, Space.placement_align env (plain_place fixed hint) (sub_content (v_backing src) (old - v_start src)) = pow2 j /\
            placed s (plain_place fixed hint) new_size j va.

(** The state after the destination was installed at [va]. *)
Definition installed (fixed : bool) (hint : option Z) (va : Z) (s1 : AddressSpace) : Prop :=
  lands fixed hint va /\ 0 <= va /\ va + new_size < USER_VA_END /\ (PAGE_SIZE_BYTES | new_size) /\ changed (moved_over va (vw s)) s s1 /\
  ~ seals s va (va + new_size) /\ (if fixed then hint = Some va else clear (t_map (vmas s)) va (va + new_size)).

Lemma src_start : v_start src <= old.
Proof. destruct (src_area s old src Hs Hsrc) as (v & -> & _ & ?). cbn. lia. Qed.

(** The destination has no device page. *)
Lemma installed_plain fixed hint va s1 a p :
  installed fixed hint va s1 -> vw s1 a = Some p -> is_phys (p_content p) -> ~ va <= a < va + new_size /\ vw s a = Some p.
Proof.
  intros (_ & _ & _ & _ & (_ & _ & _ & Hv) & _). rewrite Hv. unfold moved_over, mapped_over.
  destruct ((va <=? a) && (a <? va + new_size)) eqn:E.
  - intros [= <-]. cbn. by destruct (v_backing src).
  - intros Hp _. split; [|done]. apply andb_false_iff in E as [E|E]; to_prop; lia.
Qed.

Lemma installed_cut fixed hint va s1 :
  installed fixed hint va s1 -> no_phys_cut va (va + new_size) (t_map (vmas s1)).
Proof.
  intros Hi. pose proof Hi as (_ & _ & _ & _ & (Hs1 & _) & _). apply plain_cut; [apply Hs1|lia|]. intros a p Ha Hp Hph.
  by destruct (installed_plain _ _ _ _ _ _ Hi Hp Hph).
Qed.

Lemma installed_pagewise fixed hint va s1 lo hi :
  installed fixed hint va s1 -> pagewise s lo hi -> no_phys_cut lo hi (t_map (vmas s1)).
Proof.
  intros Hi Hpw. apply pagewise_cut; [apply Hi|]. destruct Hpw as [Hn|Hal]; [left|by right]. intros a p Hp Hph.
  destruct (installed_plain _ _ _ _ _ _ Hi Hp Hph) as [_ Ha]. by apply (Hn a p).
Qed.

(** The page at an address of the destination is the page of the source, as
    a new mapping of it. *)
Lemma moved_content va d :
  0 <= d < new_size ->
  exists p, moved_over va (vw s) (va + d) = Some p /\ p_prot p = v_prot src /\ p_may_prot p = v_may_prot src /\
            p_content p = content_at (v_backing src) (old + d - v_start src).
Proof.
  intros Hd. unfold moved_over, mapped_over. rewrite (proj2 (Z.leb_le _ _)), (proj2 (Z.ltb_lt _ _)) by lia.
  eexists. split_and!; [done..|]. cbn. clear - Hplain.
  destruct (v_backing src); cbn; try done; f_equal; lia.
Qed.

Lemma install_spec fixed hint move_len finish Q :
  (forall h, hint = Some h -> 0 <= h < USER_VA_END) -> (fixed = true -> hint <> None) ->
  (forall e s', relinked s s' -> Q (Err e) s') ->
  (forall va s1, installed fixed hint va s1 -> move_pages old va move_len = None -> wp (finish va) Q s1) ->
  (forall va s1 e s2, installed fixed hint va s1 -> move_pages old va move_len = Some e ->
     maybe_emptied env va (va + new_size) s1 s2 -> Q (Err e) s2) ->
  wp (install_and_move env move_pages unmap_destination None src old move_len new_size hint fixed finish) Q s.
Proof.
  intros Hh Hfix Herr Hok Hmv. pose proof src_start as Hst. unfold install_and_move. do 2 wp_step; [lia|].
  apply wp_bind. eapply rebase_run; [| |exact Hfits|]; [lia..|].
  destruct (clear_destination _ _ _ _) as [e|]; [apply wp_bind, wp_ret, wp_ret, Herr, relinked_refl|].
  apply wp_bind. unfold Space.mmap_preserving_prot_locked.
  destruct (plain_align env fixed hint (sub_content (v_backing src) (old - v_start src)) Henv) as (j & Hj & Hal).
  assert (Hnp : forall p, pinned p new_size (sub_content (v_backing src) (old - v_start src))).
  { intros p Hph. exfalso. by destruct (v_backing src). }
  apply wp_mono with (P := fun r s1 => match r with Ok va => installed fixed hint va s1 | Err _ => relinked s s1 end).
  - assert (Hm : wp (r ← Space.mmap_with_may_at_inner_locked env (plain_place fixed hint) new_size (v_prot src)
        (v_may_prot src) (v_flags src) (sub_content (v_backing src) (old - v_start src)) Space.Preserve; ret (Space.flatten r))
        (fun r s1 => match r with Ok va => installed fixed hint va s1 | Err _ => relinked s s1 end) s).
    { apply wp_bind. eapply wp_mono.
      { apply (mmap_spec env s _ _ _ _ _ _ Space.Preserve j); try done; [lia|]. intros h Heq. apply Hh. by destruct fixed, hint. }
      intros [[e|]|va] s1 Hr; apply wp_ret; [apply Hr..|]. destruct Hr as (_ & Hpg & Hp & H0 & Hend & _ & Hfx & Hden & Hch).
      split; [by exists j|]. do 4 (split; [done|]). destruct fixed.
      - destruct hint as [h|]; [|by destruct Hfix]. destruct Hp as [-> _]. split; [by apply Hfx|done].
      - assert (Hc : clear (t_map (vmas s)) va (va + new_size)).
        { destruct Hp as [[_ Hu]|[_ Hb]]; [apply Hu|]. by eapply best_clear in Hb as [_ ?]; [|done|lia]. }
        split; [by apply clear_unsealed|done]. }
    destruct fixed, hint; try exact Hm. by destruct Hfix.
  - intros [va|e] s1 Hr; [|by apply wp_bind, wp_ret, wp_ret, Herr].
    destruct (move_pages old va move_len) as [e|] eqn:Emv; [|by apply Hok].
    pose proof Hr as (_ & H0 & Hend & _ & (Hs1 & _) & _). do 2 wp_step; [unfold USER_VA_END, U64_MAX in *; lia|].
    apply wp_bind, munmap_ignored; [done|lia|lia|by eapply installed_cut|]. intros _ s2 Hme. apply wp_bind, wp_ret, wp_ret.
    by eapply Hmv.
Qed.

(** ** The whole operation *)

Hypothesis Hquiet : has_uffd s = false.
Hypothesis Hpage : (PAGE_SIZE_BYTES | old).
Hypothesis Hold_size : 0 < old_size.
Hypothesis Hold_end : old + old_size < USER_VA_END.
Hypothesis Hpw : pagewise s old_size new_size.

Lemma source_pagewise : pagewise s old (old + old_size).
Proof. destruct Hpw as [?|[? ?]]; [by left|right]. split; [done|by apply Z.divide_add_r]. Qed.

Lemma tail_pagewise : pagewise s (old + new_size) (old + old_size).
Proof. destruct Hpw as [?|[? ?]]; [by left|right]. split; by apply Z.divide_add_r. Qed.

Lemma quiet_watch (Q : option (Z * Z) -> AddressSpace -> Prop) : Q None s -> wp (remap_watch env old) Q s.
Proof. intros HQ. unfold remap_watch. do 2 wp_step. rewrite Hquiet. by apply wp_ret. Qed.

Definition dest_hint (fixed dontunmap : bool) (new_addr : option Z) : option Z :=
  if dontunmap then new_addr
  else if fixed then (match new_addr with Some a => Some a | None => Some old end) else None.

(** The results of a call: a shrink in place, a move, or a failure. *)
Definition remapped (fixed dontunmap : bool) (new_addr : option Z) (r : KResult Z) (s' : AddressSpace) : Prop :=
  match r with
  | Ok va =>
      (va = old /\ fixed = false /\ dontunmap = false /\
       (new_size = old_size /\ s' = s \/
        new_size < old_size /\ maybe_emptied env (old + new_size) (old + old_size) s s')) \/
      (exists s1, installed fixed (dest_hint fixed dontunmap new_addr) va s1 /\
         move_pages old va (Z.min old_size new_size) = None /\
         if dontunmap then s' = s1 else maybe_emptied env old (old + old_size) s1 s')
  | Err e =>
      relinked s s' \/
      exists va s1, installed fixed (dest_hint fixed dontunmap new_addr) va s1 /\
        move_pages old va (Z.min old_size new_size) = Some e /\ maybe_emptied env va (va + new_size) s1 s'
  end.

Lemma page_low : Z.land old (PAGE_SIZE_BYTES - 1) = 0.
Proof. change PAGE_SIZE_BYTES with (pow2 12). rewrite land_align. by apply divide_mod. Qed.

Lemma dontunmap_spec maymove fixed new_addr :
  (forall h, new_addr = Some h -> 0 <= h < USER_VA_END) -> (fixed = true -> new_addr <> None) ->
  wp (mremap_dontunmap env move_pages unmap_destination old old_size new_size maymove fixed new_addr (old + old_size))
    (remapped fixed true new_addr) s.
Proof.
  intros Hn Hfx. unfold mremap_dontunmap. destruct (negb maymove || negb (new_size =? old_size)) eqn:Eg; [apply wp_ret; left; apply relinked_refl|].
  apply orb_false_iff in Eg as [_ Eg]. to_prop. assert (Hlen : Z.min old_size new_size = old_size) by lia.
  apply wp_bind, quiet_watch. do 2 wp_step. rewrite Hsrc. destruct (_ || _); [apply wp_ret; left; apply relinked_refl|].
  apply install_spec; [done..| | |].
  - intros e s' Hr. by left.
  - intros va s1 Hi Hmv. apply wp_bind, wp_ret, wp_ret. right. rewrite <- Hlen in Hmv at 1. by exists s1.
  - intros va s1 e s2 Hi Hmv Hme. right. rewrite <- Hlen in Hmv at 1. by exists va, s1.
Qed.

Lemma finish_moved fixed new_addr va s1 :
  installed fixed (dest_hint fixed false new_addr) va s1 -> move_pages old va (Z.min old_size new_size) = None ->
  wp (old_end_va ← add64 old old_size; Space.munmap_locked env old old_end_va ;; remap_done None old va old_size ;; ret (Ok va))
    (remapped fixed false new_addr) s1.
Proof.
  intros Hi Hmv. pose proof Hi as (_ & _ & _ & _ & (Hs1 & _) & _).
  do 2 wp_step; [unfold USER_VA_END, U64_MAX in *; lia|]. apply wp_bind, munmap_ignored; [done|lia|lia| |].
  { eapply installed_pagewise; [done|apply source_pagewise]. }
  intros _ s2 Hme. apply wp_bind, wp_ret, wp_ret. right. by exists s1.
Qed.

Lemma mremap_spec maymove fixed dontunmap new_addr :
  (forall h, new_addr = Some h -> 0 <= h < USER_VA_END) -> (fixed = true -> new_addr <> None) ->
  wp (mremap_full_with_move env move_pages unmap_destination old old_size new_size maymove fixed dontunmap new_addr)
    (remapped fixed dontunmap new_addr) s.
Proof.
  intros Hn Hfx. assert (Hsame : forall e, remapped fixed dontunmap new_addr (Err e) s) by (intros; left; apply relinked_refl).
  unfold mremap_full_with_move. rewrite page_low, (proj2 (Z.eqb_neq new_size 0)) by lia. cbn [negb orb Z.eqb].
  unfold checked_add at 1. rewrite (proj2 (Z.leb_le _ _)) by (unfold USER_VA_END, U64_MAX in *; lia).
  destruct dontunmap; [by apply dontunmap_spec|]. apply wp_bind.
  apply wp_mono with (P := fun w s1 => w = None /\ s1 = s).
  { destruct (_ && _); [by apply quiet_watch|by apply wp_ret]. }
  intros w s1 [-> ->]. do 2 wp_step. rewrite Hsrc. cbn zeta.
  match goal with |- context [match ?g with Some _ => _ | None => _ end] => destruct g as [e|] end; [by apply wp_ret|].
  destruct fixed; cbn [negb andb]; rewrite ?andb_false_r, ?andb_true_r.
  - apply install_spec.
    + intros h Hh. destruct new_addr; [by apply Hn|]. by injection Hh as <-.
    + by destruct new_addr.
    + intros e s' Hr. by left.
    + intros va s1 Hi Hmv. by apply finish_moved.
    + intros va s1 e s2 Hi Hmv Hme. right. by exists va, s1.
  - bool_case (new_size <? old_size).
    { do 2 wp_step; [unfold USER_VA_END, U64_MAX in *; lia|]. rewrite !uva_new_lt by lia.
      apply wp_bind, munmap_ignored; [done|lia|lia|by apply pagewise_cut, tail_pagewise|]. intros _ s2 Hme. apply wp_ret. left. auto 6. }
    bool_case (new_size =? old_size); [apply wp_ret; left; auto 6|].
    destruct maymove; cbn [negb]; [|by apply wp_ret].
    apply install_spec; [done..| | |].
    + intros e s' Hr. by left.
    + intros va s1 Hi Hmv. by apply finish_moved.
    + intros va s1 e s2 Hi Hmv Hme. right. by exists va, s1.
Qed.

End move.

(** ** What a move takes away *)

(** Every object lets its mappings be split. *)
Definition splittable (env : Env) : Prop := forall b, may_split env b = true.

Lemma splittable_refused env s lo hi : splittable env -> ~ refused env s lo hi.
Proof.
  intros Hsp. unfold refused, Tree.refuses_split_raw_end. destruct (Tree.raw_end_key hi); [|done].
  intros ([k v] & _ & Hv)%existsb_exists. apply andb_true_iff in Hv as [_ Hv]. unfold vma_may_split in Hv.
  destruct (object_of _) as [b|]; [by rewrite Hsp in Hv|done].
Qed.

Lemma emptied_gone env lo hi s s' :
  splittable env -> ~ seals s lo hi -> maybe_emptied env lo hi s s' -> forall a, lo <= a < hi -> vw s' a = None.
Proof.
  intros Hsp Hns [(_ & _ & _ & _ & _ & Hv)|[[?|Hr] _]] a Ha; [|done|by apply splittable_refused in Hr].
  rewrite Hv. unfold over. rewrite (proj2 (Z.leb_le _ _)), (proj2 (Z.ltb_lt _ _)) by lia. by destruct (vw s a).
Qed.

Lemma future_contains s f b : Z.land b Flags.LOCKED_MASK = 0 -> flags_contains (Space.future_flags s f) b = flags_contains f b.
Proof.
  intros Hb. unfold Space.future_flags. destruct (Space.mlock_future_policy s) as [[] []]; try done; apply contains_union; [done|].
  apply Z.bits_inj'. intros n Hn. assert (Hn' : Z.testbit (Z.land b Flags.LOCKED_MASK) n = false) by (by rewrite Hb, Z.bits_0).
  unfold Flags.LOCKED_MASK, flags_union in Hn'. rewrite Z.land_spec, Z.lor_spec in *. rewrite Z.bits_0.
  by destruct (Z.testbit b n), (Z.testbit Flags.LOCKED n).
Qed.

(** The destination of an area that is not sealed is not sealed. *)
Lemma installed_unsealed env s old old_size new_size src fixed hint va s1 lo hi :
  space_ok s -> Space.find_vma s old = Some src -> 0 < old_size -> ~ seals s old (old + old_size) ->
  installed env s old new_size src fixed hint va s1 ->
  (forall a, lo <= a < hi -> va <= a < va + new_size \/ ~ seals s a (a + 1)) -> ~ seals s1 lo hi.
Proof.
  intros Hs Hsrc Hos Hns (_ & _ & _ & _ & (_ & _ & _ & Hv) & _) Hr (a & p & Ha & Hp & Hse). rewrite Hv in Hp.
  unfold moved_over, mapped_over in Hp. destruct ((va <=? a) && (a <? va + new_size)) eqn:Ea.
  - injection Hp as <-.
    change (flags_contains (flags_difference (Space.future_flags s (v_flags src)) Flags.UFFD_MASK) Flags.SEALED = true) in Hse.
    rewrite contains_difference, future_contains in Hse by done.
    destruct (src_area s old src Hs Hsrc) as (v & -> & Hg & Hb). apply Hns. exists old, (page_at v old).
    split_and!; [lia..|by eapply view_in; [apply Hs|..]|]. cbn in Hse. by rewrite contains_difference in Hse.
  - destruct (Hr a Ha) as [Hin|Hno]; [apply andb_false_iff in Ea as [Ea|Ea]; to_prop; lia|]. apply Hno. exists a, p.
    split_and!; [lia..|done|done].
Qed.
