(* ===== verification/AddrSpaceReach.v ===== *)
(** * Histories of an address space

    The requests a process makes of its address space, the conditions under
    which the kernel passes them on, and what holds after any number of them:
    no request panics, the invariant holds, sealed pages keep everything but
    their lock state and advice, an address space that refuses executable
    memory keeps refusing it, and a file sealed against writing gets no new
    page to write it through.

    Not among the requests: registering with userfaultfd and naming a range
    (they may end in the panic of [VmmFindings.collected_key_panic]), memory
    policies and the growth of a stack (they lose track of calls and bytes,
    [VmmFindings.books_drift]), device mappings of more than a page (cutting
    one shifts it, [VmmFindings.device_cut_shifts]), the origins of NT views,
    and fork. *)

From stdpp Require Import relations strings list.
From S2P Require Import Prelude BTree Vma VmaTree VmaTreeInv VmaTreeOps VmaTreeSpec VmaTreeRange.
From S2P Require Import VmaTreeEdit Extent Hole Rmap Account AddrSpace AddrSpaceOps AddrSpaceInv AddrSpaceSpec.
From S2P Require Import AddrSpaceMmap AddrSpaceProt AddrSpaceLock AddrSpaceMove RmapSpec.

Import SpaceOps.

Inductive Request :=
| Mmap (p : Space.MmapPlacement) (len prot may_prot flags : Z) (backing : VmaBacking)
| Munmap (addr len : Z)
| Mprotect (addr len prot : Z) (read_implies_exec : bool) (security : Vma -> Z -> option Error) (key_for : Vma -> Z)
| Mseal (start len flags : Z)
| Mremap (old old_size new_size : Z) (maymove fixed dontunmap : bool) (new_addr : option Z)
| MdweSet (request : Mdwe.MdweRequest)
| MlockFuture (enabled onfault : bool)
| MmapAdmitted (p : Space.MmapPlacement) (len prot may_prot flags : Z) (backing : VmaBacking) (admission : Mdwe.MdweAdmission)
| Mlock (start len add : Z)
| Mlockall (future current onfault : bool)
| Munlockall
| Advise (start len set clear : Z).

Section requests.
Context (env : Env) (move_pages : Z -> Z -> Z -> option Error) (unmap_destination : Z -> Z -> option Error).

Definition serve (r : Request) : M AddressSpace unit :=
  match r with
  | Mmap p len prot may_prot flags backing => Space.mmap_with_may_at env p len prot may_prot flags backing ;; ret tt
  | Munmap addr len => Space.munmap env addr len ;; ret tt
  | Mprotect addr len prot rie security key_for =>
      mprotect_user_with_security env prot rie security key_for addr len ;; ret tt
  | Mseal start len flags =>
      match mseal_args start len flags with
      | Ok (Some (s, e)) =>
          match uva_new s, uva_new e with
          | Some s, Some e => mseal_range s e ;; ret tt
          | _, _ => ret tt
          end
      | _ => ret tt
      end
  | Mremap old old_size new_size maymove fixed dontunmap new_addr =>
      mremap_full_with_move env move_pages unmap_destination old old_size new_size maymove fixed dontunmap new_addr ;; ret tt
  | MdweSet request => Space.mdwe_set request ;; ret tt
  | MlockFuture enabled onfault => Space.set_mlock_future enabled onfault
  | MmapAdmitted p len prot may_prot flags backing admission =>
      Space.mmap_with_may_at_admitted env p len prot may_prot flags backing admission ;; ret tt
  | Mlock start len add => apply_vma_lock_flags start len add ;; ret tt
  | Mlockall future current onfault => apply_mlockall_flags future current onfault ;; ret tt
  | Munlockall => munlock_all ;; ret tt
  | Advise start len set clear => update_flags_range start len set clear
  end.

(** Addresses are user addresses and sizes are [u64]; the file range of a
    mapping has offsets within [u64], and alignments are powers of two.
    Device memory, and a kernel frame mapped by its address, is mapped one
    page at a time at a fixed address, as the kernel maps the time page of the
    vdso, and is not moved; once some is mapped, ranges to lock, advise and
    move are whole pages. Only lock flags are set by locking, and only advice,
    within one area, by advising. *)
Definition valid (s : AddressSpace) (r : Request) : Prop :=
  match r with
  | Mmap p len _ _ _ backing | MmapAdmitted p len _ _ _ backing _ =>
      0 <= len <= U64_MAX /\ (exists j, (j < 47)%nat /\ Space.placement_align env p backing = pow2 j) /\
      (forall h, hint_of p = Some h -> 0 <= h < USER_VA_END) /\ backing_fits backing len /\ pinned p len backing
  | Munmap addr len => 0 <= addr < USER_VA_END /\ 0 <= len <= U64_MAX
  | Mprotect addr len _ _ _ _ => 0 <= addr < USER_VA_END /\ 0 <= len <= U64_MAX
  | Mseal start len _ => 0 <= start <= U64_MAX /\ 0 <= len <= U64_MAX
  | Mremap old old_size new_size _ fixed _ new_addr =>
      0 <= old < USER_VA_END /\ 0 < old_size /\ old + old_size < USER_VA_END /\ 0 <= new_size <= U64_MAX /\
      (forall h, new_addr = Some h -> 0 <= h < USER_VA_END) /\ (fixed = true -> new_addr <> None) /\
      (forall src, Space.find_vma s old = Some src ->
         backing_fits (sub_content (v_backing src) (old - v_start src)) new_size /\ ~ is_phys (v_backing src)) /\
      pagewise s old_size new_size
  | Mlock start len add => 0 <= start /\ 0 <= len /\ flags_difference add Flags.LOCKED_MASK = 0 /\ pagewise s start (start + len)
  | Advise start len set clear => 0 < len /\ inside (vmas s) start (start + len) /\ pagewise s start (start + len) /\ soft set /\ soft clear
  | MdweSet _ | MlockFuture _ _ | Mlockall _ _ _ | Munlockall => True
  end.

(** ** What every request keeps *)

Record live (s : AddressSpace) : Prop := {
  lv_ok : space_ok s;
  lv_layout : layout_ok s;
  lv_quiet : has_uffd s = false;
  lv_mdwe : exists r, mdwe s = Mdwe.encode r;
}.

Definition wx_prot (prot : Z) : bool := flags_contains prot Prot.WRITE && flags_contains prot Prot.EXEC.

Definition wx (p : Page) : bool := wx_prot (p_prot p).

Definition wx_free (s : AddressSpace) : Prop := forall a p, vw s a = Some p -> wx p = false.

Definition mdwe_on (s : AddressSpace) : bool := negb (mdwe s =? Mdwe.DISABLED).

(** A page through which the file with the reverse map [id] can be written. *)
Definition writes_file (id : Z) (p : Page) : bool :=
  match p_content p with
  | File b _ =>
      flags_contains (p_flags p) Flags.SHARED && flags_contains (p_may_prot p) Prot.WRITE &&
      bool_decide (file_rmap_of env b = Some id)
  | _ => false
  end.

Definition unwritten (id : Z) (s : AddressSpace) : Prop := forall a p, vw s a = Some p -> writes_file id p = false.

(** A mapping admitted beforehand is vetted when what was admitted is not
    both writable and executable; every other request is vetted as it runs. *)
Definition vetted (r : Request) : Prop :=
  match r with
  | MmapAdmitted _ _ _ _ _ _ admission => wx_prot (Mdwe.admitted_prot admission) = false
  | _ => True
  end.

(** A sealed page keeps everything but the flags open to everyone; once
    memory-deny-write-execute is on it stays on and, if the request is
    [ok], no page becomes both writable and executable; reservations and seals
    of files stay, and a file sealed against writing gets no writable page. *)
Record lawful (ok : Prop) (s s' : AddressSpace) : Prop := {
  lw_live : live s';
  lw_sealed : forall a p, vw s a = Some p -> sealed p = true -> exists q, vw s' a = Some q /\ hard q = hard p;
  lw_mdwe : mdwe_on s = true -> mdwe s' = mdwe s;
  lw_wx : ok -> mdwe_on s = true -> wx_free s -> wx_free s';
  lw_pending : forall id, FileRmap.pending_writable (file_rmaps s' id) = FileRmap.pending_writable (file_rmaps s id);
  lw_denied : forall id, FileRmap.writable_denied (file_rmaps s' id) = FileRmap.writable_denied (file_rmaps s id);
  lw_unwritten : forall id, FileRmap.writable_denied (file_rmaps s id) = true -> unwritten id s -> unwritten id s';
}.

Lemma lawful_refl ok s : live s -> lawful ok s s.
Proof. intros. constructor; eauto. Qed.

Lemma lawful_trans ok s1 s2 s3 : lawful ok s1 s2 -> lawful ok s2 s3 -> lawful ok s1 s3.
Proof.
  intros [? H1 Hm1 Hw1 Hp1 Hd1 Hu1] [? H2 Hm2 Hw2 Hp2 Hd2 Hu2].
  assert (Hon : mdwe_on s1 = true -> mdwe_on s2 = true) by (intros H; unfold mdwe_on; by rewrite Hm1).
  constructor; [done| | |by auto| | |].
  - intros a p Ha Hp. destruct (H1 a p Ha Hp) as (q & Hq & Hpq). destruct (H2 a q Hq) as (r & Hr & Hqr).
    + by rewrite (hard_sealed p q).
    + exists r. split; [done|congruence].
  - intros H. rewrite Hm2, Hm1; auto.
  - intros id. by rewrite Hp2.
  - intros id. by rewrite Hd2.
  - intros id Hd Hun. apply Hu2; [by rewrite Hd1|auto].
Qed.

Lemma lawful_weaken (ok ok' : Prop) s s' : (ok' -> ok) -> lawful ok s s' -> lawful ok' s s'.
Proof. intros H []. constructor; auto. Qed.

Lemma live_settings s s' : live s -> space_ok s' -> settings s s' -> live s'.
Proof.
  intros [_ Hl Hq Hmd] Hok Hset. constructor; [done| |by rewrite (st_has _ _ Hset)|by rewrite (st_mdwe _ _ Hset)].
  unfold layout_ok, arena_top in *. by rewrite (st_topdown _ _ Hset), (st_base _ _ Hset).
Qed.

Lemma lawful_changed (ok : Prop) f s s' :
  live s -> changed f s s' ->
  (forall a p, vw s a = Some p -> sealed p = true -> exists q, f a = Some q /\ hard q = hard p) ->
  (ok -> mdwe_on s = true -> wx_free s -> forall a p, f a = Some p -> wx p = false) ->
  (forall id, FileRmap.writable_denied (file_rmaps s id) = true -> unwritten id s ->
     forall a p, f a = Some p -> writes_file id p = false) ->
  lawful ok s s'.
Proof.
  intros Hlv (Hok & Hset & _ & Hv) Hse Hwx Hun. constructor.
  - by eapply live_settings.
  - intros a p Ha Hp. rewrite Hv. by apply Hse.
  - intros _. apply Hset.
  - intros Hk Hon Hw a p. rewrite Hv. by apply Hwx.
  - apply Hset.
  - apply Hset.
  - intros id Hd Hu a p. rewrite Hv. by eapply Hun.
Qed.

(** Every page after the change has the rights and the object of one before. *)
Definition akin (p q : Page) : Prop := wx q = wx p /\ forall id, writes_file id q = writes_file id p.

Lemma hard_akin p q : hard q = hard p -> akin p q.
Proof.
  intros He. pose proof (hard_contains q Flags.SHARED eq_refl) as Hq. pose proof (hard_contains p Flags.SHARED eq_refl) as Hp.
  rewrite He in Hq. assert (p_prot q = p_prot p) as Hpr by exact (f_equal p_prot He). unfold akin, wx, writes_file.
  assert (p_content q = p_content p) as -> by exact (f_equal p_content He).
  assert (p_may_prot q = p_may_prot p) as -> by exact (f_equal p_may_prot He).
  split; [by rewrite Hpr|]. intros id. by rewrite <- Hq, <- Hp.
Qed.

Lemma lawful_akin ok f s s' :
  live s -> changed f s s' ->
  (forall a p, vw s a = Some p -> sealed p = true -> exists q, f a = Some q /\ hard q = hard p) ->
  (forall a q, f a = Some q -> exists b p, vw s b = Some p /\ akin p q) ->
  lawful ok s s'.
Proof.
  intros Hlv Hch Hse Hk. eapply lawful_changed; [done..| |].
  - intros _ _ Hw a q Hq. destruct (Hk a q Hq) as (b & p & Hp & Hwx & _). rewrite Hwx. by apply (Hw b).
  - intros id _ Hu a q Hq. destruct (Hk a q Hq) as (b & p & Hp & _ & Hwf). rewrite Hwf. by apply (Hu b).
Qed.

Lemma akin_refl p : akin p p.
Proof. done. Qed.

Lemma lawful_reflagged ok s s' : live s -> reflagged s s' -> lawful ok s s'.
Proof.
  intros Hlv (Hok & Hset & Hst & Hv). apply (lawful_akin ok (vw s')); [done|by split_and!|..].
  - intros a p Ha Hp. specialize (Hv a). rewrite Ha in Hv. destruct (vw s' a) as [q|]; [|done]. apply (inj Some) in Hv. eauto.
  - intros a q Ha. specialize (Hv a). rewrite Ha in Hv. destruct (vw s a) as [p|] eqn:Ep; [|done]. apply (inj Some) in Hv.
    exists a, p. split; [done|]. by apply hard_akin.
Qed.

Lemma lawful_relinked ok s s' : live s -> relinked s s' -> lawful ok s s'.
Proof.
  intros Hlv Hr. apply lawful_reflagged; [done|]. split_and!; [eapply relinked_ok; [done|apply Hlv]|by apply relinked_settings|..].
  - rewrite (rl_vmas _ _ Hr). apply steady_refl.
  - intros a. unfold vw. by rewrite (rl_vmas _ _ Hr).
Qed.

(** Emptying a range that holds no sealed page. *)
Lemma lawful_emptied ok start end_ s s' :
  live s -> ~ seals s start end_ -> changed (over nothing start end_ (vw s)) s s' -> lawful ok s s'.
Proof.
  intros Hlv Hns Hch. eapply lawful_akin; [done..| |].
  - intros a p Ha Hp. unfold over. destruct ((start <=? a) && (a <? end_)) eqn:E; [|eauto].
    exfalso. apply Hns. exists a, p. to_prop. done.
  - intros a q. unfold over. destruct (_ && _); [by destruct (vw s a)|]. intros Ha. exists a, q. split; [done|apply akin_refl].
Qed.

Lemma lawful_maybe ok start end_ s s' : live s -> maybe_emptied env start end_ s s' -> lawful ok s s'.
Proof. intros Hlv [(Hns & _ & Hch)|[_ ->]]; [by eapply lawful_emptied|by apply lawful_refl]. Qed.

(** A new mapping over a range that holds no sealed page. *)
Lemma lawful_mapped (ok : Prop) start end_ prot may_prot flags backing s s' :
  live s -> ~ seals s start end_ -> changed (mapped_over start end_ prot may_prot flags backing (vw s)) s s' ->
  (ok -> mdwe_on s = true -> wx_free s -> wx_prot prot = false) ->
  (forall id, FileRmap.writable_denied (file_rmaps s id) = true -> unwritten id s ->
     forall d, writes_file id (new_page prot may_prot flags backing d) = false) ->
  lawful ok s s'.
Proof.
  intros Hlv Hns Hch Hp Hu. eapply lawful_changed; [done..| | |].
  - intros a p Ha Hse. unfold mapped_over. destruct ((start <=? a) && (a <? end_)) eqn:E; [|eauto].
    exfalso. apply Hns. exists a, p. to_prop. done.
  - intros Hk Hon Hw a p. unfold mapped_over. destruct ((start <=? a) && (a <? end_)); [intros [= <-]; by apply Hp|apply Hw].
  - intros id Hd Hun a p. unfold mapped_over. destruct ((start <=? a) && (a <? end_)); [intros [= <-]; by apply Hu|apply Hun].
Qed.

(** ** Every request *)

(** Executable memory is neither writable nor new when it is refused. *)
Lemma denies_wx s old new :
  live s -> mdwe_on s = true -> Mdwe.denies (mdwe s) old new = false -> flags_contains new Prot.EXEC = true ->
  flags_contains new Prot.WRITE = false /\ flags_contains old Prot.EXEC = true.
Proof.
  intros Hlv Hon Hd Hx. destruct (lv_mdwe _ Hlv) as [r Hr]. unfold mdwe_on in Hon. rewrite Hr in *.
  unfold Mdwe.denies in Hd. rewrite Hx in Hd. destruct r; [done|cbn in Hd..]; to_prop; done.
Qed.

Lemma denies_wx_prot s old new :
  live s -> mdwe_on s = true -> Mdwe.denies (mdwe s) old new = false -> wx_prot new = false.
Proof.
  intros Hlv Hon Hd. unfold wx_prot. destruct (flags_contains new Prot.EXEC) eqn:Ex; [|apply andb_false_r].
  destruct (denies_wx _ _ _ Hlv Hon Hd Ex) as [-> _]. done.
Qed.

(** A page of a new mapping writes a file only when the file was reserved. *)
Lemma new_page_writes id prot may_prot flags backing d s :
  writes_file id (new_page prot may_prot (Space.future_flags s flags) backing d) = true ->
  Space.writable_rmap env (Space.future_flags s flags) may_prot backing = Some id.
Proof.
  unfold writes_file, Space.writable_rmap. destruct backing; try done. cbn [new_page p_content content_at p_flags p_may_prot].
  rewrite contains_difference by done. intros [Hf Hid%bool_decide_eq_true]%andb_true_iff. by rewrite Hf.
Qed.

Lemma mapping_lawful (ok : Prop) p len prot may_prot flags backing mode s :
  live s -> valid s (Mmap p len prot may_prot flags backing) ->
  (ok -> mdwe_on s = true -> Space.mdwe_step s mode prot = Ok tt -> wx_prot prot = false) ->
  wp (Space.mmap_with_may_at_inner_locked env p len prot may_prot flags backing mode) (fun _ => lawful ok s) s.
Proof.
  intros Hlv (Hlen & (j & Hj & Hal) & Hh & Hf & Hnp) Hwx. pose proof (lv_ok _ Hlv) as Hs.
  eapply wp_mono; [by apply (mmap_spec env s p len prot may_prot flags backing mode j); try apply Hlv|].
  intros [e|start] s'; [intros [Hr _]; by apply lawful_relinked|].
  intros (Hpos & _ & Hp & H0 & Hend & Hmd & Hfix & Hden & Hch). eapply lawful_mapped; [done| |done|by auto|].
  - destruct p as [hint|hint al|h|h]; [| |by apply Hfix|apply clear_unsealed; [done|by destruct Hp as [-> (_ & _ & _ & ?)]]].
    all: apply clear_unsealed; [done|]; destruct Hp as [[_ (_ & _ & _ & ?)]|[_ Hb]]; [done|].
    all: exact (proj2 (best_clear s len j start (lv_layout _ Hlv) Hpos Hb)).
  - intros id Hd _ d. destruct (writes_file _ _) eqn:Ew; [|done]. apply new_page_writes, Hden in Ew. congruence.
Qed.

Lemma mmap_lawful p len prot may_prot flags backing s :
  live s -> valid s (Mmap p len prot may_prot flags backing) ->
  wp (serve (Mmap p len prot may_prot flags backing)) (fun _ => lawful True s) s.
Proof.
  intros Hlv Hv. cbn. apply wp_bind. eapply wp_mono; [apply (mapping_lawful True); [done..|]|intros ? ? ?; by apply wp_ret].
  intros _ Hon Hmd. unfold Space.mdwe_step, Space.mdwe_admit_new_mapping in Hmd.
  destruct (Mdwe.denies _ _ _) eqn:Ed; [done|]. by eapply denies_wx_prot.
Qed.

(** A mapping admitted beforehand has the protection that was admitted. *)
Lemma admitted_lawful p len prot may_prot flags backing admission s :
  live s -> valid s (MmapAdmitted p len prot may_prot flags backing admission) ->
  wp (serve (MmapAdmitted p len prot may_prot flags backing admission))
    (fun _ => lawful (wx_prot (Mdwe.admitted_prot admission) = false) s) s.
Proof.
  intros Hlv Hv. cbn. apply wp_bind.
  eapply wp_mono; [apply (mapping_lawful (wx_prot (Mdwe.admitted_prot admission) = false)); [done..|]|intros ? ? ?; by apply wp_ret].
  intros Hwx _ Hmd. unfold Space.mdwe_step, Mdwe.validate in Hmd.
  destruct (negb (_ =? _) || negb (Mdwe.admitted_prot admission =? prot)) eqn:Ev; [done|].
  apply orb_false_iff in Ev as [_ Ev]. to_prop. congruence.
Qed.

Lemma munmap_lawful addr len s :
  live s -> valid s (Munmap addr len) -> wp (serve (Munmap addr len)) (fun _ => lawful True s) s.
Proof.
  intros Hlv [Ha Hl]. cbn. apply wp_bind. unfold Space.munmap, try_, Layout.validate_len.
  destruct ((len =? 0) || _) eqn:El; [apply wp_ret, wp_ret; by apply lawful_refl|]. apply orb_false_iff in El as [El Hd]. to_prop.
  apply Z.mod_divide in Hd; [|done]. pose proof (is_aligned_iff addr) as Hal. unfold Layout.validate_aligned.
  destruct (Layout.is_aligned addr); [|apply wp_ret, wp_ret; by apply lawful_refl].
  unfold Layout.end_of_raw, checked_add. destruct (_ <=? _); [|apply wp_ret, wp_ret; by apply lawful_refl].
  eapply wp_mono; [apply munmap_locked_spec; [apply Hlv|done|lia|]|].
  { apply pagewise_cut; [apply Hlv|right]. destruct Hal as [Hal _]. split; [by apply Hal|by apply Z.divide_add_r; [apply Hal|]]. }
  intros [[]|e] s' Hr; apply wp_ret.
  - destruct (_ <=? _); [|by apply lawful_relinked]. destruct Hr as (Hns & _ & Hch). by eapply lawful_emptied.
  - destruct Hr as (-> & _). by apply lawful_refl.
Qed.

(** The steps of a plan pass over sealed pages and grant no refused right. *)
Lemma planned_lawful prot rie security key_for addr end_ steps err s s' :
  live s -> planned env prot rie security key_for s addr end_ steps err ->
  changed (protected steps (vw s)) s s' -> lawful True s s'.
Proof.
  intros Hlv (c & Hc & Ht & _) Hch. pose proof (lv_ok _ Hlv) as Hs.
  assert (Hpt : forall a, ~ addr <= a < c /\ protected steps (vw s) a = vw s a \/
    exists v lo, vw s a = Some (page_at v a) /\ step_error env prot rie security s lo end_ v = None /\
      protected steps (vw s) a = Some (page_protect (step_prot prot rie v) (Some (key_for v)) (page_at v a))).
  { intros a. destruct (protected_tiles _ _ _ _ _ _ _ Hs _ _ _ (vw s) a Ht ltac:(done)) as [Hout Hin].
    destruct (decide (addr <= a < c)) as [Hb|Hb]; [right|left; split; [done|apply Hout; lia]].
    destruct (Hin Hb) as (v & lo & Hg & Hv & Hve & He & Heq). exists v, lo. split_and!; [|done|done].
    unfold vw. rewrite (view_in _ _ _ _ (so_tree _ Hs) Hg) by lia. done. }
  eapply lawful_changed; [done..| | |].
  - intros a p Ha Hse. destruct (Hpt a) as [[_ ->]|(v & lo & Hv & He & _)]; [eauto|]. exfalso.
    assert (p = page_at v a) as -> by congruence. unfold step_error, sealed in *. cbn in Hse. destruct (lo <? v_start v); [done|].
    destruct (_ || _); [done|]. destruct (security v _); [done|]. by rewrite Hse in He.
  - intros _ Hon Hw a p Hp. destruct (Hpt a) as [[_ Heq]|(v & lo & Hv & He & Heq)]; rewrite Heq in Hp; [by apply (Hw a)|].
    injection Hp as <-. unfold step_error in He. destruct (lo <? v_start v); [done|].
    destruct (Mdwe.denies (mdwe s) (v_prot v) (step_prot prot rie v)) eqn:Ed; [by rewrite orb_true_r in He|].
    exact (denies_wx_prot _ _ _ Hlv Hon Ed).
  - intros id _ Hun a p Hp. destruct (Hpt a) as [[_ Heq]|(v & lo & Hv & He & Heq)]; rewrite Heq in Hp; [by apply (Hun a)|].
    injection Hp as <-. exact (Hun a _ Hv).
Qed.

Lemma mprotect_lawful addr len prot rie security key_for s :
  live s -> valid s (Mprotect addr len prot rie security key_for) ->
  wp (serve (Mprotect addr len prot rie security key_for)) (fun _ => lawful True s) s.
Proof.
  intros Hlv [Ha Hl]. cbn. apply wp_bind. eapply wp_mono; [apply mprotect_user_spec; [apply Hlv|done..]|].
  intros [out|e] s' Hr; apply wp_ret; [|destruct Hr as [-> _]; by apply lawful_refl].
  destruct Hr as (_ & Hpl & Hch). by eapply planned_lawful.
Qed.

Lemma seal_uncounted : uncounted (page_flags flags_seal).
Proof.
  split; [|done]. intros c p. destruct c; [done| |]; cbn; [destruct (p_content p); try done; f_equal|]; by apply contains_union.
Qed.

(** Sealing a sealed page changes nothing. *)
Lemma seal_sealed p : sealed p = true -> page_flags flags_seal p = p.
Proof.
  unfold sealed, flags_contains. intros H%Z.eqb_eq. destruct p. unfold page_flags, flags_seal, flags_union. cbn in *. f_equal.
  rewrite <- H at 1. rewrite Z.lor_comm. apply Z.bits_inj'. intros n Hn. rewrite Z.lor_spec, Z.land_spec.
  by destruct (Z.testbit p_flags n), (Z.testbit _ n).
Qed.

Lemma seal_akin p : akin p (page_flags flags_seal p).
Proof.
  split; [done|]. intros id. unfold writes_file. cbn. destruct (p_content p); try done. unfold flags_seal. by rewrite contains_union.
Qed.

Lemma uva_new_some a b : uva_new a = Some b -> b = a.
Proof. unfold uva_new. by destruct (a <? USER_VA_END) eqn:E; intros [= <-]. Qed.

(** What is sealed is a range of whole pages. *)
Lemma mseal_pages start len flags a b :
  mseal_args start len flags = Ok (Some (a, b)) -> (PAGE_SIZE_BYTES | a) /\ (PAGE_SIZE_BYTES | b).
Proof.
  unfold mseal_args. destruct (negb (flags =? 0)); [done|]. pose proof (align_iff start 12) as Hal.
  change (pow2 12) with PAGE_SIZE_BYTES in Hal. destruct (Z.land start _ =? 0); [|done]. cbn [negb].
  destruct (mseal_len len) as [d|e] eqn:Ed; [|done]. destruct (_ <? _); [done|]. destruct (_ =? start); [done|]. intros [= <- <-].
  pose proof (proj1 Hal eq_refl) as Hs. split; [done|].
  assert (Hd : (PAGE_SIZE_BYTES | d)).
  { unfold mseal_len in Ed. destruct (_ && _); [done|]. injection Ed as <-. apply (align_iff _ 12). by rewrite <- Z.land_assoc, Z.land_0_r. }
  unfold wrap64. rewrite Z.mod_eq by done. apply Z.divide_sub_r; [by apply Z.divide_add_r|]. apply Z.divide_mul_l. by exists (2 ^ 52).
Qed.

Lemma mseal_lawful start len flags s :
  live s -> valid s (Mseal start len flags) -> wp (serve (Mseal start len flags)) (fun _ => lawful True s) s.
Proof.
  intros Hlv _. assert (Hsame : wp (ret ()) (fun _ => lawful True s) s) by (apply wp_ret; by apply lawful_refl).
  cbn. destruct (mseal_args start len flags) as [[[a b]|]|] eqn:Ea; [|done..]. apply mseal_pages in Ea as [Ha Hb].
  destruct (uva_new a) as [a'|] eqn:Ea, (uva_new b) as [b'|] eqn:Eb; [|done..]. apply uva_new_some in Ea as ->. apply uva_new_some in Eb as ->.
  apply wp_bind. apply wp_on_tree. pose proof (lv_ok _ Hlv) as Hs.
  eapply wp_mono; [apply seal_spec; [apply Hs|by apply pagewise_cut; [|right]]|]. intros [[]|e] t' Hr; apply wp_ret.
  - destruct Hr as (_ & _ & Hrw). pose proof (rewritten_space _ _ _ _ _ Hs seal_uncounted Hrw) as Hch.
    eapply lawful_akin; [done..| |].
    + intros x p Hx Hp. unfold over, all. rewrite Hx. cbn. rewrite seal_sealed by done. exists p. by destruct (_ && _).
    + intros x q. unfold over, all. destruct (vw s x) as [p|] eqn:Ep; [|by destruct (_ && _)]. cbn. intros Hq. exists x, p.
      split; [done|]. destruct (_ && _); injection Hq as <-; [apply seal_akin|apply akin_refl].
  - destruct Hr as (_ & -> & _). replace (set_vmas (vmas s) s) with s by (by destruct s). by apply lawful_refl.
Qed.

(** A destination that the move installed. *)
Lemma installed_lawful old new_size src fixed hint va s s1 :
  live s -> Space.find_vma s old = Some src -> installed env s old new_size src fixed hint va s1 -> lawful True s s1.
Proof.
  intros Hlv Hsrc (_ & _ & _ & _ & Hch & Hns & _). pose proof (lv_ok _ Hlv) as Hs.
  destruct (src_area s old src Hs Hsrc) as (v & -> & Hg & Hb). pose proof (view_in _ _ _ _ (so_tree _ Hs) Hg Hb) as Hat.
  eapply lawful_mapped; [done..| |].
  - intros _ _ Hw. exact (Hw old _ Hat).
  - intros id _ Hun d. pose proof (Hun old _ Hat) as Hp.
    assert (Hsh : flags_contains (flags_difference (Space.future_flags s (v_flags (clone v))) Flags.UFFD_MASK) Flags.SHARED =
                  flags_contains (v_flags v) Flags.SHARED).
    { rewrite contains_difference, future_contains by done. by apply contains_difference. }
    unfold writes_file in *. cbn [new_page page_at clone p_content p_flags p_may_prot v_may_prot v_backing v_start] in *.
    rewrite Hsh. change (v_backing (clone v)) with (v_backing v). change (v_may_prot (clone v)) with (v_may_prot v).
    by destruct (v_backing v).
Qed.

Lemma remapped_lawful old old_size new_size src fixed dontunmap new_addr r s s' :
  live s -> Space.find_vma s old = Some src -> remapped env move_pages s old old_size new_size src fixed dontunmap new_addr r s' -> lawful True s s'.
Proof.
  intros Hlv Hsrc Hr. destruct r as [va|e].
  - destruct Hr as [(_ & _ & _ & [[_ ->]|[_ Hme]])|(s1 & Hi & _ & Hd)]; [by apply lawful_refl|by eapply lawful_maybe|].
    pose proof (installed_lawful _ _ _ _ _ _ _ _ Hlv Hsrc Hi) as Hl1. destruct dontunmap; [by subst|].
    eapply lawful_trans; [done|]. eapply lawful_maybe; [apply Hl1|done].
  - destruct Hr as [Hr|(va & s1 & Hi & _ & Hme)]; [by apply lawful_relinked|].
    pose proof (installed_lawful _ _ _ _ _ _ _ _ Hlv Hsrc Hi) as Hl1.
    eapply lawful_trans; [done|]. eapply lawful_maybe; [apply Hl1|done].
Qed.

(** Without an area at the old address, or with bad arguments, nothing
    happens. *)
Lemma mremap_nothing old old_size new_size maymove fixed dontunmap new_addr s :
  has_uffd s = false -> Space.find_vma s old = None \/ new_size = 0 \/ Z.land old (PAGE_SIZE_BYTES - 1) <> 0 ->
  wp (mremap_full_with_move env move_pages unmap_destination old old_size new_size maymove fixed dontunmap new_addr)
    (fun _ s' => s' = s) s.
Proof.
  intros Hq Hno. unfold mremap_full_with_move, mremap_dontunmap.
  destruct (negb (Z.land old (PAGE_SIZE_BYTES - 1) =? 0) || (new_size =? 0)) eqn:Eb; [by apply wp_ret|].
  apply orb_false_iff in Eb as [E1 E2]. to_prop. destruct Hno as [Hno|[?|?]]; [|done..].
  destruct (checked_add _ _); [|by apply wp_ret].
  assert (Hw : forall (k : option (Z * Z) -> M AddressSpace (KResult Z)),
    wp (k None) (fun _ s' => s' = s) s -> wp (w ← remap_watch env old; k w) (fun _ s' => s' = s) s).
  { intros k Hk. apply wp_bind. unfold remap_watch. do 2 wp_step. rewrite Hq. by apply wp_ret. }
  destruct dontunmap.
  - destruct (_ || _); [by apply wp_ret|]. apply Hw. do 2 wp_step. rewrite Hno. by apply wp_ret.
  - apply wp_bind. apply wp_mono with (P := fun _ s1 => s1 = s).
    { destruct (_ && _); [|by apply wp_ret]. unfold remap_watch. do 2 wp_step. rewrite Hq. by apply wp_ret. }
    intros w s1 ->. do 2 wp_step. rewrite Hno. by apply wp_ret.
Qed.

Hypothesis Henv : huge_ok env.

Lemma mremap_lawful old old_size new_size maymove fixed dontunmap new_addr s :
  live s -> valid s (Mremap old old_size new_size maymove fixed dontunmap new_addr) ->
  wp (serve (Mremap old old_size new_size maymove fixed dontunmap new_addr)) (fun _ => lawful True s) s.
Proof.
  intros Hlv (Ho & Hos & Hoe & Hn & Hna & Hfx & Hf & Hpw). cbn. apply wp_bind.
  destruct (decide (new_size = 0 \/ Z.land old (PAGE_SIZE_BYTES - 1) <> 0)) as [Hbad|Hgood].
  { eapply wp_mono; [apply mremap_nothing; [apply Hlv|by right]|]. intros r s' ->. apply wp_ret. by apply lawful_refl. }
  destruct (Space.find_vma s old) as [src|] eqn:Esrc.
  2: { eapply wp_mono; [apply mremap_nothing; [apply Hlv|by left]|]. intros r s' ->. apply wp_ret. by apply lawful_refl. }
  eapply wp_mono; [apply (mremap_spec env move_pages unmap_destination s old old_size new_size src)|].
  all: try done; try apply Hlv; try lia; try by apply Hf.
  - apply Decidable.not_or in Hgood as [_ Hal]. assert (Hal' : Z.land old (PAGE_SIZE_BYTES - 1) = 0) by lia.
    change PAGE_SIZE_BYTES with (pow2 12) in *. rewrite land_align in Hal'. by apply divide_mod.
  - intros r s' Hr. apply wp_ret. by eapply remapped_lawful.
Qed.

Lemma mdwe_lawful request s : live s -> wp (serve (MdweSet request)) (fun _ => lawful True s) s.
Proof.
  intros Hlv. cbn. apply wp_bind. unfold Space.mdwe_set. do 2 wp_step.
  destruct (Mdwe.set request (mdwe s)) as [r x] eqn:Es. apply wp_bind, wp_modify, wp_ret, wp_ret.
  pose proof (lv_ok _ Hlv) as Hs. destruct (lv_mdwe _ Hlv) as [m Hm].
  assert (Hx : (mdwe_on s = true -> x = mdwe s) /\ exists m', x = Mdwe.encode m').
  { unfold Mdwe.set in Es. unfold mdwe_on. destruct (negb (mdwe s =? Mdwe.DISABLED)); injection Es as _ <-; (split; [done|eauto]). }
  constructor; cbn; [|by eauto|apply Hx|done..]. constructor; cbn; [|apply Hlv|apply Hlv|apply Hx].
  by constructor; apply Hs.
Qed.

Lemma lock_flags_soft add :
  flags_difference add Flags.LOCKED_MASK = 0 -> soft add /\ soft (flags_difference Flags.LOCKED_MASK add).
Proof.
  intros Ha. assert (Hbit : forall n, 0 <= n -> Z.testbit Flags.LOCKED_MASK n = true -> Z.testbit SOFT n = true).
  { intros n Hn Hm. assert (Hl : Z.land Flags.LOCKED_MASK SOFT = Flags.LOCKED_MASK) by done. rewrite <- Hl, Z.land_spec in Hm.
    by apply andb_true_iff in Hm as [_ ?]. }
  split; apply Z.bits_inj'; intros n Hn; unfold flags_difference; rewrite Z.bits_0, ?Z.ldiff_spec.
  - assert (Hz : Z.testbit (flags_difference add Flags.LOCKED_MASK) n = false) by (by rewrite Ha, Z.bits_0).
    unfold flags_difference in Hz. rewrite Z.ldiff_spec in Hz. destruct (Z.testbit add n); [|done]. cbn in *.
    rewrite (Hbit n Hn); [done|]. by destruct (Z.testbit Flags.LOCKED_MASK n).
  - destruct (Z.testbit Flags.LOCKED_MASK n) eqn:E; [|done]. rewrite (Hbit n Hn E). apply andb_false_r.
Qed.

Lemma mlock_lawful start len add s :
  live s -> valid s (Mlock start len add) -> wp (serve (Mlock start len add)) (fun _ => lawful True s) s.
Proof.
  intros Hlv (H0 & Hlen & Hadd & Hpw). destruct (lock_flags_soft add Hadd) as [Ha Hc]. pose proof (lv_ok _ Hlv) as Hs. cbn. apply wp_bind.
  unfold apply_vma_lock_flags, checked_add. destruct (_ <=? _); [|apply wp_ret, wp_ret; by apply lawful_refl].
  bool_case (start + len =? start); [apply wp_ret, wp_ret; by apply lawful_refl|]. do 2 wp_step. apply wp_bind.
  eapply wp_mono; [apply (lock_walk_spec _ _ _ _ _ _ s); [done|done| |lia|done|by apply reflagged_refl|by apply laid_filter, laid_snapshot]|].
  - intros w Hw. by apply list_elem_of_In, filter_In in Hw as [_ ?].
  - intros r s' Hr. apply wp_ret, wp_ret. by apply lawful_reflagged.
Qed.

Lemma set_future_lawful enabled onfault s : live s -> wp (Space.set_mlock_future enabled onfault) (fun _ => lawful True s) s.
Proof.
  intros Hlv. unfold Space.set_mlock_future. apply wp_bind, wp_modify, wp_modify.
  constructor; try done; [|by eauto]. constructor; try apply Hlv. constructor; apply (lv_ok _ Hlv).
Qed.

Lemma mlockall_lawful future current onfault s : live s -> wp (serve (Mlockall future current onfault)) (fun _ => lawful True s) s.
Proof.
  intros Hlv. cbn. apply wp_bind. unfold apply_mlockall_flags. apply wp_bind. eapply wp_mono; [by apply set_future_lawful|].
  intros [] s1 Hl1. destruct current; cbn [negb]; [|by apply wp_ret, wp_ret]. do 2 wp_step. pose proof (lv_ok _ (lw_live _ _ _ Hl1)) as Hs1.
  assert (Hadd : soft (if onfault then Flags.LOCKED_MASK else Flags.LOCKED) /\
    soft (flags_difference Flags.LOCKED_MASK (if onfault then Flags.LOCKED_MASK else Flags.LOCKED))) by (by destruct onfault).
  eapply wp_mono; [apply (lock_all_spec _ _ _ _ s1); [apply Hadd|apply Hadd|by apply reflagged_refl|by apply laid_snapshot]|].
  intros r s' Hr. apply wp_ret. eapply lawful_trans; [done|]. apply lawful_reflagged; [apply Hl1|done].
Qed.

Lemma munlockall_lawful s : live s -> wp (serve Munlockall) (fun _ => lawful True s) s.
Proof.
  intros Hlv. cbn. apply wp_bind. unfold munlock_all. apply wp_bind. eapply wp_mono; [by apply set_future_lawful|].
  intros [] s1 Hl1. do 2 wp_step. pose proof (lv_ok _ (lw_live _ _ _ Hl1)) as Hs1.
  eapply wp_mono; [apply (unlock_all_spec _ _ s1); [by apply reflagged_refl|by apply laid_snapshot]|].
  intros r s' Hr. apply wp_ret. eapply lawful_trans; [done|]. apply lawful_reflagged; [apply Hl1|done].
Qed.

Lemma advise_lawful start len set clear s :
  live s -> valid s (Advise start len set clear) -> wp (serve (Advise start len set clear)) (fun _ => lawful True s) s.
Proof.
  intros Hlv (Hlen & Hin & Hpw & Hset & Hclr). cbn. pose proof (lv_ok _ Hlv) as Hs.
  eapply wp_mono; [by apply update_flags_range_spec; [| | | | |apply pagewise_cut]|].
  intros [] s' [Hch _]. apply lawful_reflagged; [done|]. by eapply (changed_reflagged set clear).
Qed.

(** No valid request panics, and each keeps the laws. *)
Lemma serve_lawful r s : live s -> valid s r -> wp (serve r) (fun _ => lawful (vetted r) s) s.
Proof.
  intros Hlv Hv. destruct r.
  - by apply mmap_lawful.
  - by apply munmap_lawful.
  - by apply mprotect_lawful.
  - by apply mseal_lawful.
  - by apply mremap_lawful.
  - by apply mdwe_lawful.
  - by apply set_future_lawful.
  - by apply admitted_lawful.
  - by apply mlock_lawful.
  - by apply mlockall_lawful.
  - by apply munlockall_lawful.
  - by apply advise_lawful.
Qed.

(** ** Any number of requests *)

Inductive step : AddressSpace -> AddressSpace -> Prop :=
| step_serve r s s' : valid s r -> serve r s = Done (tt, s') -> step s s'.

Lemma served_lawful r s s' : live s -> valid s r -> serve r s = Done (tt, s') -> lawful (vetted r) s s'.
Proof. intros Hlv Hv Hrun. pose proof (serve_lawful r s Hlv Hv) as Hl. unfold wp in Hl. by rewrite Hrun in Hl. Qed.

Lemma steps_lawful s s' : live s -> rtc step s s' -> lawful False s s'.
Proof.
  intros Hlv Hr. revert Hlv. induction Hr as [s|s1 s2 s3 Hst _ IH]; intros Hlv; [by apply lawful_refl|].
  destruct Hst as [r s1 s2 Hv Hrun]. pose proof (served_lawful r s1 s2 Hlv Hv Hrun) as Hl.
  eapply lawful_trans; [by eapply lawful_weaken, Hl|]. apply IH, Hl.
Qed.

(** A process with the admissions it was given and has not used: one is
    asked for, or a request is served, which uses up the admission it
    carries. *)
Inductive process_step : AddressSpace * list Mdwe.MdweAdmission -> AddressSpace * list Mdwe.MdweAdmission -> Prop :=
| ps_admit s held prot admission :
    Space.mdwe_admit_new_mapping s prot = Ok admission -> process_step (s, held) (s, admission :: held)
| ps_admitted s l1 l2 p len prot may_prot flags backing admission s' :
    let r := MmapAdmitted p len prot may_prot flags backing admission in
    valid s r -> serve r s = Done (tt, s') -> process_step (s, l1 ++ admission :: l2) (s', l1 ++ l2)
| ps_serve s held r s' :
    (forall p len prot may_prot flags backing admission, r <> MmapAdmitted p len prot may_prot flags backing admission) ->
    valid s r -> serve r s = Done (tt, s') -> process_step (s, held) (s', held).

(** No admission held allows a page that is writable and executable. *)
Definition innocent (held : list Mdwe.MdweAdmission) : Prop :=
  forall admission, admission ∈ held -> wx_prot (Mdwe.admitted_prot admission) = false.

Lemma process_step_lawful x y :
  process_step x y -> live x.1 -> mdwe_on x.1 = true -> innocent x.2 -> lawful True x.1 y.1 /\ innocent y.2.
Proof.
  intros Hst Hlv Hon Hin. destruct Hst as [s held prot ad Ha|s l1 l2 p len prot may_prot flags backing ad s' r Hv Hrun|s held r s' Hr Hv Hrun];
    cbn [fst snd] in *.
  - split; [by apply lawful_refl|]. intros x [->|Hx]%elem_of_cons; [|by apply Hin].
    unfold Space.mdwe_admit_new_mapping in Ha. destruct (Mdwe.denies _ _ _) eqn:Ed; [done|]. injection Ha as <-. cbn.
    by eapply denies_wx_prot.
  - split.
    + eapply lawful_weaken; [|exact (served_lawful _ _ _ Hlv Hv Hrun)]. intros _. apply Hin, elem_of_app. right. left.
    + intros x [Hx|Hx]%elem_of_app; apply Hin, elem_of_app; [by left|right; by right].
  - split; [|done]. eapply lawful_weaken; [|exact (served_lawful _ _ _ Hlv Hv Hrun)]. intros _. destruct r; try done. by destruct (Hr p len prot may_prot flags backing admission).
Qed.

(** ** Requests among other users of the mapped files *)

Inductive shared_step (alive : Z -> bool) : AddressSpace -> AddressSpace -> Prop :=
| sh_serve s s' : step s s' -> shared_step alive s s'
| sh_owner id st s :
    owner_step alive (file_rmaps s id) st -> shared_step alive s (set_file_rmaps (fupd (file_rmaps s) id st) s).

Lemma live_owner alive id st s :
  live s -> owner_step alive (file_rmaps s id) st -> live (set_file_rmaps (fupd (file_rmaps s) id st) s).
Proof.
  intros [Hs ? ? ?] Hst. constructor; try done. constructor; try apply Hs. intros k. cbn. unfold fupd. destruct (k =? id); [|apply Hs].
  eapply owner_step_pending; [apply Hs|done].
Qed.

Lemma shared_steps_barred alive id s s' :
  live s -> sealed_off (file_rmaps s id) -> rtc (shared_step alive) s s' ->
  sealed_off (file_rmaps s' id) /\ (unwritten id s -> unwritten id s').
Proof.
  intros Hlv Hso Hr. revert Hlv Hso. induction Hr as [s|s1 s2 s3 Hst _ IH]; intros Hlv Hso; [done|].
  destruct Hst as [s1 s2 [r s1' s2' Hv Hrun]|k st s Hst].
  - pose proof (served_lawful _ _ _ Hlv Hv Hrun) as Hl. destruct IH as [? Hun]; [apply Hl| |].
    + destruct Hso. split; [by rewrite (lw_denied _ _ _ Hl)|by rewrite (lw_pending _ _ _ Hl)].
    + split; [done|]. intros Hu. apply Hun, Hl; [apply Hso|done].
  - apply IH; [by eapply live_owner|]. cbn. unfold fupd. destruct (Z.eqb_spec id k) as [->|]; [by eapply sealed_off_step|done].
Qed.

End requests.

(** A new address space is live. *)
Lemma new_live root_pa self shm next_id chains rmaps :
  (forall id, 0 <= FileRmap.pending_writable (rmaps id)) -> live (Space.new root_pa self shm next_id chains rmaps).
Proof.
  intros Hp. constructor; [constructor|..]; cbn; try done.
  - apply tree_ok_nil.
  - intros []; done.
  - by exists Mdwe.Disabled.
Qed.
