(* ===== verification/VmmFindings.v ===== *)
(** * Divergences in the virtual memory manager

    Runs in which the code does not do what its documentation, or the rest of
    the code, says. Each starts from a new address space and makes calls any
    process can make. *)

From stdpp Require Import strings.
From S2P Require Import Prelude BTree Vma VmaTree VmaTreeInv VmaTreeOps VmaTreeSpec VmaTreeRange.
From S2P Require Import VmaTreeEdit Extent Hole Rmap Account AddrSpace AddrSpaceOps AddrSpaceInv AddrSpaceSpec.

Import SpaceOps.

(** ** A machine to run on *)

(** Files may be split, have small pages and their own interval owner; every
    hook consents. *)
Definition demo_env : Env :=
  {| may_split := fun _ => true; huge_page_size := fun _ => 0; file_rmap_of := fun b => Some b;
     mmap_setup := fun _ _ _ _ => None; admit_mmap_addr := fun _ => true; try_reserve := fun _ => true;
     wants_remap := fun _ => true; is_shmem := fun _ => false |}.

Definition demo_new : AddressSpace := Space.new 0x1000 1 true 1 (fun _ => []) (fun _ => FileRmap.new).

Definition RW : Z := flags_union Prot.READ Prot.WRITE.

Definition PRIV : Z := flags_union Flags.PRIVATE Flags.ANONYMOUS.

Definition page : Z := PAGE_SIZE_BYTES.

(** Map [n] pages at [addr]. *)
Definition demo_map (addr n flags : Z) (b : VmaBacking) : M AddressSpace unit :=
  Space.mmap_with_may demo_env (Some addr) (n * page) RW RW flags b true ;; ret tt.

Definition panics {A} (m : M AddressSpace A) (msg : string) : Prop := m demo_new = Panic msg.

Definition gives {A} (m : M AddressSpace A) (a : A) : Prop := exists s, m demo_new = Done (a, s).

(** Two adjacent anonymous areas of which the second
    already has what the call gives to the first end the kernel: merging the
    first with the second takes away the key the loop visits next, and the
    loop expects it. Setting flags, registering a userfaultfd context and
    naming a range all do so. *)
Theorem collected_key_panic :
  panics (demo_map 0x10000 2 PRIV Anonymous ;;
          update_flags_range 0x11000 page Flags.DONTFORK 0 ;;
          update_flags_range 0x10000 (2 * page) Flags.DONTFORK 0) "collected key" /\
  panics (demo_map 0x10000 2 PRIV Anonymous ;;
          set_uffd 0x11000 0x12000 7 Flags.UFFD_MISSING ;;
          set_uffd 0x10000 0x12000 7 Flags.UFFD_MISSING) "collected key" /\
  panics (demo_map 0x10000 2 PRIV Anonymous ;;
          set_anon_vma_name 0x11000 page (Some "heap"%string) ;;
          set_anon_vma_name 0x10000 (2 * page) (Some "heap"%string)) "collected VMA key".
Proof. split_and!; vm_compute; reflexivity. Qed.

(** ** Physical memory after a cut *)

(** The frame a fault at [va] maps: [map_kernel_frame] and
    [map_phys_range]. *)
Definition map_kernel_frame_pa (v : Vma) (va pa : Z) : Z :=
  let va_page := Z.land va (not64 (PAGE_SIZE_BYTES - 1)) in
  pa + (va_page - v_start v).

Definition map_phys_range_pa (v : Vma) (va base_pa : Z) : Z :=
  let va_page := Z.land va (not64 (PAGE_SIZE_BYTES - 1)) in
  let off := va_page - v_start v in
  base_pa + off.

Definition fault_pa (v : Vma) (va : Z) : option Z :=
  match v_backing v with
  | PhysRange base_pa _ => Some (map_phys_range_pa v va base_pa)
  | KernelFrame pa => Some (map_kernel_frame_pa v va pa)
  | _ => None
  end.

Definition frame_at (s : AddressSpace) (va : Z) : option Z :=
  match Tree.find_containing (vmas s) va with Some v => fault_pa v va | None => None end.

(** After the middle page of a three-page device mapping
    is unmapped, a fault on the third page maps the first page of the device;
    the same holds for a run of kernel frames. *)
Theorem device_cut_shifts :
  forall b, b = PhysRange 0xfe000000 Device \/ b = KernelFrame 0xfe000000 ->
  gives (demo_map 0x30000 3 Flags.SHARED b ;;
         before ← gets (fun s => frame_at s 0x32000);
         r ← Space.munmap demo_env 0x31000 page;
         gets (fun s => (before, r, frame_at s 0x32000)))
        (Some 0xfe002000, Ok tt, Some 0xfe000000).
Proof. intros b [-> | ->]; eexists; vm_compute; reflexivity. Qed.

Lemma device_cut_shifts_witness :
  gives (demo_map 0x30000 3 Flags.SHARED (PhysRange 0xfe000000 Device) ;;
         before ← gets (fun s => frame_at s 0x32000);
         r ← Space.munmap demo_env 0x31000 page;
         gets (fun s => (before, r, frame_at s 0x32000)))
        (Some 0xfe002000, Ok tt, Some 0xfe000000).
Proof. apply device_cut_shifts. left. reflexivity. Defined.

(** ** Charges on a userfaultfd context *)

Lemma watch_charges env old v ctx (Q : option (Z * Z) -> AddressSpace -> Prop) s :
  has_uffd s = true -> Tree.find_containing (vmas s) old = Some v -> v_uffd v = Some ctx -> wants_remap env ctx = true ->
  Q (Some (ctx, Z.land (v_flags v) Flags.UFFD_MASK)) (set_uffd_calls (uffd_calls s ++ [change_begin ctx]) s) ->
  wp (remap_watch env old) Q s.
Proof.
  intros Hh Hf Hu Hw HQ. unfold remap_watch, uffd_vma_at. do 2 wp_step. rewrite Hh, Hf. cbn. rewrite Hu, Hw.
  apply wp_bind, wp_modify, wp_ret. exact HQ.
Qed.

(** C40: a call that resizes a watched mapping to the size it
    has, and a call that fails because the mapping is too short, charge the
    monitor of the mapping for a move and neither complete nor abort it: from
    then on the monitor's resolutions are refused. *)
Theorem remap_charge_leaks env mv um old size v ctx s :
  has_uffd s = true -> Tree.find_containing (vmas s) old = Some v -> v_uffd v = Some ctx -> wants_remap env ctx = true ->
  Z.land old (PAGE_SIZE_BYTES - 1) = 0 -> 0 < size -> old + size <= U64_MAX ->
  wp (mremap_full_with_move env mv um old size size true false false None)
    (fun r s' => r = Ok old /\ uffd_calls s' = uffd_calls s ++ [change_begin ctx]) s /\
  (v_end v < old + size ->
   wp (mremap_full_with_move env mv um old size size true false true None)
    (fun r s' => r = Err Fault /\ uffd_calls s' = uffd_calls s ++ [change_begin ctx]) s).
Proof.
  intros Hh Hf Hu Hw Ha Hp Hb. unfold mremap_full_with_move, mremap_dontunmap, checked_add.
  rewrite Ha, (proj2 (Z.eqb_neq size 0)), (proj2 (Z.leb_le (old + size) _)), Z.leb_refl, Z.ltb_irrefl, Z.eqb_refl by lia.
  cbn [negb orb andb]. split; [|intros Hend].
  - apply wp_bind. eapply watch_charges; [done..|]. do 2 wp_step. unfold Space.find_vma. cbn [vmas set_uffd_calls].
    rewrite Hf. cbn [option_map]. rewrite Z.eqb_refl. by apply wp_ret.
  - rewrite Z.eqb_refl. apply wp_bind. eapply watch_charges; [done..|]. do 2 wp_step. unfold Space.find_vma.
    cbn [vmas set_uffd_calls]. rewrite Hf. cbn [option_map].
    change (v_end (clone v)) with (v_end v). rewrite (proj2 (Z.ltb_lt _ _)) by done. by apply wp_ret.
Qed.

(** A watched page at 0x10000. *)
Definition watched_area : Vma :=
  {| v_start := 0x10000; v_end := 0x11000; v_prot := RW; v_may_prot := RW; v_pkey := 0;
     v_flags := flags_union PRIV Flags.UFFD_MISSING; v_backing := Anonymous; v_rss := 0; v_anon_vma := Some 1;
     v_anon_pages := false; v_file_rmap := None; v_anon_name := None; v_uffd := Some 7; v_mempolicy := None;
     v_mapping_origin := None |}.

Definition watched : AddressSpace :=
  set_has_uffd true (set_vmas {| t_map := [(0x10000, watched_area)]; t_ops := {| shm_installed := true; vm_calls := [] |} |} demo_new).

Lemma remap_charge_leaks_witness :
  wp (mremap_full_with_move demo_env (fun _ _ _ => None) (fun _ _ => None) 0x10000 page page true false false None)
    (fun r s' => r = Ok 0x10000 /\ uffd_calls s' = [] ++ [change_begin 7]) watched.
Proof.
  refine (proj1 (remap_charge_leaks demo_env (fun _ _ _ => None) (fun _ _ => None) 0x10000 page watched_area 7 watched
    _ _ _ _ _ _ _)); try reflexivity; by vm_compute.
Defined.

(** ** Reverse map of a file after a merge *)

(** Two adjacent pages of a file, mapped one after the
    other, merge into one area that maps page 1 at the second address; but the
    edge for the second address names page 0, so a walk for page 1 finds no
    mapping, and a walk for page 0 also visits the second address. *)
Theorem merged_edge_lost :
  let run := demo_map 0x4000 1 Flags.SHARED (File 9 0) ;; demo_map 0x5000 1 Flags.SHARED (File 9 page) in
  gives (run ;; gets (fun s => (option_map p_content (vw s 0x5000),
                                FileRmap.walk_page (fun _ => true) 1 (file_rmaps s 9),
                                FileRmap.walk_page (fun _ => true) 0 (file_rmaps s 9))))
        (Some (File 9 page), [], [(1, 0x4000); (1, 0x5000)]).
Proof. eexists. vm_compute. reflexivity. Qed.

(** ** Calls and counters that drift *)

(** Giving half of a file mapping a policy leaves two areas for
    which the file received one open call, and tearing the address space down
    then calls close twice. Growing a stack by a page does not count the page;
    unmapping the stack then subtracts it, and the count of mapped bytes of an
    empty address space is 2^64 - 4096. *)
Theorem books_drift :
  let pol := {| pol_mode := 2; pol_flags := 0; pol_nodes := 1; pol_user_nodes := 1; pol_home_node := 0 |} in
  gives (demo_map 0x4000 2 Flags.SHARED (File 9 0) ;; set_policy_range 0x4000 0x5000 (Some pol) ;;
         gets (fun s => (mapped false 9 (t_map (vmas s)), net false 9 (t_ops (vmas s)), vm_calls (Tree.drop (vmas s)))))
        (2, 1, [vma_open 9; vma_close 9; vma_close 9]) /\
  gives (demo_map 0x20000 1 (flags_union PRIV Flags.GROWSDOWN) Anonymous ;;
         grown ← try_grow_stack 0x1ff00 0x100000 0x100000;
         Space.munmap demo_env 0x1f000 (2 * page) ;;
         gets (fun s => (grown, Tree.len (vmas s), virtual_bytes (accounting s))))
        (true, 0%nat, 2 ^ 64 - page).
Proof. split; eexists; vm_compute; reflexivity. Qed.

(** ** Private mappings and write seals *)

(** A private mapping that may become writable, which never writes to the
    file, makes the write seal of the file fail as busy. *)
Theorem private_blocks_seal :
  gives (demo_map 0x4000 1 Flags.PRIVATE (File 9 0) ;;
         gets (fun s => (FileRmap.commit_write_seal (fun _ => true) true (file_rmaps s 9)).1))
        (inl FileRmap.Busy).
Proof. eexists. vm_compute. reflexivity. Qed.
