(* ===== verification/VmmTheorems.v ===== *)
(** * The virtual memory manager: what it guarantees

    The main theorems about address spaces, each with a concrete instance. *)

From stdpp Require Import relations strings list.
From S2P Require Import Prelude BTree Vma VmaTree VmaTreeInv VmaTreeOps VmaTreeSpec VmaTreeRange.
From S2P Require Import VmaTreeEdit Extent Hole Rmap Account AddrSpace AddrSpaceOps AddrSpaceInv AddrSpaceSpec.
From S2P Require Import AddrSpaceMmap AddrSpaceProt AddrSpaceLock AddrSpaceMove AddrSpaceReach RmapSpec TreeRefine.
From S2P Require Import VmmFindings AccountSpec.

Import SpaceOps.

(** ** Shared lemmas *)

(** Closing every area takes what the areas weigh from the calls. *)
Lemma net_drop shm b m o :
  (shm = true -> shm_installed o = true) ->
  net shm b (foldl (fun o p => vma_closed p.2 o) o m) = net shm b o - mapped shm b m.
Proof.
  revert o. induction m as [|p m IH]; intros o Ho; cbn [foldl]; unfold mapped in *; [rewrite sumZ_nil; lia|].
  rewrite IH by (by rewrite installed_closed). rewrite net_closed, sumZ_cons by done. lia.
Qed.

Lemma wp_total {S A} (m : M S A) (Q : A -> S -> Prop) s : wp m Q s -> exists a s', m s = Done (a, s') /\ Q a s'.
Proof. unfold wp. destruct (m s) as [[a s']|]; [eauto|done]. Qed.

(** An address where a new mapping fits in the arena of the layout. *)
Definition fitting (s : AddressSpace) (len : Z) (j : nat) (a : Z) : Prop :=
  if mmap_topdown s then fits (t_map (vmas s)) len (pow2 j) Hole.MIN_USER_VA (arena_top s) a
  else fits (t_map (vmas s)) len (pow2 j) (Z.max (mmap_base s) Hole.MIN_USER_VA) Hole.MMAP_TOP a.

Lemma best_none s len j a : best s len j None -> ~ fitting s len j a.
Proof. unfold best, fitting. destruct (mmap_topdown s); intros H; apply H. Qed.

Lemma best_some s len j a : best s len j (Some a) -> fitting s len j a.
Proof. unfold best, fitting. destruct (mmap_topdown s); intros [H _]; apply H. Qed.



(** ** A machine to run on *)

Definition no_move (old new len : Z) : option Error := None.

Definition no_unmap (start len : Z) : option Error := None.

Definition demo_serve (r : Request) (s : AddressSpace) : AddressSpace :=
  match serve demo_env no_move no_unmap r s with Done (_, s') => s' | Panic _ => s end.

Definition completes (r : Request) (s : AddressSpace) : bool :=
  match serve demo_env no_move no_unmap r s with Done _ => true | Panic _ => false end.

Lemma demo_step r s : valid demo_env s r -> completes r s = true -> step demo_env no_move no_unmap s (demo_serve r s).
Proof.
  intros Hv Hc. apply (step_serve _ _ _ r); [done|]. unfold demo_serve, completes in *.
  by destruct (serve demo_env no_move no_unmap r s) as [[[] s']|].
Qed.

Definition map_two : Request := Mmap (Space.Fixed 0x10000) (2 * page) RW RW PRIV Anonymous.

Definition seal_one : Request := Mseal 0x10000 page 0.

Definition unmap_two : Request := Munmap 0x10000 (2 * page).

Definition deny : Request := MdweSet Mdwe.RefuseExecGain.


Lemma demo_huge : huge_ok demo_env.
Proof. intros b. exists 0%nat. split; [lia|done]. Qed.

Lemma demo_live : live demo_new.
Proof. by apply new_live. Qed.

Lemma map_two_valid s : valid demo_env s map_two.
Proof.
  split_and!; [done|done| |intros h [= <-]; done|done|by intros []].
  exists 0%nat. split; [lia|done].
Qed.

Definition mapped_two : AddressSpace := demo_serve map_two demo_new.

Definition sealed_one : AddressSpace := demo_serve seal_one mapped_two.

Lemma mapped_two_reached : rtc (step demo_env no_move no_unmap) demo_new mapped_two.
Proof. apply rtc_once, demo_step; [apply map_two_valid|by vm_compute]. Qed.

Lemma sealed_one_reached : rtc (step demo_env no_move no_unmap) demo_new sealed_one.
Proof.
  eapply rtc_r; [apply mapped_two_reached|]. apply demo_step; [by split_and!|by vm_compute].
Qed.

(** The time page of the vdso, a kernel frame. *)
Definition map_vvar : Request := Mmap (Space.Fixed 0x30000) page Prot.READ Prot.READ PRIV (KernelFrame 0x5000).

Definition unmap_vvar : Request := Munmap 0x30000 page.

Definition with_vvar : AddressSpace := demo_serve map_vvar sealed_one.

Lemma with_vvar_reached : rtc (step demo_env no_move no_unmap) demo_new with_vvar.
Proof.
  eapply rtc_r; [apply sealed_one_reached|]. apply demo_step; [|by vm_compute].
  split_and!; [done|done| |intros h [= <-]; done|done|done]. exists 0%nat. split; [lia|done].
Qed.

Definition map_file : Request := Mmap (Space.Fixed 0x20000) (2 * page) RW RW Flags.SHARED (File 9 0).

Definition mapped_file : AddressSpace := demo_serve map_file mapped_two.

Lemma mapped_file_reached : rtc (step demo_env no_move no_unmap) demo_new mapped_file.
Proof.
  eapply rtc_r; [apply mapped_two_reached|]. apply demo_step; [|by vm_compute].
  split_and!; [done|done| |intros h [= <-]; done|done|by intros []]. exists 0%nat. split; [lia|done].
Qed.

Lemma mapped_two_live : live mapped_two.
Proof. apply (steps_lawful demo_env no_move no_unmap demo_huge demo_new); [apply demo_live|apply mapped_two_reached]. Qed.

(** ** Histories *)

Section histories.
Context (env : Env) (mv : Z -> Z -> Z -> option Error) (um : Z -> Z -> option Error).
Context (root_pa self : Z) (shm : bool) (next_id : Z) (chains : Z -> list AnonVma.RmapTarget) (rmaps : Z -> FileRmap.FileRmapState).

Definition first_state : AddressSpace := Space.new root_pa self shm next_id chains rmaps.

Definition reachable : AddressSpace -> Prop := rtc (step env mv um) first_state.

Hypothesis Henv : huge_ok env.
Hypothesis Hpending : forall id, 0 <= FileRmap.pending_writable (rmaps id).

Lemma reachable_live s : reachable s -> live s.
Proof. intros Hr. by apply (steps_lawful env mv um Henv first_state s (new_live _ _ _ _ _ _ Hpending)). Qed.

(** C2: whatever mappings, unmappings, protections, locks,
    advice, seals, moves and settings a process asks for, its address space
    stays well formed (the areas are ordered, disjoint and inside the user
    range, the byte counters are the bytes of the pages they are meant to
    count, every mapped object has one open call more than close calls for
    each area), and the next request again completes without a panic,
    whatever its answer. The requests are those of [Request] that are
    [valid]: device memory and kernel frames are mapped by single pages at
    fixed addresses and not moved, and no mremap has old size 0. *)
Theorem vmm_history s r :
  reachable s -> valid env s r ->
  space_ok s /\ layout_ok s /\ Tree.audit_no_overlap (vmas s) = Ok tt /\
  exists s', serve env mv um r s = Done (tt, s') /\ reachable s'.
Proof.
  intros Hr Hv. pose proof (reachable_live s Hr) as Hlv.
  destruct (wp_total _ _ _ (serve_lawful env mv um Henv r s Hlv Hv)) as ([] & s' & Hrun & _).
  split_and!; [apply Hlv..|by apply audit_ok, Hlv|]. exists s'. split; [done|]. eapply rtc_r; [done|]. by eapply step_serve.
Qed.


(** C13: once memory-deny-write-execute is on in an address space
    without pages that are both writable and executable, it stays on and no
    sequence of valid requests makes such a page. A fixed mapping is admitted
    before its range is torn down and made afterwards on that admission: this
    too makes no such page, as long as no admission for one was given before
    memory-deny-write-execute was turned on and is still unused. *)
Theorem mdwe_no_wx s held s' held' :
  reachable s -> mdwe_on s = true -> wx_free s -> innocent held -> rtc (process_step env mv um) (s, held) (s', held') ->
  mdwe s' = mdwe s /\ wx_free s' /\ innocent held'.
Proof.
  intros Hr Hon Hw Hin Hst. pose proof (reachable_live s Hr) as Hlv. clear Hr.
  assert (Hgoal : forall x y, rtc (process_step env mv um) x y -> live x.1 -> mdwe_on x.1 = true -> wx_free x.1 -> innocent x.2 ->
    mdwe y.1 = mdwe x.1 /\ wx_free y.1 /\ innocent y.2).
  { clear - Henv. induction 1 as [x|x y z Hxy _ IH]; intros Hlv Hon Hw Hin; [done|].
    destruct (process_step_lawful env mv um Henv x y Hxy Hlv Hon Hin) as [Hl Hin']. pose proof (lw_mdwe _ _ _ _ Hl Hon) as Hmd.
    rewrite <- Hmd. apply IH; [apply Hl|unfold mdwe_on; by rewrite Hmd|by apply Hl|done]. }
  exact (Hgoal _ _ Hst Hlv Hon Hw Hin).
Qed.

(** C21: when an address space is torn down in any state the
    requests of [Request] can reach, every object that was ever mapped has
    received as many close calls as open calls, and every SysV segment as many
    detaches as attaches. Memory policies are not among the requests: setting
    one loses calls. *)
Theorem calls_balance s (sysv : bool) b :
  reachable s -> (sysv = true -> shm_installed (t_ops (vmas s)) = true) ->
  net sysv b (Tree.drop (vmas s)) = 0.
Proof.
  intros Hr Hi. pose proof (so_balanced _ (lv_ok _ (reachable_live s Hr)) sysv b Hi) as Hb. unfold slack in Hb.
  unfold Tree.drop. rewrite net_drop by done. lia.
Qed.

End histories.

(** An unmapping that meets a sealed page, and one of a kernel frame. *)
Lemma vmm_history_witness :
  (exists s', serve demo_env no_move no_unmap unmap_two sealed_one = Done (tt, s')) /\
  vw with_vvar 0x30000 <> None /\ exists s', serve demo_env no_move no_unmap unmap_vvar with_vvar = Done (tt, s').
Proof.
  split; [|split; [by vm_compute|]].
  - destruct (vmm_history demo_env no_move no_unmap 0x1000 1 true 1 (fun _ => []) (fun _ => FileRmap.new) demo_huge
      ltac:(done) sealed_one unmap_two sealed_one_reached ltac:(by split_and!)) as (_ & _ & _ & s' & Hs & _).
    exists s'. exact Hs.
  - destruct (vmm_history demo_env no_move no_unmap 0x1000 1 true 1 (fun _ => []) (fun _ => FileRmap.new) demo_huge
      ltac:(done) with_vvar unmap_vvar with_vvar_reached ltac:(by split_and!)) as (_ & _ & _ & s' & Hs & _).
    exists s'. exact Hs.
Defined.


Definition denying : AddressSpace := demo_serve deny demo_new.

Definition map_admitted : Request :=
  MmapAdmitted (Space.Fixed 0x10000) (2 * page) RW RW PRIV Anonymous {| Mdwe.owner := 1; Mdwe.admitted_prot := RW |}.

Lemma map_admitted_run : serve demo_env no_move no_unmap map_admitted denying = Done (tt, demo_serve map_admitted denying).
Proof.
  assert (Hc : completes map_admitted denying = true) by (by vm_compute). unfold demo_serve, completes in *.
  by destruct (serve demo_env no_move no_unmap map_admitted denying) as [[[] s']|].
Qed.

(** A fixed mapping, admitted and then made. *)
Lemma mdwe_no_wx_witness : vw (demo_serve map_admitted denying) 0x10000 <> None /\ wx_free (demo_serve map_admitted denying).
Proof.
  split; [by vm_compute|].
  refine (proj1 (proj2 (mdwe_no_wx demo_env no_move no_unmap 0x1000 1 true 1 (fun _ => []) (fun _ => FileRmap.new) demo_huge
    ltac:(done) denying [] _ [] _ _ _ _ _))).
  - apply rtc_once, demo_step; [done|by vm_compute].
  - by vm_compute.
  - intros a p. by vm_compute.
  - intros x Hx. by apply not_elem_of_nil in Hx.
  - eapply rtc_l; [by apply (ps_admit _ _ _ denying [] RW {| Mdwe.owner := 1; Mdwe.admitted_prot := RW |}); vm_compute|].
    exact (rtc_once _ _ (ps_admitted _ _ _ denying [] [] _ _ _ _ _ _ _ _ (map_two_valid denying) map_admitted_run)).
Defined.

Lemma calls_balance_witness : net false 9 (Tree.drop (vmas mapped_file)) = 0.
Proof.
  apply (calls_balance demo_env no_move no_unmap 0x1000 1 true 1 (fun _ => []) (fun _ => FileRmap.new) demo_huge
    ltac:(done)); [apply mapped_file_reached|done].
Defined.

(** ** The calls *)

(** C9: a mapping lands where the layout says it should, and
    nowhere else changes. A fixed mapping lands at its address, over
    whatever was there unless that is sealed or refuses to be split; one that
    must not replace anything lands at its address when that is free; an
    advisory one lands at its hint when that is usable and otherwise at the
    highest (lowest) address that fits in the arena. The pages get the
    protection, flags and contents asked for, the counters follow, and every
    error has its documented cause and leaves every page as it was. *)
Theorem mmap_placement env p len prot may_prot flags backing j s :
  space_ok s -> layout_ok s -> 0 <= len <= U64_MAX -> (j < 47)%nat -> Space.placement_align env p backing = pow2 j ->
  (forall h, hint_of p = Some h -> 0 <= h < USER_VA_END) -> backing_fits backing len -> pinned p len backing ->
  wp (Space.mmap_with_may_at env p len prot may_prot flags backing) (fun r s' =>
    match r with
    | inr start =>
        0 < len /\ (PAGE_SIZE_BYTES | len) /\ placed s p len j start /\ start + len < USER_VA_END /\
        (fixed p = true -> ~ seals s start (start + len)) /\ space_ok s' /\
        forall a, vw s' a = if (start <=? a) && (a <? start + len)
                            then Some (new_page prot may_prot (Space.future_flags s flags) backing (a - start))
                            else vw s a
    | inl e =>
        refusal env s p len prot may_prot flags backing Space.Check_ j e /\ space_ok s' /\ forall a, vw s' a = vw s a
    end) s.
Proof.
  intros Hs Hl Hlen Hj Hal Hh Hf Hd.
  eapply wp_mono; [by apply (mmap_spec env s p len prot may_prot flags backing Space.Check_ j)|].
  intros [e|start] s'.
  - intros [Hr Hwhy]. split_and!; [done|by eapply relinked_ok|]. intros a. unfold vw. by rewrite (rl_vmas _ _ Hr).
  - intros (Hpos & Hdiv & Hp & H0 & Hend & _ & Hfix & _ & Hok & _ & _ & Hv). split_and!; try done. intros Hfx. by apply Hfix.
Qed.

Lemma mmap_placement_witness :
  wp (Space.mmap_with_may_at demo_env (Space.Advisory None) page RW RW PRIV Anonymous)
    (fun r s' => match r with inr a => vw s' a <> None | inl _ => True end) mapped_two.
Proof.
  pose proof mapped_two_live as [Hok Hl _ _].
  refine (wp_mono _ _ _ _ (mmap_placement demo_env (Space.Advisory None) page RW RW PRIV Anonymous 0 mapped_two
    Hok Hl _ _ _ _ _ _) _); try done; [lia|].
  intros [e|a] s'; [done|]. intros (_ & _ & _ & _ & _ & _ & Hv). rewrite Hv, Z.leb_refl, (proj2 (Z.ltb_lt _ _)); [done|].
  unfold page, PAGE_SIZE_BYTES. lia.
Defined.

(** C25: an anonymous mapping of a positive number of pages,
    when some address of the arena fits it, gets the address the layout picks
    unless that ends beyond the user range (EINVAL), or the platform does not
    admit it or memory-deny-write-execute objects (EACCES): there is no other
    way to fail, and no second address is tried. *)
Theorem mmap_succeeds env hint len prot may_prot flags s a :
  space_ok s -> layout_ok s -> 0 < len <= U64_MAX -> (PAGE_SIZE_BYTES | len) -> fitting s len 0 a ->
  (forall h, hint = Some h -> 0 <= h < USER_VA_END) ->
  exists start, placed s (Space.Advisory hint) len 0 start /\
    wp (Space.mmap_with_may_at env (Space.Advisory hint) len prot may_prot flags Anonymous) (fun r _ =>
      r = if USER_VA_END <=? start + len then inl (Space.Vmm Inval)
          else if admit_mmap_addr env start && negb (Mdwe.denies (mdwe s) prot prot) then inr start
          else inl (Space.Vmm Access)) s.
Proof.
  intros Hs Hl Hlen Hdiv Hfit Hh. pose proof (place_spec s (Space.Advisory hint) len 0 Hs Hl ltac:(lia) ltac:(lia) Hh) as Hp.
  unfold Space.mmap_with_may_at, Space.mmap_with_may_at_inner_locked, Layout.validate_len.
  rewrite (proj2 (Z.eqb_neq len 0)), (proj2 (Z.mod_divide len PAGE_SIZE_BYTES ltac:(done)) Hdiv) by lia. cbn [orb negb Z.eqb].
  change (pow2 0) with 1 in Hp. change (Space.placement_align env (Space.Advisory hint) Anonymous) with 1.
  destruct (Space.place s (Space.Advisory hint) len 1) as [e|[start rep]] eqn:Ep.
  { exfalso. destruct Hp as (_ & _ & Hb). by apply (best_none s len 0 a Hb). }
  destruct Hp as (Hst & Hpl & -> & Hcl). exists start. split; [done|]. do 2 wp_step. cbn zeta. rewrite Ep.
  pose proof (end_of_spec start len Hst ltac:(lia)) as He. destruct (Layout.end_of start len) as [e|e]; destruct He as [-> He].
  2: { rewrite (proj2 (Z.leb_le _ _)) by lia. by apply wp_ret. }
  rewrite (proj2 (Z.leb_gt USER_VA_END _)) by lia. destruct (admit_mmap_addr env start); [|by apply wp_ret]. cbn [negb andb].
  unfold Space.mdwe_step, Space.mdwe_admit_new_mapping. destruct (Mdwe.denies _ _ _); [by apply wp_ret|].
  cbn [Space.with_reservation Space.writable_rmap Space.mmap_commit negb].
  eapply wp_mono; [apply insert_mapping_spec; [done|lia|lia|done|by intros []|done]|]. by intros r s' [-> _].
Qed.

(** A platform that admits no address. *)
Definition closed_env : Env :=
  {| may_split := fun _ => true; huge_page_size := fun _ => 0; file_rmap_of := fun b => Some b;
     mmap_setup := fun _ _ _ _ => None; admit_mmap_addr := fun _ => false; try_reserve := fun _ => true;
     wants_remap := fun _ => true; is_shmem := fun _ => false |}.

Lemma mmap_succeeds_witness :
  wp (Space.mmap_with_may_at demo_env (Space.Advisory (Some 0x10000)) page RW RW PRIV Anonymous)
    (fun r _ => r = inr 0x10000) demo_new /\
  wp (Space.mmap_with_may_at closed_env (Space.Advisory (Some 0x10000)) page RW RW PRIV Anonymous)
    (fun r _ => r = inl (Space.Vmm Access)) demo_new.
Proof.
  pose proof demo_live as [Hok Hl _ _].
  assert (Hf : fitting demo_new page 0 0x10000) by (unfold fitting, fits; cbn; split_and!; try done; by exists 0x10000).
  assert (Hh : forall h, Some 0x10000 = Some h -> 0 <= h < USER_VA_END) by (by intros h [= <-]).
  assert (Hpl : forall start, placed demo_new (Space.Advisory (Some 0x10000)) page 0 start -> start = 0x10000).
  { intros start [[[= <-] _]|[Hno _]]; [done|]. exfalso. apply (Hno 0x10000 eq_refl). unfold usable. split_and!; try done.
    - by exists 16.
    - by exists 0x10000. }
  split.
  - destruct (mmap_succeeds demo_env (Some 0x10000) page RW RW PRIV demo_new 0x10000 Hok Hl) as (start & ->%Hpl & Hw); done.
  - destruct (mmap_succeeds closed_env (Some 0x10000) page RW RW PRIV demo_new 0x10000 Hok Hl) as (start & ->%Hpl & Hw); done.
Defined.

(** C17: unmapping a page-aligned range leaves exactly the pages
    outside it, unless the range holds a sealed page or a mapping that cannot
    be cut where the range ends; then, and with bad arguments, nothing
    changes. A range that runs past the end of the user range unmaps nothing
    and succeeds all the same. Device memory and kernel frames are mapped by
    single pages only (cutting a larger range of them shifts what it maps). *)
Theorem munmap_exact env addr len s :
  space_ok s -> 0 <= addr < USER_VA_END -> 0 <= len <= U64_MAX ->
  wp (Space.munmap env addr len) (fun r s' =>
    match r with
    | Ok _ =>
        0 < len /\ (PAGE_SIZE_BYTES | len) /\ (PAGE_SIZE_BYTES | addr) /\ addr + len <= U64_MAX /\ space_ok s' /\
        if addr + len <=? USER_VA_END
        then ~ seals s addr (addr + len) /\ ~ refused env s addr (addr + len) /\
             forall a, vw s' a = if (addr <=? a) && (a <? addr + len) then None else vw s a
        else forall a, vw s' a = vw s a
    | Err e =>
        s' = s /\ (e = Inval /\ (len = 0 \/ ~ (PAGE_SIZE_BYTES | len) \/ ~ (PAGE_SIZE_BYTES | addr) \/ U64_MAX < addr + len) \/
                   addr + len <= USER_VA_END /\
                   (e = Perm /\ seals s addr (addr + len) \/ e = Inval /\ refused env s addr (addr + len)))
    end) s.
Proof.
  intros Hs Ha Hlen. unfold Space.munmap, try_, Layout.validate_len, Layout.validate_aligned.
  pose proof (is_aligned_iff addr) as Hal. pose proof (Z.mod_divide len PAGE_SIZE_BYTES ltac:(done)) as Hdv.
  bool_case (len =? 0); cbn [orb]; [apply wp_ret; auto|].
  bool_case (len mod PAGE_SIZE_BYTES =? 0); cbn [negb]; [|apply wp_ret; split; [done|]; left; split; [done|]; right; left; tauto].
  destruct (Layout.is_aligned addr); cbn [negb]; [|apply wp_ret; split; [done|]; left; split; [done|]; right; right; left; by intros ?%Hal].
  unfold Layout.end_of_raw, checked_add. bool_case (addr + len <=? U64_MAX); [|apply wp_ret; split; [done|]; left; auto].
  eapply wp_mono; [apply munmap_locked_spec; [done|done|lia|]|].
  { apply pagewise_cut; [done|right]. split; [by apply Hal|apply Z.divide_add_r; [by apply Hal|tauto]]. }
  intros [[]|e] s'; [|by intros (-> & ? & ?); auto].
  intros Hr. split_and!; [lia|tauto|by apply Hal|lia|..]; destruct (addr + len <=? USER_VA_END).
  - apply Hr.
  - by eapply relinked_ok.
  - destruct Hr as (Hns & Hnr & Hok & _ & _ & Hv). split_and!; [done..|]. intros a. rewrite Hv. unfold over, nothing.
    destruct (_ && _); [|done]. by destruct (vw s a).
  - intros a. unfold vw. by rewrite (rl_vmas _ _ Hr).
Qed.

(** A page unmapped, and a range past the end of the user range. *)
Lemma munmap_exact_witness :
  wp (Space.munmap demo_env 0x10000 page) (fun r s' => r = Ok tt -> vw s' 0x10000 = None) mapped_two /\
  wp (Space.munmap demo_env 0x10000 USER_VA_END) (fun r s' => r = Ok tt -> vw s' 0x10000 <> None) mapped_two.
Proof.
  pose proof (lv_ok _ mapped_two_live) as Hok. split.
  - refine (wp_mono _ _ _ _ (munmap_exact demo_env 0x10000 page mapped_two Hok _ _) _); try done.
    intros [[]|e] s' Hr; [|done]. intros _. destruct Hr as (_ & _ & _ & _ & _ & _ & _ & Hv). by rewrite Hv.
  - refine (wp_mono _ _ _ _ (munmap_exact demo_env 0x10000 USER_VA_END mapped_two Hok _ _) _); try done.
    intros [[]|e] s' Hr; [|done]. intros _. destruct Hr as (_ & _ & _ & _ & _ & Hv). cbn in Hv. rewrite Hv. by vm_compute.
Defined.

(** C15: changing the protection of a range reaches a cursor:
    every page below it has the protection and key its area gets, every page
    from it on is as it was. Without an error the cursor is the end of the
    range; with one it is where an area is missing or refuses (security,
    memory-deny-write-execute, seal, maximal protection, a cut the object
    forbids), and the error names that cause. *)
Theorem mprotect_prefix env prot rie security key_for addr len s :
  space_ok s -> 0 <= addr < USER_VA_END -> 0 <= len <= U64_MAX ->
  wp (mprotect_user_with_security env prot rie security key_for addr len) (fun r s' =>
    match r with
    | Ok out => exists c,
        ~ bad_range addr len /\ addr <= c <= addr + len /\
        match o_error out with
        | None => c = addr + len
        | Some e => c < addr + len /\ stops env prot rie security s (addr + len) c e
        end /\ space_ok s' /\
        forall a,
          (a < addr \/ c <= a -> vw s' a = vw s a) /\
          (addr <= a < c -> exists v, Space.find_vma s a = Some (clone v) /\
             vw s' a = Some (page_protect (step_prot prot rie v) (Some (key_for v)) (page_at v a)))
    | Err e =>
        s' = s /\ (e = Inval /\ bad_range addr len \/
          e = NoMem /\ try_reserve env (length (List.filter (Space.overlaps addr (addr + len)) (Space.areas s))) = false)
    end) s.
Proof.
  intros Hs Ha Hl. eapply wp_mono; [by apply mprotect_user_spec|]. intros [out|e] s'; [|done].
  intros (Hb & (c & Hc & Ht & He) & Hok & _ & _ & Hv). exists c.
  split_and!; [done|done|destruct (o_error out); lia|by destruct (o_error out)|done|]. intros a. rewrite Hv.
  destruct (protected_tiles _ _ _ _ _ _ _ Hs _ _ _ (vw s) a Ht ltac:(done)) as [Hout Hin].
  split; [exact Hout|]. intros Hac. destruct (Hin Hac) as (v & lo & Hg & Hv1 & Hv2 & _ & Heq). exists v. split; [|exact Heq].
  unfold Space.find_vma. rewrite (proj2 (find_containing_spec (vmas s) a v (so_tree _ Hs))); [done|]. split; [done|lia].
Qed.

Lemma mprotect_prefix_witness :
  wp (mprotect_user_with_security demo_env Prot.READ false (fun _ _ => None) (fun _ => 0) 0x10000 page)
    (fun r s' => vw s' 0x11000 = vw mapped_two 0x11000) mapped_two.
Proof.
  refine (wp_mono _ _ _ _ (mprotect_prefix demo_env Prot.READ false (fun _ _ => None) (fun _ => 0) 0x10000 page mapped_two
    (lv_ok _ mapped_two_live) _ _) _); try done.
  intros [out|e] s'; [|intros [-> _]; done]. intros (c & _ & Hc & _ & _ & Hv). apply (proj1 (Hv 0x11000)). right.
  unfold page, PAGE_SIZE_BYTES in Hc. lia.
Defined.










(** ** The components *)

(** C3: the interval tree implements a map from addresses to
    pages: inserting, removing, protecting, sealing and looking up an address
    never panic, give the answer of the map (its errors included), leave the
    map the abstract operation leaves, and keep the tree well formed and the
    calls on mapped objects balanced. *)
Theorem tree_refines_map op t :
  tree_ok (t_map t) -> op_ok (t_map t) op ->
  exists ans t', run_op op t = Done (ans, t') /\ tree_ok (t_map t') /\ steady t t' /\
    exists f', map_step op (view (t_map t)) ans f' /\ forall a, view (t_map t') a = f' a.
Proof. intros Hm Hop. by apply wp_total, op_refines. Qed.

Lemma tree_refines_map_witness :
  exists ans t', run_op (OpRemove 0x10000 0x11000) (vmas mapped_two) = Done (ans, t').
Proof.
  pose proof (lv_ok _ mapped_two_live) as Hok.
  destruct (tree_refines_map (OpRemove 0x10000 0x11000) (vmas mapped_two)) as (ans & t' & Hrun & _).
  - apply Hok.
  - split; [by vm_compute|]. apply pagewise_cut; [done|right]. split; [by exists 16|by exists 17].
  - exists ans, t'. exact Hrun.
Defined.

(** What the check before a protection change walks. *)
Lemma range_may_covered t start end_ prot :
  tree_ok (t_map t) -> start < end_ < USER_VA_END ->
  Tree.range_may_raw_end t start end_ prot = true <-> Tree.covered (Tree.may_admit prot) Inval start end_ t = Ok tt.
Proof.
  intros Hm Hr. unfold Tree.range_may_raw_end, Tree.raw_end_key, uva_new. rewrite (proj2 (Z.ltb_lt _ _)) by lia.
  rewrite may_walk_coverage. unfold Tree.covered. destruct (Tree.coverage _ _ _ _ _) as [c|e]; [|done].
  bool_case (end_ <=? c); bool_case (c <? end_); (done || lia).
Qed.

(** C33: the read-only check of a range agrees with the
    operation: it accepts a range exactly when changing the protection of the
    range succeeds. *)
Theorem range_may_mprotect t start end_ prot :
  tree_ok (t_map t) -> no_phys_cut start end_ (t_map t) -> start < end_ < USER_VA_END ->
  Tree.range_may_raw_end t start end_ prot = true <->
  exists t', Tree.mprotect_range start end_ prot t = Done (Ok tt, t').
Proof.
  intros Hm Hph Hr. rewrite range_may_covered by done.
  pose proof (mprotect_spec start end_ prot None t Hm Hph) as Hsp. apply wp_total in Hsp as (r & t' & Hrun & Hr').
  pose proof Hrun as Hrun'. unfold Tree.mprotect_range_with_pkey in Hrun'. rewrite (proj2 (Z.leb_gt _ _)) in Hrun' by lia.
  cbv [mbind M_bind bind gets] in Hrun'. unfold Tree.mprotect_range. rewrite Hrun.
  destruct (Tree.covered _ _ _ _ _) as [[]|e].
  - split; [intros _; exists t'|done]. destruct (for_each _ _ _) as [[[] t1]|]; [|done]. cbv [ret] in Hrun'. congruence.
  - split; [done|]. cbv [ret] in Hrun'. intros [t2 Heq]. congruence.
Qed.

Lemma range_may_mprotect_witness :
  exists t', Tree.mprotect_range 0x10000 0x12000 Prot.READ (vmas mapped_two) = Done (Ok tt, t').
Proof.
  pose proof (lv_ok _ mapped_two_live) as Hok.
  apply range_may_mprotect; [apply Hok|apply pagewise_cut; [done|right; split; [by exists 16|by exists 18]]|by vm_compute..].
Defined.

(** C24: the search for a hole returns the best address there is:
    the top-down search the highest, the bottom-up search the lowest aligned
    address at which the length fits inside the window without touching an
    area; it returns nothing only when nothing fits. *)
Theorem hole_optimal t len top floor (j : nat) :
  tree_ok (t_map t) -> 0 < len -> Hole.MIN_USER_VA <= top <= USER_VA_END -> 0 <= floor < USER_VA_END -> (j < 47)%nat ->
  let down := fits (t_map t) len (pow2 j) Hole.MIN_USER_VA top in
  let up := fits (t_map t) len (pow2 j) (Z.max floor Hole.MIN_USER_VA) Hole.MMAP_TOP in
  match Hole.find_hole_aligned t len top (pow2 j) with
  | Some a => down a /\ forall a', down a' -> a' <= a
  | None => forall a', ~ down a'
  end /\
  match Hole.find_hole_bottom_up_aligned t len floor (pow2 j) with
  | Some a => up a /\ forall a', up a' -> a <= a'
  | None => forall a', ~ up a'
  end.
Proof.
  intros Hm Hlen Ht Hf Hj. split.
  - exact (find_hole_highest t len top j Hm Hlen Ht ltac:(lia)).
  - exact (find_hole_lowest t len floor j Hm Hlen Hf Hj).
Qed.

Lemma hole_optimal_witness :
  match Hole.find_hole_aligned (vmas mapped_two) page Hole.MMAP_TOP (pow2 12) with
  | Some a => fits (t_map (vmas mapped_two)) page (pow2 12) Hole.MIN_USER_VA Hole.MMAP_TOP a
  | None => False
  end.
Proof.
  destruct (hole_optimal (vmas mapped_two) page Hole.MMAP_TOP 0 12 (so_tree _ (lv_ok _ mapped_two_live))) as [Hd _];
    [done|done|done|lia|].
  destruct (Hole.find_hole_aligned _ _ _ _) as [a|] eqn:E; [apply Hd|by vm_compute in E].
Defined.

(** C26: the walk of a file's mappings, which takes the lock
    once per visit and resumes after the last sequence number, sees what one
    pass under the lock would see; a page of the file is reported at an
    address exactly when a live interval maps it there; attaching and
    detaching keep the order the cursor relies on. *)
Theorem file_rmap_walk alive st :
  rmap_ok st ->
  (forall first last, FileRmap.walk_range alive first last st =
     if last <=? first then [] else omap (FileRmap.span alive first last) (FileRmap.targets st)) /\
  ((forall t, t ∈ FileRmap.targets st -> 0 <= FileRmap.start t <= FileRmap.end_ t /\
      0 <= FileRmap.file_page_start t /\ FileRmap.file_page_start t + (FileRmap.end_ t - FileRmap.start t) <= U64_MAX) ->
   forall i m va, 0 <= i < U64_MAX ->
     (m, va) ∈ FileRmap.walk_page alive i st <->
     exists t, t ∈ FileRmap.targets st /\ alive (FileRmap.mm t) = true /\ FileRmap.mm t = m /\
       FileRmap.file_page_start t <= i < FileRmap.file_page_start t + (FileRmap.end_ t - FileRmap.start t) / PAGE_SIZE_BYTES /\
       va = FileRmap.start t + (i - FileRmap.file_page_start t) * PAGE_SIZE_BYTES) /\
  (forall m s e fps w, 0 < FileRmap.next_seq st < U64_MAX -> rmap_ok (FileRmap.attach m s e fps w st)) /\
  (forall m s e, rmap_ok (FileRmap.detach m s e st)).
Proof.
  intros Hok. split_and!.
  - intros first last. by apply walk_range_spec.
  - intros Ht i m va Hi. by apply walk_page_spec.
  - intros m s e fps w Hn. by apply attach_ok.
  - intros m s e. by apply detach_ok.
Qed.

Lemma file_rmap_walk_witness : rmap_ok (FileRmap.attach 1 0x4000 0x5000 0 true FileRmap.new).
Proof. apply (file_rmap_walk (fun _ => true) FileRmap.new new_rmap_ok). by vm_compute. Defined.

(** C23: when a write seal is published on a file, no live
    interval of the file may write; from then on, whatever the process asks of
    its address space and whatever other users do with the file's intervals, no
    reservation for a writable shared mapping is granted or pending, and an
    address space without a shared page through which the file can be written
    never gets one. The seal is refused as busy exactly while a reservation is
    pending or an interval that may write lives; a private mapping that may
    become writable has such an interval. *)
Theorem write_seal_excludes env mv um alive id s st :
  huge_ok env -> live s -> FileRmap.writable_denied (file_rmaps s id) = false ->
  (FileRmap.commit_write_seal alive true (file_rmaps s id) = (inr true, st) ->
   (forall t, t ∈ FileRmap.targets st -> FileRmap.may_write t = false) /\
   forall s', rtc (shared_step env mv um alive) (set_file_rmaps (fupd (file_rmaps s) id st) s) s' ->
     FileRmap.reserve_writable (file_rmaps s' id) = Err Perm /\ FileRmap.pending_writable (file_rmaps s' id) = 0 /\
     (unwritten env id s -> unwritten env id s')) /\
  ((FileRmap.commit_write_seal alive true (file_rmaps s id)).1 = inl FileRmap.Busy <->
   FileRmap.pending_writable (file_rmaps s id) <> 0 \/
   exists t, t ∈ FileRmap.targets (file_rmaps s id) /\ alive (FileRmap.mm t) = true /\ FileRmap.may_write t = true).
Proof.
  intros Henv Hlv Hd. split; [|by apply seal_busy].
  intros Hc. pose proof (os_seal alive true (file_rmaps s id)) as Hst. rewrite Hc in Hst. cbn [snd] in Hst.
  destruct (commit_sealed_off _ _ _ Hd Hc) as [Hso Hw]. split; [done|]. intros s' Hr.
  destruct (shared_steps_barred env mv um Henv alive id _ s' (live_owner alive id st s Hlv Hst)) as [[Hden Hp] Hun]; [|done|].
  - cbn. unfold fupd. by rewrite Z.eqb_refl.
  - split_and!; [|done|exact Hun]. unfold FileRmap.reserve_writable. by rewrite Hden.
Qed.

Definition sealed_nine : FileRmap.FileRmapState := FileRmap.set_denied true FileRmap.new.

(** The file is sealed before the process maps it, and the shared writable
    mapping it asks for does not come about. *)
Lemma write_seal_excludes_witness :
  let s' := demo_serve map_file (set_file_rmaps (fupd (file_rmaps mapped_two) 9 sealed_nine) mapped_two) in
  FileRmap.reserve_writable (file_rmaps s' 9) = Err Perm /\ vw s' 0x20000 = None.
Proof.
  intros s'. destruct (write_seal_excludes demo_env no_move no_unmap (fun _ => true) 9 mapped_two sealed_nine
    demo_huge mapped_two_live eq_refl) as [H _].
  split; [|by vm_compute]. refine (proj1 (proj2 (H _) s' _)); [by vm_compute|].
  apply rtc_once, sh_serve, demo_step; [|by vm_compute].
  split_and!; [done|done| |intros h [= <-]; done|done|by intros []]. exists 0%nat. split; [lia|done].
Defined.

(** C38: the stored memory-deny-write-execute state reads back
    as the request that was stored, a child gets the parent's state unless
    that is not to be inherited, and after any sequence of requests the state
    is that of the first one that turned it on: setting it again succeeds
    only with the same request. *)
Theorem mdwe_roundtrip requests :
  (forall r, Mdwe.get (Mdwe.encode r) = r) /\
  (forall r, Mdwe.get (Mdwe.inherited_from (Mdwe.encode r)) =
     match r with Mdwe.RefuseExecGainNoInherit => Mdwe.Disabled | _ => r end) /\
  let state := foldl (fun x r => (Mdwe.set r x).2) Mdwe.DISABLED requests in
  state = Mdwe.encode (match List.find (fun r => negb (Mdwe.encode r =? Mdwe.DISABLED)) requests with
                       | Some r => r | None => Mdwe.Disabled end) /\
  forall r, (Mdwe.set r state).1 = inr tt <-> state = Mdwe.DISABLED \/ Mdwe.get state = r.
Proof.
  split_and!; [by intros []..|]. intros state.
  assert (Hon : forall x, x <> Mdwe.DISABLED -> forall l, foldl (fun x r => (Mdwe.set r x).2) x l = x).
  { intros x Hx l. induction l as [|r l IH]; [done|]. cbn [foldl]. unfold Mdwe.set at 2. by rewrite (proj2 (Z.eqb_neq _ _)). }
  assert (Hst : state = Mdwe.encode (match List.find (fun r => negb (Mdwe.encode r =? Mdwe.DISABLED)) requests with
                       | Some r => r | None => Mdwe.Disabled end)).
  { unfold state. clear state. induction requests as [|r l IH]; [done|]. cbn [foldl List.find].
    destruct r; cbn [Mdwe.encode Z.eqb negb Mdwe.DISABLED]; [exact IH|by apply Hon..]. }
  split; [done|]. intros r. rewrite Hst. destruct (match List.find _ _ with Some _ => _ | None => _ end), r; cbn; naive_solver.
Qed.

(** Rounding down to a page, and the length mseal rounds up. *)
Lemma page_floor x : 0 <= x < 2 ^ 64 -> Z.land x (not64 (PAGE_SIZE_BYTES - 1)) = x / PAGE_SIZE_BYTES * PAGE_SIZE_BYTES.
Proof.
  intros Hx. destruct (align_down_spec x 12 Hx ltac:(lia)) as ([q Hq] & Hle & Hmax). unfold Hole.align_down in *.
  change (pow2 12) with PAGE_SIZE_BYTES in *. set (d := Z.land _ _) in *.
  assert (Hge : x / PAGE_SIZE_BYTES * PAGE_SIZE_BYTES <= d).
  { apply Hmax; [by exists (x / PAGE_SIZE_BYTES)|]. unfold PAGE_SIZE_BYTES. Z.to_euclidean_division_equations. lia. }
  unfold PAGE_SIZE_BYTES in *. Z.to_euclidean_division_equations. lia.
Qed.

Lemma mseal_len_spec len :
  0 <= len <= U64_MAX ->
  let whole := (len + (PAGE_SIZE_BYTES - 1)) / PAGE_SIZE_BYTES * PAGE_SIZE_BYTES in
  match mseal_len len with
  | Ok d => d = whole /\ whole < 2 ^ 64
  | Err e => e = Inval /\ 2 ^ 64 <= whole
  end.
Proof.
  intros Hl whole. unfold mseal_len, wrap64. destruct (decide (len + (PAGE_SIZE_BYTES - 1) < 2 ^ 64)) as [Hfit|Hno].
  - rewrite Z.mod_small by (unfold PAGE_SIZE_BYTES in *; lia). rewrite page_floor by (unfold PAGE_SIZE_BYTES in *; lia).
    fold whole. assert (len <= whole <= len + (PAGE_SIZE_BYTES - 1)).
    { subst whole. unfold PAGE_SIZE_BYTES. Z.to_euclidean_division_equations. lia. }
    bool_case (len =? 0); bool_case (whole =? 0); cbn; (split; [done|lia]) || lia.
  - assert (Hm : (len + (PAGE_SIZE_BYTES - 1)) mod 2 ^ 64 = len + (PAGE_SIZE_BYTES - 1) - 2 ^ 64).
    { symmetry. apply Z.mod_unique with 1; unfold PAGE_SIZE_BYTES, U64_MAX in *; lia. }
    rewrite Hm, page_floor by (unfold PAGE_SIZE_BYTES, U64_MAX in *; lia). rewrite Z.div_small by (unfold PAGE_SIZE_BYTES, U64_MAX in *; lia).
    cbn [Z.mul Z.eqb]. rewrite andb_true_r. bool_case (len =? 0); cbn; [unfold PAGE_SIZE_BYTES in *; lia|].
    split; [done|]. subst whole. unfold PAGE_SIZE_BYTES, U64_MAX in *. Z.to_euclidean_division_equations. lia.
Qed.

(** C39: the argument check of mseal accepts exactly the ranges
    that can be sealed: no flags, a page-aligned start, and a length whose
    rounding up to pages neither overflows nor runs past the last address;
    the range it returns is page-aligned, not empty, and covers the length
    with less than a page to spare; an empty range is accepted as nothing. *)
Theorem mseal_args_ok start len flags :
  0 <= start <= U64_MAX -> 0 <= len <= U64_MAX ->
  let whole := (len + (PAGE_SIZE_BYTES - 1)) / PAGE_SIZE_BYTES * PAGE_SIZE_BYTES in
  let good := flags = 0 /\ (PAGE_SIZE_BYTES | start) /\ start + whole <= U64_MAX in
  match mseal_args start len flags with
  | Ok (Some (s, e)) => good /\ 0 < len /\ s = start /\ e = start + whole /\ len <= e - s < len + PAGE_SIZE_BYTES
  | Ok None => good /\ len = 0
  | Err e => e = Inval /\ ~ good
  end.
Proof.
  intros Hs Hl whole good. unfold mseal_args, good. clear good.
  assert (Hal : (Z.land start (PAGE_SIZE_BYTES - 1) =? 0) = true <-> (PAGE_SIZE_BYTES | start)) by apply (align_iff start 12).
  bool_case (flags =? 0); cbn [negb]; [|split; [done|]; by intros [? _]].
  destruct (Z.land start _ =? 0); cbn [negb]; [|split; [done|]; by intros (_ & ?%Hal & _)].
  pose proof (proj1 Hal eq_refl) as [q Hq]. pose proof (mseal_len_spec len Hl) as Hlen. cbn zeta in Hlen. fold whole in Hlen.
  destruct (mseal_len len) as [d|e]; [|destruct Hlen as [-> Hw]; split; [done|]; intros (_ & _ & ?); unfold U64_MAX in *; lia].
  destruct Hlen as [-> Hw]. unfold wrap64, U64_MAX in *. assert (Hwhole : len <= whole < len + PAGE_SIZE_BYTES /\ (len = 0 -> whole = 0)).
  { subst whole. unfold PAGE_SIZE_BYTES. Z.to_euclidean_division_equations. lia. }
  destruct (decide (start + whole < 2 ^ 64)) as [Hfit|Hno].
  - rewrite Z.mod_small by lia. bool_case (start + whole <? start); [lia|].
    bool_case (start + whole =? start); split_and!; try lia; by apply Hal.
  - replace ((start + whole) mod 2 ^ 64) with (start + whole - 2 ^ 64) by (apply Z.mod_unique with 1; lia).
    bool_case (start + whole - 2 ^ 64 <? start); [|lia]. split; [done|]. lia.
Qed.

Lemma mseal_args_ok_witness : exists s e, mseal_args 0x10000 5000 0 = Ok (Some (s, e)) /\ s = 0x10000 /\ 5000 <= e - s < 5000 + page.
Proof.
  pose proof (mseal_args_ok 0x10000 5000 0 ltac:(by vm_compute) ltac:(by vm_compute)) as H. cbn zeta in H.
  destruct (mseal_args 0x10000 5000 0) as [[[s e]|]|err] eqn:E; [|by vm_compute in E..].
  exists s, e. destruct H as (_ & _ & -> & _ & Hb). split_and!; [done|done|apply Hb..].
Defined.

(** ** Resident set *)

(** C22: whatever entries a process installs, removes, swaps out and
    swaps in, each class counter is the number of pages its entries map, the
    swap counter the number of swapped entries, and the reported high-water
    mark is the largest resident set there ever was; a child whose counters
    are seeded with a tally of the same entries counts the same pages. *)
Theorem rss_exact huge evs L root_pa child_root :
  (forall o, 0 <= huge o) -> ledger_steps huge evs no_leaves L ->
  wp (for_each evs (run_event huge)) (fun _ a =>
    (forall k, k <> ClassUntracked -> class_count k a = of_class k (leaves L)) /\
    swap_pte_mappings a = swapped L /\ resident (leaves L) <= peak L /\
    wp (Accounting.snapshot a) (fun snap _ => s_hiwater_rss_pages snap = peak L) a /\
    wp (tally_leaves (leaves L)) (fun _ t =>
      wp (Accounting.seed_ptes t)
        (fun _ child => forall k, k <> ClassUntracked -> class_count k child = class_count k a)
        (Accounting.new child_root)) Rss.no_tally) (Accounting.new root_pa).
Proof.
  intros Hh Hst. eapply wp_mono; [eapply events_spec; [done|done|apply new_rss_ok]|].
  intros [] a [Hc [Hs _] Hp [Hn Hb]].
  pose proof (peak_high huge Hh evs no_leaves L ltac:(intros x Hx; by apply not_elem_of_nil in Hx) ltac:(done) Hst) as Hpk.
  split_and!; [done|done|done| |].
  - unfold Accounting.snapshot. apply wp_bind. eapply resident_total; [done..|]. apply wp_ret. cbn. rewrite Hp.
    unfold Rss.hiwater_rss. bool_case (resident (leaves L) <? peak L); lia.
  - eapply wp_mono; [apply (tally_spec [] (leaves L)); done|]. intros [] t ->. cbn [app].
    eapply wp_mono; [by apply seed_spec|]. intros [] child [Hc' _ _ _] k Hk. by rewrite Hc, Hc' by done.
Qed.

(** An entry is installed, swapped out and the next one installed. *)
Lemma rss_exact_witness :
  wp (for_each [PteInstall watched_area; PresentToSwap watched_area; PteInstall watched_area] (run_event (fun _ => 0)))
    (fun _ a => class_count ClassAnon a = 1 /\ swap_pte_mappings a = 1) (Accounting.new 0x1000).
Proof.
  eapply wp_mono; [apply (rss_exact (fun _ => 0) [PteInstall watched_area; PresentToSwap watched_area; PteInstall watched_area]
    {| leaves := [(ClassAnon, 1)]; swapped := 1; peak := 1 |} 0x1000 0x2000); [done|]|].
  - eapply led_cons; [apply led_install; by vm_compute|]. eapply led_cons; [by apply led_to_swap|].
    eapply led_cons; [apply led_install; by vm_compute|]. apply led_nil.
  - intros [] a (Hc & Hs & _). split; [by rewrite (Hc ClassAnon)|done].
Defined.
