(* ===== verification/Words.v ===== *)
(** * 64-bit words, bit by bit *)

From stdpp Require Import base.
From S2P Require Import Prelude.

Definition u64 (x : Z) : Prop := 0 <= x <= U64_MAX.

Lemma u64_high x r : u64 x -> 64 <= r -> Z.testbit x r = false.
Proof.
  intros Hx Hr. destruct (decide (x = 0)) as [->|]; [apply Z.bits_0|].
  apply Z.bits_above_log2; [apply Hx|]. assert (Z.log2 x < 64); [|lia].
  apply Z.log2_lt_pow2; [destruct Hx; lia|]. destruct Hx as [_ H]. unfold U64_MAX in H. lia.
Qed.

Lemma testbit_neg x r : r < 0 -> Z.testbit x r = false.
Proof. intros H. by apply Z.testbit_neg_r. Qed.

(** A word without bits is zero. *)
Lemma no_bits x : x = 0 <-> forall r, Z.testbit x r = false.
Proof.
  split; [intros -> r; apply Z.bits_0|]. intros H. apply Z.bits_inj'. intros r _. by rewrite H, Z.bits_0.
Qed.

Lemma land_not64 a b r : u64 a -> Z.testbit (Z.land a (not64 b)) r = Z.testbit a r && negb (Z.testbit b r).
Proof.
  intros Ha. rewrite Z.land_spec. destruct (decide (r < 0)); [by rewrite !testbit_neg|].
  destruct (decide (64 <= r)); [by rewrite (u64_high a)|]. by rewrite testbit_not64 by lia.
Qed.

Lemma u64_bits x : 0 <= x -> (forall r, 64 <= r -> Z.testbit x r = false) -> u64 x.
Proof.
  intros H0 Hb. split; [done|]. destruct (decide (x = 0)) as [->|]; [done|]. unfold U64_MAX.
  assert (x < 2 ^ 64); [|lia]. apply Z.log2_lt_pow2; [lia|]. destruct (Z.lt_ge_cases (Z.log2 x) 64) as [|Hge]; [done|].
  specialize (Hb _ Hge). by rewrite Z.bit_log2 in Hb by lia.
Qed.

Lemma u64_land a b : u64 a -> u64 (Z.land a b).
Proof.
  intros Ha. apply u64_bits; [apply Z.land_nonneg; left; apply Ha|]. intros r Hr. by rewrite Z.land_spec, (u64_high a).
Qed.

Lemma u64_lor a b : u64 a -> u64 b -> u64 (Z.lor a b).
Proof.
  intros Ha Hb. apply u64_bits; [apply Z.lor_nonneg; split; [apply Ha|apply Hb]|].
  intros r Hr. by rewrite Z.lor_spec, (u64_high a), (u64_high b).
Qed.

(** [(a | b) == b]: every right of [a] is one of [b]. *)
Lemma lor_subset a b : (Z.lor a b =? b) = true <-> forall r, Z.testbit a r = true -> Z.testbit b r = true.
Proof.
  rewrite Z.eqb_eq. split.
  - intros H r Ha. by rewrite <- H, Z.lor_spec, Ha.
  - intros H. apply Z.bits_inj'. intros r _. rewrite Z.lor_spec. specialize (H r). destruct (Z.testbit a r); [by rewrite H|done].
Qed.

Lemma some_bit x : 0 <= x -> x <> 0 -> exists r, Z.testbit x r = true.
Proof. intros H0 Hne. exists (Z.log2 x). apply Z.bit_log2. lia. Qed.

(** [(a & b) != 0]: they share a right. *)
Lemma land_some a b : 0 <= a -> negb (Z.land a b =? 0) = true <-> exists r, Z.testbit a r = true /\ Z.testbit b r = true.
Proof.
  intros Ha. rewrite negb_true_iff, Z.eqb_neq. split.
  - intros H. destruct (some_bit (Z.land a b)) as [r Hr]; [apply Z.land_nonneg; by left|done|].
    rewrite Z.land_spec, andb_true_iff in Hr. eauto.
  - intros (r & Ha' & Hb) H. pose proof (proj1 (no_bits _) H r) as Hr. by rewrite Z.land_spec, Ha', Hb in Hr.
Qed.

(** The complement of a word. *)
Lemma u64_not64 a : u64 a -> u64 (not64 a).
Proof.
  intros Ha. apply u64_bits; [unfold not64; apply Z.lxor_nonneg; split; intros _; [done|apply Ha]|].
  intros r Hr. unfold not64. by rewrite Z.lxor_spec, (u64_high a), (u64_high U64_MAX).
Qed.

Lemma u64_max_bits r : 0 <= r < 64 -> Z.testbit U64_MAX r = true.
Proof. intros Hr. change U64_MAX with (Z.ones 64). apply Z.ones_spec_low. lia. Qed.

(** A word with every bit set is the greatest. *)
Lemma u64_full w : u64 w -> (forall r, 0 <= r < 64 -> Z.testbit w r = true) -> w = U64_MAX.
Proof.
  intros Hw H. apply Z.bits_inj'. intros r Hr. destruct (decide (r < 64)); [rewrite H, u64_max_bits by lia; done|].
  by rewrite (u64_high w), (u64_high U64_MAX) by (done || lia).
Qed.

Lemma u64_pow2 n : (n < 64)%nat -> u64 (Z.shiftl 1 (Z.of_nat n)).
Proof.
  intros Hn. apply u64_bits; [rewrite Z.shiftl_mul_pow2 by lia; lia|]. intros r Hr. rewrite testbit_pow2 by lia. apply Z.eqb_neq. lia.
Qed.

(** [(1 << n) - 1]: the bits below [n]. *)
Lemma testbit_below n r : 0 <= n -> 0 <= r -> Z.testbit (Z.shiftl 1 n - 1) r = (r <? n).
Proof.
  intros Hn Hr. replace (Z.shiftl 1 n - 1) with (Z.ones n) by (unfold Z.ones; lia). destruct (r <? n) eqn:E; to_prop.
  - apply Z.ones_spec_low. lia.
  - apply Z.ones_spec_high. lia.
Qed.

(** [bits & (bits - 1)] clears the lowest set bit. *)
Lemma clear_lowest w k r :
  0 <= w -> 0 <= k -> Z.testbit w k = true -> (forall j, 0 <= j < k -> Z.testbit w j = false) ->
  Z.testbit (Z.land w (w - 1)) r = Z.testbit w r && negb (r =? k).
Proof.
  intros Hw Hk Hb Hlow. destruct (decide (r < 0)); [by rewrite !testbit_neg|]. rewrite Z.land_spec.
  assert (E : w = Z.shiftl (Z.shiftr w k) k).
  { apply Z.bits_inj'. intros j Hj. rewrite Z.shiftl_spec by done. destruct (decide (j < k)).
    - rewrite Hlow, Z.testbit_neg_r by lia. done.
    - rewrite Z.shiftr_spec by lia. f_equal. lia. }
  set (q := Z.shiftr w k) in E. assert (Hq : Z.odd q = true) by (rewrite <- Z.bit0_odd; unfold q; by rewrite Z.shiftr_spec, Z.add_0_l by done).
  assert (Hq1 : w - 1 = Z.lor (Z.shiftl (q - 1) k) (Z.ones k)).
  { assert (H0 : Z.land (Z.shiftl (q - 1) k) (Z.ones k) = 0).
    { apply no_bits. intros j. destruct (decide (j < 0)); [by apply Z.testbit_neg_r|]. rewrite Z.land_spec, Z.shiftl_spec by lia.
      destruct (decide (j < k)); [by rewrite Z.testbit_neg_r by lia|]. rewrite Z.ones_spec_high by lia. apply andb_false_r. }
    pose proof (Z.add_lor_land (Z.shiftl (q - 1) k) (Z.ones k)) as H1. rewrite H0, Z.add_0_r in H1. rewrite H1. unfold Z.ones.
    rewrite E at 1. rewrite !Z.shiftl_mul_pow2 by done. lia. }
  rewrite Hq1, Z.lor_spec, Z.shiftl_spec by lia. destruct (decide (r < k)).
  - by rewrite Hlow by lia.
  - rewrite Z.ones_spec_high, orb_false_r by lia. rewrite E at 1. rewrite Z.shiftl_spec by lia. destruct (decide (r = k)) as [->|].
    + rewrite Z.sub_diag, !Z.bit0_odd, Z.odd_sub, Hq, Z.eqb_refl. by rewrite !andb_false_r.
    + rewrite (proj2 (Z.eqb_neq r k)), E by done. rewrite Z.shiftl_spec by lia.
      destruct (proj1 (Z.odd_spec q) Hq) as [m Hm]. replace (r - k) with (Z.succ (r - k - 1)) by lia. rewrite Hm.
      replace (2 * m + 1 - 1) with (2 * m) by lia. rewrite Z.testbit_odd_succ, Z.testbit_even_succ by lia. cbn. rewrite andb_true_r. apply andb_diag.
Qed.
