(* ===== verification/Result.v ===== *)
(** * Results

    The error codes and the [Result] type that the modelled system-call paths
    share. *)

From stdpp Require Import base.
From S2P Require Import Prelude.

Inductive Errno :=
| Einval | Efault | E2big | Enomsg | Ebadf | Ebadfd | Eperm | Eacces | Exdev | Enoent | Eafnosupport | Esrch | Emfile | Ebusy | Eagain.

#[global] Instance Errno_eq_dec : EqDecision Errno.
Proof. solve_decision. Defined.

Inductive result (A : Type) : Type :=
| Ok (a : A)
| Err (e : Errno).
Arguments Ok {A} a.
Arguments Err {A} e.

(** The [?] operator. *)
Definition rbind {A B} (r : result A) (k : A -> result B) : result B :=
  match r with Ok a => k a | Err e => Err e end.
