(* ===== verification/FdTable.v ===== *)
(** * Descriptor tables

    The open-file table of a process ([vfs/src/fdtable/model.rs], [ops.rs],
    [close.rs]): a vector of files beside three bit vectors of 64-bit words,
    one bit per descriptor (in use, close-on-exec, reserved but not yet
    published).

    A [File] is the identity of an open description; the hooks that run when a
    table gains or drops a reference are recorded in [tb_events]. An index out
    of range is a panic. *)

From stdpp Require Import list.
From S2P Require Import Prelude Result.

Inductive Event :=
| Cloned (f : Z)
| Closed (f : Z).

(** [FdTableInner]. *)
Record Tab := {
  tb_files : list (option Z);
  tb_open : list Z;
  tb_cloexec : list Z;
  tb_reserved : list Z;
  tb_events : list Event;
}.

Definition put_files (x : list (option Z)) (t : Tab) : Tab :=
  {| tb_files := x; tb_open := tb_open t; tb_cloexec := tb_cloexec t; tb_reserved := tb_reserved t; tb_events := tb_events t |}.
Definition put_open (x : list Z) (t : Tab) : Tab :=
  {| tb_files := tb_files t; tb_open := x; tb_cloexec := tb_cloexec t; tb_reserved := tb_reserved t; tb_events := tb_events t |}.
Definition put_cloexec (x : list Z) (t : Tab) : Tab :=
  {| tb_files := tb_files t; tb_open := tb_open t; tb_cloexec := x; tb_reserved := tb_reserved t; tb_events := tb_events t |}.
Definition put_reserved (x : list Z) (t : Tab) : Tab :=
  {| tb_files := tb_files t; tb_open := tb_open t; tb_cloexec := tb_cloexec t; tb_reserved := x; tb_events := tb_events t |}.
Definition put_event (e : Event) (t : Tab) : Tab :=
  {| tb_files := tb_files t; tb_open := tb_open t; tb_cloexec := tb_cloexec t; tb_reserved := tb_reserved t; tb_events := tb_events t ++ [e] |}.

Definition FD_TABLE_MAX : nat := 1024.
Definition WORD_BITS : nat := 64.

(** ** Bits and words ([model.rs]) *)

Definition word_idx (fd : nat) : nat := fd / WORD_BITS.
Definition bit_mask (fd : nat) : Z := Z.shiftl 1 (Z.of_nat (fd mod WORD_BITS)).

(** [u64::trailing_zeros] from the bit [i] on; 64 when there is none. *)
Fixpoint zeros_from (n i : nat) (w : Z) : nat :=
  match n with
  | O => i
  | S n' => if Z.testbit w (Z.of_nat i) then i else zeros_from n' (S i) w
  end.
Definition trailing_zeros (w : Z) : nat := zeros_from WORD_BITS 0 w.

(** [while bits != 0 { b = bits.trailing_zeros(); bits &= bits - 1; ... }]:
    the values of [b]. *)
Fixpoint bits_loop (fuel : nat) (bits : Z) : list nat :=
  match fuel with
  | O => []
  | S fuel' => if bits =? 0 then [] else trailing_zeros bits :: bits_loop fuel' (Z.land bits (bits - 1))
  end.
Definition set_bits (w : Z) : list nat := bits_loop WORD_BITS w.

(** [u64::count_ones]. *)
Definition count_ones (w : Z) : nat := length (filter (fun i => Z.testbit w (Z.of_nat i) = true) (seq 0 WORD_BITS)).

(** The number of words up to the last one in use. *)
Fixpoint sane_words_from (open : list Z) (n : nat) : nat :=
  match n with
  | O => 0
  | S wi => if negb (default 0 (open !! wi) =? 0) then S wi else sane_words_from open wi
  end.
Definition sane_fdtable_words (open : list Z) : nat := sane_words_from open (length open).

(** [Vec::resize]. *)
Definition resize {A} (n : nat) (x : A) (l : list A) : list A := take n l ++ replicate (n - length l) x.

Module Inner.

Definition ensure_capacity (idx : nat) (t : Tab) : Tab :=
  let t := if (length (tb_files t) <=? idx)%nat then put_files (resize (idx + 1) None (tb_files t)) t else t in
  let words := (word_idx idx + 1)%nat in
  if (length (tb_open t) <? words)%nat then
    put_reserved (resize words 0 (tb_reserved t))
      (put_cloexec (resize words 0 (tb_cloexec t)) (put_open (resize words 0 (tb_open t)) t))
  else t.

(** [vec.get(word_idx(fd)).is_some_and(|w| w & bit_mask(fd) != 0)]. *)
Definition bit_get (l : list Z) (fd : nat) : bool :=
  match l !! word_idx fd with Some w => negb (Z.land w (bit_mask fd) =? 0) | None => false end.

Definition bit_put (on : bool) (fd : nat) (w : Z) : Z := if on then Z.lor w (bit_mask fd) else Z.land w (not64 (bit_mask fd)).

Definition is_open (t : Tab) (fd : nat) : bool := bit_get (tb_open t) fd.
Definition is_reserved (t : Tab) (fd : nat) : bool := bit_get (tb_reserved t) fd.
Definition get_cloexec (t : Tab) (fd : nat) : bool := bit_get (tb_cloexec t) fd.

Definition set_open (fd : nat) (on : bool) : M Tab unit :=
  t ← get;
  w ← expect (tb_open t !! word_idx fd) "index out of bounds";
  modify (put_open (<[word_idx fd := bit_put on fd w]> (tb_open t))).

Definition set_cloexec_bit (fd : nat) (on : bool) : M Tab unit :=
  t ← get;
  w ← expect (tb_cloexec t !! word_idx fd) "index out of bounds";
  modify (put_cloexec (<[word_idx fd := bit_put on fd w]> (tb_cloexec t))).

Definition set_reserved (fd : nat) (on : bool) : M Tab unit :=
  t ← get;
  w ← expect (tb_reserved t !! word_idx fd) "index out of bounds";
  modify (put_reserved (<[word_idx fd := bit_put on fd w]> (tb_reserved t))).

(** [self.files[fd] = slot]. *)
Definition set_file (fd : nat) (slot : option Z) : M Tab unit :=
  t ← get;
  _ ← expect (tb_files t !! fd) "index out of bounds";
  modify (put_files (<[fd := slot]> (tb_files t))).

(** The loop over the words; one more word each time round. *)
Fixpoint find_loop (fuel : nat) (open : list Z) (fd max : nat) : result nat :=
  match fuel with
  | O => Err Emfile
  | S fuel' =>
      if (max <=? fd)%nat then Err Emfile
      else
        let wi := word_idx fd in
        match open !! wi with
        | None => Ok fd
        | Some word =>
            if word =? U64_MAX then find_loop fuel' open ((wi + 1) * WORD_BITS) max
            else
              let start := (fd mod WORD_BITS)%nat in
              let below := if (start =? 0)%nat then 0 else Z.shiftl 1 (Z.of_nat start) - 1 in
              let cand := Z.land (not64 word) (not64 below) in
              if cand =? 0 then find_loop fuel' open ((wi + 1) * WORD_BITS) max
              else Ok (wi * WORD_BITS + trailing_zeros cand)%nat
        end
  end.

Definition find_free_fd (t : Tab) (min max : nat) : result nat :=
  rbind (find_loop (S (length (tb_open t))) (tb_open t) min max) (fun fd =>
  if (max <=? fd)%nat then Err Emfile else Ok fd).

(** Take the descriptor [fd] for the slot. *)
Definition take_fd (fd : nat) (slot : option Z) (cloexec reserved : bool) : M Tab unit :=
  modify (ensure_capacity fd) ;;
  set_file fd slot ;;
  set_open fd true ;;
  set_cloexec_bit fd cloexec ;;
  set_reserved fd reserved.

Definition alloc_fd_flags_below (file : Z) (min max : nat) (cloexec : bool) : M Tab (result Z) :=
  t ← get;
  match find_free_fd t min max with
  | Err e => ret (Err e)
  | Ok fd => take_fd fd (Some file) cloexec false ;; ret (Ok (Z.of_nat fd))
  end.

Definition alloc_fd_below (file : Z) (min max : nat) : M Tab (result Z) := alloc_fd_flags_below file min max false.

Definition reserve_fd_below (min max : nat) (cloexec : bool) : M Tab (result Z) :=
  t ← get;
  match find_free_fd t min max with
  | Err e => ret (Err e)
  | Ok fd => take_fd fd None cloexec true ;; ret (Ok (Z.of_nat fd))
  end.

End Inner.

(** [FdTable::new]. *)
Definition new_table : Tab := {| tb_files := []; tb_open := []; tb_cloexec := []; tb_reserved := []; tb_events := [] |}.

(** ** Public operations ([ops.rs]) *)

Definition O_CLOEXEC : Z := 0x80000.

Definition limit_max (limit : nat) : nat := if (limit <? FD_TABLE_MAX)%nat then limit else FD_TABLE_MAX.

Definition wants_cloexec (flags : Z) : bool := Z.land flags O_CLOEXEC =? O_CLOEXEC.

(** A descriptor argument ([i32]) as an index. *)
Definition index (fd : Z) : nat := Z.to_nat fd.

Module Fd.
Section ops.

(** The result of flushing a description, outside this component. *)
Context (flush : Z -> result unit).

(** [filp_close]: the flush, the release of the record locks and the drop of
    the reference. *)
Definition filp_close (f : Z) : M Tab (result unit) := modify (put_event (Closed f)) ;; ret (flush f).

(** [for f in removed { let _ = filp_close(owner, f); }]. *)
Definition close_all (removed : list Z) : M Tab unit := for_each removed (fun f => filp_close f ;; ret tt).

Definition clone_hook (f : Z) : M Tab unit := modify (put_event (Cloned f)).

Definition count (t : Tab) : nat :=
  list_sum (zip_with (fun open reserved => count_ones (Z.land open (not64 reserved))) (tb_open t) (tb_reserved t)).

Definition capacity (t : Tab) : nat := length (tb_files t).

(** The descriptors whose bits are set in a vector of words. *)
Definition fds_of (words : list Z) : list nat :=
  concat (imap (fun wi w => map (fun b => wi * WORD_BITS + b)%nat (set_bits w)) words).

(** [fd < files.len() && files[fd].is_some()]. *)
Definition holds (t : Tab) (fd : nat) : bool := match tb_files t !! fd with Some (Some _) => true | _ => false end.

Definition live_fds (t : Tab) : list Z :=
  map Z.of_nat (filter (fun fd => holds t fd = true) (fds_of (tb_open t))).

Definition alloc_limit (file : Z) (limit : nat) : M Tab (result Z) := Inner.alloc_fd_below file 0 (limit_max limit).

Definition alloc (file : Z) : M Tab (result Z) := alloc_limit file FD_TABLE_MAX.

Definition install_limit (file flags : Z) (limit : nat) : M Tab (result Z) :=
  Inner.alloc_fd_flags_below file 0 (limit_max limit) (wants_cloexec flags).

Definition get_unused_fd_flags (flags : Z) (limit : nat) : M Tab (result Z) :=
  Inner.reserve_fd_below 0 (limit_max limit) (wants_cloexec flags).

Definition try_fd_install (fd file : Z) : M Tab (result unit) :=
  if fd <? 0 then ret (Err Ebadf)
  else
    t ← get;
    if negb (Inner.is_open t (index fd)) || negb (Inner.is_reserved t (index fd)) then ret (Err Ebadf)
    else
      Inner.set_file (index fd) (Some file) ;;
      Inner.set_reserved (index fd) false ;;
      ret (Ok tt).

Definition fd_install (fd file : Z) : M Tab unit :=
  r ← try_fd_install fd file;
  kassert (match r with Ok _ => true | Err _ => false end) "fd_install: reservation must remain live until publication".

Definition put_unused_fd (fd : Z) : M Tab unit :=
  if fd <? 0 then ret tt
  else
    t ← get;
    if Inner.is_open t (index fd) && Inner.is_reserved t (index fd) then
      Inner.set_open (index fd) false ;;
      Inner.set_cloexec_bit (index fd) false ;;
      Inner.set_reserved (index fd) false
    else ret tt.

Definition scm_install_fd (file flags : Z) (limit : nat) (copyout : Z -> result unit) : M Tab (result Z) :=
  r ← get_unused_fd_flags flags limit;
  match r with
  | Err e => ret (Err e)
  | Ok fd =>
      match copyout fd with
      | Err e => put_unused_fd fd ;; ret (Err e)
      | Ok _ => clone_hook file ;; fd_install fd file ;; ret (Ok fd)
      end
  end.

Definition fget (t : Tab) (fd : Z) : result Z :=
  if fd <? 0 then Err Ebadf
  else match tb_files t !! index fd with Some (Some f) => Ok f | _ => Err Ebadf end.

Definition close (fd : Z) : M Tab (result unit) :=
  if fd <? 0 then ret (Err Ebadf)
  else
    t ← get;
    match tb_files t !! index fd with
    | Some (Some f) =>
        modify (put_files (<[index fd := None]> (tb_files t))) ;;
        Inner.set_open (index fd) false ;;
        Inner.set_cloexec_bit (index fd) false ;;
        filp_close f
    | _ => ret (Err Ebadf)
    end.

Definition dup_limit (fd : Z) (limit : nat) : M Tab (result Z) :=
  t ← get;
  match fget t fd with
  | Err e => ret (Err e)
  | Ok f =>
      r ← alloc_limit f limit;
      match r with
      | Err e => ret (Err e)
      | Ok n => clone_hook f ;; ret (Ok n)
      end
  end.

Definition dup (fd : Z) : M Tab (result Z) := dup_limit fd FD_TABLE_MAX.

Definition dup_file_min_limit (file min : Z) (cloexec : bool) (limit : nat) : M Tab (result Z) :=
  let max := limit_max limit in
  if (min <? 0) || (max <=? index min)%nat then ret (Err Einval)
  else
    r ← Inner.alloc_fd_flags_below file (index min) max cloexec;
    match r with
    | Err e => ret (Err e)
    | Ok n => clone_hook file ;; ret (Ok n)
    end.

Definition dup_min_limit (fd min : Z) (limit : nat) : M Tab (result Z) :=
  t ← get;
  match fget t fd with
  | Err e => ret (Err e)
  | Ok f => dup_file_min_limit f min false limit
  end.

Definition dup_min (fd min : Z) : M Tab (result Z) := dup_min_limit fd min FD_TABLE_MAX.

(** Publish a file at a given descriptor and close what was there: the part
    [dup2], [dup3] and [replace_fd] share. *)
Definition install_at (nf : nat) (f : Z) (cloexec : bool) : M Tab (result Z) :=
  modify (Inner.ensure_capacity nf) ;;
  t ← get;
  if Inner.is_reserved t nf then ret (Err Ebusy)
  else
    old ← expect (tb_files t !! nf) "index out of bounds";
    modify (put_files (<[nf := Some f]> (tb_files t))) ;;
    Inner.set_open nf true ;;
    Inner.set_cloexec_bit nf cloexec ;;
    Inner.set_reserved nf false ;;
    clone_hook f ;;
    (match old with Some o => filp_close o ;; ret tt | None => ret tt end) ;;
    ret (Ok (Z.of_nat nf)).

Definition dup2_limit (old_fd new_fd : Z) (limit : nat) : M Tab (result Z) :=
  if (old_fd <? 0) || (new_fd <? 0) || (FD_TABLE_MAX <=? index new_fd)%nat then ret (Err Ebadf)
  else
    t ← get;
    if old_fd =? new_fd then ret (rbind (fget t old_fd) (fun _ => Ok new_fd))
    else if (limit_max limit <=? index new_fd)%nat then ret (Err Ebadf)
    else match fget t old_fd with
    | Err e => ret (Err e)
    | Ok f => install_at (index new_fd) f false
    end.

Definition dup2 (old_fd new_fd : Z) : M Tab (result Z) := dup2_limit old_fd new_fd FD_TABLE_MAX.

(** [flags.bits() & !O_CLOEXEC.bits() != 0]. *)
Definition other_flags (flags : Z) : bool := negb (Z.land flags (Z.lxor O_CLOEXEC U32_MAX) =? 0).

Definition dup3_limit (old_fd new_fd flags : Z) (limit : nat) : M Tab (result Z) :=
  if other_flags flags then ret (Err Einval)
  else if old_fd =? new_fd then ret (Err Einval)
  else if (new_fd <? 0) || (FD_TABLE_MAX <=? index new_fd)%nat then ret (Err Ebadf)
  else if (limit_max limit <=? index new_fd)%nat then ret (Err Ebadf)
  else
    t ← get;
    match fget t old_fd with
    | Err e => ret (Err e)
    | Ok f => install_at (index new_fd) f (wants_cloexec flags)
    end.

Definition dup3 (old_fd new_fd flags : Z) : M Tab (result Z) := dup3_limit old_fd new_fd flags FD_TABLE_MAX.

Definition replace_fd (new_fd file flags : Z) (limit : nat) : M Tab (result Z) :=
  if other_flags flags then ret (Err Einval)
  else if (new_fd <? 0) || (FD_TABLE_MAX <=? index new_fd)%nat then ret (Err Ebadf)
  else if (limit_max limit <=? index new_fd)%nat then ret (Err Ebadf)
  else install_at (index new_fd) file (wants_cloexec flags).

Definition set_cloexec (fd : Z) (on : bool) : M Tab (result unit) :=
  if fd <? 0 then ret (Err Ebadf)
  else
    t ← get;
    if Inner.is_open t (index fd) && negb (Inner.is_reserved t (index fd))
    then Inner.set_cloexec_bit (index fd) on ;; ret (Ok tt)
    else ret (Err Ebadf).

Definition cloexec (t : Tab) (fd : Z) : result bool :=
  if fd <? 0 then Err Ebadf
  else if Inner.is_open t (index fd) && negb (Inner.is_reserved t (index fd)) then Ok (Inner.get_cloexec t (index fd)) else Err Ebadf.

(** The references a copy of the table takes. *)
Definition present (l : list (option Z)) : list Z := omap id l.

(** [fork_clone]: the copy, and the hooks it fires. *)
Definition fork_clone (t : Tab) : Tab :=
  let words := sane_fdtable_words (tb_open t) in
  let nfiles := (words * WORD_BITS)%nat in
  let kept := take nfiles (tb_files t) in
  let clear := fun l => zip_with (fun w r => Z.land w (not64 r)) (take words l) (take words (tb_reserved t)) in
  {| tb_files := resize nfiles None kept; tb_open := clear (tb_open t); tb_cloexec := clear (tb_cloexec t);
     tb_reserved := replicate words 0; tb_events := map Cloned (present kept) |}.

(** One descriptor of [fork_clone_close_range]. *)
Definition clone_slot (t : Tab) (first last : Z) (cloexec_only : bool) (fd : nat) (c : Tab) : Tab :=
  let push := fun x c => put_files (tb_files c ++ [x]) c in
  let off := fun l => <[word_idx fd := Z.land (default 0 (l !! word_idx fd)) (not64 (bit_mask fd))]> l in
  let on := fun l => <[word_idx fd := Z.lor (default 0 (l !! word_idx fd)) (bit_mask fd)]> l in
  if Inner.is_reserved t fd then push None c
  else
    let in_range := (first <=? Z.of_nat fd) && (Z.of_nat fd <=? last) in
    if in_range && negb cloexec_only then
      put_cloexec (off (tb_cloexec c)) (put_open (off (tb_open c)) (push None c))
    else
      let slot := default None (tb_files t !! fd) in
      let c := match slot with Some f => put_event (Cloned f) c | None => c end in
      let c := push slot c in
      if in_range && cloexec_only then put_cloexec (on (tb_cloexec c)) c else c.

Definition fork_clone_close_range (t : Tab) (first last : Z) (cloexec_only : bool) : Tab :=
  let words := sane_fdtable_words (tb_open t) in
  let nfiles := (words * WORD_BITS)%nat in
  let clear := fun l => zip_with (fun w r => Z.land w (not64 r)) (take words l) (take words (tb_reserved t)) in
  foldl (fun c fd => clone_slot t first last cloexec_only fd c)
    {| tb_files := []; tb_open := clear (tb_open t); tb_cloexec := clear (tb_cloexec t);
       tb_reserved := replicate words 0; tb_events := [] |}
    (seq 0 nfiles).

(** [files.get_mut(fd).and_then(|s| s.take())], pushed on the removed files. *)
Definition take_file (fd : nat) (removed : list Z) : M Tab (list Z) :=
  t ← get;
  match tb_files t !! fd with
  | Some (Some f) => modify (put_files (<[fd := None]> (tb_files t))) ;; ret (removed ++ [f])
  | _ => ret removed
  end.

(** The loop over the set bits of one word of [close_on_exec]. *)
Fixpoint exec_bits (wi : nat) (bs : list nat) (removed : list Z) : M Tab (list Z) :=
  match bs with
  | [] => ret removed
  | b :: bs' =>
      let fd := (wi * WORD_BITS + b)%nat in
      t ← get;
      if Inner.is_reserved t fd then exec_bits wi bs' removed
      else
        removed ← take_file fd removed;
        Inner.set_open fd false ;;
        exec_bits wi bs' removed
  end.

Fixpoint exec_words (ws : list nat) (removed : list Z) : M Tab (list Z) :=
  match ws with
  | [] => ret removed
  | wi :: ws' =>
      t ← get;
      w ← expect (tb_cloexec t !! wi) "index out of bounds";
      removed ← exec_bits wi (set_bits w) removed;
      t ← get;
      w ← expect (tb_cloexec t !! wi) "index out of bounds";
      r ← expect (tb_reserved t !! wi) "index out of bounds";
      modify (put_cloexec (<[wi := Z.land w r]> (tb_cloexec t))) ;;
      exec_words ws' removed
  end.

Definition close_on_exec : M Tab unit :=
  t ← get;
  removed ← exec_words (seq 0 (length (tb_cloexec t))) [];
  close_all removed.

(** The loop over the set bits of one word of [close_range]. *)
Fixpoint range_bits (first last : Z) (cloexec_only : bool) (wi : nat) (bs : list nat) (removed : list Z) : M Tab (list Z) :=
  match bs with
  | [] => ret removed
  | b :: bs' =>
      let fd := (wi * WORD_BITS + b)%nat in
      t ← get;
      if (Z.of_nat fd <? first) || (last <? Z.of_nat fd) then range_bits first last cloexec_only wi bs' removed
      else if Inner.is_reserved t fd then range_bits first last cloexec_only wi bs' removed
      else if cloexec_only then
        Inner.set_cloexec_bit fd true ;;
        range_bits first last cloexec_only wi bs' removed
      else
        removed ← take_file fd removed;
        Inner.set_open fd false ;;
        Inner.set_cloexec_bit fd false ;;
        range_bits first last cloexec_only wi bs' removed
  end.

Fixpoint range_words (first last : Z) (cloexec_only : bool) (ws : list nat) (removed : list Z) : M Tab (list Z) :=
  match ws with
  | [] => ret removed
  | wi :: ws' =>
      t ← get;
      w ← expect (tb_open t !! wi) "index out of bounds";
      removed ← range_bits first last cloexec_only wi (set_bits w) removed;
      range_words first last cloexec_only ws' removed
  end.

Definition close_range (first last : Z) (cloexec_only : bool) : M Tab unit :=
  t ← get;
  let start_word := word_idx (index first) in
  removed ← range_words first last cloexec_only (seq start_word (length (tb_open t) - start_word)) [];
  close_all removed.

(** [Drop for FdTable]. *)
Definition drop_table : M Tab unit :=
  t ← get;
  modify (put_files []) ;;
  close_all (present (tb_files t)).

End ops.
End Fd.
