(* ===== verification/FdTableSpec.v ===== *)
(** * Descriptor tables: what the bits say

    A table seen as four functions of the descriptor: the file it holds, and
    its bits in the three vectors. The operations of [FdTable] are specified
    by what they do to these functions. *)

From stdpp Require Import list.
From S2P Require Import Prelude Words Result FdTable.

(** Change a function at a point. *)
Definition upd {A} (f : nat -> A) (k : nat) (v : A) : nat -> A := fun j => if decide (j = k) then v else f j.

Lemma slot_upd_eq {A} (f : nat -> A) k v : upd f k v k = v.
Proof. unfold upd. by destruct (decide (k = k)). Qed.

Lemma slot_upd_ne {A} (f : nat -> A) k v j : j <> k -> upd f k v j = f j.
Proof. unfold upd. by destruct (decide (j = k)). Qed.

(** ** Descriptors and words *)

Lemma fd_split fd : fd = (word_idx fd * WORD_BITS + fd mod WORD_BITS)%nat.
Proof. unfold word_idx. pose proof (Nat.div_mod_eq fd WORD_BITS). lia. Qed.

Lemma fd_mod fd : (fd mod WORD_BITS < 64)%nat.
Proof. apply Nat.mod_upper_bound. done. Qed.

Lemma word_of wi b : (b < 64)%nat -> word_idx (wi * WORD_BITS + b) = wi /\ ((wi * WORD_BITS + b) mod WORD_BITS = b)%nat.
Proof.
  intros Hb. unfold word_idx. split.
  - symmetry. apply (Nat.div_unique _ _ _ b); unfold WORD_BITS; lia.
  - symmetry. apply (Nat.mod_unique _ _ wi); unfold WORD_BITS; lia.
Qed.

Lemma word_idx_lt fd n : (word_idx fd < n)%nat <-> (fd < n * WORD_BITS)%nat.
Proof. pose proof (fd_split fd) as Hs. pose proof (fd_mod fd) as Hm. unfold WORD_BITS in *. split; intros H; nia. Qed.

Lemma bit_mask_test fd r : Z.testbit (bit_mask fd) r = (r =? Z.of_nat (fd mod WORD_BITS)).
Proof. apply testbit_pow2. lia. Qed.

Lemma bit_mask_u64 fd : u64 (bit_mask fd).
Proof. apply u64_pow2, fd_mod. Qed.

(** The bit of a descriptor in a vector. *)
Definition bit_at (l : list Z) (fd : nat) : bool := Z.testbit (default 0 (l !! word_idx fd)) (Z.of_nat (fd mod WORD_BITS)).

Lemma land_mask w fd : negb (Z.land w (bit_mask fd) =? 0) = Z.testbit w (Z.of_nat (fd mod WORD_BITS)).
Proof.
  destruct (Z.testbit w (Z.of_nat (fd mod WORD_BITS))) eqn:E.
  - apply negb_true_iff, Z.eqb_neq. intros H. pose proof (proj1 (no_bits _) H (Z.of_nat (fd mod WORD_BITS))) as Hb.
    by rewrite Z.land_spec, E, bit_mask_test, Z.eqb_refl in Hb.
  - apply negb_false_iff, Z.eqb_eq, no_bits. intros r. rewrite Z.land_spec, bit_mask_test.
    destruct (r =? _) eqn:Er; to_prop; [subst; by rewrite E|apply andb_false_r].
Qed.

Lemma bit_get_at l fd : Inner.bit_get l fd = bit_at l fd.
Proof. unfold Inner.bit_get, bit_at. destruct (l !! word_idx fd) as [w|]; cbn; [apply land_mask|by rewrite Z.bits_0]. Qed.

Lemma bit_put_test on fd w r :
  u64 w -> Z.testbit (Inner.bit_put on fd w) r = if decide (r = Z.of_nat (fd mod WORD_BITS)) then on else Z.testbit w r.
Proof.
  intros Hw. unfold Inner.bit_put. destruct on.
  - rewrite Z.lor_spec, bit_mask_test. destruct (decide _) as [->|Hne]; [by rewrite Z.eqb_refl, orb_true_r|].
    rewrite (proj2 (Z.eqb_neq _ _) Hne). apply orb_false_r.
  - rewrite land_not64, bit_mask_test by done. destruct (decide _) as [->|Hne]; [by rewrite Z.eqb_refl, andb_false_r|].
    rewrite (proj2 (Z.eqb_neq _ _) Hne). apply andb_true_r.
Qed.

Lemma bit_put_u64 on fd w : u64 w -> u64 (Inner.bit_put on fd w).
Proof. intros Hw. destruct on; [apply u64_lor; [done|apply bit_mask_u64]|by apply u64_land]. Qed.

Lemma bit_at_insert l fd on w j :
  Forall u64 l -> l !! word_idx fd = Some w -> bit_at (<[word_idx fd := Inner.bit_put on fd w]> l) j = upd (bit_at l) fd on j.
Proof.
  intros Hu Hw. pose proof (Forall_lookup_1 _ _ _ _ Hu Hw) as Huw. unfold bit_at, upd. destruct (decide (word_idx j = word_idx fd)) as [E|E].
  - rewrite E, list_lookup_insert_eq by by eapply lookup_lt_Some. rewrite Hw. unfold default, id. rewrite bit_put_test by done.
    destruct (decide (j = fd)) as [->|Hne]; [by rewrite decide_True|]. rewrite decide_False; [done|].
    intros H%Nat2Z.inj. apply Hne. rewrite (fd_split j), (fd_split fd). congruence.
  - rewrite list_lookup_insert_ne by done. rewrite decide_False; [done|]. by intros ->.
Qed.

Lemma bit_at_beyond l fd : (length l <= word_idx fd)%nat -> bit_at l fd = false.
Proof. intros H. unfold bit_at. rewrite lookup_ge_None_2 by done. apply Z.bits_0. Qed.

Lemma bit_at_resize l n fd : (length l <= n)%nat -> bit_at (resize n 0 l) fd = bit_at l fd.
Proof.
  intros Hn. unfold bit_at, resize. rewrite take_ge by done. destruct (decide (word_idx fd < length l)%nat).
  - by rewrite lookup_app_l.
  - rewrite lookup_app_r, (lookup_ge_None_2 l) by lia. destruct (replicate _ _ !! _) as [x|] eqn:E; [|done].
    by apply lookup_replicate in E as [-> _].
Qed.

Lemma resize_u64 l n : Forall u64 l -> Forall u64 (resize n 0 l).
Proof. intros H. apply Forall_app. split; [by apply Forall_take|]. by apply Forall_replicate. Qed.

Lemma length_resize {A} n (x : A) l : (length l <= n)%nat -> length (resize n x l) = n.
Proof. intros H. unfold resize. rewrite length_app, length_take, length_replicate. lia. Qed.

(** The first set bit. *)
Lemma zeros_from_spec n i w :
  let k := zeros_from n i w in
  (i <= k <= i + n)%nat /\ (forall j, (i <= j < k)%nat -> Z.testbit w (Z.of_nat j) = false) /\
  ((k < i + n)%nat -> Z.testbit w (Z.of_nat k) = true).
Proof.
  revert i. induction n as [|n IH]; intros i; cbn; [split; [lia|split; lia]|]. destruct (Z.testbit w (Z.of_nat i)) eqn:E.
  - split; [lia|]. split; [lia|done].
  - destruct (IH (S i)) as (H1 & H2 & H3). split; [lia|]. split; [|intros; apply H3; lia].
    intros j Hj. destruct (decide (j = i)) as [->|]; [done|apply H2; lia].
Qed.

Lemma trailing_zeros_spec w :
  u64 w -> w <> 0 -> let k := trailing_zeros w in
  (k < 64)%nat /\ Z.testbit w (Z.of_nat k) = true /\ forall j, (j < k)%nat -> Z.testbit w (Z.of_nat j) = false.
Proof.
  intros Hw Hne. destruct (zeros_from_spec WORD_BITS 0 w) as (H1 & H2 & H3). fold (trailing_zeros w) in *. cbn in H1.
  assert (Hk : (trailing_zeros w < 64)%nat).
  { destruct (decide (trailing_zeros w < 64)%nat); [done|]. exfalso. apply Hne, no_bits. intros r.
    destruct (decide (r < 0)); [by apply testbit_neg|]. destruct (decide (64 <= r)); [by apply u64_high|].
    rewrite <- (Z2Nat.id r) by lia. apply H2. lia. }
  split_and!; [done|by apply H3|]. intros j Hj. apply H2. lia.
Qed.

(** ** The search for a free descriptor *)

Lemma same_word fd wi j : word_idx fd = wi -> (fd <= j < (wi + 1) * WORD_BITS)%nat ->
  word_idx j = wi /\ (fd mod WORD_BITS <= j mod WORD_BITS)%nat.
Proof.
  intros Hwi Hj. pose proof (fd_split fd) as Hf. pose proof (fd_split j) as Hs. pose proof (fd_mod fd). pose proof (fd_mod j).
  assert (Hw : word_idx j = wi).
  { assert (word_idx j < wi + 1)%nat by (apply word_idx_lt; lia). assert (~ (word_idx j < wi)%nat); [|lia].
    rewrite word_idx_lt. unfold WORD_BITS in *. lia. }
  split; [done|]. unfold WORD_BITS in *. lia.
Qed.

Lemma next_word_idx wi : word_idx ((wi + 1) * WORD_BITS) = (wi + 1)%nat.
Proof. unfold word_idx. apply Nat.div_mul. done. Qed.

(** The candidates of one word: the clear bits from [start] on. *)
Lemma cand_test word start r :
  u64 word -> (start < 64)%nat -> 0 <= r < 64 ->
  Z.testbit (Z.land (not64 word) (not64 (if (start =? 0)%nat then 0 else Z.shiftl 1 (Z.of_nat start) - 1))) r =
  negb (Z.testbit word r) && (Z.of_nat start <=? r).
Proof.
  intros Hw Hs Hr. rewrite Z.land_spec, !testbit_not64 by lia. f_equal. destruct (start =? 0)%nat eqn:E; to_prop.
  - subst. rewrite Z.bits_0. symmetry. apply Z.leb_le. lia.
  - rewrite testbit_below by lia. rewrite Z.leb_antisym. done.
Qed.

Lemma find_loop_spec fuel open fd max :
  Forall u64 open -> (0 < fuel)%nat -> (length open < fuel + word_idx fd)%nat ->
  match Inner.find_loop fuel open fd max with
  | Ok r => (fd <= r)%nat /\ bit_at open r = false /\ forall j, (fd <= j < r)%nat -> bit_at open j = true
  | Err e => e = Emfile /\ forall j, (fd <= j < max)%nat -> bit_at open j = true
  end.
Proof.
  intros Hu. revert fd. induction fuel as [|fuel IH]; intros fd Hf Hl; [lia|]. cbn [Inner.find_loop].
  destruct (max <=? fd)%nat eqn:Em; to_prop; [split; [done|lia]|].
  destruct (open !! word_idx fd) as [word|] eqn:Ew.
  2:{ split; [lia|]. split; [|lia]. apply bit_at_beyond. by apply lookup_ge_None. }
  pose proof (Forall_lookup_1 _ _ _ _ Hu Ew) as Hw. pose proof (lookup_lt_Some _ _ _ Ew) as Hlt. pose proof (fd_mod fd) as Hm.
  assert (Hnext : (forall k, (fd mod WORD_BITS <= k < 64)%nat -> Z.testbit word (Z.of_nat k) = true) ->
    forall j, (fd <= j < (word_idx fd + 1) * WORD_BITS)%nat -> bit_at open j = true).
  { intros H j Hj. destruct (same_word fd _ j eq_refl Hj) as [E Hle]. unfold bit_at. rewrite E, Ew. apply H. pose proof (fd_mod j). lia. }
  assert (Hrec : (forall k, (fd mod WORD_BITS <= k < 64)%nat -> Z.testbit word (Z.of_nat k) = true) ->
    match Inner.find_loop fuel open ((word_idx fd + 1) * WORD_BITS) max with
    | Ok r => (fd <= r)%nat /\ bit_at open r = false /\ forall j, (fd <= j < r)%nat -> bit_at open j = true
    | Err e => e = Emfile /\ forall j, (fd <= j < max)%nat -> bit_at open j = true
    end).
  { intros H. specialize (Hnext H). specialize (IH ((word_idx fd + 1) * WORD_BITS)%nat ltac:(lia) ltac:(rewrite next_word_idx; lia)).
    assert (fd < (word_idx fd + 1) * WORD_BITS)%nat by (apply word_idx_lt; lia).
    destruct (Inner.find_loop _ _ _ _) as [r|e].
    - destruct IH as (H1 & H2 & H3). split; [lia|]. split; [done|]. intros j Hj.
      destruct (decide (j < (word_idx fd + 1) * WORD_BITS)%nat); [apply Hnext; lia|apply H3; lia].
    - destruct IH as (H1 & H2). split; [done|]. intros j Hj.
      destruct (decide (j < (word_idx fd + 1) * WORD_BITS)%nat); [apply Hnext; lia|apply H2; lia]. }
  destruct (word =? U64_MAX) eqn:Ef; to_prop; [apply Hrec; intros k Hk; subst word; apply u64_max_bits; lia|].
  set (cand := Z.land _ _). assert (Hc : forall k, (k < 64)%nat -> Z.testbit cand (Z.of_nat k) = negb (Z.testbit word (Z.of_nat k)) && (fd mod WORD_BITS <=? k)%nat).
  { intros k Hk. unfold cand. rewrite cand_test by (done || lia). f_equal. destruct (fd mod WORD_BITS <=? k)%nat eqn:E; to_prop; [apply Z.leb_le|apply Z.leb_gt]; lia. }
  destruct (cand =? 0) eqn:E0; to_prop.
  - apply Hrec. intros k Hk. specialize (Hc k ltac:(lia)). rewrite E0, Z.bits_0 in Hc. rewrite (proj2 (Nat.leb_le _ _)), andb_true_r in Hc by lia.
    by symmetry in Hc; apply negb_false_iff in Hc.
  - destruct (trailing_zeros_spec cand) as (Hk & Hset & Hlow); [apply u64_land, u64_not64, Hw|done|].
    set (k := trailing_zeros cand) in *. rewrite Hc in Hset by done. apply andb_true_iff in Hset as [Hz Hge]. to_prop.
    destruct (word_of (word_idx fd) k Hk) as [Hwi Hmo]. pose proof (fd_split fd) as Hs. split; [lia|]. split.
    + unfold bit_at. rewrite Hwi, Hmo, Ew. unfold default, id. done.
    + intros j Hj. destruct (same_word fd _ j eq_refl ltac:(unfold WORD_BITS in *; lia)) as [E Hle]. pose proof (fd_split j) as Hsj.
      assert (Hjk : (j mod WORD_BITS < k)%nat) by (rewrite E in Hsj; lia). specialize (Hlow _ Hjk). rewrite Hc in Hlow by lia.
      rewrite (proj2 (Nat.leb_le _ _)), andb_true_r in Hlow by done. unfold bit_at. rewrite E, Ew. cbn. by apply negb_false_iff in Hlow.
Qed.

(** ** The loops over set bits *)

Definition has_bit (w : Z) (i : nat) : Prop := Z.testbit w (Z.of_nat i) = true.

#[global] Instance has_bit_dec w i : Decision (has_bit w i).
Proof. unfold has_bit. apply _. Defined.

Lemma filter_seq_none (P : nat -> Prop) `{!forall i, Decision (P i)} lo n :
  (forall j, (lo <= j < lo + n)%nat -> ~ P j) -> filter P (seq lo n) = [].
Proof.
  revert lo. induction n as [|n IH]; intros lo Hn; cbn; [done|]. rewrite decide_False by (apply Hn; lia). apply IH. intros j Hj. apply Hn. lia.
Qed.

Lemma filter_seq_first (P : nat -> Prop) `{!forall i, Decision (P i)} lo n k :
  (lo <= k < lo + n)%nat -> P k -> (forall j, (lo <= j < k)%nat -> ~ P j) ->
  filter P (seq lo n) = k :: filter P (seq (S k) (lo + n - S k)).
Proof.
  intros Hk HP Hlow. replace n with ((k - lo) + (1 + (lo + n - S k)))%nat at 1 by lia. rewrite seq_app, filter_app, filter_seq_none by (intros j Hj; apply Hlow; lia).
  replace (lo + (k - lo))%nat with k by lia. cbn. by rewrite decide_True.
Qed.

Lemma filter_ext_in (P Q : nat -> Prop) `{!forall i, Decision (P i)} `{!forall i, Decision (Q i)} (l : list nat) :
  (forall i, i ∈ l -> P i <-> Q i) -> filter P l = filter Q l.
Proof.
  intros He. induction l as [|x l IH]; [done|]. rewrite !filter_cons. pose proof (He x (list_elem_of_here _ _)) as Hx.
  rewrite IH by (intros i Hi; apply He; by apply list_elem_of_further). destruct (decide (P x)), (decide (Q x)); tauto || done.
Qed.

Lemma bits_loop_spec fuel w lo :
  u64 w -> (64 <= fuel + lo)%nat -> (forall j, (j < lo)%nat -> ~ has_bit w j) ->
  bits_loop fuel w = filter (has_bit w) (seq lo (64 - lo)).
Proof.
  revert w lo. induction fuel as [|fuel IH]; intros w lo Hw Hf Hlow; cbn [bits_loop].
  { replace (64 - lo)%nat with 0%nat by lia. done. }
  destruct (w =? 0) eqn:E; to_prop.
  { subst w. rewrite filter_seq_none; [done|]. intros j _. unfold has_bit. by rewrite Z.bits_0. }
  destruct (trailing_zeros_spec w Hw E) as (Hk & Hset & Hzero). set (k := trailing_zeros w) in *.
  assert (Hge : (lo <= k)%nat) by (destruct (decide (lo <= k)%nat); [done|]; exfalso; apply (Hlow k); [lia|done]).
  assert (Hclear : forall j, Z.testbit (Z.land w (w - 1)) (Z.of_nat j) = Z.testbit w (Z.of_nat j) && negb (Z.of_nat j =? Z.of_nat k)).
  { intros j. apply clear_lowest; [apply Hw|lia|done|]. intros i Hi. rewrite <- (Z2Nat.id i) by lia. apply Hzero. lia. }
  rewrite (filter_seq_first _ lo _ k) by (lia || done || (intros j Hj; unfold has_bit; rewrite Hzero; [done|lia])). f_equal.
  rewrite (IH _ (S k)); [|by apply u64_land|lia|].
  - replace (lo + (64 - lo) - S k)%nat with (64 - S k)%nat by lia. apply filter_ext_in. intros i Hi%elem_of_seq. unfold has_bit.
    rewrite Hclear, (proj2 (Z.eqb_neq _ _)) by lia. by rewrite andb_true_r.
  - intros j Hj. unfold has_bit. rewrite Hclear. destruct (decide (j = k)) as [->|]; [by rewrite Z.eqb_refl, andb_false_r|].
    by rewrite Hzero by lia.
Qed.

Lemma set_bits_spec w : u64 w -> set_bits w = filter (has_bit w) (seq 0 64).
Proof. intros Hw. apply (bits_loop_spec 64 w 0 Hw); lia. Qed.

Lemma elem_set_bits w b : u64 w -> b ∈ set_bits w <-> (b < 64)%nat /\ has_bit w b.
Proof. intros Hw. rewrite set_bits_spec, list_elem_of_filter, elem_of_seq by done. intuition lia. Qed.
