(* ===== verification/FdTableInv.v ===== *)
(** * Descriptor tables: the invariant

    The three bit vectors have one shape, cover the files, and agree with
    them: a descriptor is marked in use when it holds a file or is reserved,
    and never both. *)

From stdpp Require Import list.
From S2P Require Import Prelude Words Result FdTable FdTableSpec.

(** ** Tables as functions *)

Record shape (t : Tab) : Prop := {
  sh_cloexec : length (tb_cloexec t) = length (tb_open t);
  sh_reserved : length (tb_reserved t) = length (tb_open t);
  sh_open_u64 : Forall u64 (tb_open t);
  sh_cloexec_u64 : Forall u64 (tb_cloexec t);
  sh_reserved_u64 : Forall u64 (tb_reserved t);
  sh_files : (length (tb_files t) <= length (tb_open t) * WORD_BITS)%nat;
  sh_max : (length (tb_open t) * WORD_BITS <= FD_TABLE_MAX)%nat;
}.

Definition file_at (t : Tab) (fd : nat) : option Z := default None (tb_files t !! fd).

(** The table [t], with [n] slots and the events [ev], is seen as the four
    functions. *)
Record view (t : Tab) (n : nat) (ev : list Event) (F : nat -> option Z) (O C R : nat -> bool) : Prop := {
  vw_shape : shape t;
  vw_len : length (tb_files t) = n;
  vw_events : tb_events t = ev;
  vw_files : forall fd, file_at t fd = F fd;
  vw_open : forall fd, bit_at (tb_open t) fd = O fd;
  vw_cloexec : forall fd, bit_at (tb_cloexec t) fd = C fd;
  vw_reserved : forall fd, bit_at (tb_reserved t) fd = R fd;
}.

Lemma view_self t :
  shape t -> view t (length (tb_files t)) (tb_events t) (file_at t) (bit_at (tb_open t)) (bit_at (tb_cloexec t)) (bit_at (tb_reserved t)).
Proof. by constructor. Qed.

Ltac cbn_tab := cbn [put_open put_cloexec put_reserved put_files put_event tb_files tb_open tb_cloexec tb_reserved tb_events].

Section setters.
Context (t : Tab) (n : nat) (ev : list Event) (F : nat -> option Z) (O C R : nat -> bool) (V : view t n ev F O C R).

Lemma covered fd : (fd < n)%nat -> (word_idx fd < length (tb_open t))%nat.
Proof. intros H. apply word_idx_lt. pose proof (sh_files _ (vw_shape _ _ _ _ _ _ _ V)). rewrite (vw_len _ _ _ _ _ _ _ V) in *. lia. Qed.

Lemma put_open_view fd on w :
  tb_open t !! word_idx fd = Some w ->
  view (put_open (<[word_idx fd := Inner.bit_put on fd w]> (tb_open t)) t) n ev F (upd O fd on) C R.
Proof.
  intros Hw. destruct V as [[H1 H2 H3 H4 H5 H6 H7] VL VE VF VO VC VR].
  constructor; [constructor|..]; cbn_tab; rewrite ?length_insert; try done.
  - apply Forall_insert; [done|]. apply bit_put_u64. exact (Forall_lookup_1 _ _ _ _ H3 Hw).
  - intros j. rewrite bit_at_insert by done. unfold upd. by destruct (decide _).
Qed.

Lemma set_open_view fd on : (fd < n)%nat -> wp (Inner.set_open fd on) (fun _ t' => view t' n ev F (upd O fd on) C R) t.
Proof.
  intros Hn. destruct (lookup_lt_is_Some_2 _ _ (covered fd Hn)) as [w Hw]. unfold Inner.set_open. wp_step. wp_step. wp_step. rewrite Hw. wp_step.
  wp_step. by apply put_open_view.
Qed.

Lemma put_cloexec_view fd on w :
  tb_cloexec t !! word_idx fd = Some w ->
  view (put_cloexec (<[word_idx fd := Inner.bit_put on fd w]> (tb_cloexec t)) t) n ev F O (upd C fd on) R.
Proof.
  intros Hw. destruct V as [[H1 H2 H3 H4 H5 H6 H7] VL VE VF VO VC VR].
  constructor; [constructor|..]; cbn_tab; rewrite ?length_insert; try done.
  - apply Forall_insert; [done|]. apply bit_put_u64. exact (Forall_lookup_1 _ _ _ _ H4 Hw).
  - intros j. rewrite bit_at_insert by done. unfold upd. by destruct (decide _).
Qed.

Lemma set_cloexec_view fd on : (fd < n)%nat -> wp (Inner.set_cloexec_bit fd on) (fun _ t' => view t' n ev F O (upd C fd on) R) t.
Proof.
  intros Hn. pose proof (covered fd Hn) as Hc. pose proof (sh_cloexec _ (vw_shape _ _ _ _ _ _ _ V)) as Hl.
  destruct (lookup_lt_is_Some_2 (tb_cloexec t) (word_idx fd)) as [w Hw]; [lia|].
  unfold Inner.set_cloexec_bit. wp_step. wp_step. wp_step. rewrite Hw. wp_step. wp_step. by apply put_cloexec_view.
Qed.

Lemma set_reserved_view fd on : (fd < n)%nat -> wp (Inner.set_reserved fd on) (fun _ t' => view t' n ev F O C (upd R fd on)) t.
Proof.
  intros Hn. pose proof (covered fd Hn) as Hc. destruct V as [[H1 H2 H3 H4 H5 H6 H7] VL VE VF VO VC VR].
  destruct (lookup_lt_is_Some_2 (tb_reserved t) (word_idx fd)) as [w Hw]; [lia|].
  unfold Inner.set_reserved. wp_step. wp_step. wp_step. rewrite Hw. wp_step. wp_step.
  constructor; [constructor|..]; cbn_tab; rewrite ?length_insert; try done.
  - apply Forall_insert; [done|]. apply bit_put_u64. exact (Forall_lookup_1 _ _ _ _ H5 Hw).
  - intros j. rewrite bit_at_insert by done. unfold upd. by destruct (decide _).
Qed.

Lemma put_file_view fd sl : (fd < n)%nat -> view (put_files (<[fd := sl]> (tb_files t)) t) n ev (upd F fd sl) O C R.
Proof.
  intros Hn. destruct V as [[H1 H2 H3 H4 H5 H6 H7] VL VE VF VO VC VR].
  constructor; [constructor|..]; cbn_tab; rewrite ?length_insert; try done.
  intros j. unfold file_at, upd. cbn_tab. destruct (decide (j = fd)) as [->|]; [by rewrite list_lookup_insert_eq by lia|].
  rewrite list_lookup_insert_ne by done. apply VF.
Qed.

Lemma set_file_view fd sl : (fd < n)%nat -> wp (Inner.set_file fd sl) (fun _ t' => view t' n ev (upd F fd sl) O C R) t.
Proof.
  intros Hn. pose proof Hn as Hn'. rewrite <- (vw_len _ _ _ _ _ _ _ V) in Hn'. destruct (lookup_lt_is_Some_2 _ _ Hn') as [x Hx].
  unfold Inner.set_file. wp_step. wp_step. wp_step. rewrite Hx. wp_step. wp_step. by apply put_file_view.
Qed.

Lemma put_event_view e : view (put_event e t) n (ev ++ [e]) F O C R.
Proof.
  destruct V as [[H1 H2 H3 H4 H5 H6 H7] VL VE VF VO VC VR]. constructor; [constructor|..]; cbn_tab; try done. by rewrite VE.
Qed.

Lemma event_view e : wp (modify (put_event e)) (fun _ t' => view t' n (ev ++ [e]) F O C R) t.
Proof. wp_step. apply put_event_view. Qed.

Lemma capacity_view fd : (fd < FD_TABLE_MAX)%nat -> exists n', (n <= n')%nat /\ (fd < n')%nat /\ view (Inner.ensure_capacity fd t) n' ev F O C R.
Proof.
  intros Hmax. destruct V as [[H1 H2 H3 H4 H5 H6 H7] VL VE VF VO VC VR]. set (n' := Nat.max n (fd + 1)).
  assert (Hf : exists l, length l = n' /\ (forall j, default None (l !! j) = F j) /\
    (if (length (tb_files t) <=? fd)%nat then put_files (resize (fd + 1) None (tb_files t)) t else t) = put_files l t).
  { destruct (length (tb_files t) <=? fd)%nat eqn:E; to_prop.
    - exists (resize (fd + 1) None (tb_files t)). split; [rewrite length_resize; lia|]. split; [|done]. intros j. rewrite <- VF. unfold file_at, resize.
      rewrite take_ge by lia. destruct (decide (j < length (tb_files t))%nat); [by rewrite lookup_app_l|].
      rewrite lookup_app_r, (lookup_ge_None_2 (tb_files t)) by lia. destruct (replicate _ _ !! _) as [x|] eqn:Ex; [|done]. by apply lookup_replicate in Ex as [-> _].
    - exists (tb_files t). split; [lia|]. split; [done|]. by destruct t. }
  destruct Hf as (l & Hll & Hlf & Hle). unfold Inner.ensure_capacity. rewrite Hle. clear Hle. exists n'. split; [lia|]. split; [lia|].
  assert (Hw : (word_idx fd < 16)%nat) by (apply word_idx_lt; unfold FD_TABLE_MAX, WORD_BITS in *; lia).
  pose proof (fd_split fd) as Hs. pose proof (fd_mod fd) as Hm. cbn [put_files tb_open].
  destruct (length (tb_open t) <? word_idx fd + 1)%nat eqn:E; to_prop.
  - constructor; [constructor|..]; cbn_tab; try done; rewrite ?length_resize by lia; try done; try by apply resize_u64.
    + unfold WORD_BITS in *. lia.
    + unfold FD_TABLE_MAX, WORD_BITS in *. lia.
    + intros j. rewrite bit_at_resize by lia. apply VO.
    + intros j. rewrite bit_at_resize by lia. apply VC.
    + intros j. rewrite bit_at_resize by lia. apply VR.
  - constructor; [constructor|..]; cbn_tab; try done. assert (fd < length (tb_open t) * WORD_BITS)%nat by (apply word_idx_lt; lia). lia.
Qed.

End setters.

(** Taking a descriptor. *)
Lemma take_fd_view t n ev F O C R fd sl c r :
  view t n ev F O C R -> (fd < FD_TABLE_MAX)%nat ->
  wp (Inner.take_fd fd sl c r) (fun _ t' => exists n', (n <= n')%nat /\ (fd < n')%nat /\
    view t' n' ev (upd F fd sl) (upd O fd true) (upd C fd c) (upd R fd r)) t.
Proof.
  intros V Hmax. unfold Inner.take_fd. wp_step. wp_step. destruct (capacity_view _ _ _ _ _ _ _ V fd Hmax) as (n' & Hn & Hfd & V1).
  wp_step. eapply wp_mono; [exact (set_file_view _ _ _ _ _ _ _ V1 fd sl Hfd)|]. intros [] t2 V2.
  wp_step. eapply wp_mono; [exact (set_open_view _ _ _ _ _ _ _ V2 fd true Hfd)|]. intros [] t3 V3.
  wp_step. eapply wp_mono; [exact (set_cloexec_view _ _ _ _ _ _ _ V3 fd c Hfd)|]. intros [] t4 V4.
  eapply wp_mono; [exact (set_reserved_view _ _ _ _ _ _ _ V4 fd r Hfd)|]. intros [] t5 V5. by exists n'.
Qed.
