(* ===== verification/FdTableRefine.v ===== *)
(** * Descriptor tables: what the operations promise

    A descriptor is free, reserved or open; an operation is a function on
    slots ([Slots]), and each operation of [FdTable] refines its function. *)

From stdpp Require Import list.
From S2P Require Import Prelude Words Result FdTable FdTableSpec FdTableInv.

Inductive Slot :=
| Free
| Reserved (cloexec : bool)
| Opened (f : Z) (cloexec : bool).

#[global] Instance Slot_eq_dec : EqDecision Slot.
Proof. solve_decision. Defined.

Definition Slots : Type := nat -> Slot.

(** ** The invariant *)

Definition is_some {A} (o : option A) : bool := match o with Some _ => true | None => false end.

Record consistent (n : nat) (F : nat -> option Z) (O R : nat -> bool) : Prop := {
  cs_open : forall fd, O fd = is_some (F fd) || R fd;
  cs_reserved : forall fd, R fd = true -> F fd = None /\ (fd < n)%nat;
}.

Record fd_ok (t : Tab) : Prop := {
  fo_shape : shape t;
  fo_bits : consistent (length (tb_files t)) (file_at t) (bit_at (tb_open t)) (bit_at (tb_reserved t));
}.

Definition slot_of (F : nat -> option Z) (C R : nat -> bool) : Slots := fun fd =>
  match F fd with Some f => Opened f (C fd) | None => if R fd then Reserved (C fd) else Free end.

Definition slot (t : Tab) : Slots := slot_of (file_at t) (bit_at (tb_cloexec t)) (bit_at (tb_reserved t)).

(** [t'] holds the slots [a], and the hooks [ev] ran on the way from [t]. *)
Definition becomes (t t' : Tab) (a : Slots) (ev : list Event) : Prop :=
  fd_ok t' /\ (forall fd, slot t' fd = a fd) /\ tb_events t' = tb_events t ++ ev.

Lemma view_ok t : fd_ok t ->
  view t (length (tb_files t)) (tb_events t) (file_at t) (bit_at (tb_open t)) (bit_at (tb_cloexec t)) (bit_at (tb_reserved t)).
Proof. intros H. apply view_self, H. Qed.

Lemma view_becomes t t' n ev F O C R :
  view t' n (tb_events t ++ ev) F O C R -> consistent n F O R -> becomes t t' (slot_of F C R) ev.
Proof.
  intros [Vs Vl Ve VF VO VC VR] [H1 H2]. split_and!; [|intros fd; unfold slot, slot_of; by rewrite VF, VC, VR|done].
  constructor; [done|]. rewrite Vl. constructor.
  - intros fd. by rewrite VO, VF, VR.
  - intros fd. rewrite VR, VF. apply H2.
Qed.

Lemma becomes_refl t : fd_ok t -> becomes t t (slot t) [].
Proof. intros H. split_and!; [done|done|by rewrite app_nil_r]. Qed.

Lemma becomes_ext t t' a b ev : (forall fd, a fd = b fd) -> becomes t t' a ev -> becomes t t' b ev.
Proof. intros H (H1 & H2 & H3). split_and!; [done|intros fd; by rewrite <- H|done]. Qed.

Lemma becomes_trans t t1 t2 a b ev1 ev2 : becomes t t1 a ev1 -> becomes t1 t2 b ev2 -> becomes t t2 b (ev1 ++ ev2).
Proof. intros (_ & _ & E1) (H1 & H2 & E2). split_and!; [done|done|]. by rewrite E2, E1, app_assoc. Qed.

(** ** Bits and slots *)

Definition busy (s : Slot) : bool := match s with Free => false | _ => true end.

Section bits.
Context (t : Tab) (Ht : fd_ok t).

Lemma open_slot fd : Inner.is_open t fd = busy (slot t fd).
Proof.
  unfold Inner.is_open. rewrite bit_get_at, (cs_open _ _ _ _ (fo_bits _ Ht)). unfold slot, slot_of.
  destruct (file_at t fd); [done|]. cbn. by destruct (bit_at (tb_reserved t) fd).
Qed.

Lemma reserved_slot fd : Inner.is_reserved t fd = match slot t fd with Reserved _ => true | _ => false end.
Proof.
  unfold Inner.is_reserved. rewrite bit_get_at. unfold slot, slot_of. destruct (bit_at (tb_reserved t) fd) eqn:E.
  - by destruct (cs_reserved _ _ _ _ (fo_bits _ Ht) fd E) as [-> _].
  - by destruct (file_at t fd).
Qed.

Lemma file_slot fd : file_at t fd = match slot t fd with Opened f _ => Some f | _ => None end.
Proof. unfold slot, slot_of. destruct (file_at t fd); [done|]. by destruct (bit_at _ _). Qed.

Lemma lookup_slot fd : match tb_files t !! fd with Some (Some f) => Some f | _ => None end = match slot t fd with Opened f _ => Some f | _ => None end.
Proof. rewrite <- file_slot. unfold file_at. by destruct (tb_files t !! fd) as [[]|]. Qed.

Lemma cloexec_slot fd : match slot t fd with Free => True | Reserved c | Opened _ c => bit_at (tb_cloexec t) fd = c end.
Proof. unfold slot, slot_of. destruct (file_at t fd); [done|]. by destruct (bit_at (tb_reserved t) fd). Qed.

Lemma busy_below fd : busy (slot t fd) = true -> (fd < length (tb_files t))%nat.
Proof.
  unfold slot, slot_of. destruct (file_at t fd) eqn:E.
  - intros _. unfold file_at in E. destruct (tb_files t !! fd) eqn:El; [by eapply lookup_lt_Some|done].
  - destruct (bit_at (tb_reserved t) fd) eqn:Er; [|done]. intros _. by apply (cs_reserved _ _ _ _ (fo_bits _ Ht)).
Qed.

Lemma files_below : (length (tb_files t) <= FD_TABLE_MAX)%nat.
Proof. pose proof (sh_files _ (fo_shape _ Ht)). pose proof (sh_max _ (fo_shape _ Ht)). lia. Qed.

End bits.

(** ** The lowest free descriptor *)

Definition lowest_free (a : Slots) (min max : nat) : option nat := head (filter (fun fd => a fd = Free) (seq min (max - min))).

Lemma lowest_free_some a min max fd :
  (min <= fd < max)%nat -> a fd = Free -> (forall j, (min <= j < fd)%nat -> a j <> Free) -> lowest_free a min max = Some fd.
Proof. intros H1 H2 H3. unfold lowest_free. rewrite (filter_seq_first _ min _ fd) by (done || lia). done. Qed.

Lemma lowest_free_none a min max : (forall j, (min <= j < max)%nat -> a j <> Free) -> lowest_free a min max = None.
Proof. intros H. unfold lowest_free. rewrite filter_seq_none; [done|]. intros j Hj. apply H. lia. Qed.

Lemma lowest_free_lt a min max fd : lowest_free a min max = Some fd -> (min <= fd < max)%nat /\ a fd = Free.
Proof.
  unfold lowest_free. intros H. assert (Hin : fd ∈ filter (fun fd => a fd = Free) (seq min (max - min))).
  { destruct (filter _ _); [done|]. cbn in H. simplify_eq. apply list_elem_of_here. }
  apply list_elem_of_filter in Hin as [H1 H2%elem_of_seq]. split; [lia|done].
Qed.

(** The scan by words finds the lowest free descriptor. *)
Lemma find_free_lowest t min max :
  fd_ok t -> Inner.find_free_fd t min max = match lowest_free (slot t) min max with Some fd => Ok fd | None => Err Emfile end.
Proof.
  intros Ht. unfold Inner.find_free_fd. pose proof (sh_open_u64 _ (fo_shape _ Ht)) as Hu.
  pose proof (find_loop_spec (S (length (tb_open t))) (tb_open t) min max Hu ltac:(lia) ltac:(lia)) as Hs.
  assert (Hb : forall j, bit_at (tb_open t) j = busy (slot t j)) by (intros j; rewrite <- open_slot by done; symmetry; apply bit_get_at).
  destruct (Inner.find_loop _ _ _ _) as [r|e]; cbn [rbind].
  - destruct Hs as (H1 & H2 & H3). rewrite Hb in H2. destruct (max <=? r)%nat eqn:E; to_prop.
    + rewrite lowest_free_none; [done|]. intros j Hj Hf. specialize (H3 j ltac:(lia)). by rewrite Hb, Hf in H3.
    + rewrite (lowest_free_some _ _ _ r); [done|lia|by destruct (slot t r)|]. intros j Hj Hf. specialize (H3 j Hj). by rewrite Hb, Hf in H3.
  - destruct Hs as (-> & H). rewrite lowest_free_none; [done|]. intros j Hj Hf. specialize (H j Hj). by rewrite Hb, Hf in H.
Qed.

(** ** Taking and changing a slot *)

Definition slot_for (sl : option Z) (c r : bool) : Slot := match sl with Some f => Opened f c | None => if r then Reserved c else Free end.

Lemma slot_of_upd F C R fd sl c r j :
  slot_of (upd F fd sl) (upd C fd c) (upd R fd r) j = upd (slot_of F C R) fd (slot_for sl c r) j.
Proof. unfold slot_of, upd, slot_for. by destruct (decide (j = fd)). Qed.

Lemma upd_self {A} (f : nat -> A) k v j : f k = v -> upd f k v j = f j.
Proof. unfold upd. by destruct (decide (j = k)) as [->|]. Qed.

Lemma consistent_upd n n' F O R fd sl r :
  consistent n F O R -> (n <= n')%nat -> (fd < n')%nat -> (r = true -> sl = None) ->
  consistent n' (upd F fd sl) (upd O fd (is_some sl || r)) (upd R fd r).
Proof.
  intros [H1 H2] Hn Hfd Hr. constructor; intros j; unfold upd; destruct (decide (j = fd)) as [->|]; auto.
  intros Hj. destruct (H2 j Hj). split; [done|lia].
Qed.

Lemma view_ext t n ev F O C R F' O' C' R' :
  view t n ev F O C R -> (forall j, F j = F' j) -> (forall j, O j = O' j) -> (forall j, C j = C' j) -> (forall j, R j = R' j) ->
  view t n ev F' O' C' R'.
Proof. intros [] HF HO HC HR. constructor; auto; intros fd; [rewrite <- HF|rewrite <- HO|rewrite <- HC|rewrite <- HR]; auto. Qed.

(** A change of one slot; what did not change was as asked already. *)
Lemma view_slot t t' ev F O C R fd sl c r :
  fd_ok t -> view t' (length (tb_files t)) (tb_events t ++ ev) F O C R -> (fd < length (tb_files t))%nat -> (r = true -> sl = None) ->
  (forall j, F j = upd (file_at t) fd sl j) -> (forall j, O j = upd (bit_at (tb_open t)) fd (is_some sl || r) j) ->
  (forall j, C j = upd (bit_at (tb_cloexec t)) fd c j) -> (forall j, R j = upd (bit_at (tb_reserved t)) fd r j) ->
  becomes t t' (upd (slot t) fd (slot_for sl c r)) ev.
Proof.
  intros Ht V Hfd Hr HF HO HC HR. eapply becomes_ext; [|eapply view_becomes; [eapply view_ext; [exact V|done..]|]].
  - intros j. apply slot_of_upd.
  - eapply consistent_upd; [apply Ht|done..].
Qed.

(** The bits of a slot. *)
Lemma slot_bits t fd : fd_ok t -> match slot t fd with
  | Free => file_at t fd = None /\ bit_at (tb_open t) fd = false /\ bit_at (tb_reserved t) fd = false
  | Reserved c => file_at t fd = None /\ bit_at (tb_open t) fd = true /\ bit_at (tb_cloexec t) fd = c /\ bit_at (tb_reserved t) fd = true
  | Opened f c => file_at t fd = Some f /\ bit_at (tb_open t) fd = true /\ bit_at (tb_cloexec t) fd = c /\ bit_at (tb_reserved t) fd = false
  end.
Proof.
  intros Ht. destruct (fo_bits _ Ht) as [H1 H2]. specialize (H1 fd). specialize (H2 fd). unfold slot, slot_of.
  destruct (file_at t fd) eqn:EF; cbn in *; destruct (bit_at (tb_reserved t) fd) eqn:ER; try done. by destruct (H2 eq_refl).
Qed.

Lemma take_fd_becomes t fd sl c r :
  fd_ok t -> (fd < FD_TABLE_MAX)%nat -> (r = true -> sl = None) -> is_some sl || r = true ->
  wp (Inner.take_fd fd sl c r) (fun _ t' => becomes t t' (upd (slot t) fd (slot_for sl c r)) []) t.
Proof.
  intros Ht Hmax Hr Hb. eapply wp_mono; [exact (take_fd_view _ _ _ _ _ _ _ fd sl c r (view_ok t Ht) Hmax)|].
  intros [] t' (n' & Hn & Hfd & V). rewrite <- (app_nil_r (tb_events t)) in V.
  eapply becomes_ext; [|eapply view_becomes; [exact V|]]; [intros j; apply slot_of_upd|].
  rewrite <- Hb. eapply consistent_upd; [apply Ht|done..].
Qed.

(** ** The operations on slots *)

Definition Outcome (A : Type) : Type := result A * Slots * list Event.

Definition keep {A} (r : result A) (a : Slots) : Outcome A := (r, a, []).

Module Spec.
Section spec.
Context (flush : Z -> result unit).

Definition alloc (f : Z) (min max : nat) (c : bool) (a : Slots) : Outcome Z :=
  match lowest_free a min max with
  | Some fd => (Ok (Z.of_nat fd), upd a fd (Opened f c), [])
  | None => keep (Err Emfile) a
  end.

Definition reserve (min max : nat) (c : bool) (a : Slots) : Outcome Z :=
  match lowest_free a min max with
  | Some fd => (Ok (Z.of_nat fd), upd a fd (Reserved c), [])
  | None => keep (Err Emfile) a
  end.

Definition publish (fd f : Z) (a : Slots) : Outcome unit :=
  if fd <? 0 then keep (Err Ebadf) a
  else match a (index fd) with
  | Reserved c => (Ok tt, upd a (index fd) (Opened f c), [])
  | _ => keep (Err Ebadf) a
  end.

Definition cancel (fd : Z) (a : Slots) : Slots :=
  if fd <? 0 then a else match a (index fd) with Reserved _ => upd a (index fd) Free | _ => a end.

Definition get (fd : Z) (a : Slots) : result Z :=
  if fd <? 0 then Err Ebadf else match a (index fd) with Opened f _ => Ok f | _ => Err Ebadf end.

Definition close (fd : Z) (a : Slots) : Outcome unit :=
  if fd <? 0 then keep (Err Ebadf) a
  else match a (index fd) with
  | Opened f _ => (flush f, upd a (index fd) Free, [Closed f])
  | _ => keep (Err Ebadf) a
  end.

(** Hand a copy of [f] to the operation, and count it. *)
Definition copy (f : Z) (o : Outcome Z) : Outcome Z :=
  let '(r, a, ev) := o in match r with Ok _ => (r, a, ev ++ [Cloned f]) | Err _ => o end.

Definition place (nf : nat) (f : Z) (c : bool) (a : Slots) : Outcome Z :=
  match a nf with
  | Reserved _ => keep (Err Ebusy) a
  | Opened o _ => (Ok (Z.of_nat nf), upd a nf (Opened f c), [Cloned f; Closed o])
  | Free => (Ok (Z.of_nat nf), upd a nf (Opened f c), [Cloned f])
  end.

Definition set_cloexec (fd : Z) (on : bool) (a : Slots) : Outcome unit :=
  if fd <? 0 then keep (Err Ebadf) a
  else match a (index fd) with
  | Opened f _ => (Ok tt, upd a (index fd) (Opened f on), [])
  | _ => keep (Err Ebadf) a
  end.

Definition cloexec (fd : Z) (a : Slots) : result bool :=
  if fd <? 0 then Err Ebadf else match a (index fd) with Opened _ c => Ok c | _ => Err Ebadf end.

End spec.
End Spec.

(** The computation [m] does what [f] says of the slots. *)
Definition refines {A} (m : M Tab (result A)) (f : Slots -> Outcome A) : Prop :=
  forall t, fd_ok t -> wp m (fun r t' => r = (f (slot t)).1.1 /\ becomes t t' (f (slot t)).1.2 (f (slot t)).2) t.

Lemma refines_keep {A} (r : Slots -> result A) : refines (t ← get; ret (r (slot t))) (fun a => keep (r a) a).
Proof. intros t Ht. wp_step. wp_step. wp_step. split; [done|by apply becomes_refl]. Qed.

Section refine.
Context (flush : Z -> result unit).

Lemma alloc_refines f min max c : (max <= FD_TABLE_MAX)%nat -> refines (Inner.alloc_fd_flags_below f min max c) (Spec.alloc f min max c).
Proof.
  intros Hmax t Ht. unfold Inner.alloc_fd_flags_below, Spec.alloc. wp_step. wp_step. rewrite find_free_lowest by done.
  destruct (lowest_free (slot t) min max) as [fd|] eqn:E; [|wp_step; split; [done|by apply becomes_refl]].
  apply lowest_free_lt in E as [Hlt _]. wp_step. eapply wp_mono; [apply take_fd_becomes; [done|lia|done|done]|].
  intros [] t' Hb. wp_step. done.
Qed.

Lemma reserve_refines min max c : (max <= FD_TABLE_MAX)%nat -> refines (Inner.reserve_fd_below min max c) (Spec.reserve min max c).
Proof.
  intros Hmax t Ht. unfold Inner.reserve_fd_below, Spec.reserve. wp_step. wp_step. rewrite find_free_lowest by done.
  destruct (lowest_free (slot t) min max) as [fd|] eqn:E; [|wp_step; split; [done|by apply becomes_refl]].
  apply lowest_free_lt in E as [Hlt _]. wp_step. eapply wp_mono; [apply take_fd_becomes; [done|lia|done|done]|].
  intros [] t' Hb. wp_step. done.
Qed.

Lemma publish_refines fd f : refines (Fd.try_fd_install fd f) (Spec.publish fd f).
Proof.
  intros t Ht. unfold Fd.try_fd_install, Spec.publish. destruct (fd <? 0); [wp_step; split; [done|by apply becomes_refl]|].
  wp_step. wp_step. rewrite open_slot, reserved_slot by done. destruct (slot t (index fd)) as [|c|f0 c] eqn:E; cbn [busy negb orb];
    try (wp_step; split; [done|by apply becomes_refl]).
  pose proof (busy_below t Ht (index fd) ltac:(by rewrite E)) as Hlt. pose proof (view_ok t Ht) as V.
  wp_step. eapply wp_mono; [exact (set_file_view _ _ _ _ _ _ _ V (index fd) (Some f) Hlt)|]. intros [] t1 V1.
  wp_step. eapply wp_mono; [exact (set_reserved_view _ _ _ _ _ _ _ V1 (index fd) false Hlt)|]. intros [] t2 V2. wp_step. split; [done|].
  rewrite <- (app_nil_r (tb_events t)) in V2. pose proof (slot_bits t (index fd) Ht) as Hb. rewrite E in Hb. destruct Hb as (B1 & B2 & B3 & B4).
  refine (view_slot _ _ _ _ _ _ _ (index fd) (Some f) c false Ht V2 Hlt _ _ _ _ _); try done; intros j; by rewrite upd_self.
Qed.

Lemma cancel_becomes fd t : fd_ok t -> wp (Fd.put_unused_fd fd) (fun _ t' => becomes t t' (Spec.cancel fd (slot t)) []) t.
Proof.
  intros Ht. unfold Fd.put_unused_fd, Spec.cancel. destruct (fd <? 0); [wp_step; by apply becomes_refl|].
  wp_step. wp_step. rewrite open_slot, reserved_slot by done. destruct (slot t (index fd)) as [|c|f0 c] eqn:E; cbn [busy andb];
    try (wp_step; by apply becomes_refl).
  pose proof (busy_below t Ht (index fd) ltac:(by rewrite E)) as Hlt. pose proof (view_ok t Ht) as V.
  pose proof (slot_bits t (index fd) Ht) as Hb. rewrite E in Hb. destruct Hb as (B1 & B2 & B3 & B4).
  wp_step. eapply wp_mono; [exact (set_open_view _ _ _ _ _ _ _ V (index fd) false Hlt)|]. intros [] t1 V1.
  wp_step. eapply wp_mono; [exact (set_cloexec_view _ _ _ _ _ _ _ V1 (index fd) false Hlt)|]. intros [] t2 V2.
  eapply wp_mono; [exact (set_reserved_view _ _ _ _ _ _ _ V2 (index fd) false Hlt)|]. intros [] t3 V3.
  rewrite <- (app_nil_r (tb_events t)) in V3.
  refine (view_slot _ _ _ _ _ _ _ (index fd) None false false Ht V3 Hlt _ _ _ _ _); try done; intros j; by rewrite upd_self.
Qed.

Lemma fget_slot t fd : fd_ok t -> Fd.fget t fd = Spec.get fd (slot t).
Proof.
  intros Ht. unfold Fd.fget, Spec.get. destruct (fd <? 0); [done|]. pose proof (lookup_slot t (index fd)) as H.
  destruct (tb_files t !! index fd) as [[f|]|], (slot t (index fd)); try done; by simplify_eq.
Qed.

Lemma close_refines fd : refines (Fd.close flush fd) (Spec.close flush fd).
Proof.
  intros t Ht. unfold Fd.close, Spec.close. destruct (fd <? 0); [wp_step; split; [done|by apply becomes_refl]|].
  wp_step. wp_step. pose proof (lookup_slot t (index fd)) as Hl.
  destruct (slot t (index fd)) as [|c|f c] eqn:E;
    [destruct (tb_files t !! index fd) as [[]|]; [done|wp_step; split; [done|by apply becomes_refl]..]..|].
  destruct (tb_files t !! index fd) as [[f'|]|]; [|done..]. injection Hl as ->.
  pose proof (busy_below t Ht (index fd) ltac:(by rewrite E)) as Hlt. pose proof (view_ok t Ht) as V.
  pose proof (slot_bits t (index fd) Ht) as Hb. rewrite E in Hb. destruct Hb as (B1 & B2 & B3 & B4).
  wp_step. wp_step. pose proof (put_file_view _ _ _ _ _ _ _ V (index fd) None Hlt) as V0.
  wp_step. eapply wp_mono; [exact (set_open_view _ _ _ _ _ _ _ V0 (index fd) false Hlt)|]. intros [] t1 V1.
  wp_step. eapply wp_mono; [exact (set_cloexec_view _ _ _ _ _ _ _ V1 (index fd) false Hlt)|]. intros [] t2 V2.
  unfold Fd.filp_close. wp_step. eapply wp_mono; [exact (event_view _ _ _ _ _ _ _ V2 (Closed f))|]. intros [] t3 V3. wp_step. split; [done|].
  refine (view_slot _ _ _ _ _ _ _ (index fd) None false false Ht V3 Hlt _ _ _ _ _); try done; intros j; by rewrite upd_self.
Qed.

Lemma set_cloexec_refines fd on : refines (Fd.set_cloexec fd on) (Spec.set_cloexec fd on).
Proof.
  intros t Ht. unfold Fd.set_cloexec, Spec.set_cloexec. destruct (fd <? 0); [wp_step; split; [done|by apply becomes_refl]|].
  wp_step. wp_step. rewrite open_slot, reserved_slot by done. destruct (slot t (index fd)) as [|c|f c] eqn:E; cbn [busy negb andb];
    try (wp_step; split; [done|by apply becomes_refl]).
  pose proof (busy_below t Ht (index fd) ltac:(by rewrite E)) as Hlt. pose proof (view_ok t Ht) as V.
  pose proof (slot_bits t (index fd) Ht) as Hb. rewrite E in Hb. destruct Hb as (B1 & B2 & B3 & B4).
  wp_step. eapply wp_mono; [exact (set_cloexec_view _ _ _ _ _ _ _ V (index fd) on Hlt)|]. intros [] t1 V1. wp_step. split; [done|].
  rewrite <- (app_nil_r (tb_events t)) in V1.
  refine (view_slot _ _ _ _ _ _ _ (index fd) (Some f) on false Ht V1 Hlt _ _ _ _ _); try done; intros j; by rewrite upd_self.
Qed.

Lemma cloexec_slots t fd : fd_ok t -> Fd.cloexec t fd = Spec.cloexec fd (slot t).
Proof.
  intros Ht. unfold Fd.cloexec, Spec.cloexec. destruct (fd <? 0); [done|]. rewrite open_slot, reserved_slot by done.
  pose proof (cloexec_slot t (index fd)) as Hc. unfold Inner.get_cloexec. rewrite bit_get_at.
  destruct (slot t (index fd)); cbn; [done..|by rewrite Hc].
Qed.

Lemma capacity_becomes t fd : fd_ok t -> (fd < FD_TABLE_MAX)%nat ->
  becomes t (Inner.ensure_capacity fd t) (slot t) [] /\ (fd < length (tb_files (Inner.ensure_capacity fd t)))%nat.
Proof.
  intros Ht Hmax. destruct (capacity_view _ _ _ _ _ _ _ (view_ok t Ht) fd Hmax) as (n' & Hn & Hfd & V). split.
  - rewrite <- (app_nil_r (tb_events t)) in V. apply (view_becomes _ _ _ _ _ _ _ _ V). destruct (fo_bits _ Ht) as [H1 H2].
    constructor; [done|]. intros j Hj. destruct (H2 j Hj). split; [done|lia].
  - by rewrite (vw_len _ _ _ _ _ _ _ V).
Qed.

Lemma becomes_through t0 t t' nf x ev :
  becomes t0 t (slot t0) [] -> becomes t t' (upd (slot t) nf x) ev -> becomes t0 t' (upd (slot t0) nf x) ev.
Proof.
  intros H1 H2. pose proof (becomes_trans _ _ _ _ _ _ _ H1 H2) as H. eapply becomes_ext; [|exact H].
  intros j. unfold upd. destruct (decide _); [done|]. apply H1.
Qed.

Lemma place_refines nf f c : (nf < FD_TABLE_MAX)%nat -> refines (Fd.install_at flush nf f c) (Spec.place nf f c).
Proof.
  intros Hmax t0 Ht0. destruct (capacity_becomes t0 nf Ht0 Hmax) as [Hcap Hlt]. unfold Fd.install_at. wp_step. wp_step. wp_step. wp_step.
  set (t := Inner.ensure_capacity nf t0) in *. pose proof Hcap as (Ht & Hs & _). unfold Spec.place.
  rewrite reserved_slot by done. rewrite <- (Hs nf). destruct (slot t nf) as [|c0|o c0] eqn:E.
  2:{ wp_step. done. }
  all: destruct (lookup_lt_is_Some_2 _ _ Hlt) as [old Hold]; rewrite Hold; wp_step; wp_step; wp_step; wp_step;
    pose proof (put_file_view _ _ _ _ _ _ _ (view_ok t Ht) nf (Some f) Hlt) as V0;
    (wp_step; eapply wp_mono; [exact (set_open_view _ _ _ _ _ _ _ V0 nf true Hlt)|]; intros [] t1 V1);
    (wp_step; eapply wp_mono; [exact (set_cloexec_view _ _ _ _ _ _ _ V1 nf c Hlt)|]; intros [] t2 V2);
    (wp_step; eapply wp_mono; [exact (set_reserved_view _ _ _ _ _ _ _ V2 nf false Hlt)|]; intros [] t3 V3);
    (unfold Fd.clone_hook; wp_step; eapply wp_mono; [exact (event_view _ _ _ _ _ _ _ V3 (Cloned f))|]; intros [] t4 V4);
    pose proof (slot_bits t nf Ht) as Hb; rewrite E in Hb; pose proof (file_slot t nf) as Hf; rewrite E in Hf; unfold file_at in Hf; rewrite Hold in Hf;
    cbn in Hf; subst old.
  - wp_step. wp_step. wp_step. split; [done|]. eapply becomes_through; [exact Hcap|].
    refine (view_slot _ _ _ _ _ _ _ nf (Some f) c false Ht V4 Hlt _ _ _ _ _); done.
  - wp_step. wp_step. unfold Fd.filp_close. wp_step. eapply wp_mono; [exact (event_view _ _ _ _ _ _ _ V4 (Closed o))|]. intros [] t5 V5.
    wp_step. wp_step. wp_step. split; [done|]. rewrite <- app_assoc in V5.
    eapply becomes_through; [exact Hcap|]. refine (view_slot _ _ _ _ _ _ _ nf (Some f) c false Ht V5 Hlt _ _ _ _ _); done.
Qed.

End refine.
