(* ===== verification/FdTableBulk.v ===== *)
(** * Descriptor tables: sweeps and copies

    [close_on_exec], [close_range] and the copies made by [fork]: loops over
    the set bits of each word, against the slots they change. *)

From stdpp Require Import list.
From S2P Require Import Prelude Words Result FdTable FdTableSpec FdTableInv FdTableRefine.

(** ** A change of the descriptors of a list that satisfy a test *)

Definition over {A} (p : nat -> bool) (ds : list nat) (v : A) (f : nat -> A) : nat -> A :=
  fun fd => if bool_decide (fd ∈ ds) && p fd then v else f fd.

(** The files such a change takes out. *)
Definition taken (p : nat -> bool) (ds : list nat) (F : nat -> option Z) : list Z :=
  omap (fun fd => if p fd then F fd else None) ds.

Lemma over_nil {A} p (v : A) f j : over p [] v f j = f j.
Proof. done. Qed.

Lemma over_cons {A} p d ds (v : A) f j : over p ds v (if p d then upd f d v else f) j = over p (d :: ds) v f j.
Proof.
  unfold over, upd. destruct (decide (j = d)) as [->|Hne].
  - rewrite (bool_decide_eq_true_2 (d ∈ d :: ds)) by apply list_elem_of_here. cbn. destruct (p d); [|by rewrite andb_false_r].
    rewrite decide_True by done. by destruct (_ && _).
  - assert (E : bool_decide (j ∈ d :: ds) = bool_decide (j ∈ ds)).
    { apply bool_decide_ext. rewrite elem_of_cons. naive_solver. }
    rewrite E. destruct (p d); [by rewrite decide_False|done].
Qed.

Lemma over_app {A} p ds es (v : A) f j : over p es v (over p ds v f) j = over p (ds ++ es) v f j.
Proof.
  unfold over. rewrite (bool_decide_ext (j ∈ ds ++ es) (j ∈ ds \/ j ∈ es)) by apply elem_of_app. rewrite bool_decide_or.
  by destruct (bool_decide (j ∈ ds)), (bool_decide (j ∈ es)), (p j).
Qed.

Lemma taken_ext (p q : nat -> bool) ds (F G : nat -> option Z) : (forall d, d ∈ ds -> (if p d then F d else None) = (if q d then G d else None)) -> taken p ds F = taken q ds G.
Proof.
  induction ds as [|d ds IH]; intros H; [done|]. unfold taken in *. cbn. rewrite (H d (list_elem_of_here _ _)).
  rewrite IH; [done|]. intros x Hx. apply H. by apply list_elem_of_further.
Qed.

Lemma taken_skip p d ds F : d ∉ ds -> taken p ds (if p d then upd F d None else F) = taken p ds F.
Proof.
  intros Hd. apply taken_ext. intros x Hx. destruct (p x); [|done]. destruct (p d); [|done]. apply slot_upd_ne. by intros ->.
Qed.

Lemma taken_cons p d ds F : taken p (d :: ds) F = (if p d then option_list (F d) else []) ++ taken p ds F.
Proof. unfold taken. cbn. destruct (p d); [|done]. by destruct (F d). Qed.

Lemma taken_app p ds es F : taken p (ds ++ es) F = taken p ds F ++ taken p es F.
Proof.
  induction ds as [|d ds IH]; [done|]. cbn [app]. rewrite !taken_cons, IH. apply app_assoc.
Qed.

(** ** Closing on exec *)

Lemma set_open_word t n ev F O C R fd on :
  view t n ev F O C R -> (word_idx fd < length (tb_open t))%nat ->
  wp (Inner.set_open fd on) (fun _ t' => view t' n ev F (upd O fd on) C R /\ length (tb_open t') = length (tb_open t)) t.
Proof.
  intros V Hw. destruct (lookup_lt_is_Some_2 _ _ Hw) as [w Hl]. unfold Inner.set_open. wp_step. wp_step. wp_step. rewrite Hl. wp_step. wp_step.
  split; [by eapply put_open_view|]. cbn. apply length_insert.
Qed.

Lemma set_cloexec_word t n ev F O C R fd on :
  view t n ev F O C R -> (word_idx fd < length (tb_open t))%nat ->
  wp (Inner.set_cloexec_bit fd on) (fun _ t' => view t' n ev F O (upd C fd on) R /\ length (tb_open t') = length (tb_open t)) t.
Proof.
  intros V Hw. pose proof (sh_cloexec _ (vw_shape _ _ _ _ _ _ _ V)) as Hc.
  destruct (lookup_lt_is_Some_2 (tb_cloexec t) (word_idx fd)) as [w Hl]; [lia|].
  unfold Inner.set_cloexec_bit. wp_step. wp_step. wp_step. rewrite Hl. wp_step. wp_step. split; [|done]. by apply put_cloexec_view.
Qed.

Lemma take_file_view t n ev F O C R fd removed :
  view t n ev F O C R ->
  wp (Fd.take_file fd removed) (fun r t' => r = removed ++ option_list (F fd) /\ view t' n ev (upd F fd None) O C R /\
    length (tb_open t') = length (tb_open t)) t.
Proof.
  intros V. unfold Fd.take_file. wp_step. wp_step. rewrite <- (vw_files _ _ _ _ _ _ _ V fd). unfold file_at.
  assert (Hn : default None (tb_files t !! fd) = None -> view t n ev (upd F fd None) O C R).
  { intros H. eapply view_ext; [exact V| |done|done|done]. intros j. rewrite upd_self; [done|]. by rewrite <- (vw_files _ _ _ _ _ _ _ V fd). }
  destruct (tb_files t !! fd) as [[f|]|] eqn:E; cbn [default id option_list].
  - wp_step. wp_step. wp_step. split_and!; [done| |done]. eapply put_file_view; [exact V|].
    rewrite <- (vw_len _ _ _ _ _ _ _ V). by eapply lookup_lt_Some.
  - wp_step. split_and!; [by rewrite app_nil_r|by apply Hn|done].
  - wp_step. split_and!; [by rewrite app_nil_r|by apply Hn|done].
Qed.

(** The descriptors of the bits [bs] of the word [wi]. *)
Definition fds_in (wi : nat) (bs : list nat) : list nat := map (fun b => wi * WORD_BITS + b)%nat bs.

Lemma reserved_view t n ev F O C R fd : view t n ev F O C R -> Inner.is_reserved t fd = R fd.
Proof. intros V. unfold Inner.is_reserved. rewrite bit_get_at. apply V. Qed.

Lemma exec_bits_view wi bs t n ev F O C R removed :
  view t n ev F O C R -> (wi < length (tb_open t))%nat -> Forall (fun b => b < 64)%nat bs -> NoDup bs ->
  let p := fun fd => negb (R fd) in
  wp (Fd.exec_bits wi bs removed) (fun r t' => r = removed ++ taken p (fds_in wi bs) F /\
    view t' n ev (over p (fds_in wi bs) None F) (over p (fds_in wi bs) false O) C R /\ length (tb_open t') = length (tb_open t)) t.
Proof.
  intros V Hwi Hbs Hnd p. revert t F O removed V Hwi. induction bs as [|b bs IH]; intros t F O removed V Hwi; cbn [Fd.exec_bits].
  { wp_step. split_and!; [by rewrite app_nil_r|done|done]. }
  apply Forall_cons in Hbs as [Hb Hbs]. apply NoDup_cons in Hnd as [Hnin Hnd]. specialize (IH Hbs Hnd).
  cbn [fds_in map]. fold (fds_in wi bs). set (d := (wi * WORD_BITS + b)%nat). set (ds := fds_in wi bs) in *.
  assert (Hd : d ∉ ds).
  { unfold ds, fds_in. intros (b' & E & Hin)%list_elem_of_fmap. apply Hnin. unfold d in E. by replace b with b' by lia. }
  assert (Hend : forall t1 removed1, view t1 n ev (if p d then upd F d None else F) (if p d then upd O d false else O) C R ->
    length (tb_open t1) = length (tb_open t) -> removed1 = removed ++ (if p d then option_list (F d) else []) ->
    wp (Fd.exec_bits wi bs removed1) (fun r t' => r = removed ++ taken p (d :: ds) F /\
      view t' n ev (over p (d :: ds) None F) (over p (d :: ds) false O) C R /\ length (tb_open t') = length (tb_open t)) t1).
  { intros t1 removed1 V1 Hl ->. eapply wp_mono; [apply (IH t1 _ _ _ V1); lia|]. intros r t' (-> & V' & Hl'). split_and!; [| |lia].
    - by rewrite taken_skip, taken_cons, app_assoc.
    - eapply view_ext; [exact V'|intros j; apply over_cons..|done|done]. }
  wp_step. wp_step. rewrite (reserved_view _ _ _ _ _ _ _ d V). unfold p in Hend at 1 2 3. destruct (R d); cbn [negb] in Hend.
  - apply Hend; [done|done|by rewrite app_nil_r].
  - wp_step. eapply wp_mono; [exact (take_file_view _ _ _ _ _ _ _ d removed V)|]. intros r1 t1 (-> & V1 & Hl1).
    wp_step. eapply wp_mono; [apply (set_open_word _ _ _ _ _ _ _ d false V1)|].
    { unfold d. rewrite (proj1 (word_of wi b Hb)). lia. }
    intros [] t2 [V2 Hl2]. apply Hend; [done|lia|done].
Qed.

(** The descriptors of whole words. *)
Definition words_fds (ws : list nat) : list nat := concat (map (fun wi => fds_in wi (seq 0 64)) ws).

Lemma elem_fds_in wi bs fd : Forall (fun b => b < 64)%nat bs -> fd ∈ fds_in wi bs <-> word_idx fd = wi /\ (fd mod WORD_BITS)%nat ∈ bs.
Proof.
  intros Hb. rewrite Forall_forall in Hb. unfold fds_in. rewrite list_elem_of_fmap. split.
  - intros (b & -> & Hin). destruct (word_of wi b (Hb b Hin)) as [-> ->]. done.
  - intros [<- Hin]. exists (fd mod WORD_BITS)%nat. split; [apply fd_split|done].
Qed.

Lemma seq64_bound : Forall (fun b => b < 64)%nat (seq 0 64).
Proof. apply Forall_forall. intros b Hb%elem_of_seq. lia. Qed.

Lemma words_fds_cons wi ws : words_fds (wi :: ws) = fds_in wi (seq 0 64) ++ words_fds ws.
Proof. done. Qed.

Lemma elem_words ws fd : fd ∈ words_fds ws <-> word_idx fd ∈ ws.
Proof.
  induction ws as [|wi ws IH]; [cbn; by rewrite !elem_of_nil|]. rewrite words_fds_cons, elem_of_app, IH, elem_of_cons, elem_fds_in by apply seq64_bound.
  rewrite elem_of_seq. pose proof (fd_mod fd). intuition lia.
Qed.

Lemma words_fds_seq k n : words_fds (seq k n) = seq (k * WORD_BITS) (n * WORD_BITS).
Proof.
  induction n as [|n IH]; [done|]. rewrite seq_S. unfold words_fds in *. rewrite map_app, concat_app, IH. cbn [map concat]. rewrite app_nil_r.
  replace (S n * WORD_BITS)%nat with (n * WORD_BITS + 64)%nat by (unfold WORD_BITS; lia). rewrite seq_app. f_equal. unfold fds_in.
  rewrite <- Nat.mul_add_distr_r, <- (Nat.add_0_r ((k + n) * WORD_BITS)), <- fmap_add_seq. by rewrite Nat.add_0_r.
Qed.

Lemma over_ext {A} (p q : nat -> bool) ds es (v : A) f j :
  (p j = true -> j ∈ ds -> q j = true /\ j ∈ es) -> (q j = true -> j ∈ es -> p j = true /\ j ∈ ds) -> over p ds v f j = over q es v f j.
Proof.
  intros H1 H2. unfold over. destruct (decide (j ∈ ds)) as [Hd|Hd], (decide (j ∈ es)) as [He|He];
    rewrite ?(bool_decide_eq_true_2 _ Hd), ?(bool_decide_eq_false_2 _ Hd), ?(bool_decide_eq_true_2 _ He), ?(bool_decide_eq_false_2 _ He);
    destruct (p j), (q j); cbn; naive_solver.
Qed.

(** The set bits of a word, as a test on its descriptors. *)
Lemma bits_over {A} w wi (p q : nat -> bool) (v : A) f j :
  u64 w -> (forall fd, word_idx fd = wi -> q fd = Z.testbit w (Z.of_nat (fd mod WORD_BITS)) && p fd) ->
  over p (fds_in wi (set_bits w)) v f j = over q (fds_in wi (seq 0 64)) v f j.
Proof.
  intros Hw Hq. assert (Hb : Forall (fun b => b < 64)%nat (set_bits w)).
  { apply Forall_forall. intros b Hb. by apply elem_set_bits in Hb as []. }
  apply over_ext; rewrite !elem_fds_in by (done || apply seq64_bound); rewrite elem_set_bits, elem_of_seq by done; unfold has_bit; pose proof (fd_mod j).
  - intros Hp [Hj [_ Ht]]. rewrite Hq, Ht, Hp by done. split; [done|]. split; [done|lia].
  - intros Hqj [Hj _]. rewrite Hq in Hqj by done. apply andb_true_iff in Hqj as [Ht Hp]. done.
Qed.

Lemma taken_filter w wi (p q : nat -> bool) (F : nat -> option Z) bs :
  Forall (fun b => b < 64)%nat bs -> (forall fd, word_idx fd = wi -> q fd = Z.testbit w (Z.of_nat (fd mod WORD_BITS)) && p fd) ->
  taken p (fds_in wi (filter (has_bit w) bs)) F = taken q (fds_in wi bs) F.
Proof.
  intros Hb Hq. induction bs as [|b bs IH]; [done|]. apply Forall_cons in Hb as [Hb1 Hb]. specialize (IH Hb). rewrite filter_cons.
  change (fds_in wi (b :: bs)) with ((wi * WORD_BITS + b)%nat :: fds_in wi bs). rewrite taken_cons, <- IH, Hq by apply (word_of wi b Hb1).
  rewrite (proj2 (word_of wi b Hb1)). unfold has_bit at 1. destruct (decide _) as [E|E].
  - change (fds_in wi (b :: ?l)) with ((wi * WORD_BITS + b)%nat :: fds_in wi l). cbn [fds_in map]. rewrite taken_cons, E. done.
  - apply not_true_is_false in E. by rewrite E.
Qed.

Lemma bits_taken w wi (p q : nat -> bool) (F : nat -> option Z) :
  u64 w -> (forall fd, word_idx fd = wi -> q fd = Z.testbit w (Z.of_nat (fd mod WORD_BITS)) && p fd) ->
  taken p (fds_in wi (set_bits w)) F = taken q (fds_in wi (seq 0 64)) F.
Proof. intros Hw Hq. rewrite set_bits_spec by done. by apply taken_filter; [apply seq64_bound|]. Qed.

Lemma set_bits_nodup w : u64 w -> NoDup (set_bits w) /\ Forall (fun b => b < 64)%nat (set_bits w).
Proof.
  intros Hw. split; [rewrite set_bits_spec by done; apply NoDup_filter, NoDup_seq|].
  apply Forall_forall. intros b Hb. by apply elem_set_bits in Hb as [].
Qed.

Lemma over_congr {A} p ds (v : A) f g j : (forall i, f i = g i) -> over p ds v f j = over p ds v g j.
Proof. intros H. unfold over. by rewrite H. Qed.

(** A word after the words before it. *)
Lemma over_words {A} (v : A) w wi ws (p q r : nat -> bool) f j :
  u64 w -> wi ∉ ws -> (forall fd, word_idx fd = wi -> p fd = Z.testbit w (Z.of_nat (fd mod WORD_BITS)) && q fd) ->
  (forall fd, word_idx fd ∈ ws -> r fd = p fd) ->
  over r (words_fds ws) v (over q (fds_in wi (set_bits w)) v f) j = over p (words_fds (wi :: ws)) v f j.
Proof.
  intros Hw Hnin Hp Hr. rewrite words_fds_cons, <- over_app. erewrite over_congr by (intros i; by apply (bits_over w wi q p)).
  apply over_ext; rewrite elem_words; intros H1 H2; (split; [|done]); [by rewrite <- Hr|by rewrite Hr].
Qed.

Lemma taken_words w wi ws (p q r : nat -> bool) (F : nat -> option Z) :
  u64 w -> wi ∉ ws -> (forall fd, word_idx fd = wi -> p fd = Z.testbit w (Z.of_nat (fd mod WORD_BITS)) && q fd) ->
  (forall fd, word_idx fd ∈ ws -> r fd = p fd) ->
  taken q (fds_in wi (set_bits w)) F ++ taken r (words_fds ws) (over q (fds_in wi (set_bits w)) None F) = taken p (words_fds (wi :: ws)) F.
Proof.
  intros Hw Hnin Hp Hr. rewrite words_fds_cons, taken_app, (bits_taken w wi q p F Hw Hp). f_equal. apply taken_ext. intros fd Hfd%elem_words.
  rewrite (Hr fd Hfd). destruct (p fd); [|done]. unfold over. rewrite bool_decide_eq_false_2; [done|].
  rewrite elem_fds_in by (apply set_bits_nodup; done). intros [E _]. apply Hnin. by rewrite <- E.
Qed.

(** [cloexec[wi] &= reserved[wi]]. *)
Lemma mask_cloexec_view t n ev F O C R wi w r :
  view t n ev F O C R -> tb_cloexec t !! wi = Some w -> tb_reserved t !! wi = Some r ->
  view (put_cloexec (<[wi := Z.land w r]> (tb_cloexec t)) t) n ev F O (fun fd => C fd && (negb (bool_decide (word_idx fd = wi)) || R fd)) R.
Proof.
  intros [[H1 H2 H3 H4 H5 H6 H7] VL VE VF VO VC VR] Hw Hr. constructor; [constructor|..]; cbn_tab; rewrite ?length_insert; try done.
  - apply Forall_insert; [done|]. apply u64_land. exact (Forall_lookup_1 _ _ _ _ H4 Hw).
  - intros fd. rewrite <- VC, <- VR. unfold bit_at. destruct (decide (word_idx fd = wi)) as [E|E].
    + rewrite (bool_decide_eq_true_2 _ E), E, list_lookup_insert_eq, Hw, Hr by by eapply lookup_lt_Some. apply Z.land_spec.
    + rewrite (bool_decide_eq_false_2 _ E), list_lookup_insert_ne by done. by rewrite andb_true_r.
Qed.

Lemma exec_words_view ws t n ev F O C R removed :
  view t n ev F O C R -> Forall (fun wi => wi < length (tb_open t))%nat ws -> NoDup ws ->
  let p := fun fd => C fd && negb (R fd) in
  wp (Fd.exec_words ws removed) (fun r t' => r = removed ++ taken p (words_fds ws) F /\
    exists C', view t' n ev (over p (words_fds ws) None F) (over p (words_fds ws) false O) C' R /\
      forall fd, C' fd = C fd && (negb (bool_decide (word_idx fd ∈ ws)) || R fd)) t.
Proof.
  revert t F O C removed. induction ws as [|wi ws IH]; intros t F O C removed V Hws Hnd p; cbn [Fd.exec_words].
  { wp_step. split; [by rewrite app_nil_r|]. exists C. split; [done|]. intros fd. by rewrite bool_decide_eq_false_2, andb_true_r by set_solver. }
  apply Forall_cons in Hws as [Hwi Hws]. apply NoDup_cons in Hnd as [Hnin Hnd]. pose proof (vw_shape _ _ _ _ _ _ _ V) as Hsh.
  destruct (lookup_lt_is_Some_2 (tb_cloexec t) wi) as [w Hw]; [rewrite (sh_cloexec _ Hsh); lia|].
  pose proof (Forall_lookup_1 _ _ _ _ (sh_cloexec_u64 _ Hsh) Hw) as Huw. destruct (set_bits_nodup w Huw) as [Hbn Hbb].
  assert (HC : forall fd, word_idx fd = wi -> C fd = Z.testbit w (Z.of_nat (fd mod WORD_BITS))).
  { intros fd E. rewrite <- (vw_cloexec _ _ _ _ _ _ _ V fd). unfold bit_at. by rewrite E, Hw. }
  assert (Hp : forall fd, word_idx fd = wi -> p fd = Z.testbit w (Z.of_nat (fd mod WORD_BITS)) && negb (R fd)) by (intros fd E; unfold p; by rewrite HC).
  wp_step. wp_step. wp_step. rewrite Hw. wp_step. wp_step. eapply wp_mono; [exact (exec_bits_view wi (set_bits w) _ _ _ _ _ _ _ removed V Hwi Hbb Hbn)|].
  intros r1 t1 (-> & V1 & Hl1). wp_step. wp_step. pose proof (vw_shape _ _ _ _ _ _ _ V1) as Hsh1.
  destruct (lookup_lt_is_Some_2 (tb_cloexec t1) wi) as [w1 Hw1]; [rewrite (sh_cloexec _ Hsh1); lia|].
  destruct (lookup_lt_is_Some_2 (tb_reserved t1) wi) as [r1 Hr1]; [rewrite (sh_reserved _ Hsh1); lia|].
  wp_step. rewrite Hw1. wp_step. wp_step. rewrite Hr1. wp_step. wp_step. wp_step.
  pose proof (mask_cloexec_view _ _ _ _ _ _ _ _ _ _ V1 Hw1 Hr1) as V2.
  eapply wp_mono; [apply (IH _ _ _ _ _ V2); [cbn_tab; by rewrite Hl1|done]|]. intros r t' (-> & C' & V' & HC').
  set (q := fun fd => C fd && (negb (bool_decide (word_idx fd = wi)) || R fd) && negb (R fd)) in *.
  assert (Hq : forall fd, fd ∈ words_fds ws -> q fd = p fd).
  { intros fd Hfd. unfold q, p. rewrite (bool_decide_eq_false_2 (word_idx fd = wi)); [by rewrite andb_true_r|].
    intros E. apply Hnin. rewrite <- E. by apply elem_words. }
  assert (Hr : forall fd, word_idx fd ∈ ws -> q fd = p fd) by (intros fd Hfd; apply Hq; by apply elem_words). split.
  - rewrite <- app_assoc. f_equal. by apply taken_words.
  - exists C'. split.
    + eapply view_ext; [exact V'|intros j; by apply over_words..|done|done].
    + intros fd. rewrite HC'. destruct (decide (word_idx fd = wi)) as [E|E].
      * rewrite (bool_decide_eq_true_2 _ E), (bool_decide_eq_true_2 (word_idx fd ∈ wi :: ws)) by (rewrite E; apply list_elem_of_here).
        destruct (C fd), (R fd); cbn; rewrite ?orb_true_r, ?andb_false_r; done.
      * rewrite (bool_decide_eq_false_2 _ E). cbn. rewrite andb_true_r. f_equal. f_equal. f_equal. apply bool_decide_ext. rewrite elem_of_cons. naive_solver.
Qed.

Section sweeps.
Context (flush : Z -> result unit).

Lemma close_all_view removed t n ev F O C R :
  view t n ev F O C R -> wp (Fd.close_all flush removed) (fun _ t' => view t' n (ev ++ map Closed removed) F O C R) t.
Proof.
  unfold Fd.close_all. revert t ev. induction removed as [|f removed IH]; intros t ev V; cbn [for_each].
  { wp_step. cbn. by rewrite app_nil_r. }
  wp_step. unfold Fd.filp_close. wp_step. wp_step. eapply wp_mono; [exact (event_view _ _ _ _ _ _ _ V (Closed f))|]. intros [] t1 V1.
  wp_step. wp_step. eapply wp_mono; [exact (IH _ _ V1)|]. intros [] t2 V2. cbn [map]. by rewrite <- app_assoc in V2.
Qed.

(** The files of the slots that satisfy a test, in the order of their
    descriptors. *)
Definition files_where (q : nat -> bool -> bool) (a : Slots) : list Z :=
  omap (fun fd => match a fd with Opened f c => if q fd c then Some f else None | _ => None end) (seq 0 FD_TABLE_MAX).

Lemma omap_none {A B} (f : A -> option B) (l : list A) : (forall x, x ∈ l -> f x = None) -> omap f l = [].
Proof.
  induction l as [|x l IH]; intros H; [done|]. cbn. rewrite (H x (list_elem_of_here _ _)). apply IH. intros y Hy. apply H. by apply list_elem_of_further.
Qed.

Lemma omap_app_list {A B} (f : A -> option B) (l k : list A) : omap f (l ++ k) = omap f l ++ omap f k.
Proof. induction l as [|x l IH]; [done|]. cbn. destruct (f x); [cbn; f_equal|]; exact IH. Qed.

Lemma omap_ext_in {A B} (f g : A -> option B) (l : list A) : (forall x, x ∈ l -> f x = g x) -> omap f l = omap g l.
Proof.
  induction l as [|x l IH]; intros H; [done|]. cbn. rewrite (H x (list_elem_of_here _ _)), IH; [done|]. intros y Hy. apply H. by apply list_elem_of_further.
Qed.

Lemma taken_files t p q w1 w2 :
  fd_ok t -> (w1 + w2 = length (tb_open t))%nat -> (forall fd, (fd < w1 * WORD_BITS)%nat -> p fd = false) ->
  (forall fd f, file_at t fd = Some f -> p fd = q fd (bit_at (tb_cloexec t) fd)) ->
  taken p (seq (w1 * WORD_BITS) (w2 * WORD_BITS)) (file_at t) = files_where q (slot t).
Proof.
  intros Ht Hw Hlow Hpq. pose proof (sh_max _ (fo_shape _ Ht)) as Hmax. pose proof (sh_files _ (fo_shape _ Ht)) as Hfl.
  unfold files_where, taken. rewrite (omap_ext_in (fun fd => match slot t fd with Opened f c => if q fd c then Some f else None | _ => None end)
    (fun fd => if p fd then file_at t fd else None)).
  - replace FD_TABLE_MAX with (w1 * WORD_BITS + (w2 * WORD_BITS + (FD_TABLE_MAX - length (tb_open t) * WORD_BITS)))%nat by (unfold WORD_BITS in *; lia).
    rewrite !seq_app, !omap_app_list, (omap_none _ (seq 0 _)); [|intros fd Hfd%elem_of_seq; by rewrite Hlow by lia].
    rewrite (omap_none _ (seq (0 + w1 * WORD_BITS + w2 * WORD_BITS) _)); [by rewrite app_nil_r|]. intros fd Hfd%elem_of_seq. unfold file_at.
    rewrite lookup_ge_None_2; [by destruct (p fd)|]. unfold WORD_BITS in *. lia.
  - intros fd _. unfold slot, slot_of. destruct (file_at t fd) as [f|] eqn:E; [by rewrite (Hpq fd f E)|]. by destruct (bit_at _ _), (p fd).
Qed.

Definition exec_slots (a : Slots) : Slots := fun fd => match a fd with Opened _ true => Free | s => s end.

Lemma bit_at_low t fd : fd_ok t -> bit_at (tb_cloexec t) fd = true -> (word_idx fd < length (tb_open t))%nat.
Proof.
  intros Ht H. destruct (decide (word_idx fd < length (tb_open t))%nat); [done|]. rewrite bit_at_beyond in H; [done|].
  rewrite (sh_cloexec _ (fo_shape _ Ht)). lia.
Qed.

Lemma close_on_exec_becomes t :
  fd_ok t -> wp (Fd.close_on_exec flush) (fun _ t' => becomes t t' (exec_slots (slot t)) (map Closed (files_where (fun _ c => c) (slot t)))) t.
Proof.
  intros Ht. unfold Fd.close_on_exec. wp_step. wp_step. rewrite (sh_cloexec _ (fo_shape _ Ht)). set (W := length (tb_open t)).
  wp_step. eapply wp_mono; [apply (exec_words_view (seq 0 W) _ _ _ _ _ _ _ [] (view_ok t Ht)); [|apply NoDup_seq]|].
  { apply Forall_forall. intros wi Hwi%elem_of_seq. unfold W in *. lia. }
  intros r t1 (-> & C' & V1 & HC'). set (p := fun fd => bit_at (tb_cloexec t) fd && negb (bit_at (tb_reserved t) fd)) in *.
  eapply wp_mono; [exact (close_all_view _ _ _ _ _ _ _ _ V1)|]. intros [] t2 V2. cbn [app] in V2.
  assert (Hf : taken p (words_fds (seq 0 W)) (file_at t) = files_where (fun _ c => c) (slot t)).
  { rewrite words_fds_seq. apply (taken_files t p (fun _ c => c) 0 W Ht); [unfold W; lia|lia|]. intros fd f E. unfold p.
    destruct (bit_at (tb_reserved t) fd) eqn:Er; [|by rewrite andb_true_r]. destruct (cs_reserved _ _ _ _ (fo_bits _ Ht) fd Er). congruence. }
  rewrite Hf in V2. assert (Hin : forall fd, bool_decide (fd ∈ words_fds (seq 0 W)) && p fd = p fd).
  { intros fd. destruct (p fd) eqn:Ep; [|apply andb_false_r]. rewrite andb_true_r. apply bool_decide_eq_true_2, elem_words, elem_of_seq.
    apply andb_true_iff in Ep as [Ec _]. pose proof (bit_at_low t fd Ht Ec). unfold W. lia. }
  eapply becomes_ext; [|eapply view_becomes; [exact V2|]].
  - intros fd. unfold slot_of, exec_slots, over. rewrite Hin. pose proof (slot_bits t fd Ht) as Hb. unfold p. specialize (HC' fd).
    destruct (slot t fd) as [|c|f c]; [destruct Hb as (HF & _ & HR)|destruct Hb as (HF & _ & Hc & HR)..]; rewrite HR in *; rewrite HF.
    + by destruct (bit_at _ _).
    + by rewrite HC', Hc, orb_true_r, andb_true_r, andb_false_r.
    + rewrite Hc in *. destruct c; [done|]. by rewrite HC'.
  - destruct (fo_bits _ Ht) as [H1 H2]. constructor; intros fd; unfold over; rewrite ?Hin.
    + unfold p. specialize (H1 fd). destruct (bit_at (tb_cloexec t) fd), (bit_at (tb_reserved t) fd); cbn; done.
    + intros Hr. unfold p. rewrite Hr, andb_false_r. auto.
Qed.

(** ** Closing a range *)

Context (first last : Z).

Definition in_range (fd : nat) : bool := (first <=? Z.of_nat fd) && (Z.of_nat fd <=? last).

(** The parts a sweep changes: with [co] only the close-on-exec bits. *)
Definition unless {A} (co : bool) (p : nat -> bool) (ds : list nat) (v : A) (f : nat -> A) : nat -> A := if co then f else over p ds v f.

Definition removes (co : bool) (p : nat -> bool) (ds : list nat) (F : nat -> option Z) : list Z := if co then [] else taken p ds F.

Lemma range_test fd : (Z.of_nat fd <? first) || (last <? Z.of_nat fd) = negb (in_range fd).
Proof. unfold in_range. rewrite negb_andb, !Z.leb_antisym, !negb_involutive. done. Qed.

Lemma unless_cons {A} co p d ds (v : A) f j : unless co p ds v (if p d then (if co then f else upd f d v) else f) j = unless co p (d :: ds) v f j.
Proof. unfold unless. destruct co; [by destruct (p d)|]. apply over_cons. Qed.

Lemma removes_cons co p d ds F :
  d ∉ ds -> removes co p (d :: ds) F = (if p d then (if co then [] else option_list (F d)) else []) ++ removes co p ds (if p d then (if co then F else upd F d None) else F).
Proof.
  intros Hd. unfold removes. destruct co; [by destruct (p d)|]. rewrite taken_skip, taken_cons by done. done.
Qed.

Lemma range_bits_view co wi bs t n ev F O C R removed :
  view t n ev F O C R -> (wi < length (tb_open t))%nat -> Forall (fun b => b < 64)%nat bs -> NoDup bs ->
  let p := fun fd => in_range fd && negb (R fd) in let ds := fds_in wi bs in
  wp (Fd.range_bits first last co wi bs removed) (fun r t' => r = removed ++ removes co p ds F /\
    view t' n ev (unless co p ds None F) (unless co p ds false O) (over p ds co C) R /\ length (tb_open t') = length (tb_open t)) t.
Proof.
  intros V Hwi Hbs Hnd p ds. revert t F O C removed V Hwi. induction bs as [|b bs IH]; intros t F O C removed V Hwi; cbn [Fd.range_bits].
  { wp_step. split_and!; [by destruct co; rewrite app_nil_r|by destruct co|done]. }
  apply Forall_cons in Hbs as [Hb Hbs]. apply NoDup_cons in Hnd as [Hnin Hnd]. specialize (IH Hbs Hnd).
  unfold ds. cbn [fds_in map]. fold (fds_in wi bs). set (d := (wi * WORD_BITS + b)%nat). set (es := fds_in wi bs) in *.
  assert (Hd : d ∉ es).
  { unfold es, fds_in. intros (b' & E & Hin)%list_elem_of_fmap. apply Hnin. unfold d in E. by replace b with b' by lia. }
  assert (Hw : forall t1, length (tb_open t1) = length (tb_open t) -> (word_idx d < length (tb_open t1))%nat).
  { intros t1 E. unfold d. rewrite (proj1 (word_of wi b Hb)). lia. }
  assert (Hend : forall t1 removed1, view t1 n ev (if p d then (if co then F else upd F d None) else F) (if p d then (if co then O else upd O d false) else O)
      (if p d then upd C d co else C) R ->
    length (tb_open t1) = length (tb_open t) -> removed1 = removed ++ (if p d then (if co then [] else option_list (F d)) else []) ->
    wp (Fd.range_bits first last co wi bs removed1) (fun r t' => r = removed ++ removes co p (d :: es) F /\
      view t' n ev (unless co p (d :: es) None F) (unless co p (d :: es) false O) (over p (d :: es) co C) R /\ length (tb_open t') = length (tb_open t)) t1).
  { intros t1 removed1 V1 Hl ->. eapply wp_mono; [apply (IH t1 _ _ _ _ V1); lia|]. intros r t' (-> & V' & Hl'). split_and!; [| |lia].
    - by rewrite removes_cons, app_assoc.
    - eapply view_ext; [exact V'|intros j; apply unless_cons..|intros j; apply over_cons|done]. }
  wp_step. wp_step. rewrite range_test, (reserved_view _ _ _ _ _ _ _ d V). unfold p in Hend at 1 2 3 4.
  destruct (in_range d); cbn [negb andb] in *; [|apply Hend; [done|done|by rewrite app_nil_r]].
  destruct (R d); cbn [negb] in *; [apply Hend; [done|done|by rewrite app_nil_r]|]. destruct co.
  - wp_step. eapply wp_mono; [exact (set_cloexec_word _ _ _ _ _ _ _ d true V (Hw _ eq_refl))|]. intros [] t1 [V1 Hl1].
    apply Hend; [done|done|by rewrite app_nil_r].
  - wp_step. eapply wp_mono; [exact (take_file_view _ _ _ _ _ _ _ d removed V)|]. intros r1 t1 (-> & V1 & Hl1).
    wp_step. eapply wp_mono; [exact (set_open_word _ _ _ _ _ _ _ d false V1 (Hw _ Hl1))|]. intros [] t2 [V2 Hl2].
    wp_step. eapply wp_mono; [apply (set_cloexec_word _ _ _ _ _ _ _ d false V2); apply Hw; lia|]. intros [] t3 [V3 Hl3].
    apply Hend; [done|lia|done].
Qed.

Lemma range_words_view co ws t n ev F O C R removed :
  view t n ev F O C R -> Forall (fun wi => wi < length (tb_open t))%nat ws -> NoDup ws ->
  let p := fun fd => O fd && (in_range fd && negb (R fd)) in
  wp (Fd.range_words first last co ws removed) (fun r t' => r = removed ++ removes co p (words_fds ws) F /\
    view t' n ev (unless co p (words_fds ws) None F) (unless co p (words_fds ws) false O) (over p (words_fds ws) co C) R) t.
Proof.
  revert t F O C removed. induction ws as [|wi ws IH]; intros t F O C removed V Hws Hnd p; cbn [Fd.range_words].
  { wp_step. split; [by destruct co; rewrite app_nil_r|by destruct co]. }
  apply Forall_cons in Hws as [Hwi Hws]. apply NoDup_cons in Hnd as [Hnin Hnd]. pose proof (vw_shape _ _ _ _ _ _ _ V) as Hsh.
  destruct (lookup_lt_is_Some_2 _ _ Hwi) as [w Hw]. pose proof (Forall_lookup_1 _ _ _ _ (sh_open_u64 _ Hsh) Hw) as Huw.
  destruct (set_bits_nodup w Huw) as [Hbn Hbb]. set (q := fun fd => in_range fd && negb (R fd)) in *.
  assert (Hp : forall fd, word_idx fd = wi -> p fd = Z.testbit w (Z.of_nat (fd mod WORD_BITS)) && q fd).
  { intros fd E. unfold p. rewrite <- (vw_open _ _ _ _ _ _ _ V fd). unfold bit_at. by rewrite E, Hw. }
  wp_step. wp_step. wp_step. rewrite Hw. wp_step. wp_step. eapply wp_mono; [exact (range_bits_view co wi (set_bits w) _ _ _ _ _ _ _ removed V Hwi Hbb Hbn)|].
  fold q. intros r1 t1 (-> & V1 & Hl1). eapply wp_mono; [apply (IH _ _ _ _ _ V1); [by rewrite Hl1|done]|]. intros r t' (-> & V').
  set (p1 := fun fd => unless co q (fds_in wi (set_bits w)) false O fd && (in_range fd && negb (R fd))) in *.
  assert (Hr : forall fd, word_idx fd ∈ ws -> p1 fd = p fd).
  { intros fd Hfd. unfold p1, p, unless. destruct co; [done|]. unfold over. rewrite bool_decide_eq_false_2; [done|].
    rewrite elem_fds_in by done. intros [E _]. apply Hnin. by rewrite <- E. }
  clearbody p1 p q. split.
  - rewrite <- app_assoc. f_equal. unfold removes, unless. destruct co; [reflexivity|]. apply (taken_words w wi ws p q p1); assumption.
  - eapply view_ext; [exact V'|intros j..|done].
    + unfold unless. destruct co; [reflexivity|]. apply (over_words _ w wi ws p q p1); assumption.
    + unfold unless. destruct co; [reflexivity|]. apply (over_words _ w wi ws p q p1); assumption.
    + apply (over_words _ w wi ws p q p1); assumption.
Qed.

Definition range_slots (co : bool) (a : Slots) : Slots := fun fd =>
  match a fd with Opened f c => if in_range fd then (if co then Opened f true else Free) else Opened f c | s => s end.

Definition range_files (co : bool) (a : Slots) : list Z := if co then [] else files_where (fun fd _ => in_range fd) a.

Lemma close_range_becomes co t :
  fd_ok t -> 0 <= first ->
  wp (Fd.close_range flush first last co) (fun _ t' => becomes t t' (range_slots co (slot t)) (map Closed (range_files co (slot t)))) t.
Proof.
  intros Ht Hfirst. unfold Fd.close_range. wp_step. wp_step. set (W := length (tb_open t)). set (k := word_idx (index first)).
  wp_step. eapply wp_mono; [apply (range_words_view co (seq k (W - k)) _ _ _ _ _ _ _ [] (view_ok t Ht)); [|apply NoDup_seq]|].
  { apply Forall_forall. intros wi Hwi%elem_of_seq. unfold W in *. lia. }
  set (p := fun fd => bit_at (tb_open t) fd && (in_range fd && negb (bit_at (tb_reserved t) fd))). set (ds := words_fds (seq k (W - k))).
  assert (Hpo : forall fd f, file_at t fd = Some f -> p fd = in_range fd).
  { intros fd f E. unfold p. destruct (fo_bits _ Ht) as [H1 H2]. rewrite H1, E. cbn.
    destruct (bit_at (tb_reserved t) fd) eqn:Er; [destruct (H2 fd Er); congruence|by rewrite andb_true_r]. }
  assert (Hlow : forall fd, (fd < k * WORD_BITS)%nat -> p fd = false).
  { intros fd Hfd. unfold p, in_range. rewrite (proj2 (Z.leb_gt first _)); [by rewrite andb_false_r|].
    pose proof (fd_split (index first)) as Hs. fold k in Hs. unfold index in *. lia. }
  assert (Hin : forall fd, bool_decide (fd ∈ ds) && p fd = p fd).
  { intros fd. destruct (p fd) eqn:Ep; [|apply andb_false_r]. rewrite andb_true_r. unfold ds. apply bool_decide_eq_true_2, elem_words, elem_of_seq.
    assert (~ (word_idx fd < k)%nat) by (rewrite word_idx_lt; intros H; by rewrite Hlow in Ep).
    assert (word_idx fd < W)%nat; [|lia]. destruct (decide (word_idx fd < W)%nat); [done|]. unfold p in Ep. by rewrite bit_at_beyond in Ep by (unfold W in *; lia). }
  assert (Hf : removes co p ds (file_at t) = range_files co (slot t)).
  { unfold removes, range_files. destruct co; [done|]. unfold ds. rewrite words_fds_seq. destruct (decide (k <= W)%nat).
    - apply (taken_files t p (fun fd _ => in_range fd) k (W - k) Ht); [unfold W in *; lia|done|by intros; eapply Hpo].
    - replace (W - k)%nat with 0%nat by lia. change (@nil Z = files_where (fun fd _ => in_range fd) (slot t)).
      rewrite <- (taken_files t p (fun fd _ => in_range fd) W 0 Ht); [done|unfold W; lia| |by intros; eapply Hpo].
      intros fd Hfd. apply Hlow. unfold WORD_BITS in *. lia. }
  intros r t1 (-> & V1). eapply wp_mono; [exact (close_all_view _ _ _ _ _ _ _ _ V1)|]. intros [] t2 V2. cbn [app] in V2. rewrite Hf in V2.
  clearbody ds. eapply becomes_ext; [|eapply view_becomes; [exact V2|]].
  - intros fd. specialize (Hpo fd). pose proof (slot_bits t fd Ht) as Hb. clear V1 V2 Hf. unfold slot_of, range_slots, unless.
    destruct (slot t fd) as [|c|f c]; [destruct Hb as (HF & HO & HR)|destruct Hb as (HF & HO & Hc & HR)..]; rewrite HR; destruct co; unfold over; rewrite Hin.
    + by rewrite HF.
    + rewrite HF. by destruct (p fd).
    + rewrite HF, Hc. unfold p. by rewrite HR, !andb_false_r.
    + assert (Hp : p fd = false) by (unfold p; by rewrite HR, !andb_false_r). by rewrite Hp, HF, Hc.
    + rewrite HF, (Hpo f HF), Hc. by destruct (in_range fd).
    + rewrite (Hpo f HF), Hc, HF. by destruct (in_range fd).
  - destruct (fo_bits _ Ht) as [H1 H2]. unfold unless. destruct co; [done|]. constructor; intros fd; unfold over; rewrite ?Hin.
    + destruct (p fd) eqn:Ep; [|apply H1]. unfold p in Ep. by destruct (bit_at (tb_reserved t) fd); [rewrite !andb_false_r in Ep|].
    + intros Hr. assert (Hp : p fd = false) by (unfold p; by rewrite Hr, !andb_false_r). rewrite Hp. auto.
Qed.

End sweeps.
