(* ===== verification/FdTableFork.v ===== *)
(** * Descriptor tables: copies and counts

    The tables [fork] makes, and the queries over a whole table. *)

From stdpp Require Import list.
From S2P Require Import Prelude Words Result FdTable FdTableSpec FdTableInv FdTableRefine FdTableBulk.

(** ** The words in use *)

Lemma sane_words_spec open n :
  (sane_words_from open n <= n)%nat /\ forall wi, (sane_words_from open n <= wi < n)%nat -> default 0 (open !! wi) = 0.
Proof.
  induction n as [|n [IH1 IH2]]; cbn; [split; [done|lia]|]. destruct (default 0 (open !! n) =? 0) eqn:E; cbn; to_prop.
  - split; [lia|]. intros wi Hwi. destruct (decide (wi = n)) as [->|]; [done|apply IH2; lia].
  - split; [lia|]. lia.
Qed.

Section copy.
Context (t : Tab) (Ht : fd_ok t).

Definition kept_words : nat := sane_fdtable_words (tb_open t).

Lemma kept_le : (kept_words <= length (tb_open t))%nat.
Proof. apply sane_words_spec. Qed.

Lemma open_kept fd : bit_at (tb_open t) fd = true -> (fd < kept_words * WORD_BITS)%nat.
Proof.
  intros H. apply word_idx_lt. destruct (decide (word_idx fd < kept_words)%nat); [done|]. unfold bit_at in H.
  destruct (decide (word_idx fd < length (tb_open t))%nat).
  - rewrite (proj2 (sane_words_spec (tb_open t) (length (tb_open t)))), Z.bits_0 in H; [done|]. split; [|done]. unfold kept_words in *. unfold sane_fdtable_words in *. lia.
  - rewrite lookup_ge_None_2 in H by lia. by rewrite Z.bits_0 in H.
Qed.

(** The reserved bits leave the copy. *)
Definition clear_words (l : list Z) : list Z := zip_with (fun w r => Z.land w (not64 r)) (take kept_words l) (take kept_words (tb_reserved t)).

Lemma clear_length l : length l = length (tb_open t) -> length (clear_words l) = kept_words.
Proof.
  intros Hl. unfold clear_words. rewrite length_zip_with, !length_take, (sh_reserved _ (fo_shape _ Ht)), Hl. pose proof kept_le. lia.
Qed.

Lemma clear_u64 l : Forall u64 l -> Forall u64 (clear_words l).
Proof.
  intros Hu. apply Forall_lookup. intros i x Hx. apply lookup_zip_with_Some in Hx as (w & r & -> & Hw & _). apply u64_land.
  apply lookup_take_Some in Hw as [Hw _]. exact (Forall_lookup_1 _ _ _ _ Hu Hw).
Qed.

Lemma clear_bit l fd :
  Forall u64 l -> length l = length (tb_open t) ->
  bit_at (clear_words l) fd = bool_decide (fd < kept_words * WORD_BITS)%nat && (bit_at l fd && negb (bit_at (tb_reserved t) fd)).
Proof.
  intros Hu Hl. unfold bit_at, clear_words. destruct (decide (word_idx fd < kept_words)%nat) as [Hlt|Hge].
  - rewrite bool_decide_eq_true_2 by (by apply word_idx_lt). pose proof kept_le. pose proof (sh_reserved _ (fo_shape _ Ht)).
    destruct (lookup_lt_is_Some_2 l (word_idx fd)) as [w Hw]; [lia|]. destruct (lookup_lt_is_Some_2 (tb_reserved t) (word_idx fd)) as [r Hr]; [lia|].
    rewrite lookup_zip_with, !lookup_take_lt, Hw, Hr by done. cbn [mbind option_bind default id andb]. apply land_not64. exact (Forall_lookup_1 _ _ _ _ Hu Hw).
  - rewrite bool_decide_eq_false_2 by (rewrite <- word_idx_lt; done). rewrite lookup_zip_with, !lookup_take_ge by lia. apply Z.bits_0.
Qed.

(** A copy before its files are in place. *)
Definition empty_copy (ev : list Event) (files : list (option Z)) : Tab :=
  {| tb_files := files; tb_open := clear_words (tb_open t); tb_cloexec := clear_words (tb_cloexec t);
     tb_reserved := replicate kept_words 0; tb_events := ev |}.

Definition copy_open : nat -> bool := fun fd => bit_at (tb_open t) fd && negb (bit_at (tb_reserved t) fd).
Definition copy_cloexec : nat -> bool := fun fd =>
  bool_decide (fd < kept_words * WORD_BITS)%nat && (bit_at (tb_cloexec t) fd && negb (bit_at (tb_reserved t) fd)).

Lemma copy_view ev files :
  (length files <= kept_words * WORD_BITS)%nat ->
  view (empty_copy ev files) (length files) ev (fun fd => default None (files !! fd)) copy_open copy_cloexec (fun _ => false).
Proof.
  intros Hf. pose proof kept_le as Hk. pose proof (sh_max _ (fo_shape _ Ht)) as Hmax. destruct (fo_shape _ Ht) as [S1 S2 S3 S4 S5 S6 S7].
  constructor; [constructor|..]; cbn [empty_copy tb_files tb_open tb_cloexec tb_reserved tb_events]; rewrite ?clear_length by done; try done.
  - apply length_replicate.
  - by apply clear_u64.
  - by apply clear_u64.
  - by apply Forall_replicate.
  - unfold WORD_BITS in *. lia.
  - intros fd. rewrite clear_bit by done. unfold copy_open. destruct (bit_at (tb_open t) fd) eqn:E; [|by rewrite andb_false_r].
    by rewrite bool_decide_eq_true_2 by by apply open_kept.
  - intros fd. by rewrite clear_bit.
  - intros fd. unfold bit_at. destruct (replicate kept_words 0 !! word_idx fd) as [x|] eqn:E; [apply lookup_replicate in E as [-> _]|]; apply Z.bits_0.
Qed.

(** What a copy keeps of a slot. *)
Definition child_slots (a : Slots) : Slots := fun fd => match a fd with Reserved _ => Free | s => s end.

Lemma file_kept fd : (kept_words * WORD_BITS <= fd)%nat -> file_at t fd = None.
Proof.
  intros Hfd. destruct (file_at t fd) eqn:E; [|done]. pose proof (cs_open _ _ _ _ (fo_bits _ Ht) fd) as Ho. rewrite E in Ho.
  apply open_kept in Ho. lia.
Qed.

Lemma child_slot fd : slot_of (file_at t) copy_cloexec (fun _ => false) fd = child_slots (slot t) fd.
Proof.
  unfold slot_of, child_slots. pose proof (slot_bits t fd Ht) as Hb. destruct (slot t fd) as [|c|f c].
  - by destruct Hb as (-> & _).
  - by destruct Hb as (-> & _).
  - destruct Hb as (HF & HO & Hc & HR). unfold copy_cloexec. rewrite HF, Hc, HR, bool_decide_eq_true_2 by by apply open_kept. by rewrite andb_true_r.
Qed.

Lemma child_consistent n : consistent n (file_at t) copy_open (fun _ => false).
Proof.
  destruct (fo_bits _ Ht) as [H1 H2]. constructor; [|done]. intros fd. unfold copy_open. rewrite H1. specialize (H2 fd).
  destruct (bit_at (tb_reserved t) fd); [destruct (H2 eq_refl) as [-> _]; done|]. by rewrite !orb_false_r, andb_true_r.
Qed.

(** ** The copy [fork] makes *)

Lemma kept_files fd :
  default None (resize (kept_words * WORD_BITS) None (take (kept_words * WORD_BITS) (tb_files t)) !! fd) = file_at t fd.
Proof.
  unfold resize. rewrite (take_ge (take _ _)) by (rewrite length_take; lia). unfold file_at.
  destruct (decide (fd < length (take (kept_words * WORD_BITS) (tb_files t)))%nat) as [Hlt|Hge].
  - rewrite lookup_app_l by done. rewrite length_take in Hlt. by rewrite lookup_take_lt by lia.
  - rewrite lookup_app_r by lia. assert (Hn : default None (tb_files t !! fd) = None).
    { rewrite length_take in Hge. destruct (decide (kept_words * WORD_BITS <= fd)%nat); [by apply file_kept|]. by rewrite lookup_ge_None_2 by lia. }
    rewrite Hn. destruct (replicate _ _ !! _) as [x|] eqn:E; [|done]. by apply lookup_replicate in E as [-> _].
Qed.

Lemma fork_clone_ok : fd_ok (Fd.fork_clone t) /\ forall fd, slot (Fd.fork_clone t) fd = child_slots (slot t) fd.
Proof.
  set (files := resize (kept_words * WORD_BITS) None (take (kept_words * WORD_BITS) (tb_files t))).
  assert (Hlen : length files = (kept_words * WORD_BITS)%nat) by (apply length_resize; rewrite length_take; lia).
  pose proof (copy_view (map Cloned (Fd.present (take (kept_words * WORD_BITS) (tb_files t)))) files ltac:(lia)) as V.
  change (empty_copy _ files) with (Fd.fork_clone t) in V.
  eapply view_ext in V; [|intros j; apply kept_files|done|done|done].
  destruct (view_becomes new_table _ _ _ _ _ _ _ V (child_consistent _)) as (H1 & H2 & _). split; [done|]. intros fd. rewrite H2. apply child_slot.
Qed.

Lemma present_files l : Fd.present l = omap (fun fd => default None (l !! fd)) (seq 0 (length l)).
Proof.
  unfold Fd.present. induction l as [|x l IH] using rev_ind; [done|]. rewrite omap_app_list, length_app, seq_app, omap_app_list, IH. f_equal.
  - apply omap_ext_in. intros fd Hfd%elem_of_seq. by rewrite lookup_app_l by lia.
  - cbn. rewrite lookup_app_r, Nat.sub_diag by lia. by destruct x.
Qed.

(** The copy takes a reference on every open file. *)
Lemma fork_clone_events : tb_events (Fd.fork_clone t) = map Cloned (files_where (fun _ _ => true) (slot t)).
Proof.
  cbn [Fd.fork_clone tb_events]. f_equal. fold kept_words. rewrite present_files.
  rewrite <- (taken_files t (fun _ => true) (fun _ _ => true) 0 (length (tb_open t)) Ht) by (done || lia). unfold taken. cbn [Nat.mul].
  set (m := length (take (kept_words * WORD_BITS) (tb_files t))). pose proof kept_le. pose proof (sh_files _ (fo_shape _ Ht)).
  assert (Hm : (m <= length (tb_open t) * WORD_BITS)%nat) by (unfold m; rewrite length_take; lia).
  replace (length (tb_open t) * WORD_BITS)%nat with (m + (length (tb_open t) * WORD_BITS - m))%nat by lia.
  rewrite seq_app, omap_app_list, (omap_none _ (seq (0 + m) _)), app_nil_r.
  - apply omap_ext_in. intros fd Hfd%elem_of_seq. unfold m in Hfd. rewrite length_take in Hfd. unfold file_at. by rewrite lookup_take_lt by lia.
  - intros fd Hfd%elem_of_seq. unfold m in Hfd. rewrite length_take in Hfd. destruct (decide (kept_words * WORD_BITS <= fd)%nat); [by apply file_kept|].
    unfold file_at. by rewrite lookup_ge_None_2 by lia.
Qed.

(** ** The copy that closes a range *)

Section range.
Context (first last : Z) (co : bool).

Let hit (fd : nat) : bool := negb (bit_at (tb_reserved t) fd) && in_range first last fd.

(** The file the copy keeps. *)
Definition kept_file (fd : nat) : option Z := if hit fd && negb co then None else file_at t fd.

(** The copy after the descriptors below [m]. *)
Definition part_files (m fd : nat) : option Z := if bool_decide (fd < m)%nat then kept_file fd else None.
Definition part_open (m fd : nat) : bool := if bool_decide (fd < m)%nat && (hit fd && negb co) then false else copy_open fd.
Definition part_cloexec (m fd : nat) : bool := if bool_decide (fd < m)%nat && hit fd then co else copy_cloexec fd.

Lemma push_view c n ev F O C R x :
  view c n ev F O C R -> (n < length (tb_open c) * WORD_BITS)%nat -> view (put_files (tb_files c ++ [x]) c) (S n) ev (upd F n x) O C R.
Proof.
  intros [[S1 S2 S3 S4 S5 S6 S7] VL VE VF VO VC VR] Hn. constructor; [constructor|..]; cbn_tab; rewrite ?length_app; cbn [length]; try done; try lia.
  intros fd. rewrite <- VL. unfold upd, file_at. cbn_tab. destruct (decide (fd = length (tb_files c))) as [->|Hne].
  - by rewrite lookup_app_r, Nat.sub_diag by lia.
  - rewrite <- VF. unfold file_at. destruct (decide (fd < length (tb_files c))%nat); [by rewrite lookup_app_l|].
    rewrite !lookup_ge_None_2; [done|lia|rewrite length_app; cbn; lia].
Qed.

(** Setting one bit, as the copy does it. *)
Lemma off_view c n ev F O C R fd :
  view c n ev F O C R -> (word_idx fd < length (tb_open c))%nat ->
  view (put_cloexec (<[word_idx fd := Z.land (default 0 (tb_cloexec c !! word_idx fd)) (not64 (bit_mask fd))]> (tb_cloexec c))
    (put_open (<[word_idx fd := Z.land (default 0 (tb_open c !! word_idx fd)) (not64 (bit_mask fd))]> (tb_open c)) c)) n ev F (upd O fd false) (upd C fd false) R.
Proof.
  intros V Hw. destruct (lookup_lt_is_Some_2 _ _ Hw) as [w Hl]. rewrite Hl. pose proof (put_open_view _ _ _ _ _ _ _ V fd false w Hl) as V1.
  pose proof (sh_cloexec _ (vw_shape _ _ _ _ _ _ _ V)) as Hc. destruct (lookup_lt_is_Some_2 (tb_cloexec c) (word_idx fd)) as [w' Hl']; [lia|]. rewrite Hl'.
  exact (put_cloexec_view _ _ _ _ _ _ _ V1 fd false w' Hl').
Qed.

Lemma on_view c n ev F O C R fd :
  view c n ev F O C R -> (word_idx fd < length (tb_open c))%nat ->
  view (put_cloexec (<[word_idx fd := Z.lor (default 0 (tb_cloexec c !! word_idx fd)) (bit_mask fd)]> (tb_cloexec c)) c) n ev F O (upd C fd true) R.
Proof.
  intros V Hw. pose proof (sh_cloexec _ (vw_shape _ _ _ _ _ _ _ V)) as Hc.
  destruct (lookup_lt_is_Some_2 (tb_cloexec c) (word_idx fd)) as [w' Hl']; [lia|]. rewrite Hl'. exact (put_cloexec_view _ _ _ _ _ _ _ V fd true w' Hl').
Qed.

Lemma below_S m j : bool_decide (j < S m)%nat = bool_decide (j < m)%nat || bool_decide (j = m).
Proof. rewrite <- bool_decide_or. apply bool_decide_ext. lia. Qed.

Lemma part_files_S m j : upd (part_files m) m (kept_file m) j = part_files (S m) j.
Proof.
  unfold upd, part_files. rewrite below_S. destruct (decide (j = m)) as [->|Hne].
  - by rewrite (bool_decide_eq_true_2 (m = m)), orb_true_r.
  - by rewrite (bool_decide_eq_false_2 (j = m)), orb_false_r.
Qed.

Lemma part_open_S m j : (if hit m && negb co then upd (part_open m) m false else part_open m) j = part_open (S m) j.
Proof.
  unfold part_open at 3. rewrite below_S. destruct (decide (j = m)) as [->|Hne].
  - rewrite (bool_decide_eq_true_2 (m = m)), orb_true_r by done. destruct (hit m && negb co) eqn:E; [by rewrite slot_upd_eq|].
    unfold part_open. by rewrite E, andb_false_r.
  - rewrite (bool_decide_eq_false_2 (j = m)), orb_false_r by done. destruct (hit m && negb co); [by rewrite slot_upd_ne|done].
Qed.

Lemma part_cloexec_S m j : (if hit m then upd (part_cloexec m) m co else part_cloexec m) j = part_cloexec (S m) j.
Proof.
  unfold part_cloexec at 3. rewrite below_S. destruct (decide (j = m)) as [->|Hne].
  - rewrite (bool_decide_eq_true_2 (m = m)), orb_true_r by done. destruct (hit m) eqn:E; [by rewrite slot_upd_eq|].
    unfold part_cloexec. by rewrite E, andb_false_r.
  - rewrite (bool_decide_eq_false_2 (j = m)), orb_false_r by done. destruct (hit m); [by rewrite slot_upd_ne|done].
Qed.

Definition copied (fd : nat) : list Event := match kept_file fd with Some f => [Cloned f] | None => [] end.

Definition part_view (m : nat) (c : Tab) (ev : list Event) : Prop :=
  length (tb_open c) = kept_words /\ view c m ev (part_files m) (part_open m) (part_cloexec m) (fun _ => false).

Lemma view_part m c ev F O C :
  length (tb_open c) = kept_words -> view c (S m) ev F O C (fun _ => false) -> (forall j, F j = upd (part_files m) m (kept_file m) j) ->
  (forall j, O j = (if hit m && negb co then upd (part_open m) m false else part_open m) j) ->
  (forall j, C j = (if hit m then upd (part_cloexec m) m co else part_cloexec m) j) -> part_view (S m) c ev.
Proof.
  intros Hl V HF HO HC. split; [done|]. eapply view_ext; [exact V|intros j..|done]; rewrite ?HF, ?HO, ?HC;
    [apply part_files_S|apply part_open_S|apply part_cloexec_S].
Qed.

Lemma clone_step m c ev :
  part_view m c ev -> (m < kept_words * WORD_BITS)%nat -> part_view (S m) (Fd.clone_slot t first last co m c) (ev ++ copied m).
Proof.
  intros [Hl V] Hm. assert (Hw : (word_idx m < length (tb_open c))%nat) by (rewrite Hl; by apply word_idx_lt).
  assert (Hn : (m < length (tb_open c) * WORD_BITS)%nat) by (by rewrite Hl).
  unfold Fd.clone_slot, copied. rewrite (reserved_view _ _ _ _ _ _ _ m (view_ok t Ht)).
  assert (Hkr : bit_at (tb_reserved t) m = true -> kept_file m = None).
  { intros Hr. unfold kept_file. destruct (cs_reserved _ _ _ _ (fo_bits _ Ht) m Hr) as [-> _]. by destruct (hit m && negb co). }
  destruct (bit_at (tb_reserved t) m) eqn:Er.
  { rewrite Hkr, app_nil_r by done. eapply view_part; [exact Hl|exact (push_view _ _ _ _ _ _ _ None V Hn)|..]; intros j;
      [by rewrite Hkr|unfold hit; by rewrite Er|unfold hit; by rewrite Er]. }
  fold (in_range first last m). destruct (in_range first last m) eqn:Ei; cbn [andb]; [destruct co eqn:Eco; cbn [negb]|].
  2:{ assert (Hk : kept_file m = None) by (unfold kept_file, hit; by rewrite Er, Ei, Eco). rewrite Hk, app_nil_r.
      eapply view_part; [|exact (off_view _ _ _ _ _ _ _ m (push_view _ _ _ _ _ _ _ None V Hn) Hw)|..];
        [cbn_tab; by rewrite length_insert|intros j; by rewrite Hk|intros j; unfold hit; by rewrite Er, Ei, Eco|intros j; unfold hit; by rewrite Er, Ei, Eco]. }
  all: assert (Hk : kept_file m = file_at t m) by (unfold kept_file, hit; rewrite Er, Ei, ?Eco; done); rewrite Hk; fold (file_at t m);
    assert (Vc : view (match file_at t m with Some f => put_event (Cloned f) c | None => c end) m
      (ev ++ match file_at t m with Some f => [Cloned f] | None => [] end) (part_files m) (part_open m) (part_cloexec m) (fun _ => false))
      by (destruct (file_at t m); [by apply put_event_view|by rewrite app_nil_r]);
    set (c1 := match file_at t m with Some f => put_event (Cloned f) c | None => c end) in *;
    assert (Hl1 : length (tb_open c1) = length (tb_open c)) by (unfold c1; by destruct (file_at t m)).
  - eapply view_part; [|exact (on_view _ _ _ _ _ _ _ m (push_view _ _ _ _ _ _ _ (file_at t m) Vc ltac:(lia)) ltac:(cbn_tab; lia))|..];
      [cbn_tab; lia|intros j; by rewrite Hk|intros j; unfold hit; by rewrite Er, Ei, Eco|intros j; unfold hit; by rewrite Er, Ei, Eco].
  - eapply view_part; [|exact (push_view _ _ _ _ _ _ _ (file_at t m) Vc ltac:(lia))|..];
      [cbn_tab; lia|intros j; by rewrite Hk|intros j; unfold hit; by rewrite Er, Ei|intros j; unfold hit; by rewrite Er, Ei].
Qed.

Lemma clone_fold m :
  (m <= kept_words * WORD_BITS)%nat ->
  part_view m (foldl (fun c fd => Fd.clone_slot t first last co fd c) (empty_copy [] []) (seq 0 m)) (concat (map copied (seq 0 m))).
Proof.
  induction m as [|m IH]; intros Hm.
  - split; [apply clear_length; done|]. cbn [seq foldl map concat]. exact (copy_view [] [] ltac:(cbn; lia)).
  - rewrite seq_S, foldl_app, map_app, concat_app. cbn [foldl map concat]. rewrite app_nil_r. apply clone_step; [apply IH; lia|cbn; lia].
Qed.

Definition close_child_slots (a : Slots) : Slots := range_slots first last co (child_slots a).

Lemma fork_close_range_ok :
  let c := Fd.fork_clone_close_range t first last co in
  fd_ok c /\ (forall fd, slot c fd = close_child_slots (slot t) fd) /\ tb_events c = concat (map copied (seq 0 (kept_words * WORD_BITS))).
Proof.
  intros c. destruct (clone_fold (kept_words * WORD_BITS) ltac:(lia)) as [_ V].
  change (foldl _ (empty_copy [] []) _) with c in V.
  assert (Hf : forall fd, part_files (kept_words * WORD_BITS) fd = kept_file fd).
  { intros fd. unfold part_files. destruct (decide (fd < kept_words * WORD_BITS)%nat); [by rewrite bool_decide_eq_true_2|].
    rewrite bool_decide_eq_false_2 by done. unfold kept_file. rewrite file_kept by lia. by destruct (_ && _). }
  assert (Hlow : forall fd f, file_at t fd = Some f -> bool_decide (fd < kept_words * WORD_BITS)%nat = true).
  { intros fd f E. apply bool_decide_eq_true_2. destruct (decide (fd < kept_words * WORD_BITS)%nat); [done|]. rewrite file_kept in E by lia. done. }
  assert (Hb : becomes new_table c (close_child_slots (slot t)) (concat (map copied (seq 0 (kept_words * WORD_BITS))))).
  { eapply becomes_ext; [|apply (view_becomes new_table _ _ _ _ _ _ _ V)].
    - intros fd. unfold close_child_slots, range_slots. rewrite <- child_slot. unfold slot_of. rewrite Hf. unfold kept_file, part_cloexec, hit.
      destruct (file_at t fd) as [f|] eqn:E; [|by destruct (_ && negb co)]. rewrite (Hlow fd f E). pose proof (slot_bits t fd Ht) as Hs.
      assert (Hr : bit_at (tb_reserved t) fd = false).
      { destruct (bit_at (tb_reserved t) fd) eqn:Er; [|done]. destruct (cs_reserved _ _ _ _ (fo_bits _ Ht) fd Er). congruence. }
      rewrite Hr. cbn. by destruct (in_range first last fd), co.
    - pose proof (child_consistent 0) as [H1 _]. constructor; [|done]. intros fd. rewrite Hf. unfold part_open, kept_file. rewrite orb_false_r.
      specialize (H1 fd). rewrite orb_false_r in H1. destruct (hit fd && negb co); [|by rewrite andb_false_r].
      destruct (file_at t fd) as [f|] eqn:E; [by rewrite (Hlow fd f E)|]. rewrite andb_true_r. destruct (bool_decide _); [done|]. by rewrite H1. }
  destruct Hb as (H1 & H2 & H3). done.
Qed.

End range.

End copy.

(** ** Queries *)

Section queries.
Context (t : Tab) (Ht : fd_ok t).

Definition opened (s : Slot) : bool := match s with Opened _ _ => true | _ => false end.

(** The open descriptors, in order. *)
Definition opened_fds (a : Slots) : list nat := filter (fun fd => opened (a fd) = true) (seq 0 FD_TABLE_MAX).

Lemma holds_slot fd : Fd.holds t fd = opened (slot t fd).
Proof.
  unfold Fd.holds. pose proof (lookup_slot t fd) as H. destruct (tb_files t !! fd) as [[f|]|], (slot t fd); try done.
Qed.

Lemma filter_map_in {A} (P : nat -> Prop) (Q : A -> Prop) `{!forall i, Decision (P i)} `{!forall a, Decision (Q a)} (f : A -> nat) l :
  (forall a, a ∈ l -> Q a <-> P (f a)) -> filter P (map f l) = map f (filter Q l).
Proof.
  intros HQ. induction l as [|a l IH]; [done|]. cbn [map]. rewrite !filter_cons, IH by (intros b Hb; apply HQ; by apply list_elem_of_further).
  pose proof (HQ a (list_elem_of_here _ _)). destruct (decide (P (f a))), (decide (Q a)); tauto || done.
Qed.

Lemma fds_of_words ws k :
  Forall u64 ws ->
  concat (imap (fun wi w => map (fun b => (k + wi) * WORD_BITS + b)%nat (set_bits w)) ws) =
  filter (fun fd => bit_at ws (fd - k * WORD_BITS) = true) (seq (k * WORD_BITS) (length ws * WORD_BITS)).
Proof.
  revert k. induction ws as [|w ws IH]; intros k Hu; [done|]. apply Forall_cons in Hu as [Hw Hu]. rewrite imap_cons. cbn [concat length].
  rewrite Nat.add_0_r. replace (S (length ws) * WORD_BITS)%nat with (64 + length ws * WORD_BITS)%nat by (unfold WORD_BITS; lia).
  rewrite seq_app, filter_app. f_equal.
  - rewrite set_bits_spec by done. rewrite <- (Nat.add_0_r (k * WORD_BITS)), <- fmap_add_seq, Nat.add_0_r. symmetry. apply filter_map_in.
    intros b Hb%elem_of_seq. unfold has_bit, bit_at. replace (k * WORD_BITS + b - k * WORD_BITS)%nat with b by lia.
    pose proof (word_of 0 b ltac:(lia)) as [E1 E2]. cbn [Nat.mul Nat.add] in E1, E2. by rewrite E1, E2.
  - rewrite (imap_ext _ (fun wi w => map (fun b => (S k + wi) * WORD_BITS + b)%nat (set_bits w))) by (intros; apply map_ext; intros; unfold WORD_BITS; lia).
    rewrite (IH (S k) Hu). replace (k * WORD_BITS + 64)%nat with (S k * WORD_BITS)%nat by (unfold WORD_BITS; lia). apply filter_ext_in.
    intros fd Hfd%elem_of_seq. unfold bit_at. assert (E : (fd - k * WORD_BITS = 64 + (fd - S k * WORD_BITS))%nat) by (unfold WORD_BITS in *; lia).
    rewrite E. set (x := (fd - S k * WORD_BITS)%nat). assert (Hwx : word_idx (64 + x) = S (word_idx x) /\ ((64 + x) mod WORD_BITS = x mod WORD_BITS)%nat).
    { unfold word_idx, WORD_BITS. split; [replace (64 + x)%nat with (x + 1 * 64)%nat by lia; rewrite Nat.div_add by done; lia|].
      replace (64 + x)%nat with (x + 1 * 64)%nat by lia. by rewrite Nat.Div0.mod_add. }
    by destruct Hwx as [-> ->].
Qed.

Lemma fds_of_spec ws : Forall u64 ws -> Fd.fds_of ws = filter (fun fd => bit_at ws fd = true) (seq 0 (length ws * WORD_BITS)).
Proof.
  intros Hu. pose proof (fds_of_words ws 0 Hu) as H. cbn [Nat.mul] in H. etransitivity; [exact H|]. apply filter_ext_in. intros fd _. by rewrite Nat.sub_0_r.
Qed.

(** A filter over the words is a filter over the whole range. *)
Lemma filter_range (P : nat -> Prop) `{!forall i, Decision (P i)} :
  (forall fd, P fd -> busy (slot t fd) = true) -> filter P (seq 0 (length (tb_open t) * WORD_BITS)) = filter P (seq 0 FD_TABLE_MAX).
Proof.
  intros HP. pose proof (sh_max _ (fo_shape _ Ht)) as Hmax. pose proof (sh_files _ (fo_shape _ Ht)).
  replace FD_TABLE_MAX with (length (tb_open t) * WORD_BITS + (FD_TABLE_MAX - length (tb_open t) * WORD_BITS))%nat by lia.
  rewrite seq_app, filter_app, (filter_seq_none _ (0 + _)); [by rewrite app_nil_r|]. intros j Hj Hp. apply HP, busy_below in Hp; [lia|done].
Qed.

Lemma live_fds_spec : Fd.live_fds t = map Z.of_nat (opened_fds (slot t)).
Proof.
  unfold Fd.live_fds, opened_fds. f_equal. rewrite fds_of_spec by apply Ht. rewrite list_filter_filter.
  rewrite <- (filter_range (fun fd => opened (slot t fd) = true)) by (intros fd; by destruct (slot t fd)). apply filter_ext_in. intros fd _.
  rewrite holds_slot. pose proof (slot_bits t fd Ht) as Hb. destruct (slot t fd); cbn; [naive_solver..|]. destruct Hb as (_ & -> & _). naive_solver.
Qed.

Lemma count_ones_length ws k :
  Forall u64 ws -> list_sum (map count_ones ws) = length (concat (imap (fun wi w => map (fun b => (k + wi) * WORD_BITS + b)%nat (set_bits w)) ws)).
Proof.
  revert k. induction ws as [|w ws IH]; intros k Hu; [done|]. apply Forall_cons in Hu as [Hw Hu]. rewrite imap_cons. cbn [map concat]. rewrite length_app, length_map.
  change (list_sum (count_ones w :: map count_ones ws)) with (count_ones w + list_sum (map count_ones ws))%nat. f_equal.
  - by rewrite set_bits_spec.
  - rewrite (IH (S k) Hu). do 2 f_equal. apply imap_ext. intros; apply map_ext; intros; unfold WORD_BITS; cbn; lia.
Qed.

Lemma map_zip {A B C D} (f : C -> D) (g : A -> B -> C) l k : map f (zip_with g l k) = zip_with (fun a b => f (g a b)) l k.
Proof. revert k. induction l as [|a l IH]; intros [|b k]; cbn; f_equal; auto. Qed.

Lemma count_spec : Fd.count t = length (opened_fds (slot t)).
Proof.
  set (ws := zip_with (fun w r => Z.land w (not64 r)) (tb_open t) (tb_reserved t)). pose proof (fo_shape _ Ht) as [S1 S2 S3 S4 S5 S6 S7].
  assert (Hu : Forall u64 ws).
  { apply Forall_lookup. intros i x Hx. apply lookup_zip_with_Some in Hx as (w & r & -> & Hw & _). apply u64_land. exact (Forall_lookup_1 _ _ _ _ S3 Hw). }
  assert (Hl : length ws = length (tb_open t)) by (unfold ws; rewrite length_zip_with; lia).
  assert (Hb : forall fd, bit_at ws fd = opened (slot t fd)).
  { intros fd. pose proof (slot_bits t fd Ht) as Hs. assert (E : bit_at ws fd = bit_at (tb_open t) fd && negb (bit_at (tb_reserved t) fd)).
    { unfold bit_at, ws. rewrite lookup_zip_with. destruct (decide (word_idx fd < length (tb_open t))%nat).
      - destruct (lookup_lt_is_Some_2 (tb_open t) (word_idx fd)) as [w Hw]; [lia|]. destruct (lookup_lt_is_Some_2 (tb_reserved t) (word_idx fd)) as [r Hr]; [lia|].
        rewrite Hw, Hr. apply land_not64. exact (Forall_lookup_1 _ _ _ _ S3 Hw).
      - rewrite !lookup_ge_None_2 by lia. cbn. by rewrite Z.bits_0. }
    rewrite E. destruct (slot t fd); [destruct Hs as (_ & -> & ->)|destruct Hs as (_ & -> & _ & ->)..]; done. }
  unfold Fd.count. transitivity (list_sum (map count_ones ws)); [unfold ws; f_equal; symmetry; apply map_zip|].
  rewrite (count_ones_length ws 0 Hu). pose proof (fds_of_spec ws Hu) as Hf. unfold Fd.fds_of in Hf. cbn [Nat.add]. rewrite Hf, Hl. unfold opened_fds.
  rewrite <- (filter_range (fun fd => opened (slot t fd) = true)) by (intros fd; by destruct (slot t fd)). f_equal. apply filter_ext_in. intros fd _. by rewrite Hb.
Qed.

End queries.
