(* ===== verification/FdTableTheorems.v ===== *)
(** * Descriptor tables: every operation against its specification *)

From stdpp Require Import list.
From S2P Require Import Prelude Words Result FdTable FdTableSpec FdTableInv FdTableRefine FdTableBulk FdTableFork.

(** The calls of a process on its table. *)
Inductive Call :=
| CAlloc (f : Z) (limit : nat)
| CInstall (f flags : Z) (limit : nat)
| CReserve (flags : Z) (limit : nat)
| CPublish (fd f : Z)
| CCancel (fd : Z)
| CScm (f flags : Z) (limit : nat)
| CGet (fd : Z)
| CClose (fd : Z)
| CDup (fd : Z) (limit : nat)
| CDupMin (fd min : Z) (limit : nat)
| CDupFile (f min : Z) (c : bool) (limit : nat)
| CDup2 (old_fd new_fd : Z) (limit : nat)
| CDup3 (old_fd new_fd flags : Z) (limit : nat)
| CReplace (new_fd f flags : Z) (limit : nat)
| CSetCloexec (fd : Z) (on : bool)
| CCloexec (fd : Z)
| CCloseOnExec
| CCloseRange (first last : Z) (cloexec_only : bool).

(** [u32] bounds of a range start at zero. *)
Definition call_ok (c : Call) : Prop := match c with CCloseRange first _ _ => 0 <= first | _ => True end.

Section calls.
(** Flushing a file, and copying a descriptor number to the receiver of a
    message, happen outside the table. *)
Context (flush : Z -> result unit) (copyout : Z -> result unit).

Definition code (r : result unit) : result Z := rbind r (fun _ => Ok 0).

Definition exec (c : Call) : M Tab (result Z) :=
  match c with
  | CAlloc f limit => Fd.alloc_limit f limit
  | CInstall f flags limit => Fd.install_limit f flags limit
  | CReserve flags limit => Fd.get_unused_fd_flags flags limit
  | CPublish fd f => r ← Fd.try_fd_install fd f; ret (code r)
  | CCancel fd => Fd.put_unused_fd fd ;; ret (Ok 0)
  | CScm f flags limit => Fd.scm_install_fd f flags limit copyout
  | CGet fd => t ← get; ret (Fd.fget t fd)
  | CClose fd => r ← Fd.close flush fd; ret (code r)
  | CDup fd limit => Fd.dup_limit fd limit
  | CDupMin fd min limit => Fd.dup_min_limit fd min limit
  | CDupFile f min c limit => Fd.dup_file_min_limit f min c limit
  | CDup2 old_fd new_fd limit => Fd.dup2_limit flush old_fd new_fd limit
  | CDup3 old_fd new_fd flags limit => Fd.dup3_limit flush old_fd new_fd flags limit
  | CReplace new_fd f flags limit => Fd.replace_fd flush new_fd f flags limit
  | CSetCloexec fd on => r ← Fd.set_cloexec fd on; ret (code r)
  | CCloexec fd => t ← get; ret (rbind (Fd.cloexec t fd) (fun b => Ok (Z.b2z b)))
  | CCloseOnExec => Fd.close_on_exec flush ;; ret (Ok 0)
  | CCloseRange first last co => Fd.close_range flush first last co ;; ret (Ok 0)
  end.

Definition coded (o : Outcome unit) : Outcome Z := let '(r, a, ev) := o in (code r, a, ev).

Definition dup_spec (f min : Z) (c : bool) (limit : nat) (a : Slots) : Outcome Z :=
  if (min <? 0) || (limit_max limit <=? index min)%nat then keep (Err Einval) a
  else Spec.copy f (Spec.alloc f (index min) (limit_max limit) c a).

Definition spec (c : Call) (a : Slots) : Outcome Z :=
  match c with
  | CAlloc f limit => Spec.alloc f 0 (limit_max limit) false a
  | CInstall f flags limit => Spec.alloc f 0 (limit_max limit) (wants_cloexec flags) a
  | CReserve flags limit => Spec.reserve 0 (limit_max limit) (wants_cloexec flags) a
  | CPublish fd f => coded (Spec.publish fd f a)
  | CCancel fd => keep (Ok 0) (Spec.cancel fd a)
  | CScm f flags limit =>
      match lowest_free a 0 (limit_max limit) with
      | None => keep (Err Emfile) a
      | Some fd =>
          match copyout (Z.of_nat fd) with
          | Err e => keep (Err e) a
          | Ok _ => (Ok (Z.of_nat fd), upd a fd (Opened f (wants_cloexec flags)), [Cloned f])
          end
      end
  | CGet fd => keep (Spec.get fd a) a
  | CClose fd => coded (Spec.close flush fd a)
  | CDup fd limit => match Spec.get fd a with Err e => keep (Err e) a | Ok f => Spec.copy f (Spec.alloc f 0 (limit_max limit) false a) end
  | CDupMin fd min limit => match Spec.get fd a with Err e => keep (Err e) a | Ok f => dup_spec f min false limit a end
  | CDupFile f min c limit => dup_spec f min c limit a
  | CDup2 old_fd new_fd limit =>
      if (old_fd <? 0) || (new_fd <? 0) || (FD_TABLE_MAX <=? index new_fd)%nat then keep (Err Ebadf) a
      else if old_fd =? new_fd then keep (rbind (Spec.get old_fd a) (fun _ => Ok new_fd)) a
      else if (limit_max limit <=? index new_fd)%nat then keep (Err Ebadf) a
      else match Spec.get old_fd a with Err e => keep (Err e) a | Ok f => Spec.place (index new_fd) f false a end
  | CDup3 old_fd new_fd flags limit =>
      if Fd.other_flags flags then keep (Err Einval) a
      else if old_fd =? new_fd then keep (Err Einval) a
      else if (new_fd <? 0) || (FD_TABLE_MAX <=? index new_fd)%nat then keep (Err Ebadf) a
      else if (limit_max limit <=? index new_fd)%nat then keep (Err Ebadf) a
      else match Spec.get old_fd a with Err e => keep (Err e) a | Ok f => Spec.place (index new_fd) f (wants_cloexec flags) a end
  | CReplace new_fd f flags limit =>
      if Fd.other_flags flags then keep (Err Einval) a
      else if (new_fd <? 0) || (FD_TABLE_MAX <=? index new_fd)%nat then keep (Err Ebadf) a
      else if (limit_max limit <=? index new_fd)%nat then keep (Err Ebadf) a
      else Spec.place (index new_fd) f (wants_cloexec flags) a
  | CSetCloexec fd on => coded (Spec.set_cloexec fd on a)
  | CCloexec fd => keep (rbind (Spec.cloexec fd a) (fun b => Ok (Z.b2z b))) a
  | CCloseOnExec => (Ok 0, exec_slots a, map Closed (files_where (fun _ c => c) a))
  | CCloseRange first last co => (Ok 0, range_slots first last co a, map Closed (range_files first last co a))
  end.

Lemma limit_max_le limit : (limit_max limit <= FD_TABLE_MAX)%nat.
Proof. unfold limit_max. destruct (limit <? FD_TABLE_MAX)%nat eqn:E; to_prop; lia. Qed.

(** ** One call *)

Lemma refines_done {A} (m : M Tab (result A)) f t r a ev :
  fd_ok t -> f (slot t) = (r, a, ev) -> wp m (fun r' t' => r' = r /\ becomes t t' a ev) t ->
  wp m (fun r t' => r = (f (slot t)).1.1 /\ becomes t t' (f (slot t)).1.2 (f (slot t)).2) t.
Proof. intros Ht -> H. exact H. Qed.

Lemma ret_keep {A} t (r : result A) : fd_ok t -> wp (ret r) (fun r' t' => r' = r /\ becomes t t' (slot t) []) t.
Proof. intros Ht. wp_step. split; [done|by apply becomes_refl]. Qed.

Lemma coded_refines (m : M Tab (result unit)) f : refines m f -> refines (r ← m; ret (code r)) (fun a => coded (f a)).
Proof.
  intros Hm t Ht. wp_step. eapply wp_mono; [exact (Hm t Ht)|]. intros r t' [-> Hb]. wp_step. unfold coded. destruct (f (slot t)) as [[r a] ev]. done.
Qed.

Lemma event_becomes t e : fd_ok t -> becomes t (put_event e t) (slot t) [e].
Proof.
  intros Ht. pose proof (put_event_view _ _ _ _ _ _ _ (view_ok t Ht) e) as V. exact (view_becomes t _ _ _ _ _ _ _ V (fo_bits _ Ht)).
Qed.

(** An allocation followed by the hook for the new reference. *)
Lemma copy_refines f min max c : (max <= FD_TABLE_MAX)%nat ->
  refines (r ← Inner.alloc_fd_flags_below f min max c; match r with Err e => ret (Err e) | Ok n => Fd.clone_hook f ;; ret (Ok n) end)
    (fun a => Spec.copy f (Spec.alloc f min max c a)).
Proof.
  intros Hmax t Ht. wp_step. eapply wp_mono; [exact (alloc_refines f min max c Hmax t Ht)|]. intros r t' [-> Hb]. unfold Spec.copy.
  destruct (Spec.alloc f min max c (slot t)) as [[[n|e] a] ev]; cbn [fst snd] in *; [|wp_step; done].
  unfold Fd.clone_hook. wp_step. wp_step. wp_step. split; [done|]. pose proof Hb as (H1 & H2 & _).
  eapply becomes_trans; [exact Hb|]. eapply becomes_ext; [exact H2|]. by apply event_becomes.
Qed.

Lemma scm_refines f flags limit : refines (exec (CScm f flags limit)) (spec (CScm f flags limit)).
Proof.
  intros t Ht. cbn [exec spec]. unfold Fd.scm_install_fd, Fd.get_unused_fd_flags. wp_step.
  eapply wp_mono; [exact (reserve_refines 0 _ (wants_cloexec flags) (limit_max_le limit) t Ht)|]. intros r t1 [-> Hb]. unfold Spec.reserve in *.
  destruct (lowest_free (slot t) 0 (limit_max limit)) as [fd|] eqn:E; cbn [fst snd keep] in *; [|wp_step; done].
  apply lowest_free_lt in E as [_ Hfree]. pose proof Hb as (Ht1 & Hs1 & He1). rewrite app_nil_r in He1.
  assert (Hidx : index (Z.of_nat fd) = fd) by (unfold index; lia). assert (Hpos : (Z.of_nat fd <? 0) = false) by (apply Z.ltb_ge; lia).
  destruct (copyout (Z.of_nat fd)) as [|e]; cbn [fst snd].
  - unfold Fd.clone_hook. wp_step. wp_step. set (t2 := put_event (Cloned f) t1).
    assert (Hb2 : becomes t1 t2 (upd (slot t) fd (Reserved (wants_cloexec flags))) [Cloned f]).
    { eapply becomes_ext; [exact Hs1|]. by apply event_becomes. }
    pose proof Hb2 as (Ht2 & Hs2 & He2). unfold Fd.fd_install. wp_step. wp_step. eapply wp_mono; [exact (publish_refines (Z.of_nat fd) f t2 Ht2)|].
    intros r t3 [-> Hb3]. unfold Spec.publish in *. rewrite Hpos, Hidx, (Hs2 fd), slot_upd_eq in *. cbn [fst snd] in *. wp_step; [done|]. wp_step. split; [done|].
    destruct Hb3 as (Ht3 & Hs3 & He3). split_and!; [done| |by rewrite He3, He2, He1, app_nil_r].
    intros j. rewrite Hs3. unfold upd. destruct (decide (j = fd)) as [->|Hne]; [done|]. rewrite Hs2. by apply slot_upd_ne.
  - wp_step. eapply wp_mono; [exact (cancel_becomes (Z.of_nat fd) t1 Ht1)|]. intros [] t2 (Ht2 & Hs2 & He2). wp_step. split; [done|].
    split_and!; [done| |by rewrite He2, He1, !app_nil_r]. intros j. rewrite Hs2. unfold Spec.cancel. rewrite Hpos, Hidx, (Hs1 fd), slot_upd_eq.
    unfold upd at 1. destruct (decide (j = fd)) as [->|Hne]; [done|]. rewrite Hs1. by apply slot_upd_ne.
Qed.

Lemma unit_refines (m : M Tab unit) (g : Slots -> Slots) (ev : Slots -> list Event) :
  (forall t, fd_ok t -> wp m (fun _ t' => becomes t t' (g (slot t)) (ev (slot t))) t) -> refines (m ;; ret (Ok 0)) (fun a => (Ok 0, g a, ev a)).
Proof. intros Hm t Ht. wp_step. eapply wp_mono; [exact (Hm t Ht)|]. intros [] t' Hb. by wp_step. Qed.

Lemma dup_refines f min c limit : refines (Fd.dup_file_min_limit f min c limit) (dup_spec f min c limit).
Proof.
  unfold Fd.dup_file_min_limit, dup_spec. intros t Ht. destruct (_ || _); [by apply ret_keep|]. apply copy_refines; [apply limit_max_le|done].
Qed.

(** The places the checks before [install_at] let through. *)
Lemma place_checked limit nf f c :
  (limit_max limit <=? nf)%nat = false -> refines (Fd.install_at flush nf f c) (Spec.place nf f c).
Proof. intros H. to_prop. apply place_refines. pose proof (limit_max_le limit). lia. Qed.

Lemma call_refines c : call_ok c -> refines (exec c) (spec c).
Proof.
  intros Hc. destruct c as [f l|f fl l|fl l|fd f|fd|f fl l|fd|fd|fd l|fd m l|f m c l|o n l|o n fl l|n f fl l|fd on|fd| |fi la co]; cbn [exec spec].
  - apply alloc_refines, limit_max_le.
  - apply alloc_refines, limit_max_le.
  - apply reserve_refines, limit_max_le.
  - apply coded_refines, publish_refines.
  - apply (unit_refines _ (Spec.cancel fd) (fun _ => [])). by apply cancel_becomes.
  - apply scm_refines.
  - intros t Ht. cbn [spec]. wp_step. wp_step. rewrite fget_slot by done. by apply ret_keep.
  - apply coded_refines, close_refines.
  - intros t Ht. cbn [spec]. unfold Fd.dup_limit. wp_step. wp_step. rewrite fget_slot by done. destruct (Spec.get fd (slot t)) as [f|e]; [|by apply ret_keep].
    apply copy_refines; [apply limit_max_le|done].
  - intros t Ht. cbn [spec]. unfold Fd.dup_min_limit. wp_step. wp_step. rewrite fget_slot by done. destruct (Spec.get fd (slot t)) as [f|e]; [|by apply ret_keep].
    by apply dup_refines.
  - apply dup_refines.
  - intros t Ht. cbn [spec]. unfold Fd.dup2_limit. destruct (_ || _ || _); [by apply ret_keep|]. wp_step. wp_step. rewrite fget_slot by done.
    destruct (o =? n); [by apply ret_keep|]. destruct (limit_max l <=? index n)%nat eqn:El; [by apply ret_keep|].
    destruct (Spec.get o (slot t)) as [f|e]; [|by apply ret_keep]. by apply (place_checked l).
  - intros t Ht. cbn [spec]. unfold Fd.dup3_limit. destruct (Fd.other_flags fl); [by apply ret_keep|]. destruct (o =? n); [by apply ret_keep|].
    destruct (_ || _); [by apply ret_keep|]. destruct (limit_max l <=? index n)%nat eqn:El; [by apply ret_keep|]. wp_step. wp_step.
    rewrite fget_slot by done. destruct (Spec.get o (slot t)) as [f|e]; [|by apply ret_keep]. by apply (place_checked l).
  - intros t Ht. cbn [spec]. unfold Fd.replace_fd. destruct (Fd.other_flags fl); [by apply ret_keep|]. destruct (_ || _); [by apply ret_keep|].
    destruct (limit_max l <=? index n)%nat eqn:El; [by apply ret_keep|]. by apply (place_checked l).
  - apply coded_refines, set_cloexec_refines.
  - intros t Ht. cbn [spec]. wp_step. wp_step. rewrite cloexec_slots by done. by apply ret_keep.
  - apply (unit_refines _ exec_slots). apply close_on_exec_becomes.
  - apply (unit_refines _ (range_slots fi la co)). intros t Ht. by apply close_range_becomes.
Qed.

(** ** Sequences of calls *)

Definition same_slots : relation Slots := pointwise_relation nat eq.

(** Equal outcomes, slot by slot. *)
Definition same_outcome {A} (o p : Outcome A) : Prop := o.1.1 = p.1.1 /\ same_slots o.1.2 p.1.2 /\ o.2 = p.2.

#[local] Instance upd_proper : Proper (same_slots ==> eq ==> eq ==> same_slots) (@upd Slot).
Proof. intros a b H k _ <- v _ <- j. unfold upd. destruct (decide _); [done|apply H]. Qed.

#[local] Instance lowest_free_proper : Proper (same_slots ==> eq ==> eq ==> eq) lowest_free.
Proof. intros a b H min _ <- max _ <-. unfold lowest_free. f_equal. apply filter_ext_in. intros fd _. by rewrite (H fd). Qed.

#[local] Instance files_where_proper q : Proper (same_slots ==> eq) (files_where q).
Proof. intros a b H. unfold files_where. apply omap_ext_in. intros fd _. by rewrite (H fd). Qed.

Lemma keep_same {A} (r : result A) a b : same_slots a b -> same_outcome (keep r a) (keep r b).
Proof. by intros. Qed.

Lemma set_same {A} (r : result A) a b k v ev : same_slots a b -> same_outcome (r, upd a k v, ev) (r, upd b k v, ev).
Proof. intros H. split_and!; [done| |done]. cbn. by rewrite H. Qed.

Create HintDb fd discriminated.
#[local] Hint Resolve keep_same set_same : fd.

Lemma copy_same f o p : same_outcome o p -> same_outcome (Spec.copy f o) (Spec.copy f p).
Proof.
  destruct o as [[r a] ev], p as [[r' a'] ev']. intros (H1 & H2 & H3). cbn in *. subst. by destruct r'.
Qed.

Lemma alloc_same f min max c a b : same_slots a b -> same_outcome (Spec.alloc f min max c a) (Spec.alloc f min max c b).
Proof. intros H. unfold Spec.alloc. rewrite H. destruct (lowest_free b min max); auto with fd. Qed.

Lemma place_same nf f c a b : same_slots a b -> same_outcome (Spec.place nf f c a) (Spec.place nf f c b).
Proof. intros H. unfold Spec.place. rewrite (H nf). destruct (b nf); auto with fd. Qed.

Lemma get_same fd a b : same_slots a b -> Spec.get fd a = Spec.get fd b.
Proof. intros H. unfold Spec.get. by rewrite (H (index fd)). Qed.

Lemma coded_same o p : same_outcome o p -> same_outcome (coded o) (coded p).
Proof. destruct o as [[r a] ev], p as [[r' a'] ev']. intros (H1 & H2 & H3). cbn in *. by subst. Qed.

#[local] Hint Resolve copy_same alloc_same place_same coded_same : fd.

Lemma dup_same f min c limit a b : same_slots a b -> same_outcome (dup_spec f min c limit a) (dup_spec f min c limit b).
Proof. intros H. unfold dup_spec. destruct (_ || _); auto with fd. Qed.

#[local] Hint Resolve dup_same : fd.

#[local] Instance spec_proper c : Proper (same_slots ==> same_outcome) (spec c).
Proof.
  intros a b H. destruct c as [f l|f fl l|fl l|fd f|fd|f fl l|fd|fd|fd l|fd m l|f m c l|o n l|o n fl l|n f fl l|fd on|fd| |fi la co]; cbn [spec];
    auto with fd; rewrite ?(get_same _ _ _ H).
  - unfold Spec.reserve. rewrite H. destruct (lowest_free _ _ _); auto with fd.
  - apply coded_same. unfold Spec.publish. rewrite (H (index fd)). destruct (fd <? 0); [auto with fd|]. destruct (b (index fd)); auto with fd.
  - apply keep_same. unfold Spec.cancel. rewrite (H (index fd)). destruct (fd <? 0); [done|]. destruct (b (index fd)); [done|by rewrite H|done].
  - rewrite H. destruct (lowest_free _ _ _) as [k|]; [|auto with fd]. destruct (copyout _); auto with fd.
  - auto with fd.
  - apply coded_same. unfold Spec.close. rewrite (H (index fd)). destruct (fd <? 0); [auto with fd|]. destruct (b (index fd)); auto with fd.
  - destruct (Spec.get _ _); auto with fd.
  - destruct (Spec.get _ _); auto with fd.
  - destruct (_ || _ || _); [auto with fd|]. destruct (o =? n); [auto with fd|]. destruct (_ <=? _)%nat; [auto with fd|]. destruct (Spec.get _ _); auto with fd.
  - destruct (Fd.other_flags fl); [auto with fd|]. destruct (o =? n); [auto with fd|]. destruct (_ || _); [auto with fd|].
    destruct (_ <=? _)%nat; [auto with fd|]. destruct (Spec.get _ _); auto with fd.
  - destruct (Fd.other_flags fl); [auto with fd|]. destruct (_ || _); [auto with fd|]. destruct (_ <=? _)%nat; auto with fd.
  - apply coded_same. unfold Spec.set_cloexec. rewrite (H (index fd)). destruct (fd <? 0); [auto with fd|]. destruct (b (index fd)); auto with fd.
  - unfold Spec.cloexec. rewrite (H (index fd)). auto with fd.
  - split_and!; cbn [fst snd]; [done| |by rewrite H]. intros fd. unfold exec_slots. by rewrite (H fd).
  - split_and!; cbn [fst snd]; [done| |unfold range_files; destruct co; [done|by rewrite H]]. intros fd. unfold range_slots. by rewrite (H fd).
Qed.

Fixpoint run_calls (cs : list Call) : M Tab (list (result Z)) :=
  match cs with
  | [] => ret []
  | c :: cs' => r ← exec c; rs ← run_calls cs'; ret (r :: rs)
  end.

Fixpoint spec_calls (cs : list Call) (a : Slots) : list (result Z) * Slots * list Event :=
  match cs with
  | [] => ([], a, [])
  | c :: cs' =>
      let '(r, a1, ev1) := spec c a in
      let '(rs, a2, ev2) := spec_calls cs' a1 in
      (r :: rs, a2, ev1 ++ ev2)
  end.

Lemma run_refines cs t a :
  Forall call_ok cs -> fd_ok t -> same_slots (slot t) a ->
  wp (run_calls cs) (fun rs t' => fd_ok t' /\ rs = (spec_calls cs a).1.1 /\ same_slots (slot t') (spec_calls cs a).1.2 /\
    tb_events t' = tb_events t ++ (spec_calls cs a).2) t.
Proof.
  revert t a. induction cs as [|c cs IH]; intros t a Hok Ht Ha; cbn [run_calls spec_calls].
  { wp_step. split_and!; [done..|by rewrite app_nil_r]. }
  apply Forall_cons in Hok as [Hc Hok]. pose proof (spec_proper c _ _ Ha) as (E1 & E2 & E3).
  wp_step. eapply wp_mono; [exact (call_refines c Hc t Ht)|]. intros r t1 [-> (Ht1 & Hs1 & He1)].
  destruct (spec c a) as [[r a1] ev1]. cbn [fst snd] in *.
  assert (Ha1 : same_slots (slot t1) a1) by (intros fd; rewrite Hs1; apply E2).
  wp_step. eapply wp_mono; [exact (IH t1 a1 Hok Ht1 Ha1)|]. intros rs t2 (Ht2 & -> & Hs2 & He2). destruct (spec_calls cs a1) as [[rs a2] ev2].
  cbn [fst snd] in *. wp_step. split_and!; [done|by rewrite E1|done|]. by rewrite He2, He1, E3, app_assoc.
Qed.

End calls.
