(* ===== verification/FdTableRefs.v ===== *)
(** * Descriptor tables: the references a table holds

    A table takes a reference on a file with the clone hook, gives it back
    with the close hook, and is handed one by the calls that consume a file.
    The life of a table is any sequence of calls and copies. *)

From stdpp Require Import list.
From S2P Require Import Prelude Words Result FdTable FdTableSpec FdTableInv FdTableRefine FdTableBulk FdTableFork FdTableTheorems.

(** ** Counting *)

Definition one (f g : Z) : Z := Z.b2z (f =? g).

(** The references on [f] that a slot, the slots, and the hooks stand for. *)
Definition held (f : Z) (s : Slot) : Z := match s with Opened g _ => one f g | _ => 0 end.
Definition refs (f : Z) (a : Slots) : Z := sumZ (fun fd => held f (a fd)) (seq 0 FD_TABLE_MAX).
Definition weight (f : Z) (e : Event) : Z := match e with Cloned g => one f g | Closed g => - one f g end.
Definition tally (f : Z) (ev : list Event) : Z := sumZ (weight f) ev.

(** The reference a call hands to the table when it succeeds. *)
Definition given (f : Z) (c : Call) (r : result Z) : Z :=
  match c, r with
  | CAlloc g _, Ok _ | CInstall g _ _, Ok _ | CPublish _ g, Ok _ => one f g
  | _, _ => 0
  end.

Lemma tally_app f l k : tally f (l ++ k) = tally f l + tally f k.
Proof. apply sumZ_app. Qed.

Lemma tally_one f e : tally f [e] = weight f e.
Proof. unfold tally. rewrite sumZ_cons, sumZ_nil. lia. Qed.

Lemma tally_cons f e l : tally f (e :: l) = weight f e + tally f l.
Proof. apply sumZ_cons. Qed.

Lemma refs_ext f a b : same_slots a b -> refs f a = refs f b.
Proof. intros H. apply sumZ_ext. intros fd _. by rewrite (H fd). Qed.

Lemma sumZ_upd f (a : Slots) k v l :
  NoDup l -> sumZ (fun fd => held f (upd a k v fd)) l = sumZ (fun fd => held f (a fd)) l + (if bool_decide (k ∈ l) then held f v - held f (a k) else 0).
Proof.
  induction l as [|x l IH]; intros Hn.
  { rewrite bool_decide_eq_false_2 by (by intros ?%elem_of_nil). by rewrite !sumZ_nil. }
  apply NoDup_cons in Hn as [Hx Hn]. rewrite !sumZ_cons, (IH Hn). unfold upd at 1. destruct (decide (x = k)) as [->|Hk].
  - rewrite (bool_decide_eq_false_2 _ Hx), bool_decide_eq_true_2 by apply list_elem_of_here. lia.
  - destruct (decide (k ∈ l)) as [E|E].
    + rewrite !bool_decide_eq_true_2 by (done || by apply list_elem_of_further). lia.
    + rewrite (bool_decide_eq_false_2 (k ∈ l)) by done. rewrite bool_decide_eq_false_2; [lia|]. intros [?|?]%elem_of_cons; [congruence|done].
Qed.

Lemma refs_upd f a k v : (k < FD_TABLE_MAX)%nat -> refs f (upd a k v) = refs f a + held f v - held f (a k).
Proof.
  intros Hk. unfold refs. rewrite sumZ_upd by apply NoDup_seq. rewrite bool_decide_eq_true_2 by (apply elem_of_seq; lia). lia.
Qed.

Lemma tally_omap f (h : Z -> Event) s (g : nat -> option Z) l :
  (forall x, weight f (h x) = s * one f x) ->
  tally f (map h (omap g l)) = s * sumZ (fun fd => match g fd with Some x => one f x | None => 0 end) l.
Proof.
  intros Hh. induction l as [|d l IH]; [rewrite sumZ_nil; by rewrite Z.mul_0_r|]. rewrite sumZ_cons, Z.mul_add_distr_l, <- IH.
  change (omap g (d :: l)) with (match g d with Some x => x :: omap g l | None => omap g l end). destruct (g d); [|lia]. cbn [map]. by rewrite tally_cons, Hh.
Qed.

Lemma sumZ_minus {A} (p q r : A -> Z) l : (forall x, p x = q x - r x) -> sumZ p l = sumZ q l - sumZ r l.
Proof. intros H. induction l as [|x l IH]; [by rewrite !sumZ_nil|]. rewrite !sumZ_cons, IH, H. lia. Qed.

Lemma refs_swept f a b (q : nat -> bool -> bool) :
  (forall fd, held f (b fd) = held f (a fd) - match a fd with Opened g c => if q fd c then one f g else 0 | _ => 0 end) ->
  refs f b = refs f a + tally f (map Closed (files_where q a)).
Proof.
  intros H. unfold files_where. rewrite (tally_omap f Closed (-1)); [|intros x; cbn; lia]. unfold refs.
  rewrite (sumZ_minus _ _ _ (seq 0 FD_TABLE_MAX) H).
  match goal with |- sumZ ?g _ - sumZ ?p ?l = _ + _ * sumZ ?q _ => assert (E : sumZ p l = sumZ q l) end.
  { apply sumZ_ext. intros fd _. cbn. destruct (a fd) as [| |g c]; [done..|]. by destruct (q fd c). }
  rewrite E. lia.
Qed.

Lemma refs_cloned f a : tally f (map Cloned (files_where (fun _ _ => true) a)) = refs f a.
Proof.
  unfold files_where. rewrite (tally_omap f Cloned 1); [|intros x; cbn; lia]. unfold refs. rewrite Z.mul_1_l. apply sumZ_ext. intros fd _. by destruct (a fd).
Qed.

(** ** One call *)

(** Slots past the table are free. *)
Definition bounded (a : Slots) : Prop := forall fd, busy (a fd) = true -> (fd < FD_TABLE_MAX)%nat.

Lemma slot_bounded t : fd_ok t -> bounded (slot t).
Proof. intros Ht fd H. pose proof (busy_below t Ht fd H). pose proof (files_below t Ht). lia. Qed.

(** What an outcome does to the references on [f]. *)
Definition balances (f : Z) (a : Slots) {A} (g : Z) (o : Outcome A) : Prop := refs f o.1.2 = refs f a + tally f o.2 + g.

Section balance.
Context (flush copyout : Z -> result unit) (f : Z) (a : Slots) (Ha : bounded a).

Lemma keep_balances {A} (r : result A) : balances f a 0 (keep r a).
Proof. unfold balances. cbn [keep fst snd]. unfold tally. rewrite sumZ_nil. lia. Qed.

Lemma put_balances {A} (r : result A) k v ev g :
  (k < FD_TABLE_MAX)%nat -> held f v - held f (a k) = tally f ev + g -> balances f a g (r, upd a k v, ev).
Proof. intros Hk H. unfold balances. cbn [fst snd]. rewrite refs_upd by done. lia. Qed.

Lemma coded_balances g o : balances f a g o -> balances f a g (coded o).
Proof. by destruct o as [[r a'] ev]. Qed.

Lemma tally_nil : tally f [] = 0.
Proof. apply sumZ_nil. Qed.

Lemma alloc_balances h min max c :
  (max <= FD_TABLE_MAX)%nat -> balances f a (match lowest_free a min max with Some _ => one f h | None => 0 end) (Spec.alloc h min max c a).
Proof.
  intros Hm. unfold Spec.alloc. destruct (lowest_free a min max) as [k|] eqn:E; [|apply keep_balances].
  apply lowest_free_lt in E as [Hk E]. apply put_balances; [lia|]. rewrite E, tally_nil. cbn. lia.
Qed.

Lemma copy_balances h min max c : (max <= FD_TABLE_MAX)%nat -> balances f a 0 (Spec.copy h (Spec.alloc h min max c a)).
Proof.
  intros Hm. pose proof (alloc_balances h min max c Hm) as H. unfold Spec.alloc in *. destruct (lowest_free a min max) as [k|]; [|apply H].
  unfold balances in *. cbn [Spec.copy fst snd app] in *. rewrite H, tally_one, tally_nil. cbn [weight]. lia.
Qed.

Lemma dup_balances h min c limit : balances f a 0 (dup_spec h min c limit a).
Proof. unfold dup_spec. destruct (_ || _); [apply keep_balances|]. apply copy_balances, limit_max_le. Qed.

Lemma place_balances nf h c : (nf < FD_TABLE_MAX)%nat -> balances f a 0 (Spec.place nf h c a).
Proof.
  intros Hn. unfold Spec.place. destruct (a nf) as [|c'|g c'] eqn:E; [|apply keep_balances|]; apply put_balances; try done;
    rewrite E, ?tally_cons, tally_nil; cbn; lia.
Qed.

Lemma alloc_given h min max c (r := (Spec.alloc h min max c a).1.1) :
  (max <= FD_TABLE_MAX)%nat -> balances f a (match r with Ok _ => one f h | Err _ => 0 end) (Spec.alloc h min max c a).
Proof. intros Hm. pose proof (alloc_balances h min max c Hm) as H. unfold r, Spec.alloc in *. by destruct (lowest_free a min max). Qed.

Lemma found fd g c : a (index fd) = Opened g c -> (index fd < FD_TABLE_MAX)%nat.
Proof. intros E. apply Ha. by rewrite E. Qed.

Lemma place_at (b : bool) nf h c limit e :
  balances f a 0 (if b || (FD_TABLE_MAX <=? nf)%nat then keep (Err e) a else if (limit_max limit <=? nf)%nat then keep (Err e) a else Spec.place nf h c a).
Proof.
  destruct b; [apply keep_balances|]. cbn [orb]. destruct (FD_TABLE_MAX <=? nf)%nat eqn:E; [apply keep_balances|]. to_prop.
  destruct (limit_max limit <=? nf)%nat; [apply keep_balances|]. by apply place_balances.
Qed.

Lemma call_balances c : balances f a (given f c (spec flush copyout c a).1.1) (spec flush copyout c a).
Proof.
  destruct c as [h l|h fl l|fl l|fd h|fd|h fl l|fd|fd|fd l|fd m l|h m c l|o n l|o n fl l|n h fl l|fd on|fd| |fi la co]; cbn [spec given];
    try apply keep_balances.
  - apply alloc_given, limit_max_le.
  - apply alloc_given, limit_max_le.
  - unfold Spec.reserve. destruct (lowest_free a 0 (limit_max l)) as [k|] eqn:E; [|apply keep_balances]. apply lowest_free_lt in E as [Hk E].
    pose proof (limit_max_le l). apply put_balances; [lia|]. by rewrite E, tally_nil.
  - unfold Spec.publish. destruct (fd <? 0); [apply coded_balances, keep_balances|].
    destruct (a (index fd)) as [|c|g c] eqn:E; try apply coded_balances, keep_balances. apply coded_balances, put_balances.
    + apply Ha. by rewrite E.
    + rewrite E, tally_nil. cbn. lia.
  - unfold balances, Spec.cancel. cbn [keep fst snd]. rewrite tally_nil. destruct (fd <? 0); [lia|].
    destruct (a (index fd)) as [|c|g c] eqn:E; [lia| |lia]. rewrite refs_upd by (apply Ha; by rewrite E). rewrite E. cbn. lia.
  - destruct (lowest_free a 0 (limit_max l)) as [k|] eqn:E; [|apply keep_balances]. apply lowest_free_lt in E as [Hk E]. pose proof (limit_max_le l).
    destruct (copyout _); [|apply keep_balances]. apply put_balances; [lia|]. rewrite E, tally_one. cbn. lia.
  - apply coded_balances. unfold Spec.close. destruct (fd <? 0); [apply keep_balances|].
    destruct (a (index fd)) as [|c|g c] eqn:E; try apply keep_balances. apply put_balances; [by eapply found|]. rewrite E, tally_one. cbn. lia.
  - destruct (Spec.get fd a); [|apply keep_balances]. apply copy_balances, limit_max_le.
  - destruct (Spec.get fd a); [|apply keep_balances]. apply dup_balances.
  - apply dup_balances.
  - destruct ((o <? 0) || (n <? 0)); [apply keep_balances|]. cbn [orb]. destruct (o =? n).
    { destruct (_ <=? _)%nat; apply keep_balances. }
    destruct (Spec.get o a) as [h|e]; [exact (place_at false (index n) h false l Ebadf)|]. destruct (_ <=? _)%nat; [apply keep_balances|].
    destruct (_ <=? _)%nat; apply keep_balances.
  - destruct (Fd.other_flags fl); [apply keep_balances|]. destruct (o =? n); [apply keep_balances|].
    destruct (Spec.get o a) as [h|e]; [apply place_at|]. destruct (_ || _); [apply keep_balances|]. destruct (_ <=? _)%nat; apply keep_balances.
  - destruct (Fd.other_flags fl); [apply keep_balances|]. apply place_at.
  - apply coded_balances. unfold Spec.set_cloexec. destruct (fd <? 0); [apply keep_balances|].
    destruct (a (index fd)) as [|c|g c] eqn:E; try apply keep_balances. apply put_balances; [by eapply found|]. rewrite E, tally_nil. cbn. lia.
  - unfold balances. cbn [fst snd]. rewrite Z.add_0_r. apply refs_swept. intros fd. unfold exec_slots. destruct (a fd) as [| |g [|]]; cbn; lia.
  - unfold balances. cbn [fst snd]. rewrite Z.add_0_r. unfold range_files. destruct co.
    + cbn [map]. rewrite tally_nil, Z.add_0_r. apply sumZ_ext. intros fd _. unfold range_slots. destruct (a fd) as [| |g c]; [done..|]. by destruct (in_range _ _ _).
    + apply refs_swept. intros fd. unfold range_slots. destruct (a fd) as [| |g c]; [done..|]. destruct (in_range _ _ _); cbn; lia.
Qed.

End balance.

(** ** The life of a table *)

Section life.
Context (flush copyout : Z -> result unit).

(** A table in use, and the references it has been handed. *)
Inductive life : Tab -> (Z -> Z) -> Prop :=
| life_new : life new_table (fun _ => 0)
| life_call t g c r t' : life t g -> call_ok c -> exec flush copyout c t = Done (r, t') -> life t' (fun f => g f + given f c r)
| life_fork t g : life t g -> life (Fd.fork_clone t) (fun _ => 0)
| life_fork_range t g first last co : life t g -> life (Fd.fork_clone_close_range t first last co) (fun _ => 0).

Lemma new_ok : fd_ok new_table.
Proof.
  assert (H : forall j, bit_at [] j = false) by (intros j; apply bit_at_beyond; cbn; lia).
  constructor; [constructor; cbn; lia || done|]. constructor; cbn; intros fd; rewrite !H; done.
Qed.

Lemma new_slot fd : slot new_table fd = Free.
Proof. unfold slot, slot_of, file_at. cbn. by rewrite bit_at_beyond by (cbn; lia). Qed.

Lemma tally_concat f (h : nat -> list Event) l : tally f (concat (map h l)) = sumZ (fun fd => tally f (h fd)) l.
Proof. induction l as [|x l IH]; [done|]. cbn [map concat]. by rewrite tally_app, sumZ_cons, IH. Qed.

Lemma sumZ_zero {A} (l : list A) : sumZ (fun _ => 0) l = 0.
Proof. induction l as [|x l IH]; [done|]. by rewrite sumZ_cons, IH. Qed.

Lemma range_held t first last co f fd :
  fd_ok t -> held f (close_child_slots first last co (slot t) fd) = match kept_file t first last co fd with Some x => one f x | None => 0 end.
Proof.
  intros Ht. unfold close_child_slots, range_slots, child_slots, kept_file, slot, slot_of. destruct (file_at t fd) as [x|] eqn:E.
  - destruct (bit_at (tb_reserved t) fd) eqn:Er; [destruct (cs_reserved _ _ _ _ (fo_bits _ Ht) fd Er); congruence|].
    cbn [negb andb]. by destruct (in_range first last fd), co.
  - destruct (bit_at (tb_reserved t) fd); by destruct (_ && _).
Qed.

Lemma range_copied t first last co f :
  fd_ok t -> tally f (tb_events (Fd.fork_clone_close_range t first last co)) = refs f (slot (Fd.fork_clone_close_range t first last co)).
Proof.
  intros Ht. destruct (fork_close_range_ok t Ht first last co) as (Hc & Hs & ->). rewrite (refs_ext f _ _ Hs).
  set (K := (kept_words t * WORD_BITS)%nat). assert (HK : (K <= FD_TABLE_MAX)%nat).
  { pose proof (kept_le t). pose proof (sh_max _ (fo_shape _ Ht)). unfold K, WORD_BITS in *. lia. }
  unfold refs. replace FD_TABLE_MAX with (K + (FD_TABLE_MAX - K))%nat by lia. rewrite seq_app, sumZ_app.
  rewrite (sumZ_ext _ (fun _ => 0) (seq (0 + K) _)), sumZ_zero.
  - rewrite Z.add_0_r, tally_concat. apply sumZ_ext. intros fd _. unfold copied. rewrite (range_held t first last co f fd Ht).
    destruct (kept_file t first last co fd); [apply tally_one|apply tally_nil].
  - intros fd Hfd%elem_of_seq. rewrite range_held by done. unfold kept_file. rewrite (file_kept t Ht) by (unfold K in *; lia). by destruct (_ && _).
Qed.

Lemma life_inv t g : life t g -> fd_ok t /\ forall f, refs f (slot t) = tally f (tb_events t) + g f.
Proof.
  induction 1 as [|t g c r t' _ [Ht IH] Hc E|t g _ [Ht IH]|t g first last co _ [Ht IH]].
  - split; [apply new_ok|]. intros f. rewrite tally_nil. unfold refs. rewrite (sumZ_ext _ (fun _ => 0)); [apply sumZ_zero|]. intros fd _. by rewrite new_slot.
  - pose proof (call_refines flush copyout c Hc t Ht) as W. unfold wp in W. rewrite E in W. destruct W as [-> (Ht' & Hs & He)]. split; [done|]. intros f.
    pose proof (call_balances flush copyout f (slot t) (slot_bounded t Ht) c) as B. unfold balances in B. rewrite IH in B.
    rewrite (refs_ext f _ _ Hs), B, He, tally_app. lia.
  - destruct (fork_clone_ok t Ht) as [Hc Hs]. split; [done|]. intros f. rewrite fork_clone_events, refs_cloned, (refs_ext f _ _ Hs) by done.
    rewrite Z.add_0_r. apply sumZ_ext. intros fd _. unfold child_slots. by destruct (slot t fd).
  - split; [apply fork_close_range_ok, Ht|]. intros f. rewrite range_copied by done. lia.
Qed.

(** Dropping the table gives back what it holds. *)
Lemma drop_becomes t :
  fd_ok t -> wp (Fd.drop_table flush) (fun _ t' => tb_events t' = tb_events t ++ map Closed (files_where (fun _ _ => true) (slot t))) t.
Proof.
  intros Ht. unfold Fd.drop_table. wp_step. wp_step. wp_step. wp_step.
  assert (V : shape (put_files [] t)) by (destruct (fo_shape _ Ht); constructor; cbn in *; lia || done). apply view_self in V.
  eapply wp_mono; [exact (close_all_view flush _ _ _ _ _ _ _ _ V)|]. intros [] t' V'. rewrite (vw_events _ _ _ _ _ _ _ V'). cbn [put_files tb_events].
  do 2 f_equal. rewrite present_files, <- (taken_files t (fun _ => true) (fun _ _ => true) 0 (length (tb_open t)) Ht) by (done || lia).
  unfold taken. cbn [Nat.mul]. set (n := length (tb_files t)). pose proof (sh_files _ (fo_shape _ Ht)) as Hn.
  replace (length (tb_open t) * WORD_BITS)%nat with (n + (length (tb_open t) * WORD_BITS - n))%nat by (unfold n; lia).
  rewrite seq_app, omap_app_list, (omap_none _ (seq (0 + n) _)), app_nil_r; [done|].
  intros fd Hfd%elem_of_seq. unfold file_at. by rewrite lookup_ge_None_2 by (unfold n in *; lia).
Qed.

End life.

(** ** Properties *)

(** C6. From any table in use, any sequence of calls runs
    without a panic, keeps the invariant that the three bitmaps, the slots
    and the limit of 1024 descriptors agree, and has the results, the final
    slots and the hooks of the same calls on plain slots. *)
Theorem fd_calls_refine flush copyout t g cs :
  life flush copyout t g -> Forall call_ok cs ->
  wp (run_calls flush copyout cs) (fun rs t' =>
    fd_ok t' /\ rs = (spec_calls flush copyout cs (slot t)).1.1 /\
    (forall fd, slot t' fd = (spec_calls flush copyout cs (slot t)).1.2 fd) /\
    tb_events t' = tb_events t ++ (spec_calls flush copyout cs (slot t)).2) t.
Proof. intros [Ht _]%life_inv Hc. exact (run_refines flush copyout cs t (slot t) Hc Ht (fun _ => eq_refl)). Qed.

(** In any table in use the scan by words, over the bitmap of
    the taken descriptors, finds the lowest descriptor at or above the
    minimum that is neither open nor reserved, and says the table is full
    exactly when there is none below the limit. *)
Theorem fd_lowest flush copyout t g min max :
  life flush copyout t g ->
  Inner.find_free_fd t min max = match lowest_free (slot t) min max with Some fd => Ok fd | None => Err Emfile end.
Proof. intros [Ht _]%life_inv. exact (find_free_lowest t min max Ht). Qed.

(** At any point of its life a table holds, of each file,
    as many references as its hooks took and it was handed, less those it
    gave back; when the table is dropped every one of them has been given
    back, none twice. *)
Theorem fd_references flush copyout t g f :
  life flush copyout t g ->
  refs f (slot t) = tally f (tb_events t) + g f /\
  wp (Fd.drop_table flush) (fun _ t' => tally f (tb_events t') + g f = 0) t.
Proof.
  intros [Ht Hr]%life_inv. split; [apply Hr|]. eapply wp_mono; [exact (drop_becomes flush t Ht)|]. intros [] t' ->. rewrite tally_app.
  assert (E : refs f (fun _ => Free) = refs f (slot t) + tally f (map Closed (files_where (fun _ _ => true) (slot t)))).
  { apply refs_swept. intros fd. destruct (slot t fd); cbn; lia. }
  assert (E0 : refs f (fun _ => Free) = 0) by apply sumZ_zero. specialize (Hr f). lia.
Qed.

(** A copy for a new process has the open descriptors of the
    table with their close-on-exec marks, and none of its reservations; the
    copy that also closes a range has that range closed, or marked; and both
    list and count exactly the descriptors they hold open. *)
Theorem fd_fork flush copyout t g first last co :
  life flush copyout t g ->
  let c1 := Fd.fork_clone t in
  let c2 := Fd.fork_clone_close_range t first last co in
  (forall fd, slot c1 fd = child_slots (slot t) fd) /\
  (forall fd, slot c2 fd = range_slots first last co (child_slots (slot t)) fd) /\
  Forall (fun c => fd_ok c /\ Fd.live_fds c = map Z.of_nat (opened_fds (slot c)) /\ Fd.count c = length (opened_fds (slot c))) [t; c1; c2].
Proof.
  intros [Ht _]%life_inv c1 c2. destruct (fork_clone_ok t Ht) as [H1 H2]. destruct (fork_close_range_ok t Ht first last co) as (H3 & H4 & _).
  split_and!; [done|exact H4|]. apply Forall_forall. intros c Hin. assert (Hc : fd_ok c) by (repeat (apply elem_of_cons in Hin as [->|Hin]; [done|]); by apply elem_of_nil in Hin).
  split_and!; [done|by apply live_fds_spec|by apply count_spec].
Qed.

(** A table with an open descriptor and a reservation. *)
Definition ok_hook (_ : Z) : result unit := Ok tt.

Definition sample (files : list (option Z)) (open reserved : Z) (ev : list Event) : Tab :=
  {| tb_files := files; tb_open := [open]; tb_cloexec := [1]; tb_reserved := [reserved]; tb_events := ev |}.

Lemma sample_life : exists t g,
  life ok_hook ok_hook t g /\ slot t 0%nat = Opened 7 true /\ slot t 1%nat = Reserved false /\ slot t 2%nat = Opened 7 false /\ g 7 = 1.
Proof.
  pose (t1 := sample [Some 7] 1 0 []). pose (t2 := sample [Some 7; None] 3 2 []). pose (t3 := sample [Some 7; None; Some 7] 7 2 [Cloned 7]).
  assert (E1 : exec ok_hook ok_hook (CInstall 7 O_CLOEXEC 64) new_table = Done (Ok 0, t1)) by (vm_compute; reflexivity).
  assert (E2 : exec ok_hook ok_hook (CReserve 0 64) t1 = Done (Ok 1, t2)) by (vm_compute; reflexivity).
  assert (E3 : exec ok_hook ok_hook (CDup 0 64) t2 = Done (Ok 2, t3)) by (vm_compute; reflexivity).
  pose proof (life_call _ _ _ _ (CInstall 7 O_CLOEXEC 64) _ _ (life_new _ _) I E1) as L1.
  pose proof (life_call _ _ _ _ (CReserve 0 64) _ _ L1 I E2) as L2. pose proof (life_call _ _ _ _ (CDup 0 64) _ _ L2 I E3) as L3.
  do 2 eexists. split; [exact L3|]. split_and!; reflexivity.
Qed.

Lemma fd_calls_refine_witness : exists t g, life ok_hook ok_hook t g /\
  wp (run_calls ok_hook ok_hook [CClose 2; CCloseOnExec]) (fun rs t' =>
    fd_ok t' /\ rs = (spec_calls ok_hook ok_hook [CClose 2; CCloseOnExec] (slot t)).1.1 /\
    (forall fd, slot t' fd = (spec_calls ok_hook ok_hook [CClose 2; CCloseOnExec] (slot t)).1.2 fd) /\
    tb_events t' = tb_events t ++ (spec_calls ok_hook ok_hook [CClose 2; CCloseOnExec] (slot t)).2) t.
Proof.
  destruct sample_life as (t & g & L & _). exists t, g. split; [exact L|]. apply (fd_calls_refine _ _ t g _ L). repeat constructor.
Defined.

Lemma fd_lowest_witness : exists t g, life ok_hook ok_hook t g /\
  Inner.find_free_fd t 0 64 = match lowest_free (slot t) 0 64 with Some fd => Ok fd | None => Err Emfile end.
Proof. destruct sample_life as (t & g & L & _). exists t, g. split; [exact L|exact (fd_lowest _ _ t g 0 64 L)]. Defined.

Lemma fd_references_witness : exists t g, life ok_hook ok_hook t g /\ g 7 = 1 /\ refs 7 (slot t) = tally 7 (tb_events t) + g 7 /\
  wp (Fd.drop_table ok_hook) (fun _ t' => tally 7 (tb_events t') + g 7 = 0) t.
Proof. destruct sample_life as (t & g & L & _ & _ & _ & G). exists t, g. split; [exact L|]. split; [exact G|exact (fd_references _ _ t g 7 L)]. Defined.

Lemma fd_fork_witness : exists t g, life ok_hook ok_hook t g /\
  (forall fd, slot (Fd.fork_clone t) fd = child_slots (slot t) fd).
Proof. destruct sample_life as (t & g & L & _). exists t, g. split; [exact L|exact (proj1 (fd_fork _ _ t g 0 10 false L))]. Defined.
