(* ===== verification/AuditFmt.v ===== *)
(** * Text of audit records

    The number and string formats of [audit/src/fmt.rs]. A byte is a [Z]
    below 256; an output buffer is the list of its bytes. *)

From Stdlib Require Import Ascii.
From stdpp Require Import list.
From S2P Require Import Prelude.

(** A byte-string literal. *)
Definition bytes (s : string) : list Z := map (fun c => Z.of_N (N_of_ascii c)) (list_ascii_of_string s).

Definition b_zero : Z := 48.
Definition b_quote : Z := 34.
Definition b_comma : Z := 44.

Module Fmt.

(** The digits of [v] to the base [b], least significant first: the loop that
    fills [buf]. *)
Fixpoint digits (fuel : nat) (b : Z) (v : Z) : list Z :=
  match fuel with
  | O => []
  | S fuel' => if 0 <? v then v mod b :: digits fuel' b (v / b) else []
  end.

Definition dec (out : list Z) (v : Z) : list Z :=
  if v =? 0 then out ++ [b_zero]
  else out ++ map (fun d => b_zero + d) (rev (digits 20 10 v)).

Definition HEX_LOWER : list Z := bytes "0123456789abcdef".
Definition HEX_UPPER : list Z := bytes "0123456789ABCDEF".

Definition digit_of (table : list Z) (d : Z) : Z := nth (Z.to_nat d) table 0.

Definition hex (out : list Z) (v : Z) : list Z :=
  if v =? 0 then out ++ [b_zero]
  else out ++ map (digit_of HEX_LOWER) (rev (digits 16 16 v)).

Definition FIRST_PRINTABLE : Z := 0x21.
Definition LAST_PRINTABLE : Z := 0x7e.

Definition needs_hex (s : list Z) : bool :=
  existsb (fun c => (c =? b_quote) || (c <? FIRST_PRINTABLE) || (LAST_PRINTABLE <? c)) s.

Definition hex_byte (c : Z) : list Z :=
  [digit_of HEX_UPPER (Z.shiftr c 4); digit_of HEX_UPPER (Z.land c 0xF)].

Definition hex_bytes (out s : list Z) : list Z := out ++ flat_map hex_byte s.

Definition untrusted (out s : list Z) : list Z :=
  match s with
  | [] => out ++ bytes "(null)"
  | _ => if needs_hex s then hex_bytes out s else out ++ [b_quote] ++ s ++ [b_quote]
  end.

End Fmt.
