(* ===== verification/Landlock.v ===== *)
(** * Landlock: rights, rulesets and the layer algebra

    The mask arithmetic, the argument checks and the ruleset under
    construction ([landlock/src/uapi.rs], [abi.rs], [eval.rs], [ruleset.rs]).
    An access mask is a [Z] of 64 bits; an inode is its identity. *)

From stdpp Require Import list.
From S2P Require Import Prelude Result.

(** ** Constants ([uapi.rs]) *)

Definition bit (n : Z) : Z := Z.shiftl 1 n.

Definition ACCESS_FS_EXECUTE : Z := bit 0.
Definition ACCESS_FS_WRITE_FILE : Z := bit 1.
Definition ACCESS_FS_READ_FILE : Z := bit 2.
Definition ACCESS_FS_READ_DIR : Z := bit 3.
Definition ACCESS_FS_REMOVE_DIR : Z := bit 4.
Definition ACCESS_FS_REMOVE_FILE : Z := bit 5.
Definition ACCESS_FS_MAKE_CHAR : Z := bit 6.
Definition ACCESS_FS_MAKE_DIR : Z := bit 7.
Definition ACCESS_FS_MAKE_REG : Z := bit 8.
Definition ACCESS_FS_MAKE_SOCK : Z := bit 9.
Definition ACCESS_FS_MAKE_FIFO : Z := bit 10.
Definition ACCESS_FS_MAKE_BLOCK : Z := bit 11.
Definition ACCESS_FS_MAKE_SYM : Z := bit 12.
Definition ACCESS_FS_REFER : Z := bit 13.
Definition ACCESS_FS_TRUNCATE : Z := bit 14.
Definition ACCESS_FS_IOCTL_DEV : Z := bit 15.
Definition ACCESS_FS_RESOLVE_UNIX : Z := bit 16.

Definition MASK_ACCESS_FS : Z := Z.shiftl ACCESS_FS_RESOLVE_UNIX 1 - 1.

Definition ACCESS_FILE : Z :=
  Z.lor ACCESS_FS_EXECUTE (Z.lor ACCESS_FS_WRITE_FILE (Z.lor ACCESS_FS_READ_FILE
    (Z.lor ACCESS_FS_TRUNCATE (Z.lor ACCESS_FS_IOCTL_DEV ACCESS_FS_RESOLVE_UNIX)))).

Definition ACCESS_FS_INITIALLY_DENIED : Z := ACCESS_FS_REFER.

Definition ACCESS_NET_BIND_TCP : Z := bit 0.
Definition ACCESS_NET_CONNECT_TCP : Z := bit 1.
Definition ACCESS_NET_BIND_UDP : Z := bit 2.
Definition ACCESS_NET_CONNECT_SEND_UDP : Z := bit 3.
Definition MASK_ACCESS_NET : Z := Z.shiftl ACCESS_NET_CONNECT_SEND_UDP 1 - 1.

Definition SCOPE_ABSTRACT_UNIX_SOCKET : Z := bit 0.
Definition SCOPE_SIGNAL : Z := bit 1.
Definition MASK_SCOPE : Z := Z.shiftl SCOPE_SIGNAL 1 - 1.

Definition CREATE_RULESET_VERSION : Z := bit 0.
Definition CREATE_RULESET_ERRATA : Z := bit 1.

Definition ADD_RULE_QUIET : Z := bit 0.
Definition MASK_ADD_RULE : Z := ADD_RULE_QUIET.

Definition RESTRICT_SELF_LOG_SAME_EXEC_OFF : Z := bit 0.
Definition RESTRICT_SELF_LOG_NEW_EXEC_ON : Z := bit 1.
Definition RESTRICT_SELF_LOG_SUBDOMAINS_OFF : Z := bit 2.
Definition RESTRICT_SELF_TSYNC : Z := bit 3.
Definition MASK_RESTRICT_SELF : Z := Z.shiftl RESTRICT_SELF_TSYNC 1 - 1.

Definition RULE_PATH_BENEATH : Z := 1.
Definition RULE_NET_PORT : Z := 2.

Definition ABI_VERSION : Z := 10.
Definition ERRATA : Z := Z.lor (bit 0) (Z.lor (bit 1) (bit 2)).

Definition MAX_NUM_LAYERS : nat := 16.
Definition RULESET_ATTR_SIZE : nat := 48.
Definition RULESET_ATTR_MIN_SIZE : Z := 8.
Definition ATTR_MAX_SIZE : Z := 4096.
Definition PORT_MAX : Z := 65535.

(** [!x] on [u32]. *)
Definition not32 (x : Z) : Z := Z.lxor x U32_MAX.

(** ** Argument checks ([abi.rs]) *)

Module Abi.

Inductive CreateIntent := IntentRuleset | IntentVersion | IntentErrata.

Definition create_intent (attr size flags : Z) : result CreateIntent :=
  if flags =? 0 then Ok IntentRuleset
  else if negb (attr =? 0) || negb (size =? 0) then Err Einval
  else if flags =? CREATE_RULESET_VERSION then Ok IntentVersion
  else if flags =? CREATE_RULESET_ERRATA then Ok IntentErrata
  else Err Einval.

Definition attr_buffer_ok (attr size min_size : Z) : result unit :=
  if attr =? 0 then Err Efault
  else if size <? min_size then Err Einval
  else if ATTR_MAX_SIZE <? size then Err E2big
  else Ok tt.

Record RulesetAttr := {
  ra_handled_fs : Z;
  ra_handled_net : Z;
  ra_scoped : Z;
  ra_quiet_fs : Z;
  ra_quiet_net : Z;
  ra_quiet_scoped : Z;
}.

(** [u64::from_le_bytes]. *)
Fixpoint from_le_bytes (bs : list Z) : Z :=
  match bs with [] => 0 | b :: bs' => b + 256 * from_le_bytes bs' end.

Definition word (buf : list Z) (i : nat) : Z := from_le_bytes (take 8 (drop (i * 8) buf)).

Definition decode (buf : list Z) : RulesetAttr :=
  {| ra_handled_fs := word buf 0; ra_handled_net := word buf 1; ra_scoped := word buf 2;
     ra_quiet_fs := word buf 3; ra_quiet_net := word buf 4; ra_quiet_scoped := word buf 5 |}.

Definition validate (a : RulesetAttr) : result unit :=
  if negb (Z.lor (ra_handled_fs a) MASK_ACCESS_FS =? MASK_ACCESS_FS) then Err Einval
  else if negb (Z.lor (ra_handled_net a) MASK_ACCESS_NET =? MASK_ACCESS_NET) then Err Einval
  else if negb (Z.lor (ra_scoped a) MASK_SCOPE =? MASK_SCOPE) then Err Einval
  else if negb (Z.lor (ra_quiet_fs a) (ra_handled_fs a) =? ra_handled_fs a) then Err Einval
  else if negb (Z.lor (ra_quiet_net a) (ra_handled_net a) =? ra_handled_net a) then Err Einval
  else if negb (Z.lor (ra_quiet_scoped a) (ra_scoped a) =? ra_scoped a) then Err Einval
  else if (ra_handled_fs a =? 0) && (ra_handled_net a =? 0) && (ra_scoped a =? 0) then Err Enomsg
  else Ok tt.

Definition add_rule_flags_ok (flags : Z) : result unit :=
  if negb (Z.lor flags MASK_ADD_RULE =? MASK_ADD_RULE) then Err Einval else Ok tt.

Definition rule_access_ok (allowed handled flags quiet : Z) : result unit :=
  if (flags =? 0) && (allowed =? 0) then Err Enomsg
  else if negb (Z.lor allowed handled =? handled) then Err Einval
  else if negb (Z.land flags ADD_RULE_QUIET =? 0) && (quiet =? 0) then Err Einval
  else Ok tt.

Definition net_port_ok (port : Z) : result unit := if PORT_MAX <? port then Err Einval else Ok tt.

Record RuleTargetFd := { is_ruleset : bool; has_mount : bool; is_anon : bool; sb_nouser : bool }.

Definition rule_target_fd_ok (t : RuleTargetFd) : result unit :=
  if is_ruleset t || negb (has_mount t) || is_anon t || sb_nouser t then Err Ebadfd else Ok tt.

Definition path_target_ok (is_dir : bool) (allowed : Z) : result unit :=
  if negb is_dir && negb (Z.lor allowed ACCESS_FILE =? ACCESS_FILE) then Err Einval else Ok tt.

Definition fs_layer_mask (handled_fs : Z) : Z := Z.lor handled_fs ACCESS_FS_INITIALLY_DENIED.

Definition absolute_access (allowed handled_fs : Z) : Z :=
  Z.lor allowed (Z.land MASK_ACCESS_FS (not64 (fs_layer_mask handled_fs))).

Definition restrict_self_precheck (no_new_privs cap_sys_admin : bool) (flags : Z) : result unit :=
  if negb no_new_privs && negb cap_sys_admin then Err Eperm
  else if negb (Z.lor flags MASK_RESTRICT_SELF =? MASK_RESTRICT_SELF) then Err Einval
  else Ok tt.

Record RestrictPlan := { needs_ruleset : bool; tsync : bool; propagate_no_new_privs : bool }.

Definition restrict_plan (ruleset_fd flags : Z) (no_new_privs : bool) : RestrictPlan :=
  let tsync := negb (Z.land flags RESTRICT_SELF_TSYNC =? 0) in
  let log_only := (ruleset_fd =? -1) &&
    (Z.land flags (not32 RESTRICT_SELF_TSYNC) =? RESTRICT_SELF_LOG_SUBDOMAINS_OFF) in
  {| needs_ruleset := negb log_only; tsync := tsync; propagate_no_new_privs := tsync && no_new_privs |}.

Definition may_stack_layer (layers : nat) : result unit :=
  if (MAX_NUM_LAYERS <=? layers)%nat then Err E2big else Ok tt.

End Abi.

(** ** The layer algebra ([eval.rs]) *)

Record Grant := { g_access : Z; g_quiet : bool }.

Definition no_grant : Grant := {| g_access := 0; g_quiet := false |}.

Definition plain (access : Z) : Grant := {| g_access := access; g_quiet := false |}.

(** Rights still unfulfilled, one entry per layer, outermost first. *)
Record LayerMasks := { layers : list Z; quiet : list bool }.

Module Masks.

Definition default_masks : LayerMasks :=
  {| layers := replicate MAX_NUM_LAYERS 0; quiet := replicate MAX_NUM_LAYERS false |}.

(** The loop of [init] from layer [i] on. *)
Fixpoint init_loop (access_request : Z) (i : nat) (handled : list Z) (ls : list Z) (union : Z) : list Z * Z :=
  match handled with
  | [] => (ls, union)
  | h :: handled' =>
      if (i <? MAX_NUM_LAYERS)%nat then
        let a := Z.land access_request h in
        init_loop access_request (S i) handled' (<[i := a]> ls) (Z.lor union a)
      else (ls, union)
  end.

Definition init (handled : list Z) (access_request : Z) : LayerMasks * Z :=
  if access_request =? 0 then (default_masks, 0)
  else
    let '(ls, union) := init_loop access_request 0 handled (layers default_masks) 0 in
    ({| layers := ls; quiet := quiet default_masks |}, union).

Definition all_clear (m : LayerMasks) : bool := forallb (fun a => a =? 0) (layers m).

Fixpoint unmask_loop (i : nat) (granted : list Grant) (m : LayerMasks) : LayerMasks :=
  match granted with
  | [] => m
  | g :: granted' =>
      if (i <? MAX_NUM_LAYERS)%nat then
        unmask_loop (S i) granted'
          {| layers := alter (fun a => Z.land a (not64 (g_access g))) i (layers m);
             quiet := if g_quiet g then <[i := true]> (quiet m) else quiet m |}
      else m
  end.

Definition unmask (m : LayerMasks) (granted : list Grant) : LayerMasks * bool :=
  let m' := unmask_loop 0 granted m in (m', all_clear m').

(** [for i in (0..n).rev()]. *)
Fixpoint denied_from (m : LayerMasks) (request : Z) (n : nat) : option (nat * Z * bool) :=
  match n with
  | O => None
  | S i =>
      let missing := Z.land (default 0 (layers m !! i)) request in
      if negb (missing =? 0) then Some (i, missing, default false (quiet m !! i)) else denied_from m request i
  end.

Definition denied_layer (m : LayerMasks) (request : Z) : option (nat * Z * bool) :=
  denied_from m request MAX_NUM_LAYERS.

Definition scope_to_request (m : LayerMasks) (access_request : Z) : LayerMasks * bool :=
  let ls := map (fun a => Z.land a access_request) (layers m) in
  ({| layers := ls; quiet := quiet m |}, negb (existsb (fun a => negb (a =? 0)) ls)).

Definition is_eacces (m : LayerMasks) (access_request : Z) : bool :=
  existsb (fun a => negb (Z.land (Z.land a access_request) (not64 ACCESS_FS_REFER) =? 0)) (layers m).

End Masks.

(** One layer of the comparison in [may_refer]. *)
Definition refer_layer_ok (child_is_dir : bool) (src_parent src_child new_parent : Z) : bool :=
  let child_access := Z.land src_parent src_child in
  let child_access := if child_is_dir then child_access else Z.land child_access ACCESS_FILE in
  let parent_access := if child_is_dir then new_parent else Z.land new_parent ACCESS_FILE in
  Z.lor child_access parent_access =? parent_access.

Definition may_refer (src_parent src_child new_parent : LayerMasks) (child_is_dir : bool) : bool :=
  forallb (fun i => refer_layer_ok child_is_dir (default 0 (layers src_parent !! i))
                      (default 0 (layers src_child !! i)) (default 0 (layers new_parent !! i)))
    (seq 0 MAX_NUM_LAYERS).

Definition no_more_access (parent1 child1 : LayerMasks) (child1_is_dir : bool)
    (parent2 : LayerMasks) (child2 : option LayerMasks) (child2_is_dir : bool) : bool :=
  if negb (may_refer parent1 child1 parent2 child1_is_dir) then false
  else match child2 with
  | None => true
  | Some c2 => may_refer parent2 c2 parent1 child2_is_dir
  end.

(** ** Rulesets ([ruleset.rs]) *)

Record FsRule := { fr_inode : Z; fr_allowed : Z; fr_quiet : bool }.

Record NetRule := { nr_port : Z; nr_allowed : Z; nr_quiet : bool }.

Record Ruleset := {
  rs_handled_fs : Z;
  rs_handled_net : Z;
  rs_scoped : Z;
  rs_quiet_fs : Z;
  rs_quiet_net : Z;
  rs_quiet_scoped : Z;
  rs_fs : list FsRule;
  rs_net : list NetRule;
}.

Module Rs.

Definition new (a : Abi.RulesetAttr) : Ruleset :=
  {| rs_handled_fs := Abi.ra_handled_fs a; rs_handled_net := Abi.ra_handled_net a; rs_scoped := Abi.ra_scoped a;
     rs_quiet_fs := Abi.ra_quiet_fs a; rs_quiet_net := Abi.ra_quiet_net a;
     rs_quiet_scoped := Abi.ra_quiet_scoped a; rs_fs := []; rs_net := [] |}.

Definition push_fs (r : FsRule) (rs : Ruleset) : Ruleset :=
  {| rs_handled_fs := rs_handled_fs rs; rs_handled_net := rs_handled_net rs; rs_scoped := rs_scoped rs;
     rs_quiet_fs := rs_quiet_fs rs; rs_quiet_net := rs_quiet_net rs; rs_quiet_scoped := rs_quiet_scoped rs;
     rs_fs := rs_fs rs ++ [r]; rs_net := rs_net rs |}.

Definition push_net (r : NetRule) (rs : Ruleset) : Ruleset :=
  {| rs_handled_fs := rs_handled_fs rs; rs_handled_net := rs_handled_net rs; rs_scoped := rs_scoped rs;
     rs_quiet_fs := rs_quiet_fs rs; rs_quiet_net := rs_quiet_net rs; rs_quiet_scoped := rs_quiet_scoped rs;
     rs_fs := rs_fs rs; rs_net := rs_net rs ++ [r] |}.

Definition add_fs (rs : Ruleset) (inode : Z) (is_dir : bool) (allowed flags : Z) : result Ruleset :=
  rbind (Abi.rule_access_ok allowed (rs_handled_fs rs) flags (rs_quiet_fs rs)) (fun _ =>
  rbind (Abi.path_target_ok is_dir allowed) (fun _ =>
  let quiet := negb (Z.land flags ADD_RULE_QUIET =? 0) in
  let allowed := Abi.absolute_access allowed (rs_handled_fs rs) in
  Ok (push_fs {| fr_inode := inode; fr_allowed := allowed; fr_quiet := quiet |} rs))).

Definition add_net (rs : Ruleset) (port allowed flags : Z) : result Ruleset :=
  rbind (Abi.rule_access_ok allowed (rs_handled_net rs) flags (rs_quiet_net rs)) (fun _ =>
  rbind (Abi.net_port_ok port) (fun _ =>
  let quiet := negb (Z.land flags ADD_RULE_QUIET =? 0) in
  Ok (push_net {| nr_port := port mod 2 ^ 16; nr_allowed := allowed; nr_quiet := quiet |} rs))).

End Rs.
