(* ===== verification/LandlockDomain.v ===== *)
(** * Landlock: enforced domains

    Denial reporting, domains and their access checks, the hierarchy walk,
    reparenting, open-time rights and socket addresses
    ([landlock/src/logging.rs], [audit.rs], [domain.rs], [walk.rs],
    [refer.rs], [access.rs], [netcheck.rs], [net/src/landlock_addr.rs]).

    A [LayerLog] is shared by every domain that inherited its layer: a layer
    holds the index of its log in [Logs], and a check is a computation over
    [Logs]. *)

From stdpp Require Import list.
From S2P Require Import Prelude Result AuditFmt Landlock.

(** ** Which denials a layer reports ([logging.rs]) *)

Inductive LogStatus := Pending | Recorded | Disabled.

#[global] Instance LogStatus_eq_dec : EqDecision LogStatus.
Proof. solve_decision. Defined.

Record LogConfig := { lc_status : LogStatus; same_exec : bool; new_exec : bool }.

Record DomainDetails := { dd_pid : Z; dd_uid : Z; dd_exe : list Z; dd_comm : list Z }.

Definition STATUS_PENDING : Z := 0.
Definition STATUS_RECORDED : Z := 1.
Definition STATUS_DISABLED : Z := 2.

Record LayerLog := { cfg : LogConfig; details : DomainDetails; ll_status : Z; ll_denials : Z }.

Module Log.

Definition default_config : LogConfig := {| lc_status := Pending; same_exec := true; new_exec := false |}.

Definition from_flags (flags : Z) (parent_allows_subdomains : bool) : LogConfig :=
  let same := Z.land flags RESTRICT_SELF_LOG_SAME_EXEC_OFF =? 0 in
  let new_ := negb (Z.land flags RESTRICT_SELF_LOG_NEW_EXEC_ON =? 0) in
  let status := if (negb same && negb new_) || negb parent_allows_subdomains then Disabled else Pending in
  {| lc_status := status; same_exec := same; new_exec := new_ |}.

Definition new (c : LogConfig) (d : DomainDetails) : LayerLog :=
  let status := match lc_status c with
                | Pending => STATUS_PENDING
                | Recorded => STATUS_RECORDED
                | Disabled => STATUS_DISABLED
                end in
  {| cfg := c; details := d; ll_status := status; ll_denials := 0 |}.

Definition status (l : LayerLog) : LogStatus :=
  if ll_status l =? STATUS_RECORDED then Recorded
  else if ll_status l =? STATUS_DISABLED then Disabled
  else Pending.

Definition reports (l : LayerLog) (same_execution : bool) : bool :=
  if decide (status l = Disabled) then false
  else if same_execution then same_exec (cfg l) else new_exec (cfg l).

Definition count_denial (l : LayerLog) : LayerLog :=
  {| cfg := cfg l; details := details l; ll_status := ll_status l; ll_denials := wrap64 (ll_denials l + 1) |}.

(** The compare-and-swap from pending to recorded, and what it saw. *)
Definition claim_description (l : LayerLog) : LayerLog * LogStatus :=
  if ll_status l =? STATUS_PENDING
  then ({| cfg := cfg l; details := details l; ll_status := STATUS_RECORDED; ll_denials := ll_denials l |}, Pending)
  else if ll_status l =? STATUS_RECORDED then (l, Recorded)
  else (l, Disabled).

Definition subdomains_allowed (parent_allows : bool) (flags : Z) : bool :=
  parent_allows && (Z.land flags RESTRICT_SELF_LOG_SUBDOMAINS_OFF =? 0).

(** The word a thread carries. *)
Definition SUBDOMAINS_OFF : Z := bit 31.
Definition EXEC_LAYERS_MASK : Z := Z.shiftl 1 (Z.of_nat MAX_NUM_LAYERS) - 1.

Definition exec_layers (state : Z) : Z := Z.land state EXEC_LAYERS_MASK.

Definition state_allows_subdomains (state : Z) : bool := Z.land state SUBDOMAINS_OFF =? 0.

Definition state_after_restrict (state flags : Z) (layer : option nat) : Z :=
  let out := if negb (subdomains_allowed (state_allows_subdomains state) flags) then Z.lor state SUBDOMAINS_OFF else state in
  match layer with
  | Some l => if (l <? MAX_NUM_LAYERS)%nat then Z.lor out (Z.shiftl 1 (Z.of_nat l)) else out
  | None => out
  end.

Definition state_after_exec (state : Z) : Z := Z.land state (not32 EXEC_LAYERS_MASK).

End Log.

(** ** Domains ([domain.rs]) *)

Record Layer := {
  l_handled_fs : Z;
  l_handled_net : Z;
  l_scoped : Z;
  l_quiet_fs : Z;
  l_quiet_net : Z;
  l_quiet_scoped : Z;
  l_fs : list FsRule;
  l_net : list NetRule;
  l_log : nat;
}.

Record Domain := { d_layers : list Layer; ancestry : list Z }.

(** The reporting state: the logs of all layers, whether auditing is on, what
    the per-thread reader of enforced layers returns (once it is installed),
    and the records written. *)
Record Logs := {
  logs : list LayerLog;
  audit_enabled : bool;
  exec_source : option Z;
  records : list (Z * list Z);
}.

Definition set_logs (x : list LayerLog) (s : Logs) : Logs :=
  {| logs := x; audit_enabled := audit_enabled s; exec_source := exec_source s; records := records s |}.
Definition emit (ty : Z) (body : list Z) (s : Logs) : Logs :=
  {| logs := logs s; audit_enabled := audit_enabled s; exec_source := exec_source s; records := records s ++ [(ty, body)] |}.

(** ** Denial records ([audit.rs]) *)

Inductive RequestType := FsAccess | NetAccess | ScopeAbstractUnixSocket | ScopeSignal.

Definition AUDIT_LANDLOCK_ACCESS : Z := 1423.
Definition AUDIT_LANDLOCK_DOMAIN : Z := 1424.

Module Audit.

Definition FS_BLOCKERS : list string :=
  ["fs.execute"; "fs.write_file"; "fs.read_file"; "fs.read_dir"; "fs.remove_dir";
   "fs.remove_file"; "fs.make_char"; "fs.make_dir"; "fs.make_reg"; "fs.make_sock";
   "fs.make_fifo"; "fs.make_block"; "fs.make_sym"; "fs.refer"; "fs.truncate";
   "fs.ioctl_dev"; "fs.resolve_unix"]%string.

Definition NET_BLOCKERS : list string :=
  ["net.bind_tcp"; "net.connect_tcp"; "net.bind_udp"; "net.connect_send_udp"]%string.

Definition blocker_name (ty : RequestType) (index : nat) : list Z :=
  bytes (match ty with
         | FsAccess => default "unknown"%string (FS_BLOCKERS !! index)
         | NetAccess => default "unknown"%string (NET_BLOCKERS !! index)
         | ScopeAbstractUnixSocket => "scope.abstract_unix_socket"%string
         | ScopeSignal => "scope.signal"%string
         end).

(** An index no table has ([usize::MAX]). *)
Definition no_index : nat := 64.

(** The loop over the bits [i], [i + 1], ... of [missing]. *)
Fixpoint blockers_loop (ty : RequestType) (missing : Z) (n i : nat) (first : bool) (out : list Z) : list Z * bool :=
  match n with
  | O => (out, first)
  | S n' =>
      if Z.land missing (bit (Z.of_nat i)) =? 0 then blockers_loop ty missing n' (S i) first out
      else
        let out := if first then out else out ++ [b_comma] in
        blockers_loop ty missing n' (S i) false (out ++ blocker_name ty i)
  end.

Definition blockers (out : list Z) (ty : RequestType) (missing : Z) : list Z :=
  let '(out, first) := blockers_loop ty missing 64 0 true out in
  if first then out ++ blocker_name ty no_index else out.

Definition access_body (domain_id : Z) (ty : RequestType) (missing : Z) : list Z :=
  blockers (Fmt.hex (bytes "domain=") domain_id ++ bytes " blockers=") ty missing.

Definition domain_body (domain_id : Z) (d : DomainDetails) : list Z :=
  let b := Fmt.hex (bytes "domain=") domain_id in
  let b := Fmt.dec (b ++ bytes " status=allocated mode=enforcing pid=") (dd_pid d) in
  let b := Fmt.dec (b ++ bytes " uid=") (dd_uid d) in
  let b := Fmt.untrusted (b ++ bytes " exe=") (dd_exe d) in
  Fmt.untrusted (b ++ bytes " comm=") (dd_comm d).

Definition drop_body (domain_id denials : Z) : list Z :=
  let b := Fmt.hex (bytes "domain=") domain_id in
  Fmt.dec (b ++ bytes " status=deallocated denials=") denials.

Definition quieted (ty : RequestType) (object_quiet : bool) (missing quiet_fs quiet_net quiet_scoped : Z) : bool :=
  match ty with
  | FsAccess => object_quiet && (Z.land quiet_fs missing =? missing)
  | NetAccess => object_quiet && (Z.land quiet_net missing =? missing)
  | ScopeAbstractUnixSocket => negb (Z.land quiet_scoped SCOPE_ABSTRACT_UNIX_SOCKET =? 0)
  | ScopeSignal => negb (Z.land quiet_scoped SCOPE_SIGNAL =? 0)
  end.

Definition same_execution (s : Logs) (layer : nat) : bool :=
  match exec_source s with
  | None => false
  | Some state =>
      if (MAX_NUM_LAYERS <=? layer)%nat then false
      else negb (Z.land state (Z.shiftl 1 (Z.of_nat layer)) =? 0)
  end.

(** Replace the log of a layer. *)
Definition put_log (i : nat) (l : LayerLog) : M Logs unit := modify (fun s => set_logs (<[i := l]> (logs s)) s).

Definition log_denial (dom : Domain) (ty : RequestType) (layer : nat) (missing : Z)
    (object_quiet same_execution : bool) : M Logs unit :=
  match d_layers dom !! layer with
  | None => ret tt
  | Some l =>
      s ← get;
      log ← expect (logs s !! l_log l) "layer log";
      let log := Log.count_denial log in
      put_log (l_log l) log ;;
      if negb (Log.reports log same_execution) then ret tt
      else if quieted ty object_quiet missing (l_quiet_fs l) (l_quiet_net l) (l_quiet_scoped l) then ret tt
      else if negb (audit_enabled s) then ret tt
      else
        let id := default 0 (ancestry dom !! layer) in
        modify (emit AUDIT_LANDLOCK_ACCESS (access_body id ty missing)) ;;
        let '(log, seen) := Log.claim_description log in
        put_log (l_log l) log ;;
        if decide (seen = Pending) then modify (emit AUDIT_LANDLOCK_DOMAIN (domain_body id (details log)))
        else ret tt
  end.

Definition log_drop_layer (domain_id : Z) (l : Layer) : M Logs unit :=
  s ← get;
  log ← expect (logs s !! l_log l) "layer log";
  if negb (bool_decide (Log.status log = Recorded)) then ret tt
  else if negb (audit_enabled s) then ret tt
  else modify (emit AUDIT_LANDLOCK_DOMAIN (drop_body domain_id (ll_denials log))).

End Audit.

(** ** The hierarchy walk ([walk.rs]) *)

(** What the walk reads of the file system tree: the parent and the inode of a
    dentry, the root of a mount and the point it is mounted on, and the types
    of inodes. *)
Inductive FileType := Regular | Directory | Symlink | CharDev | BlockDev | Fifo | Socket.

#[global] Instance FileType_eq_dec : EqDecision FileType.
Proof. solve_decision. Defined.

Record Vfs := {
  d_parent : Z -> option Z;
  d_inode : Z -> option Z;
  mountpoint_of : Z -> option (Z * Z);
  root_dentry_for_mount_id : Z -> option Z;
  file_type : Z -> FileType;
}.

Record Node := { n_mnt : Z; n_dentry : Z; n_inode : Z }.

Record VfsPath := { p_mnt : Z; p_dentry : Z }.

Module Walk.

Definition MAX_WALK : nat := 4096.

Definition at_mount_root (w : Vfs) (mnt d : Z) : bool :=
  match root_dentry_for_mount_id w mnt with Some r => r =? d | None => false end.

(** The node of a dentry that has an inode. *)
Definition node_of (w : Vfs) (mnt d : Z) : list Node :=
  match d_inode w d with Some i => [{| n_mnt := mnt; n_dentry := d; n_inode := i |}] | None => [] end.

(** Where the walk goes from a dentry; [None] ends it. *)
Definition up (w : Vfs) (mnt d : Z) : option (Z * Z) :=
  if at_mount_root w mnt d then
    match mountpoint_of w mnt with Some (mp, parent) => Some (parent, mp) | None => None end
  else match d_parent w d with Some p => Some (mnt, p) | None => None end.

Fixpoint from_loop (w : Vfs) (fuel : nat) (mnt d : Z) : list Node :=
  match fuel with
  | O => []
  | S fuel' =>
      node_of w mnt d ++
      match up w mnt d with Some (mnt', d') => from_loop w fuel' mnt' d' | None => [] end
  end.

Definition from (w : Vfs) (mnt d : Z) : list Node := from_loop w MAX_WALK mnt d.

Definition ancestors (w : Vfs) (p : VfsPath) : list Node := from w (p_mnt p) (p_dentry p).

Fixpoint up_to_loop (w : Vfs) (fuel : nat) (mnt d stop : Z) : list Node :=
  match fuel with
  | O => []
  | S fuel' =>
      node_of w mnt d ++
      (if d =? stop then []
       else match d_parent w d with Some p => up_to_loop w fuel' mnt p stop | None => [] end)
  end.

Definition up_to (w : Vfs) (mnt d stop : Z) : list Node := up_to_loop w MAX_WALK mnt d stop.

Fixpoint top_loop (w : Vfs) (fuel : nat) (d : Z) : Z :=
  match fuel with
  | O => d
  | S fuel' => match d_parent w d with Some p => top_loop w fuel' p | None => d end
  end.

Definition mount_root (w : Vfs) (mnt d : Z) : Z :=
  match root_dentry_for_mount_id w mnt with Some r => r | None => top_loop w MAX_WALK d end.

End Walk.

(** ** Access checks ([domain.rs]) *)

Module Dom.

Definition fs_mask (l : Layer) : Z := Abi.fs_layer_mask (l_handled_fs l).

Definition granted_at (l : Layer) (n : Node) : Grant :=
  foldl (fun g r => if negb (fr_inode r =? n_inode n) then g
                    else {| g_access := Z.lor (g_access g) (fr_allowed r); g_quiet := g_quiet g || fr_quiet r |})
    no_grant (l_fs l).

Definition granted_port (l : Layer) (port : Z) : Grant :=
  foldl (fun g r => if negb (nr_port r =? port) then g
                    else {| g_access := Z.lor (g_access g) (nr_allowed r); g_quiet := g_quiet g || nr_quiet r |})
    no_grant (l_net l).

Definition num_layers (d : Domain) : nat := length (d_layers d).
Definition fs_masks (d : Domain) : list Z := map fs_mask (d_layers d).
Definition net_masks (d : Domain) : list Z := map l_handled_net (d_layers d).
Definition handles_net (d : Domain) (access : Z) : bool :=
  existsb (fun l => negb (Z.land (l_handled_net l) access =? 0)) (d_layers d).
Definition handles_fs (d : Domain) (access : Z) : bool :=
  existsb (fun l => negb (Z.land (fs_mask l) access =? 0)) (d_layers d).
Definition union_fs_mask (d : Domain) : Z := foldl (fun a l => Z.lor a (fs_mask l)) 0 (d_layers d).
Definition grants_at (d : Domain) (n : Node) : list Grant := map (fun l => granted_at l n) (d_layers d).

(** Stack a snapshot of the ruleset on the layers of the parent. The identity
    comes from the counter of domains, the log of the new layer is new, and
    the layers below keep theirs. *)
Definition merge_logged (next_id : Z) (parent : option Domain) (rs : Ruleset) (log : LogConfig) (det : DomainDetails)
  : M Logs (result Domain) :=
  match match parent with Some p => Abi.may_stack_layer (length (d_layers p)) | None => Ok tt end with
  | Err e => ret (Err e)
  | Ok _ =>
      let below := match parent with Some p => d_layers p | None => [] end in
      let ids := match parent with Some p => ancestry p | None => [] end in
      s ← get;
      modify (set_logs (logs s ++ [Log.new log det])) ;;
      ret (Ok {| d_layers := below ++
                   [{| l_handled_fs := rs_handled_fs rs; l_handled_net := rs_handled_net rs; l_scoped := rs_scoped rs;
                       l_quiet_fs := rs_quiet_fs rs; l_quiet_net := rs_quiet_net rs;
                       l_quiet_scoped := rs_quiet_scoped rs; l_fs := rs_fs rs; l_net := rs_net rs;
                       l_log := length (logs s) |}];
                 ancestry := ids ++ [next_id] |})
  end.

Definition report_denial_masks (d : Domain) (m : LayerMasks) (ty : RequestType) (request : Z) : M Logs unit :=
  match Masks.denied_layer m request with
  | None => ret tt
  | Some (layer, missing, object_quiet) =>
      s ← get;
      Audit.log_denial d ty layer missing object_quiet (Audit.same_execution s layer)
  end.

(** Unmask along the chain; [inl] once nothing is left, else what is. *)
Fixpoint walk_masks (d : Domain) (chain : list Node) (m : LayerMasks) : unit + LayerMasks :=
  match chain with
  | [] => inr m
  | n :: chain' =>
      let '(m, clear) := Masks.unmask m (grants_at d n) in
      if clear then inl tt else walk_masks d chain' m
  end.

Definition check_fs_chain (d : Domain) (chain : list Node) (access : Z) : M Logs (result unit) :=
  let '(m, req) := Masks.init (fs_masks d) access in
  if req =? 0 then ret (Ok tt)
  else match walk_masks d chain m with
  | inl _ => ret (Ok tt)
  | inr m => report_denial_masks d m FsAccess req ;; ret (Err Eacces)
  end.

Definition check_fs (w : Vfs) (d : Domain) (path : VfsPath) (access : Z) : M Logs (result unit) :=
  check_fs_chain d (Walk.ancestors w path) access.

Definition peer_inside_at (d : Domain) (peer : option Domain) (level : nat) : bool :=
  match peer with
  | None => false
  | Some p => (level <? length (ancestry p))%nat && (default 0 (ancestry p !! level) =? default 0 (ancestry d !! level))
  end.

Definition check_unix_resolve (w : Vfs) (d : Domain) (path : VfsPath) (peer : option Domain) : M Logs (result unit) :=
  let req := ACCESS_FS_RESOLVE_UNIX in
  let '(m, union) := Masks.init (fs_masks d) req in
  if union =? 0 then ret (Ok tt)
  else
    let inside := map (fun i => plain (if peer_inside_at d peer i then req else 0)) (seq 0 (length (d_layers d))) in
    let '(m, clear) := Masks.unmask m inside in
    if clear then ret (Ok tt)
    else match walk_masks d (Walk.ancestors w path) m with
    | inl _ => ret (Ok tt)
    | inr m => report_denial_masks d m FsAccess req ;; ret (Err Eacces)
    end.

Definition check_net (d : Domain) (port access : Z) : M Logs (result unit) :=
  let '(m, req) := Masks.init (net_masks d) access in
  if req =? 0 then ret (Ok tt)
  else
    let granted := map (fun l => granted_port l port) (d_layers d) in
    let '(m, clear) := Masks.unmask m granted in
    if clear then ret (Ok tt)
    else report_denial_masks d m NetAccess req ;; ret (Err Eacces).

(** The loop of [scope_denies] from the layer [level] on. *)
Fixpoint scope_loop (d : Domain) (scope : Z) (peer : option Domain) (level : nat) (ls : list Layer) : M Logs bool :=
  match ls with
  | [] => ret false
  | l :: ls' =>
      if Z.land (l_scoped l) scope =? 0 then scope_loop d scope peer (S level) ls'
      else if peer_inside_at d peer level then scope_loop d scope peer (S level) ls'
      else
        let ty := if scope =? SCOPE_SIGNAL then ScopeSignal else ScopeAbstractUnixSocket in
        s ← get;
        Audit.log_denial d ty level 0 false (Audit.same_execution s level) ;;
        ret true
  end.

Definition scope_denies (d : Domain) (scope : Z) (peer : option Domain) : M Logs bool :=
  scope_loop d scope peer 0 (d_layers d).

Definition scopes (d : Domain) (scope : Z) : bool :=
  existsb (fun l => negb (Z.land (l_scoped l) scope =? 0)) (d_layers d).

Definition scope_denied (subject peer : option Domain) (scope : Z) : M Logs bool :=
  match subject with
  | None => ret false
  | Some d => if scopes d scope then scope_denies d scope peer else ret false
  end.

(** [Drop for Domain]: [shared l] says another domain still holds the log. *)
Definition drop_domain (shared : Layer -> bool) (d : Domain) : M Logs unit :=
  for_each (imap (fun i l => (i, l)) (d_layers d)) (fun il =>
    if shared il.2 then ret tt else Audit.log_drop_layer (default 0 (ancestry d !! il.1)) il.2).

End Dom.
