(* ===== verification/LandlockAccess.v ===== *)
(** * Landlock: what each operation asks for

    Reparenting ([landlock/src/refer.rs]), open-time rights ([access.rs]) and
    socket addresses ([netcheck.rs], [net/src/landlock_addr.rs]). *)

From stdpp Require Import list.
From S2P Require Import Prelude Result Landlock LandlockDomain.

(** ** Link and rename ([refer.rs]) *)

Record Target := { t_dentry : Z; t_inode : Z }.

Module Refer.

Definition is_dir (w : Vfs) (t : Target) : bool := bool_decide (file_type w (t_inode t) = Directory).

Definition mode_access (ft : FileType) : Z :=
  match ft with
  | Symlink => ACCESS_FS_MAKE_SYM
  | Directory => ACCESS_FS_MAKE_DIR
  | CharDev => ACCESS_FS_MAKE_CHAR
  | BlockDev => ACCESS_FS_MAKE_BLOCK
  | Fifo => ACCESS_FS_MAKE_FIFO
  | Socket => ACCESS_FS_MAKE_SOCK
  | Regular => ACCESS_FS_MAKE_REG
  end.

Definition maybe_remove (w : Vfs) (t : option Target) : Z :=
  match t with
  | None => 0
  | Some t => if is_dir w t then ACCESS_FS_REMOVE_DIR else ACCESS_FS_REMOVE_FILE
  end.

(** The rights withheld from [dir] up to the mount root, and whether none is:
    a walk that clears the masks ends there. *)
Fixpoint collect_loop (d : Domain) (chain : list Node) (m : LayerMasks) : LayerMasks * bool :=
  match chain with
  | [] => (m, false)
  | n :: chain' =>
      let '(m, clear) := Masks.unmask m (Dom.grants_at d n) in
      if clear then (m, true) else collect_loop d chain' m
  end.

Definition collect_domain_accesses (w : Vfs) (d : Domain) (mnt dir mnt_root : Z) : LayerMasks * bool :=
  let '(m, req) := Masks.init (Dom.fs_masks d) MASK_ACCESS_FS in
  if req =? 0 then (m, true) else collect_loop d (Walk.up_to w mnt dir mnt_root) m.

Definition child_masks (d : Domain) (mnt : Z) (t : Target) : LayerMasks :=
  let '(m, req) := Masks.init (Dom.fs_masks d) MASK_ACCESS_FS in
  if negb (req =? 0) then
    (Masks.unmask m (Dom.grants_at d {| n_mnt := mnt; n_dentry := t_dentry t; n_inode := t_inode t |})).1
  else m.

(** The state of the dual walk. *)
Record Dual := { dom_check : bool; m1 : LayerMasks; m2 : LayerMasks; allowed1 : bool; allowed2 : bool }.

Section dual.
Context (d : Domain) (req1 req2 : Z) (child1 : LayerMasks) (child1_is_dir : bool)
  (child2 : option LayerMasks) (child2_is_dir : bool).

(** Once the destination is no less restricted than the source, only the
    requested rights matter. *)
Definition narrow (s : Dual) : Dual :=
  if dom_check s && no_more_access (m1 s) child1 child1_is_dir (m2 s) child2 child2_is_dir then
    let '(n1, c1) := if allowed1 s then (m1 s, true) else Masks.scope_to_request (m1 s) req1 in
    let '(n2, c2) := if allowed2 s then (m2 s, true) else Masks.scope_to_request (m2 s) req2 in
    {| dom_check := false; m1 := n1; m2 := n2; allowed1 := c1; allowed2 := c2 |}
  else s.

Definition climb (n : Node) (s : Dual) : Dual :=
  let granted := Dom.grants_at d n in
  let '(n1, a1) := Masks.unmask (m1 s) granted in
  let '(n2, a2) := Masks.unmask (m2 s) granted in
  {| dom_check := dom_check s; m1 := n1; m2 := n2; allowed1 := allowed1 s || a1; allowed2 := allowed2 s || a2 |}.

(** Both sides are allowed. *)
Definition both (s : Dual) : bool := allowed1 s && allowed2 s.

Fixpoint dual_loop (chain : list Node) (s : Dual) : Dual * bool :=
  match chain with
  | [] => (s, both s)
  | n :: chain' =>
      let s1 := narrow s in
      if dom_check s && negb (dom_check s1) && both s1 then (s1, true)
      else
        let s2 := climb n s1 in
        if both s2 then (s2, true) else dual_loop chain' s2
  end.

Definition dual_walk (chain : list Node) (ma mb : LayerMasks) : Dual * bool :=
  dual_loop chain {| dom_check := true; m1 := ma; m2 := mb; allowed1 := Masks.all_clear ma; allowed2 := Masks.all_clear mb |}.

End dual.

(** The parent the source is inherited from. *)
Definition old_parent (w : Vfs) (old : Target) (mnt_root : Z) : Z :=
  if t_dentry old =? mnt_root then t_dentry old
  else match d_parent w (t_dentry old) with Some p => p | None => t_dentry old end.

(** The reparenting check proper, when the directories differ. *)
Definition check_reparent (w : Vfs) (d : Domain) (old_dir : VfsPath) (old : Target) (new_dir : VfsPath)
    (new : option Target) (exchange : bool) (req1 req2 : Z) : M Logs (result unit) :=
  let req1 := Z.lor req1 ACCESS_FS_REFER in
  let req2 := Z.lor req2 ACCESS_FS_REFER in
  let mnt_root := Walk.mount_root w (p_mnt new_dir) (p_dentry new_dir) in
  let '(ma, allow1) := collect_domain_accesses w d (p_mnt old_dir) (old_parent w old mnt_root) mnt_root in
  let '(mb, allow2) := collect_domain_accesses w d (p_mnt new_dir) (p_dentry new_dir) mnt_root in
  if allow1 && allow2 then ret (Ok tt)
  else
    let c1 := child_masks d (p_mnt old_dir) old in
    let c2 := if exchange then option_map (child_masks d (p_mnt new_dir)) new else None in
    let '(s, ok) := dual_walk d req1 req2 c1 (is_dir w old) c2 (default false (option_map (is_dir w) new))
                      (Walk.from w (p_mnt new_dir) mnt_root) ma mb in
    if ok then ret (Ok tt)
    else
      Dom.report_denial_masks d (m1 s) FsAccess req1 ;;
      Dom.report_denial_masks d (m2 s) FsAccess req2 ;;
      if Masks.is_eacces (m1 s) req1 || Masks.is_eacces (m2 s) req2 then ret (Err Eacces) else ret (Err Exdev).

(** The rights a link or a rename asks for on the two sides. *)
Definition requests (w : Vfs) (old : Target) (new : option Target) (removable exchange : bool) : result (Z * Z) :=
  match (if exchange then match new with None => Err Enoent | Some n => Ok (mode_access (file_type w (t_inode n))) end
         else Ok 0) with
  | Err e => Err e
  | Ok req1 =>
      let req2 := mode_access (file_type w (t_inode old)) in
      if removable then Ok (Z.lor req1 (maybe_remove w (Some old)), Z.lor req2 (maybe_remove w new)) else Ok (req1, req2)
  end.

Definition check (w : Vfs) (d : Domain) (old_dir : VfsPath) (old : Target) (new_dir : VfsPath) (new : option Target)
    (removable exchange : bool) : M Logs (result unit) :=
  match requests w old new removable exchange with
  | Err e => ret (Err e)
  | Ok (req1, req2) =>
      if (p_mnt old_dir =? p_mnt new_dir) && (p_dentry old_dir =? p_dentry new_dir)
      then Dom.check_fs w d new_dir (Z.lor req1 req2)
      else check_reparent w d old_dir old new_dir new exchange req1 req2
  end.

End Refer.

(** ** Opens ([access.rs]) *)

Module Access.

Definition open_access (readable writable exec is_dir : bool) : Z :=
  if readable && is_dir then Z.lor ACCESS_FS_READ_DIR (if writable then ACCESS_FS_WRITE_FILE else 0)
  else
    let a := if readable then ACCESS_FS_READ_FILE else 0 in
    let a := if writable then Z.lor a ACCESS_FS_WRITE_FILE else a in
    if exec then Z.lor a ACCESS_FS_EXECUTE else a.

Definition is_device (ft : FileType) : bool := match ft with CharDev | BlockDev => true | _ => false end.

Definition open_decide (w : Vfs) (d : Domain) (path : VfsPath) (open_req : Z) (is_device : bool) : M Logs (result Z) :=
  let optional := if is_device then Z.lor ACCESS_FS_TRUNCATE ACCESS_FS_IOCTL_DEV else ACCESS_FS_TRUNCATE in
  let full := Z.lor open_req optional in
  let '(m, req) := Masks.init (Dom.fs_masks d) full in
  if req =? 0 then ret (Ok full)
  else match Dom.walk_masks d (Walk.ancestors w path) m with
  | inl _ => ret (Ok full)
  | inr m =>
      let allowed := foldl (fun a l => Z.land a (not64 l)) full (layers m) in
      if negb (Z.lor open_req allowed =? allowed) then Dom.report_denial_masks d m FsAccess open_req ;; ret (Err Eacces)
      else ret (Ok allowed)
  end.

Definition truncate_allowed (recorded : Z) : bool := negb (Z.land recorded ACCESS_FS_TRUNCATE =? 0).

Definition masked_device_ioctl (cmd : Z) : bool :=
  existsb (fun c => cmd =? c)
    [0x5451; 0x5450; 0x5421; 0x5452; 0x5460; 0xC0045877; 0xC0045878; 0xC020660B; 0x2; 0x40049409; 0x4020940D;
     0xC0189436; 0x80111500; 0x80811501].

Definition ioctl_allowed (recorded : Z) (is_device : bool) (cmd : Z) : bool :=
  if negb (Z.land recorded ACCESS_FS_IOCTL_DEV =? 0) then true
  else if negb is_device then true
  else masked_device_ioctl cmd.

End Access.

(** ** Socket addresses ([netcheck.rs]) *)

Module Net.

Definition AF_UNSPEC : Z := 0.
Definition AF_INET : Z := 2.
Definition AF_INET6 : Z := 10.
Definition SOCKADDR_FAMILY_LEN : Z := 2.
Definition SOCKADDR_IN_LEN : Z := 16.
Definition SOCKADDR_IN6_LEN : Z := 24.

Inductive Proto := Tcp | Udp | Other.

Inductive Op := Bind | Connect | Send.

#[global] Instance Op_eq_dec : EqDecision Op.
Proof. solve_decision. Defined.

Definition bind_request (p : Proto) : option Z :=
  match p with Tcp => Some ACCESS_NET_BIND_TCP | Udp => Some ACCESS_NET_BIND_UDP | Other => None end.

Definition connect_request (p : Proto) : option Z :=
  match p with Tcp => Some ACCESS_NET_CONNECT_TCP | Udp => Some ACCESS_NET_CONNECT_SEND_UDP | Other => None end.

Inductive Verdict := Allow | CheckPort (port : Z) | Fail_ (e : Errno).

Record Addr := { sa_family : Z; addrlen : Z; port : Z; v4_wildcard : bool }.

Definition byte_at (bs : list Z) (i : nat) : Z := default 0 (bs !! i).

Definition parse (bs : list Z) : Addr :=
  let u16_le i := if (length bs <? i + 2)%nat then 0 else byte_at bs i + 256 * byte_at bs (S i) in
  let u16_be i := if (length bs <? i + 2)%nat then 0 else 256 * byte_at bs i + byte_at bs (S i) in
  {| sa_family := u16_le 0%nat; addrlen := Z.of_nat (length bs); port := u16_be 2%nat;
     v4_wildcard := (8 <=? length bs)%nat && forallb (fun b => b =? 0) (take 4 (drop 4 bs)) |}.

(** The family of an address whose own family is unspecified, or the answer. *)
Definition unspec_family (access : Z) (op : Op) (a : Addr) (sock_family : Z) : Verdict + Z :=
  let binding := (access =? ACCESS_NET_BIND_TCP) || (access =? ACCESS_NET_BIND_UDP) in
  if (access =? ACCESS_NET_CONNECT_TCP) || ((access =? ACCESS_NET_CONNECT_SEND_UDP) && bool_decide (op = Connect))
  then inl Allow
  else if (access =? ACCESS_NET_CONNECT_SEND_UDP) && (sock_family =? AF_INET6) then inl (Fail_ Eacces)
  else if binding then
    if sock_family =? AF_INET then
      if addrlen a <? SOCKADDR_IN_LEN then inl (Fail_ Einval)
      else if negb (v4_wildcard a) then inl (Fail_ Eafnosupport)
      else inr AF_INET
    else if addrlen a <? SOCKADDR_IN6_LEN then inl (Fail_ Einval)
    else inl (Fail_ Eafnosupport)
  else inr AF_INET.

Definition classify (access : Z) (op : Op) (a : Addr) (sock_family : Z) : Verdict :=
  if addrlen a <? SOCKADDR_FAMILY_LEN then Fail_ Einval
  else match (if sa_family a =? AF_UNSPEC then unspec_family access op a sock_family else inr (sa_family a)) with
  | inl v => v
  | inr family =>
      if family =? AF_INET then if addrlen a <? SOCKADDR_IN_LEN then Fail_ Einval else CheckPort (port a)
      else if family =? AF_INET6 then if addrlen a <? SOCKADDR_IN6_LEN then Fail_ Einval else CheckPort (port a)
      else Allow
  end.

(** [net_error]: only argument errors keep their identity. *)
Definition net_error (e : Errno) : Errno := match e with Einval => Einval | Eafnosupport => Eafnosupport | _ => Eacces end.

Definition addr_verdict (client : option Domain) (proto : Proto) (op : Op) (bs : list Z) (sock_family : Z)
  : M Logs (result unit) :=
  match client with
  | None => ret (Ok tt)
  | Some d =>
      match (if decide (op = Bind) then bind_request proto else connect_request proto) with
      | None => ret (Ok tt)
      | Some req =>
          if negb (Dom.handles_net d req) then ret (Ok tt)
          else match classify req op (parse bs) sock_family with
          | Allow => ret (Ok tt)
          | Fail_ e => ret (Err (net_error e))
          | CheckPort p =>
              r ← Dom.check_net d p req;
              ret (match r with Ok _ => Ok tt | Err e => Err (net_error e) end)
          end
      end
  end.

End Net.
