(* ===== verification/LandlockSpec.v ===== *)
(** * Landlock: the algebra of layers, bit by bit

    A right is the number of a bit. [unmet m i r] says the masks still miss
    the right [r] at the layer [i]; the operations on masks are specified by
    what they do to it. *)

From stdpp Require Import list.
From S2P Require Import Prelude Words Result Landlock LandlockDomain.

(** ** Masks *)

Definition unmet (m : LayerMasks) (i : nat) (r : Z) : bool := Z.testbit (default 0 (layers m !! i)) r.

Record masks_ok (m : LayerMasks) : Prop := {
  mo_layers : length (layers m) = MAX_NUM_LAYERS;
  mo_quiet : length (quiet m) = MAX_NUM_LAYERS;
  mo_word : forall i a, layers m !! i = Some a -> u64 a;
}.

Definition met_all (m : LayerMasks) : Prop := forall i r, unmet m i r = false.

Lemma mo_default m i : masks_ok m -> u64 (default 0 (layers m !! i)).
Proof. intros Hm. destruct (layers m !! i) as [a|] eqn:E; cbn; [by eapply mo_word|done]. Qed.

Lemma all_clear_iff m : Masks.all_clear m = true <-> met_all m.
Proof.
  unfold Masks.all_clear, met_all, unmet. rewrite forallb_forall. split.
  - intros H i r. destruct (layers m !! i) as [a|] eqn:E; cbn; [|apply Z.bits_0].
    apply list_elem_of_lookup_2, list_elem_of_In, H in E. to_prop. subst a. apply Z.bits_0.
  - intros H a (i & Ha)%list_elem_of_In%list_elem_of_lookup. apply Z.eqb_eq, no_bits. intros r.
    specialize (H i r). by rewrite Ha in H.
Qed.

Lemma not_clear_some m : masks_ok m -> Masks.all_clear m = false -> exists i r, unmet m i r = true.
Proof.
  intros Hm Hc. destruct (existsb (fun a => negb (a =? 0)) (layers m)) eqn:E.
  - apply existsb_exists in E as (a & (i & Hi)%list_elem_of_In%list_elem_of_lookup & Hne). to_prop.
    destruct (some_bit a) as [r Hr]; [by apply (mo_word _ Hm i)|done|]. exists i, r. unfold unmet. by rewrite Hi.
  - exfalso. unfold Masks.all_clear in Hc. revert E Hc. generalize (layers m). intros l.
    induction l as [|a l IH]; cbn; [done|]. destruct (a =? 0); cbn; [exact IH|done].
Qed.

Lemma replicate_ok : masks_ok Masks.default_masks.
Proof.
  constructor; [apply length_replicate..|]. intros i a [-> _]%lookup_replicate. done.
Qed.

(** The loop writes [access & handled] for the layers from [i] on. *)
Lemma init_loop_spec access i handled ls union ls' union' :
  u64 access -> length ls = MAX_NUM_LAYERS -> (i + length handled <= MAX_NUM_LAYERS)%nat ->
  Masks.init_loop access i handled ls union = (ls', union') ->
  length ls' = MAX_NUM_LAYERS /\
  (forall j, ls' !! j = if decide (i <= j < i + length handled)%nat
                        then option_map (Z.land access) (handled !! (j - i)%nat) else ls !! j) /\
  forall r, Z.testbit union' r = Z.testbit union r || existsb (fun h => Z.testbit access r && Z.testbit h r) handled.
Proof.
  revert i ls union. induction handled as [|h handled IH]; intros i ls union Ha Hl Hi; cbn [Masks.init_loop length] in *.
  { intros [= <- <-]. split_and!; [done| |intros r; cbn; by rewrite orb_false_r].
    intros j. destruct (decide _); [lia|done]. }
  rewrite (proj2 (Nat.ltb_lt _ _)) by lia. intros H. apply IH in H as (Hl' & Hj & Hu); [|done|by rewrite length_insert|lia].
  split_and!; [done| |].
  - intros j. rewrite Hj. destruct (decide (S i <= j < S i + length handled)%nat).
    + destruct (decide _); [|lia]. by replace (j - i)%nat with (S (j - S i)) by lia.
    + destruct (decide (i = j)) as [->|Hne].
      * rewrite list_lookup_insert_eq by lia. destruct (decide _); [|lia]. by rewrite Nat.sub_diag.
      * rewrite list_lookup_insert_ne by done. destruct (decide _); [lia|done].
  - intros r. rewrite Hu, Z.lor_spec, Z.land_spec. cbn [existsb]. by rewrite orb_assoc.
Qed.

(** What a request still misses at a layer, before the walk. *)
Definition wanted (handled : list Z) (access : Z) (i : nat) (r : Z) : bool :=
  Z.testbit access r && Z.testbit (default 0 (handled !! i)) r.

Lemma init_spec handled access m req :
  u64 access -> (length handled <= MAX_NUM_LAYERS)%nat -> Masks.init handled access = (m, req) ->
  masks_ok m /\ (forall i r, unmet m i r = wanted handled access i r) /\ (req = 0 <-> met_all m) /\
  forall r, Z.testbit req r = true <-> exists i, unmet m i r = true.
Proof.
  intros Ha Hl. unfold Masks.init. destruct (access =? 0) eqn:E0; to_prop.
  { intros [= <- <-]. subst. assert (Hd : forall i r, unmet Masks.default_masks i r = false).
    { apply all_clear_iff. done. }
    split_and!; [apply replicate_ok| |done|].
    - intros i r. rewrite Hd. unfold wanted. by rewrite Z.bits_0.
    - intros r. rewrite Z.bits_0. split; [done|]. intros [i Hi]. by rewrite Hd in Hi. }
  destruct (Masks.init_loop _ _ _ _ _) as [ls union] eqn:El. intros [= <- <-].
  apply init_loop_spec in El as (Hl' & Hj & Hu); [|done|apply length_replicate|cbn; lia].
  assert (Hm : forall i r, unmet {| layers := ls; quiet := quiet Masks.default_masks |} i r = wanted handled access i r).
  { intros i r. unfold unmet, wanted. cbn [layers]. rewrite Hj. destruct (decide _) as [Hr|Hr].
    - rewrite Nat.sub_0_r. destruct (handled !! i) as [h|]; cbn; [by rewrite Z.land_spec|]. by rewrite Z.bits_0, andb_false_r.
    - rewrite (proj2 (lookup_ge_None handled i)) by lia. cbn [default]. rewrite Z.bits_0, andb_false_r.
      destruct (layers Masks.default_masks !! i) as [a|] eqn:E'; [|apply Z.bits_0].
      apply lookup_replicate in E' as [-> _]. apply Z.bits_0. }
  assert (Hreq : forall r, Z.testbit union r = true <-> exists i, unmet {| layers := ls; quiet := quiet Masks.default_masks |} i r = true).
  { intros r. rewrite Hu, Z.bits_0. cbn [orb]. rewrite existsb_exists. split.
    - intros (h & (i & Hi)%list_elem_of_In%list_elem_of_lookup & Hb). exists i. rewrite Hm. unfold wanted. by rewrite Hi.
    - intros [i Hi]. rewrite Hm in Hi. unfold wanted in Hi. destruct (handled !! i) as [h|] eqn:E; cbn in Hi.
      + exists h. split; [|done]. by apply list_elem_of_In, (list_elem_of_lookup_2 _ i).
      + by rewrite Z.bits_0, andb_false_r in Hi. }
  split_and!; [|done| |done].
  - constructor; cbn [layers quiet]; [done|done|]. intros i a Hi. rewrite Hj in Hi. destruct (decide _).
    + destruct (handled !! _) as [h|]; [|done]. cbn in Hi. simplify_eq. by apply u64_land.
    + by apply lookup_replicate in Hi as [-> _].
  - rewrite no_bits. split.
    + intros H i r. destruct (unmet _ i r) eqn:E; [|done]. rewrite <- (H r). symmetry. apply Hreq. eauto.
    + intros H r. destruct (Z.testbit union r) eqn:E; [|done]. apply Hreq in E as [i Hi]. by rewrite H in Hi.
Qed.

(** What a list of grants gives a layer. *)
Definition given (granted : list Grant) (i : nat) (r : Z) : bool :=
  Z.testbit (g_access (default no_grant (granted !! i))) r.

Lemma unmask_loop_spec i granted m :
  masks_ok m -> (i + length granted <= MAX_NUM_LAYERS)%nat ->
  masks_ok (Masks.unmask_loop i granted m) /\
  forall j r, unmet (Masks.unmask_loop i granted m) j r =
    unmet m j r && negb (if decide (i <= j)%nat then given granted (j - i) r else false).
Proof.
  revert i m. induction granted as [|g granted IH]; intros i m Hm Hi; cbn [Masks.unmask_loop length] in *.
  { split; [done|]. intros j r. unfold given. rewrite lookup_nil. cbn. rewrite Z.bits_0.
    destruct (decide _); by rewrite andb_true_r. }
  rewrite (proj2 (Nat.ltb_lt _ _)) by lia. set (m' := {| layers := _; quiet := _ |}).
  assert (Hm' : masks_ok m').
  { destruct Hm as [H1 H2 H3]. constructor; cbn [m' layers quiet].
    - by rewrite length_alter.
    - destruct (g_quiet g); [by rewrite length_insert|done].
    - intros j a Ha. destruct (decide (i = j)) as [->|Hne].
      + rewrite list_lookup_alter_eq in Ha. destruct (layers m !! j) as [b|] eqn:E; [|done]. cbn in Ha. simplify_eq.
        by apply u64_land, (H3 j).
      + rewrite list_lookup_alter_ne in Ha by done. by eapply H3. }
  destruct (IH (S i) m' Hm' ltac:(lia)) as [Hok Hu]. split; [done|]. intros j r. rewrite Hu.
  assert (Hj : unmet m' j r = unmet m j r && negb (if decide (j = i) then Z.testbit (g_access g) r else false)).
  { unfold unmet. cbn [m' layers]. destruct (decide (j = i)) as [->|Hne].
    - rewrite list_lookup_alter_eq. destruct (layers m !! i) as [b|] eqn:E; cbn; [|by rewrite Z.bits_0].
      apply land_not64. exact (mo_word _ Hm i b E).
    - rewrite list_lookup_alter_ne by done. by rewrite andb_true_r. }
  rewrite Hj, <- andb_assoc. f_equal. destruct (decide (j = i)) as [->|Hne].
  - destruct (decide (S i <= i)%nat); [lia|]. destruct (decide (i <= i)%nat); [|lia]. rewrite Nat.sub_diag. cbn.
    by rewrite andb_true_r.
  - cbn. destruct (decide (S i <= j)%nat); destruct (decide (i <= j)%nat); try (lia || done).
    by replace (j - i)%nat with (S (j - S i)) by lia.
Qed.

Lemma unmask_spec m granted m' b :
  masks_ok m -> (length granted <= MAX_NUM_LAYERS)%nat -> Masks.unmask m granted = (m', b) ->
  masks_ok m' /\ (b = true <-> met_all m') /\ forall i r, unmet m' i r = unmet m i r && negb (given granted i r).
Proof.
  intros Hm Hl [= <- <-]. destruct (unmask_loop_spec 0 granted m Hm ltac:(cbn; lia)) as [Hok Hu].
  split_and!; [done|apply all_clear_iff|]. intros i r. rewrite Hu, Nat.sub_0_r. destruct (decide _); [done|lia].
Qed.

(** ** Quiet objects *)

Definition muted (m : LayerMasks) (i : nat) : bool := default false (quiet m !! i).

Lemma unmask_loop_muted i granted m j :
  length (quiet m) = MAX_NUM_LAYERS -> (i + length granted <= MAX_NUM_LAYERS)%nat ->
  muted (Masks.unmask_loop i granted m) j =
    muted m j || (if decide (i <= j)%nat then g_quiet (default no_grant (granted !! (j - i)%nat)) else false).
Proof.
  revert i m. induction granted as [|g granted IH]; intros i m Hm Hi; cbn [Masks.unmask_loop length] in *.
  { rewrite lookup_nil. cbn. destruct (decide _); by rewrite orb_false_r. }
  rewrite (proj2 (Nat.ltb_lt _ _)) by lia. rewrite IH; [|cbn; destruct (g_quiet g); by rewrite ?length_insert|lia].
  assert (Hj : forall m' : LayerMasks, quiet m' = (if g_quiet g then <[i := true]> (quiet m) else quiet m) ->
    muted m' j = muted m j || (if decide (j = i) then g_quiet g else false)).
  { intros m' Hq. unfold muted. rewrite Hq. destruct (g_quiet g); [|destruct (decide _); by rewrite orb_false_r].
    destruct (decide (j = i)) as [->|]; [rewrite list_lookup_insert_eq by lia; by rewrite orb_true_r|].
    by rewrite list_lookup_insert_ne, orb_false_r. }
  erewrite Hj by done. rewrite <- orb_assoc. f_equal. destruct (decide (j = i)) as [->|].
  - destruct (decide (S i <= i)%nat); [lia|]. destruct (decide (i <= i)%nat); [|lia]. rewrite Nat.sub_diag. cbn. by rewrite orb_false_r.
  - cbn [orb]. destruct (decide (S i <= j)%nat); destruct (decide (i <= j)%nat); try (lia || done).
    by replace (j - i)%nat with (S (j - S i)) by lia.
Qed.

Lemma unmask_muted m granted m' b j :
  masks_ok m -> (length granted <= MAX_NUM_LAYERS)%nat -> Masks.unmask m granted = (m', b) ->
  muted m' j = muted m j || g_quiet (default no_grant (granted !! j)).
Proof.
  intros Hm Hl [= <- <-]. rewrite unmask_loop_muted; [|apply Hm|done]. rewrite Nat.sub_0_r. destruct (decide _); [done|lia].
Qed.

Lemma init_muted handled access m req j : Masks.init handled access = (m, req) -> muted m j = false.
Proof.
  assert (H : default false (replicate MAX_NUM_LAYERS false !! j) = false).
  { destruct (replicate MAX_NUM_LAYERS false !! j) as [b|] eqn:E; [|done]. by apply lookup_replicate in E as [-> _]. }
  unfold Masks.init. destruct (access =? 0); [by intros [= <- <-]|]. destruct (Masks.init_loop _ _ _ _ _). by intros [= <- <-].
Qed.
