(* ===== verification/LandlockCheck.v ===== *)
(** * Landlock: what a check decides

    [allows] states the policy of a domain over a hierarchy; the checks of
    [LandlockDomain] and [LandlockAccess] are compared with it. *)

From stdpp Require Import list.
From S2P Require Import Prelude Words Result Landlock LandlockDomain LandlockAccess LandlockSpec.

(** ** Well-formed domains *)

(** [a] holds no right outside [b]. *)
Definition within (a b : Z) : Prop := 0 <= a /\ forall r, Z.testbit a r = true -> Z.testbit b r = true.

Record layer_ok (l : Layer) : Prop := {
  lo_fs : within (l_handled_fs l) MASK_ACCESS_FS;
  lo_net : within (l_handled_net l) MASK_ACCESS_NET;
  lo_scoped : within (l_scoped l) MASK_SCOPE;
}.

Record domain_ok (d : Domain) : Prop := {
  do_len : (length (d_layers d) <= MAX_NUM_LAYERS)%nat;
  do_ids : length (ancestry d) = length (d_layers d);
  do_layers : forall l, l ∈ d_layers d -> layer_ok l;
}.

(** The log of every layer exists. *)
Definition logged (d : Domain) (s : Logs) : Prop := forall l, l ∈ d_layers d -> (l_log l < length (logs s))%nat.

(** ** The policy *)

(** A rule of the layer on a node of the hierarchy grants the right. *)
Definition granted_on (l : Layer) (chain : list Node) (r : Z) : Prop :=
  exists n rule, n ∈ chain /\ rule ∈ l_fs l /\ fr_inode rule = n_inode n /\ Z.testbit (fr_allowed rule) r = true.

(** Every layer grants every requested right it filters. *)
Definition allows (d : Domain) (chain : list Node) (access : Z) : Prop :=
  forall l r, l ∈ d_layers d -> Z.testbit access r = true -> Z.testbit (Dom.fs_mask l) r = true -> granted_on l chain r.

Definition granted_net (l : Layer) (port r : Z) : Prop :=
  exists rule, rule ∈ l_net l /\ nr_port rule = port /\ Z.testbit (nr_allowed rule) r = true.

Definition allows_net (d : Domain) (port access : Z) : Prop :=
  forall l r, l ∈ d_layers d -> Z.testbit access r = true -> Z.testbit (l_handled_net l) r = true -> granted_net l port r.

(** ** Grants *)

(** The union the loop over the rules computes. *)
Lemma fold_grants {A} (allowed : A -> Z) (quiet : A -> bool) (skip : A -> bool) (l : list A) g r :
  Z.testbit (g_access (foldl (fun g x => if skip x then g else
      {| g_access := Z.lor (g_access g) (allowed x); g_quiet := g_quiet g || quiet x |}) g l)) r = true <->
  Z.testbit (g_access g) r = true \/ exists x, x ∈ l /\ skip x = false /\ Z.testbit (allowed x) r = true.
Proof.
  revert g. induction l as [|x l IH]; intros g; cbn [foldl].
  { split; [by left|]. intros [?|(x & Hx & _)]; [done|by apply not_elem_of_nil in Hx]. }
  rewrite IH. setoid_rewrite elem_of_cons. destruct (skip x) eqn:Es; cbn [g_access]; rewrite ?Z.lor_spec, ?orb_true_iff.
  - split; [intros [?|(y & ? & ?)]; [by left|right; eauto]|]. intros [?|(y & [->|?] & Hy & ?)]; [by left|congruence|right; eauto].
  - split.
    + intros [[?|?]|(y & ? & ?)]; [by left|right; exists x; auto|right; eauto].
    + intros [?|(y & [->|?] & Hy & ?)]; [by left; left|by left; right|right; eauto].
Qed.

Lemma granted_at_iff l n r :
  Z.testbit (g_access (Dom.granted_at l n)) r = true <-> granted_on l [n] r.
Proof.
  unfold Dom.granted_at. rewrite (fold_grants fr_allowed fr_quiet (fun x => negb (fr_inode x =? n_inode n))).
  cbn [no_grant g_access]. rewrite Z.bits_0. unfold granted_on. split.
  - intros [?|(x & Hx & Hs & Hb)]; [done|]. to_prop. exists n, x. split_and!; [by apply list_elem_of_singleton|done..].
  - intros (n' & x & ->%list_elem_of_singleton & Hx & Hi & Hb). right. exists x. split_and!; [done| |done].
    apply negb_false_iff, Z.eqb_eq. done.
Qed.

Lemma granted_port_iff l port r :
  Z.testbit (g_access (Dom.granted_port l port)) r = true <-> granted_net l port r.
Proof.
  unfold Dom.granted_port. rewrite (fold_grants nr_allowed nr_quiet (fun x => negb (nr_port x =? port))).
  cbn [no_grant g_access]. rewrite Z.bits_0. unfold granted_net. split.
  - intros [?|(x & Hx & Hs & Hb)]; [done|]. to_prop. eauto.
  - intros (x & Hx & Hi & Hb). right. exists x. split_and!; [done| |done]. apply negb_false_iff, Z.eqb_eq. done.
Qed.

(** The layer [i] is given the right somewhere on the chain. *)
Definition along (d : Domain) (chain : list Node) (i : nat) (r : Z) : bool :=
  existsb (fun n => given (Dom.grants_at d n) i r) chain.

Lemma along_app d c1 c2 i r : along d (c1 ++ c2) i r = along d c1 i r || along d c2 i r.
Proof. apply existsb_app. Qed.

Lemma along_iff d chain i r :
  along d chain i r = true <-> exists l, d_layers d !! i = Some l /\ granted_on l chain r.
Proof.
  unfold along, given, Dom.grants_at. rewrite existsb_exists. split.
  - intros (n & Hn%list_elem_of_In & Hb). rewrite list_lookup_fmap in Hb. destruct (d_layers d !! i) as [l|] eqn:E; cbn in Hb.
    + apply granted_at_iff in Hb as (n' & x & ->%list_elem_of_singleton & ?). exists l. split; [done|]. exists n, x. auto.
    + by rewrite Z.bits_0 in Hb.
  - intros (l & Hl & n & x & Hn & Hx). exists n. split; [by apply list_elem_of_In|]. rewrite list_lookup_fmap, Hl. cbn.
    apply granted_at_iff. exists n, x. split; [by apply list_elem_of_singleton|done].
Qed.

Lemma wanted_iff {A} (f : A -> Z) l access i r :
  wanted (map f l) access i r = true <->
  exists x, l !! i = Some x /\ Z.testbit access r = true /\ Z.testbit (f x) r = true.
Proof.
  unfold wanted. rewrite andb_true_iff, list_lookup_fmap. destruct (l !! i) as [x|]; cbn.
  - split; [intros [? ?]; eauto|]. intros (y & [= <-] & ?). done.
  - rewrite Z.bits_0. split; [by intros []|]. by intros (? & ? & _).
Qed.

Lemma allows_iff d chain access :
  allows d chain access <-> forall i r, wanted (Dom.fs_masks d) access i r = true -> along d chain i r = true.
Proof.
  split.
  - intros H i r (l & Hl & Ha & Hf)%wanted_iff. apply along_iff. exists l. split; [done|].
    apply H; [by eapply list_elem_of_lookup_2|done..].
  - intros H l r (i & Hi)%list_elem_of_lookup Ha Hf. specialize (H i r (proj2 (wanted_iff _ _ _ _ _) (ex_intro _ l (conj Hi (conj Ha Hf))))).
    apply along_iff in H as (l' & Hl' & ?). congruence.
Qed.

Lemma grants_len d n : domain_ok d -> (length (Dom.grants_at d n) <= MAX_NUM_LAYERS)%nat.
Proof. intros Hd. unfold Dom.grants_at. rewrite length_map. apply Hd. Qed.

Lemma masks_len d : domain_ok d -> (length (Dom.fs_masks d) <= MAX_NUM_LAYERS)%nat.
Proof. intros Hd. unfold Dom.fs_masks. rewrite length_map. apply Hd. Qed.

(** ** Walks *)

Lemma collect_loop_spec d chain m m' b :
  domain_ok d -> masks_ok m -> Refer.collect_loop d chain m = (m', b) ->
  masks_ok m' /\ (b = true -> met_all m') /\ (b = false -> met_all m' -> met_all m) /\
  forall i r, unmet m' i r = unmet m i r && negb (along d chain i r).
Proof.
  intros Hd. revert m. induction chain as [|n chain IH]; intros m Hm; cbn [Refer.collect_loop].
  { intros [= <- <-]. split_and!; [done|done|done|]. intros i r. cbn. by rewrite andb_true_r. }
  destruct (Masks.unmask m (Dom.grants_at d n)) as [m1 c] eqn:E.
  destruct (unmask_spec _ _ _ _ Hm (grants_len d n Hd) E) as (Hm1 & Hc & Hu). destruct c.
  - intros [= <- <-]. assert (Hall : met_all m1) by by apply Hc. split_and!; [done|done|done|]. intros i r. cbn [along existsb].
    pose proof (Hall i r) as H0. rewrite Hu in H0. rewrite (Hall i r). symmetry. unfold along.
    destruct (unmet m i r); [|done]. cbn in *. destruct (given _ i r); [done|done].
  - intros H. destruct (IH _ Hm1 H) as (Hok & Ht & Hf & Hu'). split_and!; [done|done| |].
    + intros -> Hall. by pose proof (proj2 Hc (Hf eq_refl Hall)).
    + intros i r. rewrite Hu', Hu. cbn [along existsb]. unfold along. destruct (unmet m i r), (given _ i r); done.
Qed.

Lemma walk_collect d chain m :
  Dom.walk_masks d chain m = (let '(m', b) := Refer.collect_loop d chain m in if b then inl tt else inr m').
Proof.
  revert m. induction chain as [|n chain IH]; intros m; cbn; [done|].
  destruct (Masks.unmask_loop _ _ _) eqn:E. destruct (Masks.all_clear _); [done|]. apply IH.
Qed.

(** A walk from masks that miss something: everything is granted, or the
    masks left say what is not. *)
Lemma walk_masks_spec d chain m :
  domain_ok d -> masks_ok m ->
  match Dom.walk_masks d chain m with
  | inl _ => forall i r, unmet m i r = true -> along d chain i r = true
  | inr m' => masks_ok m' /\ (met_all m' -> met_all m) /\ forall i r, unmet m' i r = unmet m i r && negb (along d chain i r)
  end.
Proof.
  intros Hd Hm. rewrite walk_collect. destruct (Refer.collect_loop d chain m) as [m' b] eqn:E.
  destruct (collect_loop_spec _ _ _ _ _ Hd Hm E) as (Hok & Ht & Hf & Hu). destruct b.
  - intros i r Hi. pose proof (Ht eq_refl i r) as H0. rewrite Hu, Hi in H0. cbn in H0. by apply negb_false_iff in H0.
  - auto.
Qed.

(** ** Denials *)

Section note.
Context (d : Domain) (ty : RequestType) (layer : nat) (missing : Z) (object_quiet : bool).

(** The denial reaches the audit log. *)
Definition shown (l : Layer) (log : LayerLog) (s : Logs) : bool :=
  Log.reports log (Audit.same_execution s layer) &&
  negb (Audit.quieted ty object_quiet missing (l_quiet_fs l) (l_quiet_net l) (l_quiet_scoped l)) && audit_enabled s.

(** The state after the layer [l] with the log [log] refused. *)
Definition note (l : Layer) (log : LayerLog) (s : Logs) : Logs :=
  let first := shown l log s && (ll_status log =? STATUS_PENDING) in
  let id := default 0 (ancestry d !! layer) in
  {| logs := <[l_log l := {| cfg := cfg log; details := details log;
                             ll_status := if first then STATUS_RECORDED else ll_status log;
                             ll_denials := wrap64 (ll_denials log + 1) |}]> (logs s);
     audit_enabled := audit_enabled s;
     exec_source := exec_source s;
     records := records s ++
       (if shown l log s then [(AUDIT_LANDLOCK_ACCESS, Audit.access_body id ty missing)] else []) ++
       (if first then [(AUDIT_LANDLOCK_DOMAIN, Audit.domain_body id (details log))] else []) |}.

Lemma log_denial_spec l log s :
  d_layers d !! layer = Some l -> logs s !! l_log l = Some log ->
  wp (Audit.log_denial d ty layer missing object_quiet (Audit.same_execution s layer)) (fun _ s' => s' = note l log s) s.
Proof.
  intros Hl Hlog. unfold Audit.log_denial, note, shown. rewrite Hl. wp_step. wp_step. wp_step. rewrite Hlog. wp_step.
  wp_step. unfold Audit.put_log at 1. wp_step.
  change (Log.reports (Log.count_denial log)) with (Log.reports log).
  destruct (Log.reports log _) eqn:Er; cbn [negb andb app]; [|wp_step; unfold set_logs; by rewrite app_nil_r].
  destruct (Audit.quieted _ _ _ _ _ _); cbn [negb andb app]; [wp_step; unfold set_logs; by rewrite app_nil_r|].
  destruct (audit_enabled s) eqn:Ea; cbn [negb andb app]; [|wp_step; unfold set_logs; by rewrite app_nil_r, Ea].
  wp_step. wp_step. unfold Log.claim_description. cbn [Log.count_denial ll_status cfg details ll_denials].
  bool_case (ll_status log =? STATUS_PENDING); [|destruct (ll_status log =? STATUS_RECORDED)];
    wp_step; unfold Audit.put_log; wp_step; destruct (decide _); try done; wp_step; cbn; unfold emit, set_logs; cbn; rewrite list_insert_insert_eq, ?Ea; try done.
  by rewrite <- app_assoc.
Qed.

End note.

(** A refusal: the youngest layer that misses a right counts it. *)
Lemma denied_from_spec m request n :
  match Masks.denied_from m request n with
  | Some (i, missing, q) =>
      (i < n)%nat /\ missing = Z.land (default 0 (layers m !! i)) request /\ missing <> 0 /\ q = default false (quiet m !! i) /\
      forall j, (i < j < n)%nat -> Z.land (default 0 (layers m !! j)) request = 0
  | None => forall j, (j < n)%nat -> Z.land (default 0 (layers m !! j)) request = 0
  end.
Proof.
  induction n as [|n IH]; cbn [Masks.denied_from]; [lia|]. bool_case (Z.land (default 0 (layers m !! n)) request =? 0); cbn [negb].
  - destruct (Masks.denied_from m request n) as [[[i missing] q]|].
    + destruct IH as (Hi & Hm & Hn & Hq & Hj). split_and!; [lia|done..|]. intros j Hb. destruct (decide (j = n)) as [->|]; [done|apply Hj; lia].
    + intros j Hb. destruct (decide (j = n)) as [->|]; [done|apply IH; lia].
  - split_and!; [lia|done..|]. lia.
Qed.

(** A refusal was reported: [f i r] says the layer [i] misses the right [r],
    [q i] that a quiet rule covers the object there. The youngest layer that
    misses anything counts the denial, for all the rights it misses. *)
Definition reported (d : Domain) (ty : RequestType) (f : nat -> Z -> bool) (q : nat -> bool) (s s' : Logs) : Prop :=
  exists i l log missing,
    d_layers d !! i = Some l /\ logs s !! l_log l = Some log /\
    missing <> 0 /\ (forall r, Z.testbit missing r = f i r) /\ (forall j r, (i < j)%nat -> f j r = false) /\
    s' = note d ty i missing (q i) l log s.

Lemma unmet_below m i r : masks_ok m -> unmet m i r = true -> (i < MAX_NUM_LAYERS)%nat.
Proof.
  intros Hm H. destruct (decide (i < MAX_NUM_LAYERS)%nat); [done|]. unfold unmet in H.
  rewrite (proj2 (lookup_ge_None (layers m) i)) in H by (rewrite (mo_layers _ Hm); lia). by rewrite Z.bits_0 in H.
Qed.

Lemma report_spec d m ty req f s :
  masks_ok m -> logged d s -> (forall i r, f i r = unmet m i r && Z.testbit req r) ->
  (forall i r, f i r = true -> (i < length (d_layers d))%nat) -> (exists i r, f i r = true) ->
  wp (Dom.report_denial_masks d m ty req) (fun _ s' => reported d ty f (fun i => default false (quiet m !! i)) s s') s.
Proof.
  intros Hm Hlog Hf Hin (i0 & r0 & H0). unfold Dom.report_denial_masks, Masks.denied_layer.
  assert (Hz : forall j, Z.land (default 0 (layers m !! j)) req = 0 -> forall r, f j r = false).
  { intros j Hj r. rewrite Hf. unfold unmet. rewrite <- Z.land_spec, Hj. apply Z.bits_0. }
  assert (Hb : forall j r, f j r = true -> (j < MAX_NUM_LAYERS)%nat).
  { intros j r Hj. rewrite Hf, andb_true_iff in Hj. eapply unmet_below; [done|apply Hj]. }
  pose proof (denied_from_spec m req MAX_NUM_LAYERS) as Hd. destruct (Masks.denied_from m req MAX_NUM_LAYERS) as [[[i missing] q]|].
  - destruct Hd as (Hi & Hmiss & Hne & Hq & Hj). wp_step. wp_step.
    assert (Hbits : forall r, Z.testbit missing r = f i r) by (intros r; rewrite Hf, Hmiss; apply Z.land_spec).
    destruct (some_bit missing) as [r Hr]; [rewrite Hmiss; apply Z.land_nonneg; left; apply (mo_default m i Hm)|done|].
    rewrite Hbits in Hr. destruct (lookup_lt_is_Some_2 _ _ (Hin _ _ Hr)) as [l Hl].
    destruct (lookup_lt_is_Some_2 (logs s) (l_log l)) as [log Hlg]; [apply Hlog; by eapply list_elem_of_lookup_2|].
    eapply wp_mono; [by apply log_denial_spec|]. intros _ s' ->. exists i, l, log, missing. split_and!; try done.
    + intros j r' Hij. destruct (f j r') eqn:E; [|done]. by rewrite (Hz j (Hj j (conj Hij (Hb _ _ E))) r') in E.
    + by rewrite Hq.
  - by rewrite (Hz i0 (Hd i0 (Hb _ _ H0)) r0) in H0.
Qed.

(** ** The checks *)

(** A quiet rule of the layer [i] is on the chain. *)
Definition hushed (d : Domain) (chain : list Node) (i : nat) : bool :=
  existsb (fun n => g_quiet (default no_grant (Dom.grants_at d n !! i))) chain.

Lemma walk_masks_muted d chain m m' i :
  domain_ok d -> masks_ok m -> Dom.walk_masks d chain m = inr m' -> muted m' i = muted m i || hushed d chain i.
Proof.
  intros Hd. revert m. induction chain as [|n chain IH]; intros m Hm; cbn [Dom.walk_masks].
  { intros [= <-]. cbn. by rewrite orb_false_r. }
  destruct (Masks.unmask m (Dom.grants_at d n)) as [m1 c] eqn:E. destruct c; [done|]. intros H.
  destruct (unmask_spec _ _ _ _ Hm (grants_len d n Hd) E) as (Hm1 & _ & _).
  rewrite (IH _ Hm1 H), (unmask_muted _ _ _ _ i Hm (grants_len d n Hd) E), <- orb_assoc. done.
Qed.

(** The layer [i] filters the right [r] of the request and grants it nowhere
    on the chain. *)
Definition refused (d : Domain) (chain : list Node) (access : Z) (i : nat) (r : Z) : bool :=
  wanted (Dom.fs_masks d) access i r && negb (along d chain i r).

Lemma refused_in d chain access i r : refused d chain access i r = true -> (i < length (d_layers d))%nat.
Proof.
  unfold refused. rewrite andb_true_iff. intros [(l & Hl & _)%wanted_iff _]. by eapply lookup_lt_Some.
Qed.

Lemma allows_refused d chain access : allows d chain access <-> forall i r, refused d chain access i r = false.
Proof.
  rewrite allows_iff. unfold refused. split; intros H i r; specialize (H i r).
  - destruct (wanted _ _ i r); [by rewrite H|done].
  - intros Hw. rewrite Hw in H. by apply negb_false_iff in H.
Qed.

Section check.
Context (d : Domain) (Hd : domain_ok d) (s : Logs) (Hlog : logged d s).

(** The walk of a request from fresh masks. *)
Lemma walk_init chain access m req :
  u64 access -> Masks.init (Dom.fs_masks d) access = (m, req) ->
  masks_ok m /\ (forall i r, unmet m i r = wanted (Dom.fs_masks d) access i r) /\
  (req = 0 -> allows d chain access) /\ (forall r, Z.testbit req r = true <-> exists i, wanted (Dom.fs_masks d) access i r = true) /\
  (req <> 0 -> match Dom.walk_masks d chain m with
   | inl _ => allows d chain access
   | inr m' => masks_ok m' /\ (forall i r, unmet m' i r = refused d chain access i r) /\
               (forall i, muted m' i = hushed d chain i) /\ ~ allows d chain access
   end).
Proof.
  intros Ha E. pose proof (masks_len d Hd) as Hlen. destruct (init_spec _ _ _ _ Ha Hlen E) as (Hm & Hu & Hz & Hb).
  split_and!; [done|done| | |].
  - intros H0. apply allows_iff. intros i r Hw. rewrite <- Hu in Hw. by rewrite (proj1 Hz H0) in Hw.
  - intros r. rewrite Hb. by setoid_rewrite Hu.
  - intros Hne. pose proof (walk_masks_spec d chain m Hd Hm) as Hw. destruct (Dom.walk_masks d chain m) as [[]|m'] eqn:Ew.
    + apply allows_iff. intros i r Hi. apply Hw. by rewrite Hu.
    + destruct Hw as (Hok & Hmet & Hu'). assert (Hr : forall i r, unmet m' i r = refused d chain access i r).
      { intros i r. by rewrite Hu', Hu. }
      split_and!; [done|done| |].
      * intros i. by rewrite (walk_masks_muted _ _ _ _ i Hd Hm Ew), (init_muted _ _ _ _ i E).
      * rewrite allows_refused. intros Hall. apply Hne, Hz, Hmet. intros i r. by rewrite Hr.
Qed.

Lemma not_allows_some chain access : u64 access -> ~ allows d chain access -> exists i r, refused d chain access i r = true.
Proof.
  intros Ha Hn. destruct (Masks.init (Dom.fs_masks d) access) as [m req] eqn:E.
  destruct (walk_init chain access m req Ha E) as (_ & _ & Hz & _ & Hw).
  destruct (decide (req = 0)) as [H0|Hne]; [by apply Hz in H0|]. specialize (Hw Hne).
  destruct (Dom.walk_masks d chain m) as [|m']; [done|]. destruct Hw as (Hok & Hu & _ & _).
  destruct (Masks.all_clear m') eqn:Ec.
  { pose proof (proj1 (all_clear_iff _) Ec) as Hall. exfalso. apply Hn, allows_refused. intros i r. rewrite <- Hu. apply Hall. }
  destruct (not_clear_some m' Hok Ec) as (i & r & Hi). exists i, r. by rewrite <- Hu.
Qed.

(** The report of a refused walk. *)
Lemma refuse_spec {A} chain access m req :
  u64 access -> masks_ok m -> ~ allows d chain access ->
  (forall i r, refused d chain access i r = unmet m i r && Z.testbit req r) -> (forall i, muted m i = hushed d chain i) ->
  wp (Dom.report_denial_masks d m FsAccess req ;; ret (Err Eacces : result A)) (fun r s' =>
    r = Err Eacces /\ reported d FsAccess (refused d chain access) (hushed d chain) s s') s.
Proof.
  intros Ha Hm Hn Hf Hq. wp_step. eapply wp_mono; [apply report_spec with (f := refused d chain access)|]; try done.
  - apply refused_in.
  - by apply not_allows_some.
  - intros _ s' (i & l & log & missing & ? & ? & ? & ? & ? & ->). wp_step. split; [done|]. exists i, l, log, missing.
    split_and!; try done. fold (muted m i). by rewrite Hq.
Qed.

(** A request over a chain is granted or reported. *)
Lemma check_fs_spec chain access :
  u64 access ->
  wp (Dom.check_fs_chain d chain access) (fun r s' =>
    (allows d chain access /\ r = Ok tt /\ s' = s) \/
    (~ allows d chain access /\ r = Err Eacces /\ reported d FsAccess (refused d chain access) (hushed d chain) s s')) s.
Proof.
  intros Ha. unfold Dom.check_fs_chain. destruct (Masks.init (Dom.fs_masks d) access) as [m req] eqn:E.
  destruct (walk_init chain access m req Ha E) as (Hm & Hu & Hz & Hb & Hw). destruct (req =? 0) eqn:E0; to_prop.
  { wp_step. auto. }
  specialize (Hw E0). destruct (Dom.walk_masks d chain m) as [|m']; [wp_step; auto|]. destruct Hw as (Hok & Hr & Hq & Hn).
  eapply wp_mono; [apply (refuse_spec chain access m' req); try done|].
  - intros i r. rewrite Hr. destruct (refused d chain access i r) eqn:Er; [|done]. cbn. symmetry. apply Hb. exists i.
    by apply andb_true_iff in Er as [].
  - intros r s' [-> ?]. auto.
Qed.

(** ** Opens *)

(** Every layer that filters the right grants it on the chain. *)
Definition allows_right (chain : list Node) (r : Z) : Prop :=
  forall l, l ∈ d_layers d -> Z.testbit (Dom.fs_mask l) r = true -> granted_on l chain r.

Lemma allows_rights chain access : allows d chain access <-> forall r, Z.testbit access r = true -> allows_right chain r.
Proof. unfold allows, allows_right. split; intros H; [intros r Ha l Hl Hf|intros l r Hl Ha Hf]; by apply H. Qed.

Lemma allows_right_refused chain access r :
  Z.testbit access r = true -> allows_right chain r <-> forall i, refused d chain access i r = false.
Proof.
  intros Ha. unfold refused. split.
  - intros H i. destruct (wanted _ _ i r) eqn:E; [|done]. apply wanted_iff in E as (l & Hl & _ & Hf). cbn.
    apply negb_false_iff, along_iff. exists l. split; [done|]. apply H; [by eapply list_elem_of_lookup_2|done].
  - intros H l (i & Hl)%list_elem_of_lookup Hf. specialize (H i).
    assert (Hw : wanted (Dom.fs_masks d) access i r = true) by (apply wanted_iff; eauto). rewrite Hw in H. cbn in H.
    apply negb_false_iff, along_iff in H as (l' & Hl' & ?). congruence.
Qed.

Lemma strip_bits ls full r :
  u64 full -> u64 (foldl (fun a l => Z.land a (not64 l)) full ls) /\
  Z.testbit (foldl (fun a l => Z.land a (not64 l)) full ls) r = Z.testbit full r && forallb (fun l => negb (Z.testbit l r)) ls.
Proof.
  revert full. induction ls as [|a ls IH]; intros full Hf; cbn [foldl forallb]; [by rewrite andb_true_r|].
  destruct (IH (Z.land full (not64 a))) as [Hu Hb]; [by apply u64_land|]. split; [done|].
  by rewrite Hb, land_not64, andb_assoc by done.
Qed.

(** The rights an open asks about, without being refused for the optional
    ones. *)
Definition open_full (open_req : Z) (dev : bool) : Z :=
  Z.lor open_req (if dev then Z.lor ACCESS_FS_TRUNCATE ACCESS_FS_IOCTL_DEV else ACCESS_FS_TRUNCATE).

Lemma open_spec w path open_req dev :
  u64 open_req -> let chain := Walk.ancestors w path in
  wp (Access.open_decide w d path open_req dev) (fun r s' =>
    (allows d chain open_req /\ s' = s /\ exists a, r = Ok a /\
       forall x, Z.testbit a x = true <-> Z.testbit (open_full open_req dev) x = true /\ allows_right chain x) \/
    (~ allows d chain open_req /\ r = Err Eacces /\
       reported d FsAccess (refused d chain open_req) (hushed d chain) s s')) s.
Proof.
  intros Ha chain. unfold Access.open_decide. fold (open_full open_req dev).
  assert (Hf : u64 (open_full open_req dev)) by (apply u64_lor; [done|destruct dev; done]).
  assert (Hsub : forall r, Z.testbit open_req r = true -> Z.testbit (open_full open_req dev) r = true).
  { intros r Hr. unfold open_full. by rewrite Z.lor_spec, Hr. }
  assert (Hfull : allows d chain (open_full open_req dev) -> allows d chain open_req /\ s = s /\ exists a, Ok (open_full open_req dev) = Ok a /\
       forall x, Z.testbit a x = true <-> Z.testbit (open_full open_req dev) x = true /\ allows_right chain x).
  { intros H. pose proof (proj1 (allows_rights _ _) H) as Hr. split_and!; [apply allows_rights; auto|done|].
    eexists. split; [done|]. intros x. split; [auto|by intros []]. }
  destruct (Masks.init (Dom.fs_masks d) (open_full open_req dev)) as [m req] eqn:E.
  destruct (walk_init chain _ m req Hf E) as (Hm & Hu & Hz & Hb & Hw). destruct (req =? 0) eqn:E0; to_prop.
  { wp_step. left. auto. }
  specialize (Hw E0). fold chain. destruct (Dom.walk_masks d chain m) as [|m']; [wp_step; left; auto|]. destruct Hw as (Hok & Hr & Hq & Hn).
  destruct (strip_bits (layers m') _ 0 Hf) as [Hau _].
  set (allowed := foldl _ _ _) in *.
  assert (Hal : forall x, Z.testbit allowed x = true <-> Z.testbit (open_full open_req dev) x = true /\ allows_right chain x).
  { intros x. unfold allowed. rewrite (proj2 (strip_bits _ _ x Hf)), andb_true_iff. split; intros [H1 H2]; (split; [done|]).
    - rewrite (allows_right_refused _ _ _ H1). intros i. rewrite <- Hr. unfold unmet. rewrite forallb_forall in H2.
      destruct (layers m' !! i) as [a|] eqn:Ei; cbn; [|apply Z.bits_0]. apply negb_true_iff, H2, list_elem_of_In.
      by eapply list_elem_of_lookup_2.
    - rewrite (allows_right_refused _ _ _ H1) in H2. apply forallb_forall. intros a (i & Hi)%list_elem_of_In%list_elem_of_lookup.
      specialize (H2 i). rewrite <- Hr in H2. unfold unmet in H2. by rewrite Hi in H2; cbn in H2; rewrite H2. }
  assert (Hok2 : (Z.lor open_req allowed =? allowed) = true <-> allows d chain open_req).
  { rewrite lor_subset, allows_rights. split; intros H x Hx; [by apply Hal, H|apply Hal; auto]. }
  destruct (Z.lor open_req allowed =? allowed) eqn:Eo; cbn [negb].
  - wp_step. left. split_and!; [by apply Hok2|done|]. exists allowed. done.
  - assert (Hnot : ~ allows d chain open_req) by (intros H%Hok2; congruence).
    eapply wp_mono; [apply (refuse_spec chain open_req m' open_req); try done|].
    + intros i r. rewrite Hr. unfold refused, wanted. specialize (Hsub r).
      destruct (Z.testbit open_req r); [rewrite Hsub by done; cbn; by rewrite andb_true_r|]. cbn. by rewrite andb_false_r.
    + intros r s' [-> ?]. auto.
Qed.

(** ** Ports *)

Definition refused_net (port access : Z) (i : nat) (r : Z) : bool :=
  wanted (Dom.net_masks d) access i r && negb (given (map (fun l => Dom.granted_port l port) (d_layers d)) i r).

Definition hushed_net (port : Z) (i : nat) : bool :=
  g_quiet (default no_grant (map (fun l => Dom.granted_port l port) (d_layers d) !! i)).

Lemma allows_net_refused port access : allows_net d port access <-> forall i r, refused_net port access i r = false.
Proof.
  unfold refused_net, given, allows_net. split.
  - intros H i r. destruct (wanted _ _ i r) eqn:E; [|done]. apply wanted_iff in E as (l & Hl & Ha & Hf).
    rewrite list_lookup_fmap, Hl. cbn. apply negb_false_iff, granted_port_iff, H; [by eapply list_elem_of_lookup_2|done..].
  - intros H l r (i & Hl)%list_elem_of_lookup Ha Hf. specialize (H i r).
    assert (Hw : wanted (Dom.net_masks d) access i r = true) by (apply wanted_iff; eauto).
    rewrite Hw, list_lookup_fmap, Hl in H. cbn in H. by apply negb_false_iff, granted_port_iff in H.
Qed.

Lemma check_net_spec port access :
  u64 access ->
  wp (Dom.check_net d port access) (fun r s' =>
    (allows_net d port access /\ r = Ok tt /\ s' = s) \/
    (~ allows_net d port access /\ r = Err Eacces /\
     reported d NetAccess (refused_net port access) (hushed_net port) s s')) s.
Proof.
  intros Ha. assert (Hlen : (length (Dom.net_masks d) <= MAX_NUM_LAYERS)%nat) by (unfold Dom.net_masks; rewrite length_map; apply Hd).
  unfold Dom.check_net. destruct (Masks.init (Dom.net_masks d) access) as [m req] eqn:E.
  destruct (init_spec _ _ _ _ Ha Hlen E) as (Hm & Hu & Hz & Hb). destruct (req =? 0) eqn:E0; to_prop.
  { wp_step. left. split_and!; [|done..]. apply allows_net_refused. intros i r. unfold refused_net.
    rewrite <- Hu, (proj1 Hz E0). done. }
  destruct (Masks.unmask m _) as [m' c] eqn:Em.
  destruct (unmask_spec _ _ _ _ Hm ltac:(rewrite length_map; apply Hd) Em) as (Hok & Hc & Hu').
  assert (Hr : forall i r, unmet m' i r = refused_net port access i r) by (intros i r; by rewrite Hu', Hu).
  destruct c; [wp_step; left; split_and!; [|done..]; apply allows_net_refused; intros i r; rewrite <- Hr; by apply Hc|].
  assert (Hn : exists i r, refused_net port access i r = true).
  { destruct (not_clear_some m' Hok) as (i & r & Hi); [|exists i, r; by rewrite <- Hr].
    destruct (Masks.all_clear m') eqn:Ec; [|done]. by apply all_clear_iff, Hc in Ec. }
  wp_step. eapply wp_mono; [apply report_spec with (f := refused_net port access)|]; try done.
  - intros i r. rewrite Hr. destruct (refused_net port access i r) eqn:Er; [|done]. cbn. symmetry. apply Hb. exists i.
    rewrite Hu. by apply andb_true_iff in Er as [].
  - intros i r [(l & Hl & _)%wanted_iff _]%andb_true_iff. by eapply lookup_lt_Some.
  - intros _ s' (i & l & log & missing & ? & ? & ? & ? & ? & ->). wp_step. right. split_and!; [|done|].
    + rewrite allows_net_refused. intros Hall. destruct Hn as (i' & r & Hi). by rewrite Hall in Hi.
    + exists i, l, log, missing. split_and!; try done. fold (muted m' i).
      rewrite (unmask_muted _ _ _ _ i Hm ltac:(rewrite length_map; apply Hd) Em), (init_muted _ _ _ _ i E). done.
Qed.

(** ** Path-based sockets *)

(** A layer refuses to resolve the socket: its owner is outside, and no rule
    of the layer grants the right. *)
Definition refused_unix (chain : list Node) (peer : option Domain) (i : nat) (r : Z) : bool :=
  refused d chain ACCESS_FS_RESOLVE_UNIX i r && negb (Dom.peer_inside_at d peer i).

Lemma inside_given peer i r :
  Z.testbit ACCESS_FS_RESOLVE_UNIX r = true -> (i < length (d_layers d))%nat ->
  given (map (fun i => plain (if Dom.peer_inside_at d peer i then ACCESS_FS_RESOLVE_UNIX else 0)) (seq 0 (length (d_layers d)))) i r
  = Dom.peer_inside_at d peer i.
Proof.
  intros Hr Hi. unfold given. rewrite list_lookup_fmap, lookup_seq_lt by done. cbn [fmap option_fmap option_map default Nat.add].
  destruct (Dom.peer_inside_at d peer i); cbn [plain g_access]; [done|apply Z.bits_0].
Qed.

Lemma check_unix_spec w path peer :
  let chain := Walk.ancestors w path in
  wp (Dom.check_unix_resolve w d path peer) (fun r s' =>
    ((forall i x, refused_unix chain peer i x = false) /\ r = Ok tt /\ s' = s) \/
    ((exists i x, refused_unix chain peer i x = true) /\ r = Err Eacces /\
     reported d FsAccess (refused_unix chain peer) (hushed d chain) s s')) s.
Proof.
  intros chain. unfold Dom.check_unix_resolve. pose proof (masks_len d Hd) as Hlen.
  destruct (Masks.init (Dom.fs_masks d) ACCESS_FS_RESOLVE_UNIX) as [m req] eqn:E.
  destruct (init_spec _ ACCESS_FS_RESOLVE_UNIX _ _ ltac:(done) Hlen E) as (Hm & Hu & Hz & Hb). destruct (req =? 0) eqn:E0; to_prop.
  { wp_step. left. split_and!; [|done..]. intros i x. unfold refused_unix, refused. by rewrite <- Hu, (proj1 Hz E0). }
  set (inside := map _ _). assert (Hi : (length inside <= MAX_NUM_LAYERS)%nat).
  { unfold inside. rewrite length_map, length_seq. apply Hd. }
  destruct (Masks.unmask m inside) as [m' c] eqn:Em. destruct (unmask_spec _ _ _ _ Hm Hi Em) as (Hok & Hc & Hu').
  assert (Hr : forall i x, unmet m' i x && negb (along d chain i x) = refused_unix chain peer i x).
  { intros i x. rewrite Hu', Hu. unfold refused_unix, refused. destruct (wanted _ _ i x) eqn:Ew; [|done]. cbn [andb].
    apply wanted_iff in Ew as (l & Hl & Hx & _). unfold inside. rewrite inside_given; [apply andb_comm|done|by eapply lookup_lt_Some]. }
  destruct c.
  { wp_step. left. split_and!; [|done..]. intros i x. rewrite <- Hr. by rewrite (proj1 Hc eq_refl). }
  pose proof (walk_masks_spec d chain m' Hd Hok) as Hw. fold chain. destruct (Dom.walk_masks d chain m') as [|mf] eqn:Ew.
  { wp_step. left. split_and!; [|done..]. intros i x. rewrite <- Hr. destruct (unmet m' i x) eqn:Ei; [by rewrite Hw|done]. }
  destruct Hw as (Hokf & Hmet & Huf). assert (Hrf : forall i x, unmet mf i x = refused_unix chain peer i x) by (intros i x; by rewrite Huf, Hr).
  assert (Hn : exists i x, refused_unix chain peer i x = true).
  { destruct (not_clear_some mf Hokf) as (i & x & Hx); [|exists i, x; by rewrite <- Hrf].
    destruct (Masks.all_clear mf) eqn:Ec; [|done]. by apply all_clear_iff, Hmet, Hc in Ec. }
  wp_step. eapply wp_mono; [apply report_spec with (f := refused_unix chain peer)|]; try done.
  - intros i x. rewrite Hrf. unfold refused_unix, refused, wanted. destruct (Z.testbit ACCESS_FS_RESOLVE_UNIX x); [by rewrite andb_true_r|done].
  - intros i x [H _]%andb_true_iff. by eapply refused_in.
  - intros _ s' (i & l & log & missing & ? & ? & ? & ? & ? & ->). wp_step. right. split_and!; [done|done|].
    exists i, l, log, missing. split_and!; try done. fold (muted mf i).
    rewrite (walk_masks_muted _ _ _ _ i Hd Hok Ew), (unmask_muted _ _ _ _ i Hm Hi Em), (init_muted _ _ _ _ i E).
    unfold inside. rewrite list_lookup_fmap. by destruct (seq _ _ !! i).
Qed.

(** ** Scopes *)

(** A layer scopes the operation and the peer is not inside it. *)
Definition outside (scope : Z) (peer : option Domain) (i : nat) : bool :=
  match d_layers d !! i with
  | Some l => negb (Z.land (l_scoped l) scope =? 0) && negb (Dom.peer_inside_at d peer i)
  | None => false
  end.

Lemma scope_loop_spec scope peer level ls :
  ls = drop level (d_layers d) -> (forall i, (i < level)%nat -> outside scope peer i = false) ->
  wp (Dom.scope_loop d scope peer level ls) (fun b s' =>
    (b = false /\ s' = s /\ forall i, outside scope peer i = false) \/
    (b = true /\ exists i l log, outside scope peer i = true /\ (forall j, (j < i)%nat -> outside scope peer j = false) /\
       d_layers d !! i = Some l /\ logs s !! l_log l = Some log /\
       s' = note d (if scope =? SCOPE_SIGNAL then ScopeSignal else ScopeAbstractUnixSocket) i 0 false l log s)) s.
Proof.
  revert level. induction ls as [|l ls IH]; intros level Hls Hlow; cbn [Dom.scope_loop].
  { wp_step. left. split_and!; [done..|]. intros i. destruct (decide (i < level)%nat); [auto|].
    unfold outside. rewrite lookup_ge_None_2; [done|]. assert (Hl : length (drop level (d_layers d)) = 0%nat) by by rewrite <- Hls.
    rewrite length_drop in Hl. lia. }
  assert (Hl : d_layers d !! level = Some l).
  { rewrite <- (Nat.add_0_r level), <- lookup_drop, <- Hls. done. }
  assert (Hls' : ls = drop (S level) (d_layers d)).
  { replace (S level) with (level + 1)%nat by lia. by rewrite <- drop_drop, <- Hls. }
  assert (Hnext : outside scope peer level = false -> forall i, (i < S level)%nat -> outside scope peer i = false).
  { intros H i Hi. destruct (decide (i = level)) as [->|]; [done|apply Hlow; lia]. }
  assert (Ho : outside scope peer level = negb (Z.land (l_scoped l) scope =? 0) && negb (Dom.peer_inside_at d peer level)) by (unfold outside; by rewrite Hl).
  destruct (Z.land (l_scoped l) scope =? 0); [by apply IH; auto|].
  destruct (Dom.peer_inside_at d peer level); [by apply IH; auto|].
  destruct (lookup_lt_is_Some_2 (logs s) (l_log l)) as [log Hlg]; [apply Hlog; by eapply list_elem_of_lookup_2|].
  wp_step. wp_step. wp_step. eapply wp_mono; [by apply log_denial_spec|]. intros _ s' ->. wp_step. right. split; [done|].
  exists level, l, log. auto.
Qed.

End check.

(** A check that answers yes was allowed, whatever the logs. *)
Lemma check_fs_chain_ok d (Hd : domain_ok d) chain access s s' :
  u64 access -> Dom.check_fs_chain d chain access s = Done (Ok tt, s') -> allows d chain access.
Proof.
  intros Ha. unfold Dom.check_fs_chain. destruct (Masks.init (Dom.fs_masks d) access) as [m req] eqn:E.
  destruct (walk_init d Hd chain access m req Ha E) as (Hm & Hu & Hz & Hb & Hw). destruct (req =? 0) eqn:E0; to_prop; [auto|].
  specialize (Hw E0). destruct (Dom.walk_masks d chain m) as [|m']; [done|]. unfold mbind, M_bind, bind.
  by destruct (Dom.report_denial_masks _ _ _ _ s) as [[]|].
Qed.
