(* ===== verification/LandlockRefer.v ===== *)
(** * Landlock: reparenting gains no right

    The dual walk of [landlock/src/refer.rs] as an invariant over the part of
    the hierarchy it has climbed. A side of the walk is a chain of nodes below
    the mount root; the rules the walk adds above it are common to both. *)

From stdpp Require Import list.
From S2P Require Import Prelude Words Result Landlock LandlockDomain LandlockAccess LandlockSpec LandlockCheck.

(** ** The comparison of two directories *)

(** The rights that matter for an object. *)
Definition relevant (dir : bool) (r : Z) : bool := dir || Z.testbit ACCESS_FILE r.

Lemma refer_layer_iff dir sp sc np :
  refer_layer_ok dir sp sc np = true <->
  forall r, relevant dir r = true -> Z.testbit sp r = true -> Z.testbit sc r = true -> Z.testbit np r = true.
Proof.
  unfold refer_layer_ok, relevant. rewrite lor_subset. destruct dir; cbn [orb].
  - setoid_rewrite Z.land_spec. setoid_rewrite andb_true_iff. naive_solver.
  - setoid_rewrite Z.land_spec. setoid_rewrite andb_true_iff. setoid_rewrite Z.land_spec. setoid_rewrite andb_true_iff. naive_solver.
Qed.

Lemma may_refer_iff sp sc np dir :
  masks_ok sp ->
  may_refer sp sc np dir = true <->
  forall i r, relevant dir r = true -> unmet sp i r = true -> unmet sc i r = true -> unmet np i r = true.
Proof.
  intros Hm. unfold may_refer. rewrite forallb_forall. split.
  - intros H i r Hr Hs. pose proof (unmet_below _ _ _ Hm Hs). 
    refine (proj1 (refer_layer_iff dir _ _ _) _ r Hr Hs). apply H, in_seq. lia.
  - intros H i _. apply refer_layer_iff. intros r. apply H.
Qed.

Lemma scope_spec m req m' c :
  masks_ok m -> Masks.scope_to_request m req = (m', c) ->
  masks_ok m' /\ (c = true -> met_all m') /\ forall i r, unmet m' i r = unmet m i r && Z.testbit req r.
Proof.
  intros Hm [= <- <-].
  assert (Hu : forall i r, unmet {| layers := map (fun a => Z.land a req) (layers m); quiet := quiet m |} i r = unmet m i r && Z.testbit req r).
  { intros i r. unfold unmet. cbn [layers]. rewrite list_lookup_fmap. destruct (layers m !! i); cbn; [apply Z.land_spec|by rewrite Z.bits_0]. }
  split_and!; [| |done].
  - destruct Hm as [H1 H2 H3]. constructor; cbn [layers quiet]; [by rewrite length_map|done|].
    intros i a Ha. rewrite list_lookup_fmap in Ha. destruct (layers m !! i) eqn:E; [|done]. cbn in Ha. simplify_eq.
    apply u64_land. by eapply H3.
  - intros Hc. apply all_clear_iff. unfold Masks.all_clear. apply forallb_forall. intros a Ha. apply negb_true_iff in Hc.
    destruct (a =? 0) eqn:E; [done|]. assert (Hx : existsb (fun a => negb (a =? 0)) (map (fun a => Z.land a req) (layers m)) = true); [|congruence].
    apply existsb_exists. exists a. by rewrite E.
Qed.

(** ** One side of the walk *)

Section dual.
Context (d : Domain) (Hd : domain_ok d).

(** The layer [i] filters the right [r]. *)
Definition filters (i : nat) (r : Z) : bool := wanted (Dom.fs_masks d) MASK_ACCESS_FS i r.

(** The requested rights are granted along the chain. *)
Definition asked (req : Z) (chain : list Node) : Prop :=
  forall i r, filters i r = true -> Z.testbit req r = true -> along d chain i r = true.

(** [U] is the chain below the mount root, [P] what was climbed above it. *)
Record side_inv (U : list Node) (req : Z) (checking : bool) (allowed : bool) (m : LayerMasks) (P : list Node) : Prop := {
  si_ok : masks_ok m;
  si_masks : if checking then forall i r, unmet m i r = filters i r && negb (along d (U ++ P) i r)
             else forall i r, filters i r = true -> Z.testbit req r = true -> unmet m i r = false -> along d (U ++ P) i r = true;
  si_allowed : allowed = true -> if checking then met_all m else asked req (U ++ P);
}.

Lemma asked_mono req P Q : asked req P -> asked req (P ++ Q).
Proof. intros H i r Hf Hr. rewrite along_app, (H i r Hf Hr). done. Qed.

Lemma side_start U req m :
  masks_ok m -> (forall i r, unmet m i r = filters i r && negb (along d U i r)) -> side_inv U req true (Masks.all_clear m) m [].
Proof. intros Hm Hu. constructor; [done|rewrite app_nil_r; exact Hu|apply all_clear_iff]. Qed.

Lemma side_climb U req ck al m P n m' a :
  side_inv U req ck al m P -> Masks.unmask m (Dom.grants_at d n) = (m', a) -> side_inv U req ck (al || a) m' (P ++ [n]).
Proof.
  intros [Hok Hm Ha] E. destruct (unmask_spec _ _ _ _ Hok (grants_len d n Hd) E) as (Hok' & Hc & Hu).
  assert (Hn : forall i r, along d (U ++ P ++ [n]) i r = along d (U ++ P) i r || given (Dom.grants_at d n) i r).
  { intros i r. rewrite app_assoc, along_app. cbn. by rewrite orb_false_r. }
  constructor; [done| |].
  - destruct ck; intros i r; rewrite Hn, Hu.
    + rewrite Hm, negb_orb. by rewrite andb_assoc.
    + intros Hf Hr. specialize (Hm i r Hf Hr). destruct (unmet m i r); [|by rewrite Hm].
      cbn. intros ->%negb_false_iff. apply orb_true_r.
  - intros [H|H]%orb_true_iff; destruct ck.
    + intros i r. by rewrite Hu, (Ha H).
    + rewrite app_assoc. by apply asked_mono, Ha.
    + by apply Hc.
    + intros i r Hf Hr. rewrite Hn. specialize (Hm i r Hf Hr). pose proof (proj1 Hc H i r) as H0. rewrite Hu in H0.
      destruct (unmet m i r); [|by rewrite Hm]. cbn in H0. apply negb_false_iff in H0. rewrite H0. apply orb_true_r.
Qed.

Lemma side_full U req al m P : side_inv U req true al m P -> met_all m -> forall i r, filters i r = true -> along d (U ++ P) i r = true.
Proof.
  intros [_ Hm _] Hall i r Hf. specialize (Hm i r). rewrite Hall, Hf in Hm. cbn in Hm. by symmetry in Hm; apply negb_false_iff in Hm.
Qed.

Lemma side_narrow U req al m P m' c :
  side_inv U req true al m P -> (if al then (m, true) else Masks.scope_to_request m req) = (m', c) ->
  side_inv U req false c m' P.
Proof.
  intros Hs. destruct al.
  - intros [= <- <-]. pose proof (side_full _ _ _ _ _ Hs (si_allowed _ _ _ _ _ _ Hs eq_refl)) as Hf.
    constructor; [apply Hs| |]; intros; [by apply Hf|]. intros i r Hfi _. by apply Hf.
  - intros E. destruct (scope_spec _ _ _ _ (si_ok _ _ _ _ _ _ Hs) E) as (Hok & Hc & Hu).
    assert (Hx : forall i r, filters i r = true -> Z.testbit req r = true -> unmet m' i r = false -> along d (U ++ P) i r = true).
    { intros i r Hf Hr. rewrite Hu, (si_masks _ _ _ _ _ _ Hs i r), Hf, Hr, andb_true_r. cbn. by intros ->%negb_false_iff. }
    constructor; [done..|]. intros Ht i r Hf Hr. apply Hx; [done..|]. by apply Hc.
Qed.

(** ** Both sides *)

(** What the chain [P2] grants the object with the grants [g], the chain [P1]
    or a rule on the object grants as well. *)
Definition no_gain (dir : bool) (g : list Grant) (P1 P2 : list Node) : Prop :=
  forall i r, relevant dir r = true -> filters i r = true -> along d P2 i r = true ->
    along d P1 i r = true \/ given g i r = true.

Lemma no_gain_mono dir g P1 P2 Q : no_gain dir g P1 P2 -> no_gain dir g (P1 ++ Q) (P2 ++ Q).
Proof.
  intros H i r Hr Hf. rewrite !along_app. destruct (along d Q i r); [rewrite !orb_true_r; by left|rewrite !orb_false_r; auto].
Qed.

Context (U1 U2 : list Node) (req1 req2 : Z) (g1 : list Grant) (dir1 : bool) (g2 : option (list Grant)) (dir2 : bool).

Definition no_gain_both (P : list Node) : Prop :=
  no_gain dir1 g1 (U1 ++ P) (U2 ++ P) /\ (forall g, g2 = Some g -> no_gain dir2 g (U2 ++ P) (U1 ++ P)).

(** The walk may stop here with a positive answer. *)
Definition settled (P : list Node) : Prop := no_gain_both P /\ asked req1 (U1 ++ P) /\ asked req2 (U2 ++ P).

Lemma settled_mono P Q : settled P -> settled (P ++ Q).
Proof.
  intros ((H1 & H2) & H3 & H4). unfold settled, no_gain_both. rewrite !app_assoc.
  split_and!; [by apply no_gain_mono|intros g Hg; apply no_gain_mono; by apply H2|by apply asked_mono..].
Qed.

(** The masks of an object: what the layers filter and no rule on it grants. *)
Definition object_masks (g : list Grant) (m : LayerMasks) : Prop :=
  masks_ok m /\ forall i r, unmet m i r = filters i r && negb (given g i r).

Context (c1 : LayerMasks) (Hc1 : object_masks g1 c1) (c2 : option LayerMasks)
  (Hc2 : match g2, c2 with Some g, Some c => object_masks g c | None, None => True | _, _ => False end).

Record dual_inv (P : list Node) (s : Refer.Dual) : Prop := {
  di_1 : side_inv U1 req1 (Refer.dom_check s) (Refer.allowed1 s) (Refer.m1 s) P;
  di_2 : side_inv U2 req2 (Refer.dom_check s) (Refer.allowed2 s) (Refer.m2 s) P;
  di_gain : Refer.dom_check s = false -> no_gain_both P;
}.

Lemma may_refer_gain dir g c Ua Ub ra rb ala alb ma mb P :
  object_masks g c -> side_inv Ua ra true ala ma P -> side_inv Ub rb true alb mb P ->
  may_refer ma c mb dir = true -> no_gain dir g (Ua ++ P) (Ub ++ P).
Proof.
  intros [Hc Hg] Ha Hb H i r Hr Hf Hal. rewrite may_refer_iff in H by apply Ha. specialize (H i r Hr).
  rewrite Hg, (si_masks _ _ _ _ _ _ Ha i r), (si_masks _ _ _ _ _ _ Hb i r), Hf, Hal in H. cbn in H.
  destruct (along d (Ua ++ P) i r); [by left|]. destruct (given g i r); [by right|]. by discriminate H.
Qed.

Lemma dual_narrow P s : dual_inv P s -> dual_inv P (Refer.narrow req1 req2 c1 dir1 c2 dir2 s).
Proof.
  intros Hs. unfold Refer.narrow. destruct (Refer.dom_check s) eqn:Ec; cbn [andb]; [|done].
  destruct (no_more_access _ _ _ _ _ _) eqn:Em; [|done]. pose proof (di_1 _ _ Hs) as H1. pose proof (di_2 _ _ Hs) as H2.
  rewrite Ec in H1, H2. destruct (if Refer.allowed1 s then _ else _) as [n1 a1] eqn:E1.
  destruct (if Refer.allowed2 s then _ else _) as [n2 a2] eqn:E2. constructor; cbn [Refer.dom_check Refer.allowed1 Refer.allowed2 Refer.m1 Refer.m2].
  - by eapply side_narrow.
  - by eapply side_narrow.
  - intros _. unfold no_more_access in Em. destruct (may_refer _ c1 _ dir1) eqn:Er; [cbn in Em|done]. split.
    + by eapply may_refer_gain.
    + intros g ->. destruct c2 as [c|]; [|done]. by eapply may_refer_gain.
Qed.

Lemma dual_climb P s n : dual_inv P s -> dual_inv (P ++ [n]) (Refer.climb d n s).
Proof.
  intros Hs. unfold Refer.climb. destruct (Masks.unmask (Refer.m1 s) _) as [n1 a1] eqn:E1.
  destruct (Masks.unmask (Refer.m2 s) _) as [n2 a2] eqn:E2. constructor; cbn [Refer.dom_check Refer.allowed1 Refer.allowed2 Refer.m1 Refer.m2].
  - eapply side_climb; [apply Hs|done].
  - eapply side_climb; [apply Hs|done].
  - intros Hc. destruct (di_gain _ _ Hs Hc) as [Ha Hb]. unfold no_gain_both. rewrite !app_assoc.
    split; [by apply no_gain_mono|intros g Hg; apply no_gain_mono; by apply Hb].
Qed.

Lemma dual_settled P s : dual_inv P s -> Refer.both s = true -> settled P.
Proof.
  intros [H1 H2 Hg] [Ha Hb]%andb_true_iff. destruct (Refer.dom_check s) eqn:Ec.
  - pose proof (side_full _ _ _ _ _ H1 (si_allowed _ _ _ _ _ _ H1 Ha)) as F1.
    pose proof (side_full _ _ _ _ _ H2 (si_allowed _ _ _ _ _ _ H2 Hb)) as F2.
    split_and!; [split|intros i r Hf _; auto..]; [intros i r _ Hf _; auto|intros g _ i r _ Hf _; auto].
  - split_and!; [by apply Hg|exact (si_allowed _ _ _ _ _ _ H1 Ha)|exact (si_allowed _ _ _ _ _ _ H2 Hb)].
Qed.

(** A walk that answers yes settled the question. *)
Lemma dual_loop_settled chain P s s' :
  dual_inv P s -> Refer.dual_loop d req1 req2 c1 dir1 c2 dir2 chain s = (s', true) -> settled (P ++ chain).
Proof.
  revert P s. induction chain as [|n chain IH]; intros P s Hs; cbn [Refer.dual_loop].
  - intros [= _ Hb]. rewrite app_nil_r. by eapply dual_settled.
  - pose proof (dual_narrow _ _ Hs) as Hn. destruct (_ && _ && Refer.both _) eqn:Ec.
    + intros _. apply settled_mono. eapply dual_settled; [done|]. by apply andb_true_iff in Ec as [_ ?].
    + pose proof (dual_climb _ _ n Hn) as Hcl. destruct (Refer.both (Refer.climb _ _ _)) eqn:Eb.
      * intros _. change (n :: chain) with ([n] ++ chain). rewrite app_assoc. apply settled_mono. by eapply dual_settled.
      * intros H. change (n :: chain) with ([n] ++ chain). rewrite app_assoc. by eapply IH.
Qed.

End dual.

(** ** The hierarchy *)

(** [R] is an ancestor of [x] within the bound of the walk. *)
Fixpoint reaches (w : Vfs) (fuel : nat) (x R : Z) : bool :=
  match fuel with
  | O => false
  | S fuel' => if x =? R then true else match d_parent w x with Some p => reaches w fuel' p R | None => false end
  end.

(** The walk ends by itself, before the bound cuts it. *)
Fixpoint walk_ends (w : Vfs) (fuel : nat) (mnt x : Z) : bool :=
  match fuel with
  | O => false
  | S fuel' => match Walk.up w mnt x with Some (mnt', x') => walk_ends w fuel' mnt' x' | None => true end
  end.

Lemma from_more w n n' mnt x :
  walk_ends w n mnt x = true -> (n <= n')%nat -> Walk.from_loop w n' mnt x = Walk.from_loop w n mnt x.
Proof.
  revert n' mnt x. induction n as [|n IH]; intros n' mnt x He Hn; cbn in He; [done|]. destruct n' as [|n']; [lia|]. cbn [Walk.from_loop].
  f_equal. destruct (Walk.up w mnt x) as [[mnt' x']|]; [|done]. apply IH; [done|lia].
Qed.

Lemma ends_more w n n' mnt x : walk_ends w n mnt x = true -> (n <= n')%nat -> walk_ends w n' mnt x = true.
Proof.
  revert n' mnt x. induction n as [|n IH]; intros n' mnt x He Hn; cbn in He; [done|]. destruct n' as [|n']; [lia|]. cbn.
  destruct (Walk.up w mnt x) as [[mnt' x']|]; [|done]. apply IH; [done|lia].
Qed.

(** The two parts of a walk, up to the mount root and from it, are the walk. *)
Lemma split_walk w d mnt R x fuel n i r :
  root_dentry_for_mount_id w mnt = Some R -> reaches w fuel x R = true -> walk_ends w n mnt x = true -> (n <= Walk.MAX_WALK)%nat ->
  along d (Walk.up_to_loop w fuel mnt x R ++ Walk.from w mnt R) i r = along d (Walk.from_loop w n mnt x) i r.
Proof.
  intros HR. revert n x. induction fuel as [|fuel IH]; intros n x Hx He Hn; cbn in Hx; [done|].
  cbn [Walk.up_to_loop]. destruct (x =? R) eqn:Ex; to_prop.
  - subst x. rewrite app_nil_r. unfold Walk.from. rewrite (from_more w n) by done. destruct n as [|n]; [done|]. cbn [Walk.from_loop].
    rewrite !along_app. by destruct (along d (Walk.node_of w mnt R) i r).
  - destruct (d_parent w x) as [p|] eqn:Ep; [|done]. destruct n as [|n]; [done|]. cbn [walk_ends Walk.from_loop] in *.
    assert (Hu : Walk.up w mnt x = Some (mnt, p)).
    { unfold Walk.up, Walk.at_mount_root. rewrite HR, Ep. by destruct (R =? x) eqn:E; to_prop. }
    rewrite Hu in *. rewrite <- app_assoc, (along_app _ (Walk.node_of w mnt x)), (along_app _ (Walk.node_of w mnt x)).
    f_equal. apply IH; [done..|lia].
Qed.

(** ** The masks the check starts from *)

Section start.
Context (w : Vfs) (d : Domain) (Hd : domain_ok d).

Lemma mask_fs_u64 : u64 MASK_ACCESS_FS.
Proof. done. Qed.

Lemma collect_spec mnt x R m b :
  Refer.collect_domain_accesses w d mnt x R = (m, b) ->
  masks_ok m /\ (b = true -> met_all m) /\
  forall i r, unmet m i r = filters d i r && negb (along d (Walk.up_to w mnt x R) i r).
Proof.
  unfold Refer.collect_domain_accesses. destruct (Masks.init _ _) as [m0 req] eqn:E.
  destruct (init_spec _ _ _ _ mask_fs_u64 (masks_len d Hd) E) as (Hm & Hu & Hz & _). destruct (req =? 0) eqn:E0; to_prop.
  - intros [= <- <-]. assert (Hall : met_all m0) by by apply Hz. split_and!; [done|done|].
    intros i r. unfold filters. rewrite <- Hu, (Hall i r). done.
  - intros H. destruct (collect_loop_spec _ _ _ _ _ Hd Hm H) as (Hok & Ht & _ & Hu'). split_and!; [done|done|].
    intros i r. by rewrite Hu', Hu.
Qed.

Definition object_grants (mnt : Z) (t : Target) : list Grant :=
  Dom.grants_at d {| n_mnt := mnt; n_dentry := t_dentry t; n_inode := t_inode t |}.

Lemma child_spec mnt t : object_masks d (object_grants mnt t) (Refer.child_masks d mnt t).
Proof.
  unfold Refer.child_masks. destruct (Masks.init _ _) as [m0 req] eqn:E.
  destruct (init_spec _ _ _ _ mask_fs_u64 (masks_len d Hd) E) as (Hm & Hu & Hz & _). destruct (req =? 0) eqn:E0; cbn [negb]; to_prop.
  - split; [done|]. intros i r. unfold filters. rewrite <- Hu, (proj1 Hz E0 i r). done.
  - destruct (Masks.unmask m0 _) as [m1 b] eqn:Eu. destruct (unmask_spec _ _ _ _ Hm (grants_len d _ Hd) Eu) as (Hok & _ & Hu').
    split; [done|]. intros i r. cbn. by rewrite Hu', Hu.
Qed.

(** An admitted reparenting settled the question over both chains. *)
Lemma reparent_settled old_dir old new_dir new exchange req1 req2 s s' :
  let R := Walk.mount_root w (p_mnt new_dir) (p_dentry new_dir) in
  Refer.check_reparent w d old_dir old new_dir new exchange req1 req2 s = Done (Ok tt, s') ->
  settled d (Walk.up_to w (p_mnt old_dir) (Refer.old_parent w old R) R) (Walk.up_to w (p_mnt new_dir) (p_dentry new_dir) R)
    (Z.lor req1 ACCESS_FS_REFER) (Z.lor req2 ACCESS_FS_REFER)
    (object_grants (p_mnt old_dir) old) (Refer.is_dir w old)
    (if exchange then option_map (object_grants (p_mnt new_dir)) new else None) (default false (option_map (Refer.is_dir w) new))
    (Walk.from w (p_mnt new_dir) R).
Proof.
  intros R. unfold Refer.check_reparent. fold R. destruct (Refer.collect_domain_accesses w d (p_mnt old_dir) _ _) as [ma a1] eqn:E1.
  destruct (Refer.collect_domain_accesses w d (p_mnt new_dir) _ _) as [mb a2] eqn:E2.
  destruct (collect_spec _ _ _ _ _ E1) as (Hka & Hta & Hua). destruct (collect_spec _ _ _ _ _ E2) as (Hkb & Htb & Hub).
  assert (Hinv : dual_inv d (Walk.up_to w (p_mnt old_dir) (Refer.old_parent w old R) R) (Walk.up_to w (p_mnt new_dir) (p_dentry new_dir) R)
    (Z.lor req1 ACCESS_FS_REFER) (Z.lor req2 ACCESS_FS_REFER) (object_grants (p_mnt old_dir) old) (Refer.is_dir w old)
    (if exchange then option_map (object_grants (p_mnt new_dir)) new else None) (default false (option_map (Refer.is_dir w) new)) []
    {| Refer.dom_check := true; Refer.m1 := ma; Refer.m2 := mb; Refer.allowed1 := Masks.all_clear ma; Refer.allowed2 := Masks.all_clear mb |}).
  { constructor; cbn [Refer.dom_check Refer.m1 Refer.m2 Refer.allowed1 Refer.allowed2]; [apply side_start; assumption..|intros [=]]. }
  destruct (a1 && a2) eqn:Ea.
  - intros _. apply andb_true_iff in Ea as [Ha Hb]. change (Walk.from w (p_mnt new_dir) R) with ([] ++ Walk.from w (p_mnt new_dir) R).
    apply settled_mono. eapply dual_settled; [exact Hinv|]. unfold Refer.both. apply andb_true_iff. split; apply all_clear_iff; auto.
  - destruct (Refer.dual_walk _ _ _ _ _ _ _ _ _ _) as [sd ok] eqn:Ew. destruct ok.
    + intros _. change (Walk.from w (p_mnt new_dir) R) with ([] ++ Walk.from w (p_mnt new_dir) R).
      eapply dual_loop_settled; [exact Hd|apply child_spec| |exact Hinv|exact Ew].
      destruct exchange; [|done]. destruct new; [apply child_spec|done].
    + intros H. exfalso. revert H. unfold mbind, M_bind, bind.
      destruct (Dom.report_denial_masks d (Refer.m1 sd) FsAccess (Z.lor req1 ACCESS_FS_REFER) s) as [[? s1]|]; [|discriminate].
      destruct (Dom.report_denial_masks d (Refer.m2 sd) FsAccess (Z.lor req2 ACCESS_FS_REFER) s1) as [[? s2]|]; [|discriminate].
      destruct (_ || _); discriminate.
Qed.

End start.

(** ** From the walk to the policy *)

(** The directory [x] lies under the root [R] of the mount, and its walk ends
    within the bound. *)
Definition in_mount (w : Vfs) (mnt R x : Z) : Prop :=
  reaches w Walk.MAX_WALK x R = true /\ walk_ends w Walk.MAX_WALK mnt x = true.

(** What may be asked of an object or below it: every right of a directory,
    the rights of a file on a file itself. *)
Definition may_ask (dir : bool) (below : list Node) (access : Z) : Prop :=
  dir = true \/ (below = [] /\ within access ACCESS_FILE).

Lemma mask_within l r : layer_ok l -> Z.testbit (Dom.fs_mask l) r = true -> Z.testbit MASK_ACCESS_FS r = true.
Proof.
  intros Hl. unfold Dom.fs_mask, Abi.fs_layer_mask. rewrite Z.lor_spec, orb_true_iff. intros [H|H]; [by apply (lo_fs l Hl)|].
  unfold ACCESS_FS_INITIALLY_DENIED, ACCESS_FS_REFER, bit in H. rewrite testbit_pow2 in H by lia. apply Z.eqb_eq in H. by subst r.
Qed.

Lemma filters_wanted d access i r : domain_ok d -> wanted (Dom.fs_masks d) access i r = true -> filters d i r = true.
Proof.
  intros Hd (l & Hl & _ & Hf)%wanted_iff. apply wanted_iff. exists l. split_and!; [done| |done].
  eapply mask_within; [|done]. apply Hd. by eapply list_elem_of_lookup_2.
Qed.

Lemma no_gain_allows d dir g P1 P2 (c : Node) below access :
  domain_ok d -> no_gain d dir g P1 P2 -> (forall i r, given g i r = given (Dom.grants_at d c) i r) -> may_ask dir below access ->
  allows d (below ++ c :: P2) access -> allows d (below ++ c :: P1) access.
Proof.
  intros Hd Hng Hc Hask. rewrite !allows_iff. intros H i r Hw. specialize (H i r Hw).
  change (c :: P1) with ([c] ++ P1). change (c :: P2) with ([c] ++ P2) in H. rewrite !along_app in *.
  destruct (along d below i r); [done|]. destruct (along d [c] i r) eqn:Ec; [done|]. cbn [orb] in *.
  pose proof (filters_wanted _ _ _ _ Hd Hw) as Hf. apply wanted_iff in Hw as (_ & _ & Ha & _).
  destruct (Hng i r) as [Hal|Hg]; [| |done|done|].
  - unfold relevant. destruct Hask as [->|[_ Hin]]; [done|]. rewrite (proj2 Hin _ Ha). apply orb_true_r.
  - done.
  - rewrite Hc in Hg. cbn in Ec. by rewrite Hg in Ec.
Qed.

Lemma grants_at_inode d n n' : n_inode n = n_inode n' -> Dom.grants_at d n = Dom.grants_at d n'.
Proof. intros H. unfold Dom.grants_at, Dom.granted_at. by rewrite H. Qed.

Lemma asked_allows d req chain : domain_ok d -> asked d req chain -> allows d chain req.
Proof.
  intros Hd H. apply allows_iff. intros i r Hw. apply H; [by eapply filters_wanted|]. by apply wanted_iff in Hw as (_ & _ & ? & _).
Qed.

Lemma allows_along d P Q access : (forall i r, along d P i r = along d Q i r) -> allows d P access <-> allows d Q access.
Proof. intros H. rewrite !allows_iff. by setoid_rewrite H. Qed.

Lemma no_gain_along d dir g P1 P2 Q1 Q2 :
  (forall i r, along d P1 i r = along d Q1 i r) -> (forall i r, along d P2 i r = along d Q2 i r) ->
  no_gain d dir g P1 P2 -> no_gain d dir g Q1 Q2.
Proof. intros H1 H2 H i r. rewrite <- H1, <- H2. apply H. Qed.

(** What an admitted link or rename guarantees, over the walks of the two
    directories. *)
Lemma check_admits w d old_dir old new_dir new removable exchange R req1 req2 s s' :
  let P1 := Walk.ancestors w old_dir in let P2 := Walk.ancestors w new_dir in
  domain_ok d -> u64 req1 -> u64 req2 ->
  p_mnt old_dir = p_mnt new_dir -> root_dentry_for_mount_id w (p_mnt new_dir) = Some R ->
  d_parent w (t_dentry old) = Some (p_dentry old_dir) -> t_dentry old <> R ->
  in_mount w (p_mnt new_dir) R (p_dentry old_dir) -> in_mount w (p_mnt new_dir) R (p_dentry new_dir) ->
  Refer.requests w old new removable exchange = Ok (req1, req2) ->
  Refer.check w d old_dir old new_dir new removable exchange s = Done (Ok tt, s') ->
  allows d P1 req1 /\ allows d P2 req2 /\ no_gain d (Refer.is_dir w old) (object_grants d (p_mnt old_dir) old) P1 P2 /\
  (exchange = true -> forall n, new = Some n -> no_gain d (Refer.is_dir w n) (object_grants d (p_mnt new_dir) n) P2 P1).
Proof.
  intros P1 P2 Hd Hu1 Hu2 Hmnt HR Hpar Hne [Hr1 He1] [Hr2 He2] Hreq. unfold Refer.check. rewrite Hreq.
  destruct ((p_mnt old_dir =? p_mnt new_dir) && (p_dentry old_dir =? p_dentry new_dir)) eqn:Esame.
  - intros Hc. apply andb_true_iff in Esame as [Em Ed]. apply Z.eqb_eq in Em, Ed.
    assert (HP : P1 = P2) by (unfold P1, P2, Walk.ancestors; by rewrite Em, Ed). rewrite HP.
    assert (Hal : allows d P2 (Z.lor req1 req2)).
    { pose proof (check_fs_chain_ok d Hd P2 (Z.lor req1 req2) s s' (u64_lor _ _ Hu1 Hu2) Hc). done. }
    split_and!; [intros l r Hl Hb; apply Hal; [done|rewrite Z.lor_spec, Hb; by rewrite ?orb_true_r]..| |]; intros; intros i r _ _ Hx; by left.
  - intros Hc. clear Esame. apply reparent_settled in Hc; [|exact Hd].
    assert (Hroot : Walk.mount_root w (p_mnt new_dir) (p_dentry new_dir) = R) by (unfold Walk.mount_root; by rewrite HR).
    rewrite Hroot in Hc. assert (Hop : Refer.old_parent w old R = p_dentry old_dir).
    { unfold Refer.old_parent. rewrite Hpar. by destruct (t_dentry old =? R) eqn:E; to_prop. }
    rewrite Hop, Hmnt in Hc. destruct Hc as ((Hg1 & Hg2) & Ha1 & Ha2).
    assert (W1 : forall i r, along d (Walk.up_to w (p_mnt new_dir) (p_dentry old_dir) R ++ Walk.from w (p_mnt new_dir) R) i r = along d P1 i r).
    { intros i r. unfold P1, Walk.ancestors. rewrite Hmnt. by apply split_walk. }
    assert (W2 : forall i r, along d (Walk.up_to w (p_mnt new_dir) (p_dentry new_dir) R ++ Walk.from w (p_mnt new_dir) R) i r = along d P2 i r).
    { intros i r. by apply split_walk. }
    split_and!.
    + apply (allows_along _ _ _ _ W1). intros l r Hl Hb. apply (asked_allows _ _ _ Hd Ha1); [done|]. by rewrite Z.lor_spec, Hb.
    + apply (allows_along _ _ _ _ W2). intros l r Hl Hb. apply (asked_allows _ _ _ Hd Ha2); [done|]. by rewrite Z.lor_spec, Hb.
    + rewrite Hmnt. eapply no_gain_along; [exact W1|exact W2|exact Hg1].
    + intros -> n ->. eapply no_gain_along; [exact W2|exact W1|]. by apply Hg2.
Qed.
