(* ===== verification/Tsync.v ===== *)
(** * Landlock: enforcing a domain on every thread

    The two-barrier protocol of [sched/src/landlock_tsync.rs], as actions on
    the shared state: one atomic access of the code is one action, so that a
    sequence of actions is an interleaving of the initiator with its sibling
    threads. The thread that exits ([syscalls/src/060_exit.rs],
    [sched/src/cgroup.rs]) and the two ways a thread is created
    ([syscalls/src/056_clone.rs], which holds the exec lock for reading, and
    [sched/src/live/nt_thread.rs], which does not) are actions as well. *)

From stdpp Require Import list.
From S2P Require Import Prelude Result Landlock LandlockDomain.

(** Where a sibling thread is. *)
Inductive Mode :=
| Running      (* user mode, or a system call outside the work below *)
| Took         (* in [run_current_work], the work taken out of the slot *)
| Parked       (* at the preparation barrier *)
| Applied      (* past it, the credentials written *)
| ExitTook     (* in [cancel_current_on_exit], the work taken *)
| ExitPrepared (* its preparation debt paid *)
| ExitCleared. (* the cancellation done *)

#[global] Instance Mode_eq_dec : EqDecision Mode.
Proof. solve_decision. Defined.

(** The landlock part of a sibling's [TaskSecurity], and its [exiting] flag.
    [th_stamp] says that [landlock_tsync_id] names this transaction. *)
Record Thread := {
  th_domain : option Domain;
  th_nnp : bool;
  th_work : bool;
  th_stamp : bool;
  th_notify : bool;
  th_exiting : bool;
  th_mode : Mode;
}.

(** Where the initiator is. *)
Inductive Pc :=
| Start
| Scan (rest : list nat) (found : bool)
| Enrolling (t : nat) (rest : list nat) (found : bool)
| Wait (found : bool)
| Finishing
| Returned.

(** [Transaction] with the group it runs on: the siblings by number, and the
    credentials of the initiator. *)
Record Sync := {
  threads : list Thread;
  committed : bool;
  expected : Z;
  prepared : Z;
  finished : Z;
  pc : Pc;
  i_domain : option Domain;
  i_nnp : bool;
}.

Definition set_pc (p : Pc) (s : Sync) : Sync :=
  {| threads := threads s; committed := committed s; expected := expected s; prepared := prepared s;
     finished := finished s; pc := p; i_domain := i_domain s; i_nnp := i_nnp s |}.
Definition set_threads (l : list Thread) (s : Sync) : Sync :=
  {| threads := l; committed := committed s; expected := expected s; prepared := prepared s;
     finished := finished s; pc := pc s; i_domain := i_domain s; i_nnp := i_nnp s |}.
Definition count (e p f : Z) (s : Sync) : Sync :=
  {| threads := threads s; committed := committed s; expected := expected s + e; prepared := prepared s + p;
     finished := finished s + f; pc := pc s; i_domain := i_domain s; i_nnp := i_nnp s |}.

Definition set_mode (m : Mode) (t : Thread) : Thread :=
  {| th_domain := th_domain t; th_nnp := th_nnp t; th_work := th_work t; th_stamp := th_stamp t;
     th_notify := th_notify t; th_exiting := th_exiting t; th_mode := m |}.
(** [landlock_tsync_work.lock().take()] and the store to [notify_signal]. *)
Definition take_work (m : Mode) (t : Thread) : Thread :=
  {| th_domain := th_domain t; th_nnp := th_nnp t; th_work := false; th_stamp := th_stamp t;
     th_notify := false; th_exiting := th_exiting t; th_mode := m |}.

Section protocol.
(** The transaction: its domain and whether it sets [no_new_privs]. *)
Context (dom : option Domain) (set_no_new_privs : bool).

Definition switch_domain (d : option Domain) : option Domain := match dom with Some x => Some x | None => d end.

(** ** The initiator ([restrict_siblings]) *)

(** The first checks of [enqueue]. *)
Definition may_enqueue (t : Thread) : bool := negb (th_exiting t) && negb (th_stamp t).

(** The rest of [enqueue], under the lock of the slot. *)
Definition enqueue_locked (t : Thread) : option Thread :=
  if th_stamp t then None
  else if th_work t then None
  else Some {| th_domain := th_domain t; th_nnp := th_nnp t; th_work := true; th_stamp := true;
               th_notify := true; th_exiting := th_exiting t; th_mode := th_mode t |}.

(** One action of the initiator; [None] while it waits, and at the end. *)
Definition init_step (s : Sync) : option Sync :=
  match pc s with
  | Start => Some (set_pc (Scan (seq 0 (length (threads s))) false) s)
  | Scan [] found => Some (set_pc (Wait found) s)
  | Scan (t :: rest) found =>
      match threads s !! t with
      | Some th => if may_enqueue th then Some (set_pc (Enrolling t rest found) s) else Some (set_pc (Scan rest found) s)
      | None => None
      end
  | Enrolling t rest found =>
      match threads s !! t with
      | Some th =>
          match enqueue_locked th with
          | Some th' => Some (count 1 0 0 (set_threads (<[t := th']> (threads s)) (set_pc (Scan rest true) s)))
          | None => Some (set_pc (Scan rest found) s)
          end
      | None => None
      end
  | Wait found =>
      if prepared s =? expected s then
        if found then Some (set_pc (Scan (seq 0 (length (threads s))) false) s)
        else Some {| threads := threads s; committed := true; expected := expected s; prepared := prepared s;
                     finished := finished s; pc := Finishing; i_domain := i_domain s; i_nnp := i_nnp s |}
      else None
  | Finishing =>
      if finished s =? expected s then
        Some {| threads := threads s; committed := committed s; expected := expected s; prepared := prepared s;
                finished := finished s; pc := Returned; i_domain := switch_domain (i_domain s);
                i_nnp := i_nnp s || set_no_new_privs |}
      else None
  | Returned => None
  end.

(** The initiator holds the exec lock for writing. *)
Definition locked (s : Sync) : bool := match pc s with Start | Returned => false | _ => true end.

(** ** The siblings *)

Inductive Action :=
| Init
| STake (t : nat)
| SPrepare (t : nat)
| SApply (t : nat)
| SFinish (t : nat)
| SExit (t : nat)
| SExitPrepare (t : nat)
| SExitFinish (t : nat)
| SExiting (t : nat)
| SClone (t : nat)
| SNtThread (t : nat)
| SRestrict (t : nat) (l : Layer) (id : Z)
| SNoNewPrivs (t : nat).

(** [run_current_work] up to the barrier: the work loop runs it when the
    thread is notified. *)
Definition take_step (t : Thread) : option Thread :=
  if decide (th_mode t = Running) then
    if th_notify t then Some (take_work (if th_work t then Took else Running) t) else None
  else None.

(** Past the barrier: the writes to the thread's own credentials. *)
Definition apply_step (s : Sync) (t : Thread) : option Thread :=
  if decide (th_mode t = Parked) then
    if committed s then
      Some {| th_domain := switch_domain (th_domain t); th_nnp := th_nnp t || set_no_new_privs; th_work := th_work t;
              th_stamp := th_stamp t; th_notify := th_notify t; th_exiting := th_exiting t; th_mode := Applied |}
    else None
  else None.

Definition exit_step (t : Thread) : option Thread :=
  if decide (th_mode t = Running) then Some (take_work (if th_work t then ExitTook else ExitCleared) t) else None.

Definition exiting_step (t : Thread) : option Thread :=
  if decide (th_mode t = ExitCleared) then
    Some {| th_domain := th_domain t; th_nnp := th_nnp t; th_work := th_work t; th_stamp := th_stamp t;
            th_notify := th_notify t; th_exiting := true; th_mode := ExitCleared |}
  else None.

(** [inherit_from_parent]: the credentials are the creator's, the rest of the
    new thread is as [Task::new] leaves it. *)
Definition child_of (t : Thread) : Thread :=
  {| th_domain := th_domain t; th_nnp := th_nnp t; th_work := false; th_stamp := false; th_notify := false;
     th_exiting := false; th_mode := Running |}.

(** A thread that enforces a layer of its own. *)
Definition push_layer (d : option Domain) (l : Layer) (id : Z) : Domain :=
  match d with
  | Some p => {| d_layers := d_layers p ++ [l]; ancestry := ancestry p ++ [id] |}
  | None => {| d_layers := [l]; ancestry := [id] |}
  end.

Definition restrict_step (l : Layer) (id : Z) (t : Thread) : option Thread :=
  if decide (th_mode t = Running) then
    Some {| th_domain := Some (push_layer (th_domain t) l id); th_nnp := th_nnp t; th_work := th_work t; th_stamp := th_stamp t;
            th_notify := th_notify t; th_exiting := th_exiting t; th_mode := Running |}
  else None.

Definition nnp_step (t : Thread) : option Thread :=
  if decide (th_mode t = Running) then
    Some {| th_domain := th_domain t; th_nnp := true; th_work := th_work t; th_stamp := th_stamp t;
            th_notify := th_notify t; th_exiting := th_exiting t; th_mode := Running |}
  else None.

Definition mode_step (from to : Mode) (t : Thread) : option Thread :=
  if decide (th_mode t = from) then Some (set_mode to t) else None.

(** Change one thread, and the counters. *)
Definition on_thread (t : nat) (f : Thread -> option Thread) (p q : Z) (s : Sync) : option Sync :=
  match threads s !! t with
  | Some th =>
      match f th with
      | Some th' => Some (count 0 p q (set_threads (<[t := th']> (threads s)) s))
      | None => None
      end
  | None => None
  end.

Definition add_thread (t : nat) (s : Sync) : option Sync :=
  match threads s !! t with
  | Some th => if decide (th_mode th = Running) then Some (set_threads (threads s ++ [child_of th]) s) else None
  | None => None
  end.

Definition act (a : Action) (s : Sync) : option Sync :=
  match a with
  | Init => init_step s
  | STake t => on_thread t take_step 0 0 s
  | SPrepare t => on_thread t (mode_step Took Parked) 1 0 s
  | SApply t => on_thread t (apply_step s) 0 0 s
  | SFinish t => on_thread t (mode_step Applied Running) 0 1 s
  | SExit t => on_thread t exit_step 0 0 s
  | SExitPrepare t => on_thread t (mode_step ExitTook ExitPrepared) 1 0 s
  | SExitFinish t => on_thread t (mode_step ExitPrepared ExitCleared) 0 1 s
  | SExiting t => on_thread t exiting_step 0 0 s
  | SClone t => if locked s then None else add_thread t s
  | SNtThread t => add_thread t s
  | SRestrict t l id => on_thread t (restrict_step l id) 0 0 s
  | SNoNewPrivs t => on_thread t nnp_step 0 0 s
  end.

(** ** Runs *)

Fixpoint run (acts : list Action) (s : Sync) : option Sync :=
  match acts with
  | [] => Some s
  | a :: acts' => match act a s with Some s' => run acts' s' | None => None end
  end.

(** The group before the call: nobody is in a transaction. *)
Definition idle (t : Thread) : Prop :=
  th_work t = false /\ th_stamp t = false /\ (th_mode t = ExitCleared \/ (th_mode t = Running /\ th_exiting t = false)).

Record initial (s : Sync) : Prop := {
  in_threads : Forall idle (threads s);
  in_committed : committed s = false;
  in_counts : expected s = 0 /\ prepared s = 0 /\ finished s = 0;
  in_pc : pc s = Start;
}.

(** Every thread creation goes through [clone]. *)
Definition cloned (a : Action) : bool := match a with SNtThread _ => false | _ => true end.

(** No thread exits. *)
Definition no_exit (a : Action) : bool := match a with SExit _ => false | _ => true end.

End protocol.
