(* ===== verification/TsyncProof.v ===== *)
(** * Landlock: the two barriers

    The invariant of [Tsync]: the counters count the threads that passed each
    barrier, and a commit finds every thread that runs user code parked. *)

From stdpp Require Import list.
From S2P Require Import Prelude Result Landlock LandlockDomain Tsync.

(** ** What a thread is counted for *)

(** It paid its preparation debt. *)
Definition is_prepared (t : Thread) : bool :=
  th_stamp t && negb (th_work t) && match th_mode t with Took | ExitTook => false | _ => true end.

(** It paid both debts. *)
Definition is_finished (t : Thread) : bool :=
  th_stamp t && negb (th_work t) && match th_mode t with Running | ExitCleared => true | _ => false end.

(** It is between the barriers. *)
Definition in_barrier (m : Mode) : bool := match m with Parked | Applied => true | _ => false end.

(** The layers of [d] are the layers of [x], with more on top. *)
Definition extends (x d : Domain) : Prop := d_layers x `prefix_of` d_layers d /\ ancestry x `prefix_of` ancestry d.

#[global] Instance extends_preorder : PreOrder extends.
Proof.
  split.
  - by intros x.
  - intros x y z [H1 H2] [H3 H4]. split; by etransitivity.
Qed.

Section proof.
Context (dom : option Domain) (nnp : bool).

(** The thread is under the policy of the transaction. *)
Definition synced (domain : option Domain) (no_new_privs : bool) : Prop :=
  (forall x, dom = Some x -> exists d, domain = Some d /\ extends x d) /\ (nnp = true -> no_new_privs = true).

Record thread_ok (c : bool) (t : Thread) : Prop := {
  tk_work : th_work t = true -> th_stamp t = true;
  tk_mode : match th_mode t with Running | ExitCleared => True | _ => th_stamp t = true /\ th_work t = false end;
  tk_exiting : th_exiting t = true -> th_mode t = ExitCleared;
  tk_before : c = false -> th_mode t <> Applied /\ (th_mode t = Running -> th_stamp t = true -> th_work t = true);
  tk_after : c = true -> th_work t = false /\ th_mode t <> Took /\ th_mode t <> ExitTook /\
                        (th_mode t = Running \/ th_mode t = Applied -> synced (th_domain t) (th_nnp t));
}.

(** The threads a scan has not come to yet. *)
Definition unvisited (p : Pc) (n : nat) : option (list nat) :=
  match p with
  | Start => Some (seq 0 n)
  | Scan rest _ => Some rest
  | Enrolling t rest _ => Some (t :: rest)
  | Wait _ => Some []
  | Finishing | Returned => None
  end.

Record sync_inv (s : Sync) : Prop := {
  sv_threads : Forall (thread_ok (committed s)) (threads s);
  sv_expected : expected s = sumZ (fun t => Z.b2z (th_stamp t)) (threads s);
  sv_prepared : prepared s = sumZ (fun t => Z.b2z (is_prepared t)) (threads s);
  sv_finished : finished s = sumZ (fun t => Z.b2z (is_finished t)) (threads s);
  sv_pc : match unvisited (pc s) (length (threads s)) with
          | Some rest => committed s = false /\
              forall i t, threads s !! i = Some t -> th_mode t = Running -> th_stamp t = true \/ i ∈ rest
          | None => committed s = true
          end;
  sv_returned : pc s = Returned -> synced (i_domain s) (i_nnp s) /\ Forall (fun t => in_barrier (th_mode t) = false) (threads s);
}.

(** ** One thread moves *)

(** What the invariant needs of a move that pays [p] and [q] debts. *)
Record moves (c : bool) (t t' : Thread) (p q : Z) : Prop := {
  mv_ok : thread_ok c t';
  mv_stamp : th_stamp t' = th_stamp t;
  mv_prepared : Z.b2z (is_prepared t') = Z.b2z (is_prepared t) + p;
  mv_finished : Z.b2z (is_finished t') = Z.b2z (is_finished t) + q;
  mv_running : c = false -> th_mode t' = Running -> th_mode t = Running;
  mv_barrier : in_barrier (th_mode t') = true -> in_barrier (th_mode t) = true \/ c = false;
}.

Lemma sum_replace (f : Thread -> Z) l i t t' : l !! i = Some t -> sumZ f (<[i := t']> l) = sumZ f l + (f t' - f t).
Proof.
  intros H. rewrite <- (take_drop_middle l i t H) at 2. rewrite (insert_take_drop l i t') by by eapply lookup_lt_Some.
  rewrite !sumZ_app, !sumZ_cons. lia.
Qed.

Lemma move_inv s t th f p q s' :
  sync_inv s -> threads s !! t = Some th -> (forall th', f th = Some th' -> moves (committed s) th th' p q) ->
  on_thread t f p q s = Some s' -> sync_inv s'.
Proof.
  intros [Ht He Hp Hf Hpc Hr] Hth Hmv. unfold on_thread. rewrite Hth. destruct (f th) as [th'|]; [|done]. intros [= <-].
  destruct (Hmv th' eq_refl) as [M1 M2 M3 M4 M5 M6]. constructor; cbn [count set_threads threads committed expected prepared finished pc i_domain i_nnp].
  - by apply Forall_insert.
  - rewrite (sum_replace _ _ _ _ _ Hth), M2. lia.
  - rewrite (sum_replace _ _ _ _ _ Hth), M3. lia.
  - rewrite (sum_replace _ _ _ _ _ Hth), M4. lia.
  - rewrite length_insert. destruct (unvisited _ _) as [rest|]; [|done]. destruct Hpc as [Hc Hpc]. split; [done|]. intros i t0 Hi Hrun.
    apply list_lookup_insert_Some in Hi as [(-> & <- & _)|[Hne Hi]]; [|by eapply Hpc]. rewrite M2. eapply Hpc; auto.
  - intros E. destruct (Hr E) as [Hi Hb]. split; [done|]. apply Forall_insert; [done|]. rewrite E in Hpc. cbn in Hpc.
    destruct (in_barrier (th_mode th')) eqn:Eb; [|done]. destruct (M6 eq_refl) as [H|H]; [|congruence].
    rewrite Forall_lookup in Hb. by rewrite (Hb _ _ Hth) in H.
Qed.

Ltac solve_move :=
  let W := fresh "W" in let Md := fresh "Md" in let Ex := fresh "Ex" in let Bf := fresh "Bf" in let Af := fresh "Af" in
  intros [W Md Ex Bf Af] [= <-]; cbn in *; subst;
  constructor; [constructor|..]; cbn in *; unfold is_prepared, is_finished; cbn in *; intuition congruence.

(** A move of a thread in the mode [m]. *)
Lemma take_moves c t t' : thread_ok c t -> take_step t = Some t' -> moves c t t' 0 0.
Proof.
  unfold take_step. destruct t as [d n w st no ex m]. cbn. case_decide; [|done]. subst m. destruct no, w, st; try done; solve_move.
Qed.

Lemma exit_moves c t t' : thread_ok c t -> exit_step t = Some t' -> moves c t t' 0 0.
Proof.
  unfold exit_step. destruct t as [d n w st no ex m]. cbn. case_decide; [|done]. subst m. destruct c, w, st; solve_move.
Qed.

Lemma exiting_moves c t t' : thread_ok c t -> exiting_step t = Some t' -> moves c t t' 0 0.
Proof.
  unfold exiting_step. destruct t as [d n w st no ex m]. cbn. case_decide; [|done]. subst m. destruct c, w, st; solve_move.
Qed.

Lemma prepare_moves c t t' : thread_ok c t -> mode_step Took Parked t = Some t' -> moves c t t' 1 0.
Proof.
  unfold mode_step, set_mode. destruct t as [d n w st no ex m]. cbn. case_decide; [|done]. subst m. destruct c, w, st; solve_move.
Qed.

Lemma exit_prepare_moves c t t' : thread_ok c t -> mode_step ExitTook ExitPrepared t = Some t' -> moves c t t' 1 0.
Proof.
  unfold mode_step, set_mode. destruct t as [d n w st no ex m]. cbn. case_decide; [|done]. subst m. destruct c, w, st; solve_move.
Qed.

Lemma exit_finish_moves c t t' : thread_ok c t -> mode_step ExitPrepared ExitCleared t = Some t' -> moves c t t' 0 1.
Proof.
  unfold mode_step, set_mode. destruct t as [d n w st no ex m]. cbn. case_decide; [|done]. subst m. destruct c, w, st; solve_move.
Qed.

Lemma finish_moves c t t' : thread_ok c t -> mode_step Applied Running t = Some t' -> moves c t t' 0 1.
Proof.
  unfold mode_step, set_mode. destruct t as [d n w st no ex m]. cbn. case_decide; [|done]. subst m. destruct c, w, st; solve_move.
Qed.

Lemma switch_synced d n : synced (switch_domain dom d) (n || nnp).
Proof.
  split; [|intros ->; apply orb_true_r]. intros x ->. cbn. exists x. by split.
Qed.

Lemma apply_moves s t t' : thread_ok (committed s) t -> apply_step dom nnp s t = Some t' -> moves (committed s) t t' 0 0.
Proof.
  unfold apply_step. destruct t as [d n w st no ex m]. cbn. case_decide; [|done]. subst m. destruct (committed s); [|done].
  pose proof (switch_synced d n) as Hs. destruct w, st; solve_move.
Qed.

Lemma synced_deeper d d' n n' :
  synced d n -> (forall x, d = Some x -> exists y, d' = Some y /\ extends x y) -> (n = true -> n' = true) -> synced d' n'.
Proof.
  intros [H1 H2] Hd Hn. split; [|auto]. intros x Hx. destruct (H1 x Hx) as (y & Hy & He). destruct (Hd y Hy) as (z & -> & Hz).
  exists z. split; [done|by etransitivity].
Qed.

Lemma push_extends d l id x : d = Some x -> exists y, Some (push_layer d l id) = Some y /\ extends x y.
Proof. intros ->. eexists. split; [done|]. split; by apply prefix_app_r. Qed.

Lemma restrict_moves c l id t t' : thread_ok c t -> restrict_step l id t = Some t' -> moves c t t' 0 0.
Proof.
  unfold restrict_step. destruct t as [d n w st no ex m]. cbn. case_decide; [|done]. subst m.
  assert (Hs : synced d n -> synced (Some (push_layer d l id)) n) by (intros H; eapply synced_deeper; [done|by apply push_extends|done]).
  destruct w, st; solve_move.
Qed.

Lemma nnp_moves c t t' : thread_ok c t -> nnp_step t = Some t' -> moves c t t' 0 0.
Proof.
  unfold nnp_step. destruct t as [d n w st no ex m]. cbn. case_decide; [|done]. subst m.
  assert (Hs : synced d n -> synced d true) by (intros H; eapply synced_deeper; [done| |done]; intros x ->; by exists x).
  destruct w, st; solve_move.
Qed.

(** ** The initiator moves *)

Lemma sum_tight (f g : Thread -> bool) l :
  (forall t, f t = true -> g t = true) -> sumZ (fun t => Z.b2z (f t)) l = sumZ (fun t => Z.b2z (g t)) l ->
  forall t, t ∈ l -> g t = true -> f t = true.
Proof.
  intros Hle. induction l as [|a l IH]; rewrite ?sumZ_cons; [intros _ t H; by apply not_elem_of_nil in H|].
  assert (Hl : sumZ (fun t => Z.b2z (f t)) l <= sumZ (fun t => Z.b2z (g t)) l).
  { apply sumZ_le. intros t _. specialize (Hle t). destruct (f t); [by rewrite Hle|by destruct (g t)]. }
  pose proof (Hle a) as Ha. intros Hs t [->|Hin]%elem_of_cons; [|apply IH; [|done]]; destruct (f a), (g a); cbn in *; (done || lia || by discriminate Ha).
Qed.

Lemma prepared_stamped t : is_prepared t = true -> th_stamp t = true.
Proof. unfold is_prepared. by intros [[? _]%andb_true_iff _]%andb_true_iff. Qed.

Lemma finished_stamped t : is_finished t = true -> th_stamp t = true.
Proof. unfold is_finished. by intros [[? _]%andb_true_iff _]%andb_true_iff. Qed.

(** Everybody who was asked is parked: the commit finds nobody running. *)
Lemma commit_ok t :
  thread_ok false t -> (th_stamp t = true -> is_prepared t = true) -> (th_mode t = Running -> th_stamp t = true) -> thread_ok true t.
Proof.
  intros [W Md Ex Bf Af] Hp Hr. unfold is_prepared in Hp. destruct t as [d n w st no ex m]. cbn in *.
  destruct m, w, st; constructor; cbn in *; intuition congruence.
Qed.

Lemma enqueue_ok t t' :
  thread_ok false t -> enqueue_locked t = Some t' ->
  thread_ok false t' /\ th_stamp t = false /\ th_stamp t' = true /\ is_prepared t' = is_prepared t /\ is_finished t' = is_finished t.
Proof.
  intros [W Md Ex Bf Af]. unfold enqueue_locked, is_prepared, is_finished. destruct t as [d n w st no ex m]. cbn.
  destruct st, w; try done. intros [= <-]. cbn in *. split_and!; try done.
  destruct m; constructor; cbn in *; intuition congruence.
Qed.

Lemma not_enqueued t : thread_ok false t -> enqueue_locked t = None \/ may_enqueue t = false -> th_mode t = Running -> th_stamp t = true.
Proof.
  intros [W _ Ex _ _]. unfold enqueue_locked, may_enqueue. destruct (th_stamp t); [done|]. destruct (th_work t); [auto|].
  intros [?|H] Hm; [done|]. rewrite andb_true_r in H. apply negb_false_iff in H. rewrite Ex in Hm; done.
Qed.

Lemma enroll_inv s t rest found th th' :
  sync_inv s -> pc s = Enrolling t rest found -> threads s !! t = Some th -> enqueue_locked th = Some th' ->
  sync_inv (count 1 0 0 (set_threads (<[t := th']> (threads s)) (set_pc (Scan rest true) s))).
Proof.
  intros [Ht He Hp Hf Hpc Hr] Ep Hth Hq. rewrite Ep in Hpc. destruct Hpc as [Hc Hpc]. rewrite Hc in Ht.
  destruct (enqueue_ok th th') as (Hok & Hs & Hs' & Hpr & Hfi); [by eapply Forall_lookup_1|done|].
  constructor; cbn [count set_threads set_pc threads committed expected prepared finished pc i_domain i_nnp unvisited]; rewrite ?Hc.
  - by apply Forall_insert.
  - rewrite (sum_replace _ _ _ _ _ Hth), Hs, Hs'. cbn. lia.
  - rewrite (sum_replace _ _ _ _ _ Hth), Hpr. lia.
  - rewrite (sum_replace _ _ _ _ _ Hth), Hfi. lia.
  - split; [done|]. intros i t0 Hi Hrun. apply list_lookup_insert_Some in Hi as [(-> & <- & _)|[Hne Hi]]; [by left|].
    destruct (Hpc i t0 Hi Hrun) as [?|[->|?]%elem_of_cons]; [by left|done|by right].
  - done.
Qed.

Lemma init_inv s s' : sync_inv s -> init_step dom nnp s = Some s' -> sync_inv s'.
Proof.
  intros Hinv. pose proof Hinv as [Ht He Hp Hf Hpc Hr]. unfold init_step. destruct (pc s) as [|[|t rest] found|t rest found|found| |] eqn:Ep; cbn [unvisited] in Hpc.
  - intros [= <-]. by constructor.
  - intros [= <-]. by constructor.
  - destruct (threads s !! t) as [th|] eqn:Hth; [|done]. destruct (may_enqueue th) eqn:Em; intros [= <-]; [by constructor|].
    destruct Hpc as [Hc Hpc]. constructor; try done. cbn. split; [done|]. intros i t0 Hi Hrun.
    destruct (Hpc i t0 Hi Hrun) as [?|[->|?]%elem_of_cons]; [by left| |by right]. left. rewrite Hc in Ht.
    apply not_enqueued; [by eapply Forall_lookup_1|right; congruence|done].
  - destruct (threads s !! t) as [th|] eqn:Hth; [|done]. destruct (enqueue_locked th) as [th'|] eqn:Eq; intros [= <-]; [by eapply enroll_inv|].
    destruct Hpc as [Hc Hpc]. constructor; try done. cbn. split; [done|]. intros i t0 Hi Hrun.
    destruct (Hpc i t0 Hi Hrun) as [?|[->|?]%elem_of_cons]; [by left| |by right]. left. rewrite Hc in Ht.
    apply not_enqueued; [by eapply Forall_lookup_1|left; congruence|done].
  - destruct (prepared s =? expected s) eqn:Eb; [|done]. to_prop. destruct found; intros [= <-].
    + constructor; try done. cbn. split; [apply Hpc|]. intros i t Hi _. right. apply elem_of_seq. pose proof (lookup_lt_Some _ _ _ Hi). lia.
    + destruct Hpc as [Hc Hpc]. rewrite Hc in Ht. constructor; try done. cbn. rewrite Forall_forall in Ht |- *. intros t Hin.
      apply commit_ok; [by apply Ht| |].
      * apply (sum_tight is_prepared th_stamp (threads s)); [apply prepared_stamped|congruence|done].
      * intros Hrun. apply list_elem_of_lookup in Hin as [i Hi]. destruct (Hpc i t Hi Hrun) as [?|H]; [done|by apply not_elem_of_nil in H].
  - destruct (finished s =? expected s) eqn:Eb; [|done]. to_prop. intros [= <-]. constructor; try done. intros _. cbn. split; [apply switch_synced|].
    rewrite Forall_forall in Ht |- *. intros t Hin. pose proof (tk_mode _ _ (Ht t Hin)) as Hm.
    pose proof (sum_tight is_finished th_stamp (threads s) finished_stamped ltac:(congruence) t Hin) as Hfin.
    unfold is_finished in Hfin. destruct (th_mode t); try done; destruct Hm as [Hst Hw]; rewrite Hst, Hw in Hfin; by specialize (Hfin eq_refl).
  - done.
Qed.

Lemma clone_inv s t s' : sync_inv s -> locked s = false -> add_thread t s = Some s' -> sync_inv s'.
Proof.
  intros [Ht He Hp Hf Hpc Hr] Hl. unfold add_thread. destruct (threads s !! t) as [th|] eqn:Hth; [|done]. case_decide as Hm; [|done]. intros [= <-].
  constructor; cbn [set_threads threads committed expected prepared finished pc i_domain i_nnp]; rewrite ?sumZ_app, ?sumZ_cons, ?sumZ_nil; cbn; try lia.
  - apply Forall_app. split; [done|]. apply Forall_singleton. pose proof (Forall_lookup_1 _ _ _ _ Ht Hth) as [_ _ _ _ Af].
    constructor; cbn; try done. intros Hc. destruct (Af Hc) as (_ & _ & _ & Hs). split_and!; auto.
  - unfold locked in Hl. destruct (pc s) eqn:Ep; try done. cbn in *. split; [apply Hpc|]. intros i t0 Hi _. right. apply elem_of_seq.
    pose proof (lookup_lt_Some _ _ _ Hi). lia.
  - intros E. destruct (Hr E) as [Hi Hb]. split; [done|]. apply Forall_app. split; [done|]. by apply Forall_singleton.
Qed.

(** ** Runs *)

Lemma on_thread_inv s t f p q s' :
  sync_inv s -> (forall th th', thread_ok (committed s) th -> f th = Some th' -> moves (committed s) th th' p q) ->
  on_thread t f p q s = Some s' -> sync_inv s'.
Proof.
  intros Hinv Hmv H. destruct (threads s !! t) as [th|] eqn:Hth; [|unfold on_thread in H; by rewrite Hth in H].
  eapply move_inv; [done|exact Hth| |exact H]. intros th' Hf. apply Hmv; [|done].
  exact (Forall_lookup_1 _ _ _ _ (sv_threads _ Hinv) Hth).
Qed.

Lemma act_inv a s s' : sync_inv s -> cloned a = true -> act dom nnp a s = Some s' -> sync_inv s'.
Proof.
  intros Hinv Hc. destruct a; cbn [act]; try done; [by apply init_inv| | | | | | | | | | |];
    try (apply on_thread_inv; [done|]; intros th th').
  - apply take_moves.
  - apply prepare_moves.
  - apply apply_moves.
  - apply finish_moves.
  - apply exit_moves.
  - apply exit_prepare_moves.
  - apply exit_finish_moves.
  - apply exiting_moves.
  - destruct (locked s) eqn:El; [done|]. by apply clone_inv.
  - apply restrict_moves.
  - apply nnp_moves.
Qed.

Lemma run_inv acts s s' : sync_inv s -> forallb cloned acts = true -> run dom nnp acts s = Some s' -> sync_inv s'.
Proof.
  revert s. induction acts as [|a acts IH]; intros s Hinv; cbn; [by intros _ [= <-]|]. intros [Ha Hc]%andb_true_iff.
  destruct (act dom nnp a s) as [s1|] eqn:E; [|done]. apply IH; [|done]. by eapply act_inv.
Qed.

Lemma idle_ok t : idle t -> thread_ok false t /\ is_prepared t = false /\ is_finished t = false.
Proof.
  intros (Hw & Hs & Hm). unfold is_prepared, is_finished. rewrite Hs. split; [|done].
  constructor; rewrite ?Hw, ?Hs; try done; destruct Hm as [Hm|[Hm Hx]]; rewrite ?Hm, ?Hx; try done; split; done.
Qed.

Lemma initial_inv s : initial s -> sync_inv s.
Proof.
  intros [Ht Hc (He & Hp & Hf) Hpc]. assert (Hz : forall f : Thread -> bool, (forall t, idle t -> f t = false) -> sumZ (fun t => Z.b2z (f t)) (threads s) = 0).
  { intros f Hf0. apply sumZ_const0. intros t Hin. rewrite Hf0; [done|]. by apply (proj1 (Forall_forall _ _) Ht). }
  constructor; rewrite ?Hc, ?He, ?Hp, ?Hf, ?Hpc.
  - eapply Forall_impl; [exact Ht|]. intros t Hi. by apply idle_ok.
  - symmetry. apply Hz. by intros t (_ & ? & _).
  - symmetry. apply Hz. intros t Hi. by apply idle_ok.
  - symmetry. apply Hz. intros t Hi. by apply idle_ok.
  - cbn. split; [done|]. intros i t Hi _. right. apply elem_of_seq. pose proof (lookup_lt_Some _ _ _ Hi). lia.
  - done.
Qed.

End proof.
