(* ===== verification/TsyncLive.v ===== *)
(** * Landlock: the barriers open

    While no thread exits, the protocol cannot block: from every state some
    action that the code takes by itself brings the end nearer. *)

From stdpp Require Import list.
From S2P Require Import Prelude Result Landlock LandlockDomain Tsync TsyncProof.

Section live.
Context (dom : option Domain) (nnp : bool).

(** A thread that is not on its way out. *)
Definition lively (t : Thread) : Prop :=
  th_exiting t = false /\ (th_work t = true -> th_notify t = true) /\
  match th_mode t with Running | Took | Parked | Applied => True | _ => False end.

Record live_inv (s : Sync) : Prop := {
  lv_threads : Forall lively (threads s);
  lv_rest : match unvisited (pc s) (length (threads s)) with
            | Some rest => Forall (fun i => i < length (threads s))%nat rest
            | None => True
            end;
}.

(** ** Preservation *)

Lemma live_move s t f p q s' :
  live_inv s -> (forall th th', lively th -> f th = Some th' -> lively th') -> on_thread t f p q s = Some s' -> live_inv s'.
Proof.
  intros [Ht Hr] Hf. unfold on_thread. destruct (threads s !! t) as [th|] eqn:Hth; [|done]. destruct (f th) as [th'|] eqn:Ef; [|done].
  intros [= <-]. constructor; cbn [count set_threads threads pc]; [|by rewrite length_insert].
  apply Forall_insert; [done|]. eapply Hf; [|done]. by eapply Forall_lookup_1.
Qed.

Lemma seq_bound n : Forall (fun i => i < n)%nat (seq 0 n).
Proof. apply Forall_forall. intros i Hi%elem_of_seq. lia. Qed.

Lemma live_init s s' : live_inv s -> init_step dom nnp s = Some s' -> live_inv s'.
Proof.
  intros [Ht Hr]. unfold init_step. destruct (pc s) as [|[|t rest] found|t rest found|found| |] eqn:Ep; cbn [unvisited] in Hr.
  - intros [= <-]. by constructor.
  - intros [= <-]. by constructor.
  - destruct (threads s !! t) as [th|]; [|done]. destruct (may_enqueue th); intros [= <-]; constructor; try done. cbn. by apply Forall_cons in Hr as [].
  - destruct (threads s !! t) as [th|] eqn:Hth; [|done]. apply Forall_cons in Hr as [Hi Hr]. unfold enqueue_locked.
    destruct (th_stamp th), (th_work th); intros [= <-]; constructor; cbn; try done; [|by rewrite length_insert].
    apply Forall_insert; [done|]. destruct (Forall_lookup_1 _ _ _ _ Ht Hth) as (Hx & _ & Hm). done.
  - destruct (prepared s =? expected s); [|done]. destruct found; intros [= <-]; constructor; try done. cbn. apply seq_bound.
  - destruct (finished s =? expected s); [|done]. intros [= <-]. by constructor.
  - done.
Qed.

Lemma live_clone s t s' : live_inv s -> locked s = false -> add_thread t s = Some s' -> live_inv s'.
Proof.
  intros [Ht Hr] Hl. unfold add_thread. destruct (threads s !! t) as [th|] eqn:Hth; [|done]. case_decide; [|done]. intros [= <-].
  constructor; cbn [set_threads threads pc].
  - apply Forall_app. split; [done|]. by apply Forall_singleton.
  - unfold locked in Hl. destruct (pc s); try done. cbn [unvisited]. apply seq_bound.
Qed.

Lemma live_act a s s' : live_inv s -> cloned a && no_exit a = true -> act dom nnp a s = Some s' -> live_inv s'.
Proof.
  intros Hinv Hc. destruct a; cbn [act]; try done; [by apply live_init| | | | | | | | | |]; try (apply live_move; [done|]; intros th th' (Hx & Hn & Hm)).
  - unfold take_step, lively. case_decide; [|done]. destruct (th_notify th); [|done]. intros [= <-]. cbn. by destruct (th_work th).
  - unfold mode_step, lively. case_decide; [|done]. by intros [= <-].
  - unfold apply_step, lively. case_decide; [|done]. destruct (committed s); [|done]. by intros [= <-].
  - unfold mode_step, lively. case_decide; [|done]. by intros [= <-].
  - unfold mode_step. case_decide as Hd; [|done]. by rewrite Hd in Hm.
  - unfold mode_step. case_decide as Hd; [|done]. by rewrite Hd in Hm.
  - unfold exiting_step. case_decide as Hd; [|done]. by rewrite Hd in Hm.
  - destruct (locked s) eqn:El; [done|]. by apply live_clone.
  - unfold restrict_step, lively. case_decide; [|done]. by intros [= <-].
  - unfold nnp_step, lively. case_decide; [|done]. by intros [= <-].
Qed.

Lemma live_run acts s s' :
  live_inv s -> forallb (fun a => cloned a && no_exit a) acts = true -> run dom nnp acts s = Some s' -> live_inv s'.
Proof.
  revert s. induction acts as [|a acts IH]; intros s Hinv; cbn [forallb run]; [by intros _ [= <-]|]. intros [Ha Hc]%andb_true_iff.
  destruct (act dom nnp a s) as [s1|] eqn:E; [|done]. apply IH; [|done]. by eapply live_act.
Qed.

(** ** The way to the end *)

Definition rank (t : Thread) : nat :=
  if th_stamp t then
    match th_mode t with
    | Running => if th_work t then 4 else 0
    | Took => 3
    | Parked => 2
    | Applied => 1
    | _ => 0
    end
  else 5.

Definition pc_rank (n : nat) (p : Pc) : nat :=
  match p with
  | Returned => 0
  | Finishing => 1
  | Wait false => 2
  | Scan rest false => 3 + 2 * length rest
  | Enrolling _ rest false => 4 + 2 * length rest
  | Wait true => 4 + 2 * n
  | Start => 4 + 2 * n
  | Scan rest true => 5 + 2 * n + 2 * length rest
  | Enrolling _ rest true => 6 + 2 * n + 2 * length rest
  end.

Definition total (l : list Thread) : nat := list_sum (map rank l).

Definition measure (s : Sync) : nat :=
  (2 * length (threads s) + 10) * total (threads s) + pc_rank (length (threads s)) (pc s).

Lemma total_insert l i t t' : l !! i = Some t -> (total (<[i := t']> l) + rank t = total l + rank t')%nat.
Proof.
  intros H. rewrite <- (take_drop_middle l i t H) at 2. rewrite (insert_take_drop l i t') by by eapply lookup_lt_Some.
  unfold total. rewrite !map_app, !list_sum_app. cbn. lia.
Qed.

(** A move that lowers the rank of one thread. *)
Lemma move_lowers s t th f th' p q :
  threads s !! t = Some th -> f th = Some th' -> (rank th' < rank th)%nat ->
  exists s', on_thread t f p q s = Some s' /\ (measure s' < measure s)%nat.
Proof.
  intros Hth Hf Hr. unfold on_thread. rewrite Hth, Hf. eexists. split; [done|]. unfold measure. cbn [count set_threads threads pc].
  rewrite length_insert. pose proof (total_insert _ _ _ th' Hth). nia.
Qed.

(** An action of the initiator brings the end nearer. *)
Lemma init_lowers s s' : init_step dom nnp s = Some s' -> (measure s' < measure s)%nat.
Proof.
  unfold init_step, measure. destruct (pc s) as [|[|t rest] found|t rest found|found| |] eqn:Ep.
  - intros [= <-]. cbn [set_pc threads pc pc_rank]. rewrite length_seq. lia.
  - intros [= <-]. cbn [set_pc threads pc pc_rank length]. destruct found; lia.
  - destruct (threads s !! t) as [th|]; [|done]. destruct (may_enqueue th); intros [= <-]; cbn [set_pc threads pc pc_rank length]; destruct found; lia.
  - destruct (threads s !! t) as [th|] eqn:Hth; [|done]. unfold enqueue_locked. destruct (th_stamp th) eqn:Es, (th_work th) eqn:Ew;
      intros [= <-]; cbn [count set_threads set_pc threads pc pc_rank]; try (destruct found; lia).
    set (th' := {| th_domain := _ |}). rewrite length_insert. pose proof (total_insert _ _ _ th' Hth) as Ht.
    assert (Hr : (rank th' < rank th)%nat) by (unfold rank; rewrite Es; cbn; destruct (th_mode th); lia).
    destruct found; nia.
  - destruct (prepared s =? expected s); [|done]. destruct found; intros [= <-]; cbn [set_pc threads pc pc_rank]; rewrite ?length_seq; lia.
  - destruct (finished s =? expected s); [|done]. intros [= <-]. cbn [threads pc pc_rank]. lia.
  - done.
Qed.

Lemma sum_short (f g : Thread -> bool) l :
  (forall t, f t = true -> g t = true) -> sumZ (fun t => Z.b2z (f t)) l <> sumZ (fun t => Z.b2z (g t)) l ->
  exists i t, l !! i = Some t /\ g t = true /\ f t = false.
Proof.
  intros Hle. induction l as [|a l IH]; rewrite ?sumZ_cons; [done|]. intros Hne.
  destruct (f a) eqn:Ef; [|destruct (g a) eqn:Eg; [by exists 0%nat, a|]].
  - destruct IH as (i & t & ?); [rewrite Hle in Hne by done; cbn in Hne; lia|]. by exists (S i), t.
  - destruct IH as (i & t & ?); [cbn in Hne; lia|]. by exists (S i), t.
Qed.

(** ** Progress *)

Lemma wait_progress s found :
  sync_inv dom nnp s -> live_inv s -> pc s = Wait found -> prepared s <> expected s ->
  exists a s', act dom nnp a s = Some s' /\ cloned a && no_exit a = true /\ (measure s' < measure s)%nat.
Proof.
  intros Hinv [Ht _] Hpc Hne. rewrite (sv_prepared _ _ _ Hinv), (sv_expected _ _ _ Hinv) in Hne.
  apply sum_short in Hne as (i & t & Hi & Hs & Hp); [|apply prepared_stamped].
  destruct (Forall_lookup_1 _ _ _ _ Ht Hi) as (_ & Hn & Hm). pose proof (Forall_lookup_1 _ _ _ _ (sv_threads _ _ _ Hinv) Hi) as Hok.
  pose proof (tk_mode _ _ _ _ Hok) as Hmode. unfold is_prepared in Hp. rewrite Hs in Hp. cbn in Hp. destruct (th_mode t) eqn:Em; try done.
  - destruct (th_work t) eqn:Ew; [|done]. destruct (move_lowers s i t take_step (take_work Took t) 0 0) as (s' & E & Hlt); [done| | |exists (STake i), s'; done].
    + unfold take_step. rewrite decide_True, (Hn eq_refl), Ew by done. done.
    + unfold rank. cbn. rewrite Hs, Em, Ew. lia.
  - destruct (move_lowers s i t (mode_step Took Parked) (set_mode Parked t) 1 0) as (s' & E & Hlt); [done| | |exists (SPrepare i), s'; done].
    + unfold mode_step. by rewrite decide_True by done.
    + unfold rank. cbn. rewrite Hs, Em. lia.
  - destruct Hmode as [_ Hw]. by rewrite Hw in Hp.
  - destruct Hmode as [_ Hw]. by rewrite Hw in Hp.
Qed.

Lemma finish_progress s :
  sync_inv dom nnp s -> live_inv s -> pc s = Finishing -> finished s <> expected s ->
  exists a s', act dom nnp a s = Some s' /\ cloned a && no_exit a = true /\ (measure s' < measure s)%nat.
Proof.
  intros Hinv [Ht _] Hpc Hne. rewrite (sv_finished _ _ _ Hinv), (sv_expected _ _ _ Hinv) in Hne.
  pose proof (sv_pc _ _ _ Hinv) as Hc. rewrite Hpc in Hc. cbn in Hc.
  apply sum_short in Hne as (i & t & Hi & Hs & Hp); [|apply finished_stamped].
  destruct (Forall_lookup_1 _ _ _ _ Ht Hi) as (_ & Hn & Hm). pose proof (Forall_lookup_1 _ _ _ _ (sv_threads _ _ _ Hinv) Hi) as Hok.
  destruct (tk_after _ _ _ _ Hok Hc) as (Hw & Hnt & _ & _). unfold is_finished in Hp. rewrite Hs, Hw in Hp. cbn in Hp.
  destruct (th_mode t) eqn:Em; try done.
  - destruct (apply_step dom nnp s t) as [t'|] eqn:Ea.
    + destruct (move_lowers s i t (apply_step dom nnp s) t' 0 0) as (s' & E & Hlt); [done|done| |exists (SApply i), s'; done].
      unfold apply_step in Ea. rewrite decide_True, Hc in Ea by done. injection Ea as <-. unfold rank. cbn. rewrite Hs, Em. lia.
    + unfold apply_step in Ea. by rewrite decide_True, Hc in Ea by done.
  - destruct (move_lowers s i t (mode_step Applied Running) (set_mode Running t) 0 1) as (s' & E & Hlt); [done| | |exists (SFinish i), s'; done].
    + unfold mode_step. by rewrite decide_True by done.
    + unfold rank. cbn. rewrite Hs, Em, Hw. lia.
Qed.

Lemma progress s :
  sync_inv dom nnp s -> live_inv s -> pc s <> Returned ->
  exists a s', act dom nnp a s = Some s' /\ cloned a && no_exit a = true /\ (measure s' < measure s)%nat.
Proof.
  intros Hinv Hl Hpc. destruct (init_step dom nnp s) as [s'|] eqn:E; [exists Init, s'; split_and!; [done..|by apply init_lowers]|].
  pose proof (lv_rest _ Hl) as Hr. unfold init_step in E. destruct (pc s) as [|[|t rest] found|t rest found|found| |] eqn:Ep; try done.
  - apply Forall_cons in Hr as [Hi _]. destruct (lookup_lt_is_Some_2 _ _ Hi) as [th Hth]. rewrite Hth in E. by destruct (may_enqueue th).
  - apply Forall_cons in Hr as [Hi _]. destruct (lookup_lt_is_Some_2 _ _ Hi) as [th Hth]. rewrite Hth in E. by destruct (enqueue_locked th).
  - destruct (prepared s =? expected s) eqn:Eb; to_prop; [by destruct found|]. by eapply wait_progress.
  - destruct (finished s =? expected s) eqn:Eb; to_prop; [done|]. by apply finish_progress.
Qed.

Lemma completes n s :
  (measure s <= n)%nat -> sync_inv dom nnp s -> live_inv s ->
  exists acts s', forallb (fun a => cloned a && no_exit a) acts = true /\ run dom nnp acts s = Some s' /\ pc s' = Returned /\
                  (length acts <= n)%nat.
Proof.
  revert s. induction n as [|n IH]; intros s Hn Hinv Hl; (destruct (pc s) as [| | | | |] eqn:Ep;
    [.. | exists [], s; split_and!; [done..|cbn; lia]]);
    (destruct (progress s) as (a & s1 & Ha & Hc & Hlt); [done|done|congruence|]); try lia;
    (destruct (IH s1) as (acts & s' & Hca & Hrun & Hpc & Hlen); [lia|eapply act_inv; [done| |done]; by apply andb_true_iff in Hc as []|by eapply live_act|]);
    (exists (a :: acts), s'; cbn [forallb run length]; rewrite Hc, Ha; split_and!; [done..|lia]).
Qed.

End live.
