(* ===== verification/TsyncTheorems.v ===== *)
(** * Landlock: what the two barriers guarantee *)

From stdpp Require Import list.
From S2P Require Import Prelude Result Landlock LandlockDomain Tsync TsyncProof TsyncLive.


(** A group of two siblings and a domain of one layer. *)
Definition free_thread : Thread :=
  {| th_domain := None; th_nnp := false; th_work := false; th_stamp := false; th_notify := false; th_exiting := false; th_mode := Running |}.

Definition group_of (l : list Thread) : Sync :=
  {| threads := l; committed := false; expected := 0; prepared := 0; finished := 0; pc := Start; i_domain := None; i_nnp := false |}.

Definition one_layer : Layer :=
  {| l_handled_fs := 1; l_handled_net := 0; l_scoped := 0; l_quiet_fs := 0; l_quiet_net := 0; l_quiet_scoped := 0; l_fs := []; l_net := []; l_log := 0 |}.

Definition one_domain : Domain := {| d_layers := [one_layer]; ancestry := [1] |}.

Lemma group_initial l : Forall idle l -> initial (group_of l).
Proof. by constructor. Qed.

Lemma free_idle : idle free_thread.
Proof. split_and!; [done..|right; done]. Qed.



(** As long as no thread exits, the transaction cannot
    block. Whatever the threads have done so far, a bounded number of actions
    they take by themselves (running their queued work, and the steps of the
    caller) leads to the return of the call. *)
Theorem tsync_completes dom nnp acts s s' :
  initial s -> Forall (fun t => th_mode t = Running) (threads s) ->
  forallb (fun a => cloned a && no_exit a) acts = true -> run dom nnp acts s = Some s' ->
  exists acts' s'', run dom nnp acts' s' = Some s'' /\ pc s'' = Returned /\ (length acts' <= measure s')%nat.
Proof.
  intros Hi Hrun Hc Hr. assert (Hc' : forallb cloned acts = true).
  { rewrite forallb_forall in Hc |- *. intros a Ha. by apply Hc, andb_true_iff in Ha as []. }
  pose proof (run_inv _ _ _ _ _ (initial_inv dom nnp s Hi) Hc' Hr) as Hinv.
  assert (Hl : live_inv s).
  { constructor; [|rewrite (in_pc _ Hi); apply seq_bound]. apply Forall_forall. intros t Hin.
    pose proof (proj1 (Forall_forall _ _) (in_threads _ Hi) t Hin) as (Hw & _ & Hx). pose proof (proj1 (Forall_forall _ _) Hrun t Hin) as Hm. cbn in Hm.
    split_and!; [|by rewrite Hw|by rewrite Hm]. destruct Hx as [Hx|[_ Hx]]; [congruence|done]. }
  destruct (completes dom nnp (measure s') s' (Nat.le_refl _) Hinv (live_run _ _ _ _ _ Hl Hc Hr)) as (acts' & s'' & _ & H1 & H2 & H3).
  eauto.
Qed.

Lemma tsync_completes_witness : exists acts' s'', run None true acts' (group_of [free_thread; free_thread]) = Some s'' /\ pc s'' = Returned /\
  (length acts' <= measure (group_of [free_thread; free_thread]))%nat.
Proof.
  apply (tsync_completes None true [] (group_of [free_thread; free_thread])); [|repeat constructor|done|done].
  apply group_initial. repeat constructor; apply free_idle.
Defined.

(** ** A thread that exits at the wrong moment *)

(** Enrolled after it cancelled, a thread never pays its debts. *)
Definition doomed (s : Sync) : Prop :=
  exists i t, threads s !! i = Some t /\ th_stamp t = true /\ th_work t = true /\ th_mode t = ExitCleared.

Lemma doomed_move s t f p q s' :
  doomed s -> (forall th th', th_mode th = ExitCleared -> f th = Some th' -> th_stamp th' = th_stamp th /\ th_work th' = th_work th /\ th_mode th' = ExitCleared) ->
  on_thread t f p q s = Some s' -> doomed s'.
Proof.
  intros (i & th & Hi & Hs & Hw & Hm) Hf. unfold on_thread. destruct (threads s !! t) as [th0|] eqn:Ht; [|done]. destruct (f th0) as [th'|] eqn:E; [|done].
  intros [= <-]. exists i. cbn [count set_threads threads]. destruct (decide (t = i)) as [->|Hne].
  - simplify_eq. destruct (Hf th th' Hm E) as (H1 & H2 & H3). exists th'. rewrite list_lookup_insert_eq by by eapply lookup_lt_Some. split_and!; congruence.
  - exists th. by rewrite list_lookup_insert_ne.
Qed.

Lemma doomed_add s t s' : doomed s -> add_thread t s = Some s' -> doomed s'.
Proof.
  intros (i & th & Hi & H). unfold add_thread. destruct (threads s !! t); [|done]. case_decide; [|done]. intros [= <-].
  exists i, th. split; [|done]. cbn. by apply lookup_app_l_Some.
Qed.

Lemma doomed_init dom nnp s s' :
  sync_inv dom nnp s -> doomed s -> committed s = false -> init_step dom nnp s = Some s' -> doomed s' /\ committed s' = false.
Proof.
  intros Hinv Hd Hc. pose proof Hd as (i & th & Hi & Hs & Hw & Hm). unfold init_step.
  destruct (pc s) as [|[|t rest] found|t rest found|found| |] eqn:Ep.
  - by intros [= <-].
  - by intros [= <-].
  - destruct (threads s !! t); [|done]. destruct (may_enqueue _); by intros [= <-].
  - destruct (threads s !! t) as [th0|] eqn:Ht; [|done]. destruct (enqueue_locked th0) as [th'|] eqn:E; intros [= <-]; [|done].
    split; [|done]. exists i, th. split; [|done]. cbn. rewrite list_lookup_insert_ne; [done|]. intros ->. simplify_eq.
    unfold enqueue_locked in E. by rewrite Hs in E.
  - destruct (prepared s =? expected s) eqn:Eb; [|done]. to_prop. destruct found; intros [= <-]; [done|]. exfalso.
    rewrite (sv_prepared _ _ _ Hinv), (sv_expected _ _ _ Hinv) in Eb.
    pose proof (sum_tight is_prepared th_stamp _ prepared_stamped Eb th (list_elem_of_lookup_2 _ _ _ Hi) Hs) as Hp.
    unfold is_prepared in Hp. by rewrite Hs, Hw in Hp.
  - pose proof (sv_pc _ _ _ Hinv) as Hpc. rewrite Ep in Hpc. cbn in Hpc. congruence.
  - done.
Qed.

Lemma doomed_act dom nnp a s s' :
  sync_inv dom nnp s -> doomed s -> committed s = false -> act dom nnp a s = Some s' -> doomed s' /\ committed s' = false.
Proof.
  intros Hinv Hd Hc Ha.
  assert (Hk : forall t f p q, on_thread t f p q s = Some s' -> committed s' = false).
  { intros t f p q H. unfold on_thread in H. destruct (threads s !! t) as [th|]; [|done]. destruct (f th); [|done]. by simplify_eq. }
  assert (Hadd : forall t, add_thread t s = Some s' -> doomed s' /\ committed s' = false).
  { intros t H. split; [by eapply doomed_add|]. unfold add_thread in H. destruct (threads s !! t); [|done]. case_decide; [|done]. by simplify_eq. }
  destruct a; cbn [act] in Ha; [by eapply doomed_init| | | | | | | | | | | |]; try (split; [|by eapply Hk]; eapply doomed_move; [done| |exact Ha]; intros th th' Hm).
  - unfold take_step. by rewrite decide_False by (rewrite Hm; done).
  - unfold mode_step. by rewrite decide_False by (rewrite Hm; done).
  - unfold apply_step. by rewrite decide_False by (rewrite Hm; done).
  - unfold mode_step. by rewrite decide_False by (rewrite Hm; done).
  - unfold exit_step. by rewrite decide_False by (rewrite Hm; done).
  - unfold mode_step. by rewrite decide_False by (rewrite Hm; done).
  - unfold mode_step. by rewrite decide_False by (rewrite Hm; done).
  - unfold exiting_step. rewrite decide_True by done. by intros [= <-].
  - destruct (locked s); [done|]. by eapply Hadd.
  - by eapply Hadd.
  - unfold restrict_step. by rewrite decide_False by (rewrite Hm; done).
  - unfold nnp_step. by rewrite decide_False by (rewrite Hm; done).
Qed.

Lemma doomed_run dom nnp acts s s' :
  sync_inv dom nnp s -> doomed s -> committed s = false -> forallb cloned acts = true -> run dom nnp acts s = Some s' -> committed s' = false.
Proof.
  revert s. induction acts as [|a acts IH]; intros s Hinv Hd Hc; cbn [forallb run]; [by intros _ [= <-]|]. intros [Ha Hcl]%andb_true_iff.
  destruct (act dom nnp a s) as [s1|] eqn:E; [|done]. destruct (doomed_act _ _ _ _ _ Hinv Hd Hc E). apply IH; try done. by eapply act_inv.
Qed.

(** The sibling cancels its work on the way out, finds none, and is enrolled
    before it publishes that it is exiting. *)
Definition late_enrolment : list Action := [Init; SExit 0; Init; Init; SExiting 0].

(** The cancellation of an exiting thread and the flag that
    keeps it out of later transactions are two steps, in this order; a thread
    enrolled between them is never prepared. After that, whatever runs, the
    transaction does not commit and its call does not return. *)
Theorem tsync_exit_hangs dom nnp :
  exists s, run dom nnp late_enrolment (group_of [free_thread]) = Some s /\
    forall acts s', forallb cloned acts = true -> run dom nnp acts s = Some s' -> committed s' = false /\ pc s' <> Returned.
Proof.
  destruct (run dom nnp late_enrolment (group_of [free_thread])) as [s|] eqn:E; [|by vm_compute in E]. exists s. split; [done|].
  assert (Hinv : sync_inv dom nnp s).
  { refine (run_inv _ _ late_enrolment _ _ (initial_inv _ _ _ _) eq_refl E). apply group_initial. constructor; [apply free_idle|constructor]. }
  assert (Hd : doomed s /\ committed s = false).
  { vm_compute in E. injection E as <-. split; [|done]. eexists 0%nat, _. done. }
  intros acts s' Hc Hr. assert (Hf : committed s' = false) by (eapply doomed_run; [exact Hinv|apply Hd|apply Hd|done|done]). split; [done|].
  intros Hp. pose proof (sv_pc _ _ _ (run_inv _ _ _ _ _ Hinv Hc Hr)) as Hpc. rewrite Hp in Hpc. cbn in Hpc. congruence.
Qed.

(** ** A thread created outside [clone] *)

(** A sibling creates a thread behind the scan and exits before the scan
    comes to it. *)
Definition late_thread : list Action := [Init; SNtThread 0; SExit 0; SExiting 0; Init; Init; Init; Init].

(** The call returns, and the new thread runs without the domain. *)
Lemma nt_thread_missed :
  exists s t, run (Some one_domain) false late_thread (group_of [free_thread]) = Some s /\ pc s = Returned /\
    threads s !! 1%nat = Some t /\ th_mode t = Running /\ th_domain t = None.
Proof. eexists _, _. split_and!; [vm_compute; reflexivity|done..]. Qed.

(** [clone] refuses to create a thread meanwhile. *)
Lemma clone_refused dom nnp t s : locked s = true -> act dom nnp (SClone t) s = None.
Proof. intros H. cbn. by rewrite H. Qed.
