(* ===== verification/LandlockCalls.v ===== *)
(** * Landlock: the system calls

    [landlock_create_ruleset], [landlock_add_rule] and
    [landlock_restrict_self] ([syscalls/src/444_*.rs] to [446_*.rs]), the
    descriptor and thread state they read ([syscalls/src/landlock.rs]), and
    what clone, exec and [prctl] do to that state.

    A [World] is the state the calls share: threads hold a domain and the
    index of their descriptor table, tables hold files, a ruleset file names
    its ruleset, and a layer its log. System-call arguments are [u64]; the
    answer is the [i64] the call returns. *)

From stdpp Require Import list.
From S2P Require Import Prelude Words Result FdTable Vma Landlock LandlockDomain LandlockAccess.

(** ** Machine integers *)

(** [x as u32] and [x as i32]. *)
Definition as_u32 (x : Z) : Z := x mod 2 ^ 32.
Definition as_i32 (x : Z) : Z := let y := as_u32 x in if y <? 2 ^ 31 then y else y - 2 ^ 32.

Definition errno_code (e : Errno) : Z :=
  match e with
  | Eperm => 1 | Enoent => 2 | Esrch => 3 | E2big => 7 | Ebadf => 9 | Eagain => 11 | Eacces => 13 | Efault => 14 | Ebusy => 16
  | Exdev => 18 | Einval => 22 | Emfile => 24 | Enomsg => 42 | Ebadfd => 77 | Eafnosupport => 97
  end.

Definition neg (e : Errno) : Z := - errno_code e.

Definition restart_nointr : Z := -513.

(** ** User memory ([uaccess]) *)

(** The byte at a user address, unless reading it faults. *)
Definition UserMem : Type := Z -> option Z.

Definition access_ok (addr : Z) (len : nat) : bool :=
  if (len =? 0)%nat then addr <=? USER_VA_END
  else negb (addr =? 0) && (addr + Z.of_nat len <=? U64_MAX) && (addr + Z.of_nat len <=? USER_VA_END).

Fixpoint read_bytes (mem : UserMem) (addr : Z) (len : nat) : option (list Z) :=
  match len with
  | O => Some []
  | S len' => match mem addr, read_bytes mem (addr + 1) len' with Some b, Some bs => Some (b :: bs) | _, _ => None end
  end.

Definition copy_from_user (mem : UserMem) (src : Z) (len : nat) : result (list Z) :=
  if negb (access_ok src len) then Err Efault
  else match read_bytes mem src len with Some bs => Ok bs | None => Err Efault end.

(** ** The shared state *)

(** What the calls read of an open file. *)
Record FileObj := { fo_ruleset : option nat; fo_mnt_id : Z; fo_inode : Z; fo_dir : bool; fo_anon : bool; fo_nouser : bool }.

Record Task := { tk_tgid : Z; tk_nnp : bool; tk_log_state : Z; tk_domain : option Domain; tk_table : option nat }.

Record World := {
  w_tasks : list Task;
  w_tables : list Tab;
  w_files : list FileObj;
  w_rulesets : list Ruleset;
  w_logs : Logs;
  w_source : bool;
  w_next_id : Z;
}.

Definition put_tasks (x : list Task) (w : World) : World :=
  {| w_tasks := x; w_tables := w_tables w; w_files := w_files w; w_rulesets := w_rulesets w; w_logs := w_logs w; w_source := w_source w; w_next_id := w_next_id w |}.
Definition put_tables (x : list Tab) (w : World) : World :=
  {| w_tasks := w_tasks w; w_tables := x; w_files := w_files w; w_rulesets := w_rulesets w; w_logs := w_logs w; w_source := w_source w; w_next_id := w_next_id w |}.
Definition put_wfiles (x : list FileObj) (w : World) : World :=
  {| w_tasks := w_tasks w; w_tables := w_tables w; w_files := x; w_rulesets := w_rulesets w; w_logs := w_logs w; w_source := w_source w; w_next_id := w_next_id w |}.
Definition put_rulesets (x : list Ruleset) (w : World) : World :=
  {| w_tasks := w_tasks w; w_tables := w_tables w; w_files := w_files w; w_rulesets := x; w_logs := w_logs w; w_source := w_source w; w_next_id := w_next_id w |}.
Definition put_wlogs (x : Logs) (w : World) : World :=
  {| w_tasks := w_tasks w; w_tables := w_tables w; w_files := w_files w; w_rulesets := w_rulesets w; w_logs := x; w_source := w_source w; w_next_id := w_next_id w |}.
Definition put_source (x : bool) (w : World) : World :=
  {| w_tasks := w_tasks w; w_tables := w_tables w; w_files := w_files w; w_rulesets := w_rulesets w; w_logs := w_logs w; w_source := x; w_next_id := w_next_id w |}.
Definition put_next_id (x : Z) (w : World) : World :=
  {| w_tasks := w_tasks w; w_tables := w_tables w; w_files := w_files w; w_rulesets := w_rulesets w; w_logs := w_logs w; w_source := w_source w; w_next_id := x |}.

Definition with_domain (d : option Domain) (t : Task) : Task :=
  {| tk_tgid := tk_tgid t; tk_nnp := tk_nnp t; tk_log_state := tk_log_state t; tk_domain := d; tk_table := tk_table t |}.
Definition with_nnp (b : bool) (t : Task) : Task :=
  {| tk_tgid := tk_tgid t; tk_nnp := b; tk_log_state := tk_log_state t; tk_domain := tk_domain t; tk_table := tk_table t |}.
Definition with_log_state (x : Z) (t : Task) : Task :=
  {| tk_tgid := tk_tgid t; tk_nnp := tk_nnp t; tk_log_state := x; tk_domain := tk_domain t; tk_table := tk_table t |}.

Definition on_task (tid : nat) (f : Task -> Task) : M World unit := modify (fun w => put_tasks (alter f tid (w_tasks w)) w).

(** A computation on one descriptor table. *)
Definition on_table {A} (i : nat) (m : M Tab A) : M World A :=
  w ← get;
  t ← expect (w_tables w !! i) "descriptor table";
  zoom (fun _ => t) (fun t' w => put_tables (<[i := t']> (w_tables w)) w) m.

(** ** Descriptors and domains of a thread ([syscalls/src/landlock.rs]) *)

Module Ll.

(** The file of a descriptor. *)
Definition file_of (w : World) (task : Task) (fd : Z) : result FileObj :=
  match tk_table task with
  | None => Err Ebadf
  | Some i =>
      match Fd.fget (default new_table (w_tables w !! i)) fd with
      | Err _ => Err Ebadf
      | Ok f => match w_files w !! Z.to_nat f with Some o => Ok o | None => Err Ebadf end
      end
  end.

Definition ruleset_from_fd (w : World) (tid : nat) (fd : Z) : result nat :=
  match w_tasks w !! tid with
  | None => Err Esrch
  | Some task =>
      rbind (file_of w task fd) (fun f =>
      match fo_ruleset f with None => Err Ebadfd | Some r => Ok r end)
  end.

Definition is_ruleset_file (f : FileObj) : bool := match fo_ruleset f with Some _ => true | None => false end.

Definition rule_target_fd (f : FileObj) : Abi.RuleTargetFd :=
  {| Abi.is_ruleset := is_ruleset_file f; Abi.has_mount := negb (fo_mnt_id f =? 0); Abi.is_anon := fo_anon f; Abi.sb_nouser := fo_nouser f |}.

Definition current_domain (w : World) (tid : nat) : option Domain :=
  match w_tasks w !! tid with Some t => tk_domain t | None => None end.

Definition set_current_domain (tid : nat) (d : Domain) : M World (result unit) :=
  w ← get;
  match w_tasks w !! tid with
  | None => ret (Err Esrch)
  | Some _ => on_task tid (with_domain (Some d)) ;; ret (Ok tt)
  end.

(** The layers the running program enforced itself. *)
Definition current_exec_layers (w : World) (tid : nat) : Z :=
  match w_tasks w !! tid with Some t => Log.exec_layers (tk_log_state t) | None => 0 end.

(** A check by the thread: denials read its enforced layers once the reader
    is installed. *)
Definition by_thread {A} (tid : nat) (m : M Logs A) : M World A :=
  w ← get;
  let l := w_logs w in
  let l := {| logs := logs l; audit_enabled := audit_enabled l; records := records l;
              exec_source := if w_source w then Some (current_exec_layers w tid) else None |} in
  zoom (fun _ => l) put_wlogs m.

Definition answer {A} (r : result A) : A + Z := match r with Ok a => inl a | Err e => inr (neg e) end.

Definition check (v : Vfs) (tid : nat) (path : VfsPath) (op : Z) : M World (unit + Z) :=
  w ← get;
  match current_domain w tid with
  | None => ret (inl tt)
  | Some d => r ← by_thread tid (Dom.check_fs v d path op); ret (answer r)
  end.

Definition open_decide (v : Vfs) (tid : nat) (path : VfsPath) (open_req : Z) (is_device : bool) : M World (Z + Z) :=
  w ← get;
  match current_domain w tid with
  | None => ret (inl U64_MAX)
  | Some d => r ← by_thread tid (Access.open_decide v d path open_req is_device); ret (answer r)
  end.

Definition check_refer (v : Vfs) (tid : nat) (old_dir : VfsPath) (old : Target) (new_dir : VfsPath) (new : option Target)
    (removable exchange : bool) : M World (unit + Z) :=
  w ← get;
  match current_domain w tid with
  | None => ret (inl tt)
  | Some d => r ← by_thread tid (Refer.check v d old_dir old new_dir new removable exchange); ret (answer r)
  end.

Definition check_net (tid : nat) (port op : Z) : M World (unit + Z) :=
  w ← get;
  match current_domain w tid with
  | None => ret (inl tt)
  | Some d => r ← by_thread tid (Dom.check_net d port op); ret (answer r)
  end.

Definition scope_denies (tid : nat) (scope : Z) (peer : option Domain) : M World bool :=
  w ← get;
  match current_domain w tid with
  | None => ret false
  | Some d => by_thread tid (Dom.scope_denies d scope peer)
  end.

(** The address check of [bind], [connect] and the datagram send path; the
    network error is returned as its code. *)
Definition check_socket (tid : nat) (proto : Net.Proto) (op : Net.Op) (bs : list Z) (sock_family : Z) : M World (unit + Z) :=
  w ← get;
  r ← by_thread tid (Net.addr_verdict (current_domain w tid) proto op bs sock_family);
  ret (answer r).

End Ll.

(** ** [landlock_create_ruleset] *)

(** The file of a new ruleset: anonymous, behind no mount. *)
Definition ruleset_file (w : World) : FileObj :=
  {| fo_ruleset := Some (length (w_rulesets w)); fo_mnt_id := 0; fo_inode := - Z.of_nat (length (w_files w)) - 1;
     fo_dir := false; fo_anon := true; fo_nouser := false |}.

Section calls.
(** The user memory of the caller, and its limit on descriptors. *)
Context (mem : UserMem) (nofile_soft : nat).

(** The loop over chunks of 64 bytes; a chunk takes at least one byte off
    [len]. *)
Fixpoint tail_loop (fuel : nat) (addr : Z) (len : nat) : result bool :=
  match fuel with
  | O => Ok true
  | S fuel' =>
      if (len =? 0)%nat then Ok true
      else
        let n := Nat.min len 64 in
        match copy_from_user mem addr n with
        | Err _ => Err Efault
        | Ok chunk =>
            if existsb (fun b => negb (b =? 0)) chunk then Ok false
            else tail_loop fuel' (addr + Z.of_nat n) (len - n)
        end
  end.

Definition tail_is_zero (addr : Z) (len : nat) : result bool := tail_loop (S len) addr len.

(** The attributes at [attr], zero past the size the caller gave. *)
Definition read_attr (attr size : Z) : result (list Z) :=
  let head := Nat.min (Z.to_nat size) RULESET_ATTR_SIZE in
  match copy_from_user mem attr head with
  | Err _ => Err Efault
  | Ok bs =>
      let buf := bs ++ replicate (RULESET_ATTR_SIZE - head) 0 in
      if Z.of_nat RULESET_ATTR_SIZE <? size then
        match tail_is_zero (attr + Z.of_nat RULESET_ATTR_SIZE) (Z.to_nat size - RULESET_ATTR_SIZE) with
        | Err e => Err e
        | Ok false => Err E2big
        | Ok true => Ok buf
        end
      else Ok buf
  end.

(** Build the ruleset and give it a descriptor. *)
Definition install_ruleset (tid : nat) (a : Abi.RulesetAttr) : M World Z :=
  w ← get;
  modify (fun w => put_wfiles (w_files w ++ [ruleset_file w]) (put_rulesets (w_rulesets w ++ [Rs.new a]) w)) ;;
  match w_tasks w !! tid with
  | None => ret (neg Esrch)
  | Some task =>
      match tk_table task with
      | None => ret (neg Ebadf)
      | Some i =>
          r ← on_table i (Fd.alloc_limit (Z.of_nat (length (w_files w))) nofile_soft);
          match r with
          | Ok fd => on_table i (Fd.set_cloexec fd true) ;; ret fd
          | Err e => ret (neg e)
          end
      end
  end.

Definition sys_landlock_create_ruleset (tid : nat) (a0 a1 a2 : Z) : M World Z :=
  let attr := a0 in
  let size := a1 in
  let flags := as_u32 a2 in
  match Abi.create_intent attr size flags with
  | Err e => ret (neg e)
  | Ok Abi.IntentVersion => ret ABI_VERSION
  | Ok Abi.IntentErrata => ret ERRATA
  | Ok Abi.IntentRuleset =>
      match Abi.attr_buffer_ok attr size RULESET_ATTR_MIN_SIZE with
      | Err e => ret (neg e)
      | Ok _ =>
          match read_attr attr size with
          | Err e => ret (neg e)
          | Ok buf =>
              let a := Abi.decode buf in
              match Abi.validate a with
              | Err e => ret (neg e)
              | Ok _ => install_ruleset tid a
              end
          end
      end
  end.

(** ** [landlock_add_rule] *)

Definition PATH_BENEATH_ATTR_SIZE : nat := 12.
Definition NET_PORT_ATTR_SIZE : nat := 16.

(** Store the outcome of adding a rule. *)
Definition store_rule (rs : nat) (r : result Ruleset) : M World Z :=
  match r with
  | Err e => ret (neg e)
  | Ok r => modify (fun w => put_rulesets (<[rs := r]> (w_rulesets w)) w) ;; ret 0
  end.

Definition read_rule (attr : Z) (len : nat) : result (list Z) :=
  if attr =? 0 then Err Efault else match copy_from_user mem attr len with Err _ => Err Efault | Ok bs => Ok bs end.

Definition add_path_beneath (tid rs : nat) (attr flags : Z) : M World Z :=
  match read_rule attr PATH_BENEATH_ATTR_SIZE with
  | Err e => ret (neg e)
  | Ok buf =>
      let allowed := Abi.from_le_bytes (take 8 buf) in
      let parent_fd := as_i32 (Abi.from_le_bytes (take 4 (drop 8 buf))) in
      w ← get;
      r ← expect (w_rulesets w !! rs) "ruleset";
      match Abi.rule_access_ok allowed (rs_handled_fs r) flags (rs_quiet_fs r) with
      | Err e => ret (neg e)
      | Ok _ =>
          match w_tasks w !! tid with
          | None => ret (neg Esrch)
          | Some task =>
              match Ll.file_of w task parent_fd with
              | Err e => ret (neg e)
              | Ok pf =>
                  match Abi.rule_target_fd_ok (Ll.rule_target_fd pf) with
                  | Err e => ret (neg e)
                  | Ok _ => store_rule rs (Rs.add_fs r (fo_inode pf) (fo_dir pf) allowed flags)
                  end
              end
          end
      end
  end.

Definition add_net_port (rs : nat) (attr flags : Z) : M World Z :=
  match read_rule attr NET_PORT_ATTR_SIZE with
  | Err e => ret (neg e)
  | Ok buf =>
      let allowed := Abi.from_le_bytes (take 8 buf) in
      let port := Abi.from_le_bytes (take 8 (drop 8 buf)) in
      w ← get;
      r ← expect (w_rulesets w !! rs) "ruleset";
      store_rule rs (Rs.add_net r port allowed flags)
  end.

Definition sys_landlock_add_rule (tid : nat) (a0 a1 a2 a3 : Z) : M World Z :=
  let fd := as_i32 a0 in
  let rule_type := a1 in
  let attr := a2 in
  let flags := as_u32 a3 in
  match Abi.add_rule_flags_ok flags with
  | Err e => ret (neg e)
  | Ok _ =>
      w ← get;
      match Ll.ruleset_from_fd w tid fd with
      | Err e => ret (neg e)
      | Ok rs =>
          if rule_type =? RULE_PATH_BENEATH then add_path_beneath tid rs attr flags
          else if rule_type =? RULE_NET_PORT then add_net_port rs attr flags
          else ret (neg Einval)
      end
  end.

End calls.

(** ** [landlock_restrict_self] *)

(** What a thread does with the transaction it takes part in. *)
Definition commit (domain : option Domain) (set_no_new_privs : bool) (t : Task) : Task :=
  let t := match domain with Some d => with_domain (Some d) t | None => t end in
  if set_no_new_privs then with_nnp true t else t.

(** What a completed TSYNC transaction leaves behind; its steps are the
    subject of [Tsync]. [start] says the caller gets the exec update lock. *)
Definition restrict_siblings (start : bool) (cur : Task) (domain : option Domain) (set_no_new_privs : bool) : M World bool :=
  if negb start then ret false
  else
    modify (fun w => put_tasks (map (fun t => if tk_tgid t =? tk_tgid cur then commit domain set_no_new_privs t else t) (w_tasks w)) w) ;;
    ret true.

(** Stack the ruleset on the domain of the caller. *)
Definition stack_layer (parent : option Domain) (r : Ruleset) (log : LogConfig) (det : DomainDetails) : M World (result Domain) :=
  w ← get;
  d ← zoom w_logs put_wlogs (Dom.merge_logged (w_next_id w) parent r log det);
  match d with
  | Err e => ret (Err e)
  | Ok d => modify (put_next_id (wrap64 (w_next_id w + 1))) ;; ret (Ok d)
  end.

(** [cap_sys_admin] is the caller's capability in its own user namespace and
    [det] its identity. *)
Definition sys_landlock_restrict_self (start cap_sys_admin : bool) (det : DomainDetails) (tid : nat) (a0 a1 : Z) : M World Z :=
  let fd := as_i32 a0 in
  let flags := as_u32 a1 in
  w ← get;
  match w_tasks w !! tid with
  | None => ret (neg Esrch)
  | Some cur =>
      let nnp := tk_nnp cur in
      match Abi.restrict_self_precheck nnp cap_sys_admin flags with
      | Err e => ret (neg e)
      | Ok _ =>
          let plan := Abi.restrict_plan fd flags nnp in
          modify (put_source true) ;;
          let log_state := tk_log_state cur in
          if negb (Abi.needs_ruleset plan) then
            on_task tid (with_log_state (Log.state_after_restrict log_state flags None)) ;;
            if Abi.propagate_no_new_privs plan then
              ok ← restrict_siblings start cur None true;
              ret (if (ok : bool) then 0 else restart_nointr)
            else ret 0
          else
            match Ll.ruleset_from_fd w tid fd with
            | Err e => ret (neg e)
            | Ok rs =>
                r ← expect (w_rulesets w !! rs) "ruleset";
                let log := Log.from_flags flags (Log.state_allows_subdomains log_state) in
                d ← stack_layer (tk_domain cur) r log det;
                match d with
                | Err e => ret (neg e)
                | Ok dom =>
                    on_task tid (with_log_state (Log.state_after_restrict log_state flags (Some (Dom.num_layers dom - 1)%nat))) ;;
                    if Abi.tsync plan then
                      ok ← restrict_siblings start cur (Some dom) (Abi.propagate_no_new_privs plan);
                      ret (if (ok : bool) then 0 else restart_nointr)
                    else
                      s ← Ll.set_current_domain tid dom;
                      ret (match (s : result unit) with Ok _ => 0 | Err e => neg e end)
                end
            end
      end
  end.

(** ** Threads *)

(** [prctl(PR_SET_NO_NEW_PRIVS)]. *)
Definition set_no_new_privs (tid : nat) : M World Z := on_task tid (with_nnp true) ;; ret 0.

(** The descriptor table of a new thread ([056_clone/fd_table.rs]). *)
Definition inherit_table (parent : Task) (clone_files : bool) : M World (option nat) :=
  match tk_table parent with
  | None => ret None
  | Some i =>
      if clone_files then ret (Some i)
      else
        w ← get;
        t ← expect (w_tables w !! i) "descriptor table";
        modify (fun w => put_tables (w_tables w ++ [Fd.fork_clone t]) w) ;;
        ret (Some (length (w_tables w)))
  end.

(** What a new thread takes over ([live/spawn/inherit.rs]); the reporting
    state of a new task is zero. *)
Definition clone_task (tid : nat) (tgid : Z) (clone_files : bool) : M World Z :=
  w ← get;
  match w_tasks w !! tid with
  | None => ret (neg Esrch)
  | Some parent =>
      table ← inherit_table parent clone_files;
      modify (fun w => put_tasks (w_tasks w ++
        [{| tk_tgid := tgid; tk_nnp := tk_nnp parent; tk_log_state := 0; tk_domain := tk_domain parent; tk_table := table |}]) w) ;;
      ret (Z.of_nat (length (w_tasks w)))
  end.

(** What [execve] does to the reporting state and to the table. *)
Definition exec_task (flush : Z -> result unit) (tid : nat) : M World Z :=
  w ← get;
  match w_tasks w !! tid with
  | None => ret (neg Esrch)
  | Some task =>
      on_task tid (with_log_state (Log.state_after_exec (tk_log_state task))) ;;
      match tk_table task with
      | None => ret 0
      | Some i => on_table i (Fd.close_on_exec flush) ;; ret 0
      end
  end.

(** Open a file that is not a ruleset. *)
Definition open_file (nofile_soft : nat) (tid : nat) (f : FileObj) (flags : Z) : M World Z :=
  w ← get;
  match w_tasks w !! tid with
  | None => ret (neg Esrch)
  | Some task =>
      match tk_table task with
      | None => ret (neg Ebadf)
      | Some i =>
          modify (fun w => put_wfiles (w_files w ++ [f]) w) ;;
          r ← on_table i (Fd.install_limit (Z.of_nat (length (w_files w))) flags nofile_soft);
          ret (match (r : result Z) with Ok fd => fd | Err e => neg e end)
      end
  end.
