(* ===== verification/LandlockWorld.v ===== *)
(** * Landlock: the invariant of the shared state

    Every system call, check and thread operation runs without a panic in a
    well-typed world and leaves a well-typed world. *)

From stdpp Require Import list.
From S2P Require Import Prelude Words Result FdTable FdTableSpec FdTableInv FdTableRefine FdTableBulk FdTableFork FdTableTheorems FdTableRefs.
From S2P Require Import Landlock LandlockDomain LandlockAccess LandlockSpec LandlockCheck LandlockCalls.

(** ** Checks only touch the logs *)

(** The computation runs, and keeps the number of logs. *)
Definition tame {A} (d : Domain) (m : M Logs A) : Prop :=
  forall s, logged d s -> wp m (fun _ s' => length (logs s') = length (logs s)) s.

Lemma logged_len d s s' : length (logs s') = length (logs s) -> logged d s -> logged d s'.
Proof. intros E H l Hl. rewrite E. by apply H. Qed.

Lemma tame_ret {A} d (a : A) : tame d (ret a).
Proof. intros s _. by wp_step. Qed.

Lemma tame_bind {A B} d (m : M Logs A) (k : A -> M Logs B) : tame d m -> (forall a, tame d (k a)) -> tame d (a ← m; k a).
Proof.
  intros Hm Hk s Hs. apply wp_bind. eapply wp_mono; [exact (Hm s Hs)|]. intros a s1 E1.
  eapply wp_mono; [exact (Hk a s1 (logged_len _ _ _ E1 Hs))|]. intros b s2 E2. congruence.
Qed.

Lemma note_tame d ty layer missing q :
  tame d (s ← get; Audit.log_denial d ty layer missing q (Audit.same_execution s layer)).
Proof.
  intros s Hs. wp_step. wp_step. destruct (d_layers d !! layer) as [l|] eqn:El; [|unfold Audit.log_denial; rewrite El; by wp_step].
  destruct (lookup_lt_is_Some_2 (logs s) (l_log l)) as [log Hlog]; [apply Hs; by eapply list_elem_of_lookup_2|].
  eapply wp_mono; [exact (log_denial_spec d ty layer missing q l log s El Hlog)|]. intros [] s' ->. apply length_insert.
Qed.

Lemma report_tame d m ty req : tame d (Dom.report_denial_masks d m ty req).
Proof. unfold Dom.report_denial_masks. destruct (Masks.denied_layer m req) as [[[i x] q]|]; [apply note_tame|apply tame_ret]. Qed.

Lemma tame_let {A B C} d (p : A * B) (k : A -> B -> M Logs C) : (forall a b, tame d (k a b)) -> tame d (let '(a, b) := p in k a b).
Proof. intros H. destruct p. apply H. Qed.

Create HintDb tame discriminated.
#[export] Hint Resolve tame_ret tame_bind note_tame report_tame : tame.

Lemma check_fs_tame d chain access : tame d (Dom.check_fs_chain d chain access).
Proof.
  unfold Dom.check_fs_chain. destruct (Masks.init _ _) as [m req]. destruct (req =? 0); [auto with tame|].
  destruct (Dom.walk_masks d chain m); auto with tame.
Qed.

Lemma open_tame v d path req dev : tame d (Access.open_decide v d path req dev).
Proof.
  unfold Access.open_decide. destruct (Masks.init _ _) as [m q]. destruct (q =? 0); [auto with tame|].
  destruct (Dom.walk_masks d _ m); [auto with tame|]. destruct (negb _); auto with tame.
Qed.

Lemma check_net_tame d port access : tame d (Dom.check_net d port access).
Proof.
  unfold Dom.check_net. destruct (Masks.init _ _) as [m q]. destruct (q =? 0); [auto with tame|].
  destruct (Masks.unmask _ _) as [m1 c]. destruct c; auto with tame.
Qed.

Lemma addr_tame d proto op bs fam : tame d (Net.addr_verdict (Some d) proto op bs fam).
Proof.
  unfold Net.addr_verdict. destruct (if decide (op = Net.Bind) then _ else _) as [req|]; [|auto with tame].
  destruct (negb _); [auto with tame|]. destruct (Net.classify _ _ _ _); auto using check_net_tame with tame.
Qed.

Lemma check_unix_tame v d path peer : tame d (Dom.check_unix_resolve v d path peer).
Proof.
  unfold Dom.check_unix_resolve. destruct (Masks.init _ _) as [m q]. destruct (q =? 0); [auto with tame|].
  destruct (Masks.unmask _ _) as [m1 c]. destruct c; [auto with tame|]. destruct (Dom.walk_masks d _ m1); auto with tame.
Qed.

Lemma refer_tame v d old_dir old new_dir new removable exchange : tame d (Refer.check v d old_dir old new_dir new removable exchange).
Proof.
  unfold Refer.check. destruct (Refer.requests _ _ _ _ _) as [[r1 r2]|]; [|auto with tame]. destruct (_ && _); [apply check_fs_tame|].
  unfold Refer.check_reparent. cbv zeta. apply tame_let. intros ma c1. apply tame_let. intros mb c2.
  destruct (c1 && c2); [auto with tame|]. apply tame_let. intros st ok. destruct ok; [auto with tame|].
  apply tame_bind; [auto with tame|]. intros []. apply tame_bind; [auto with tame|]. intros []. destruct (_ || _); auto with tame.
Qed.

Lemma scope_tame d scope peer : tame d (Dom.scope_denies d scope peer).
Proof.
  unfold Dom.scope_denies. generalize 0%nat. induction (d_layers d) as [|l ls IH]; intros level; cbn [Dom.scope_loop]; [apply tame_ret|].
  destruct (_ =? 0); [apply IH|]. destruct (Dom.peer_inside_at d peer level); [apply IH|]. set (ty := if scope =? SCOPE_SIGNAL then _ else _).
  assert (H : tame d ((s ← get; Audit.log_denial d ty level 0 false (Audit.same_execution s level)) ;; ret true)) by auto with tame. exact H.
Qed.
(** ** Types *)

(** Rights handled, quiet flags and rules that fit together. *)
Record policy_ok (hfs hnet scoped qfs qnet qscoped : Z) (fs : list FsRule) (net : list NetRule) : Prop := {
  po_fs : within hfs MASK_ACCESS_FS;
  po_net : within hnet MASK_ACCESS_NET;
  po_scoped : within scoped MASK_SCOPE;
  po_qfs : within qfs hfs;
  po_qnet : within qnet hnet;
  po_qscoped : within qscoped scoped;
  po_some : hfs <> 0 \/ hnet <> 0 \/ scoped <> 0;
  po_fs_rules : forall r, r ∈ fs -> within (fr_allowed r) MASK_ACCESS_FS;
  po_net_rules : forall r, r ∈ net -> within (nr_allowed r) hnet /\ 0 <= nr_port r <= PORT_MAX;
}.

Definition ruleset_ok (r : Ruleset) : Prop :=
  policy_ok (rs_handled_fs r) (rs_handled_net r) (rs_scoped r) (rs_quiet_fs r) (rs_quiet_net r) (rs_quiet_scoped r) (rs_fs r) (rs_net r).

Definition layer_typed (l : Layer) : Prop :=
  policy_ok (l_handled_fs l) (l_handled_net l) (l_scoped l) (l_quiet_fs l) (l_quiet_net l) (l_quiet_scoped l) (l_fs l) (l_net l).

Record domain_typed (n : nat) (d : Domain) : Prop := {
  dt_some : d_layers d <> [];
  dt_len : (length (d_layers d) <= MAX_NUM_LAYERS)%nat;
  dt_ids : length (ancestry d) = length (d_layers d);
  dt_layers : forall l, l ∈ d_layers d -> layer_typed l /\ (l_log l < n)%nat;
}.

Record task_ok (w : World) (t : Task) : Prop := {
  to_state : 0 <= tk_log_state t < 2 ^ 32;
  to_table : forall i, tk_table t = Some i -> (i < length (w_tables w))%nat;
  to_domain : forall d, tk_domain t = Some d -> domain_typed (length (logs (w_logs w))) d;
}.

(** The files of an open descriptor exist. *)
Record table_ok (n : nat) (t : Tab) : Prop := {
  tb_ok : fd_ok t;
  tb_known : forall fd f c, slot t fd = Opened f c -> 0 <= f < Z.of_nat n;
}.

Record world_ok (w : World) : Prop := {
  wo_tasks : Forall (task_ok w) (w_tasks w);
  wo_tables : Forall (table_ok (length (w_files w))) (w_tables w);
  wo_files : Forall (fun f => forall r, fo_ruleset f = Some r -> (r < length (w_rulesets w))%nat) (w_files w);
  wo_rulesets : Forall ruleset_ok (w_rulesets w);
}.

Lemma domain_typed_ok n d s : domain_typed n d -> n = length (logs s) -> domain_ok d /\ logged d s.
Proof.
  intros [H0 H1 H2 H3] ->. split; [constructor; [done..|]|intros l Hl; by apply H3].
  intros l [Hp _]%H3. destruct Hp. by constructor.
Qed.

Lemma domain_typed_mono n n' d : (n <= n')%nat -> domain_typed n d -> domain_typed n' d.
Proof. intros Hn [H0 H1 H2 H3]. constructor; [done..|]. intros l [Hp Hl]%H3. split; [done|lia]. Qed.

(** ** Rulesets *)

Lemma lor_within a b : 0 <= b -> negb (Z.lor a b =? b) = false -> within a b.
Proof.
  intros Hb H. apply negb_false_iff in H. split; [|by apply lor_subset]. apply Z.eqb_eq in H.
  assert (0 <= Z.lor a b) by lia. by apply Z.lor_nonneg in H0 as [? _].
Qed.

Lemma within_lor a b c : within a c -> within b c -> within (Z.lor a b) c.
Proof.
  intros [Ha Ha'] [Hb Hb']. split; [by apply Z.lor_nonneg|]. intros r. rewrite Z.lor_spec, orb_true_iff. intros [?|?]; auto.
Qed.

Lemma within_trans a b c : within a b -> within b c -> within a c.
Proof. intros [? H1] [_ H2]. split; [done|]. auto. Qed.

Lemma validate_ok a : Abi.validate a = Ok tt -> ruleset_ok (Rs.new a).
Proof.
  unfold Abi.validate. destruct (negb _) eqn:E1; [done|]. destruct (negb (Z.lor (Abi.ra_handled_net a) _ =? _)) eqn:E2; [done|].
  destruct (negb (Z.lor (Abi.ra_scoped a) _ =? _)) eqn:E3; [done|].
  pose proof (lor_within _ MASK_ACCESS_FS ltac:(done) E1) as H1. pose proof (lor_within _ MASK_ACCESS_NET ltac:(done) E2) as H2.
  pose proof (lor_within _ MASK_SCOPE ltac:(done) E3) as H3.
  destruct (negb (Z.lor (Abi.ra_quiet_fs a) _ =? _)) eqn:E4; [done|]. destruct (negb (Z.lor (Abi.ra_quiet_net a) _ =? _)) eqn:E5; [done|].
  destruct (negb (Z.lor (Abi.ra_quiet_scoped a) _ =? _)) eqn:E6; [done|]. destruct (_ && _ && _) eqn:E7; [done|]. intros _.
  constructor; cbn [Rs.new rs_handled_fs rs_handled_net rs_scoped rs_quiet_fs rs_quiet_net rs_quiet_scoped rs_fs rs_net]; try done.
  - apply lor_within; [apply H1|done].
  - apply lor_within; [apply H2|done].
  - apply lor_within; [apply H3|done].
  - apply andb_false_iff in E7 as [[E7|E7]%andb_false_iff|E7]; apply Z.eqb_neq in E7; tauto.
  - intros r Hr. by apply elem_of_nil in Hr.
  - intros r Hr. by apply elem_of_nil in Hr.
Qed.

Lemma rule_access_within allowed handled flags quiet :
  0 <= handled -> Abi.rule_access_ok allowed handled flags quiet = Ok tt -> within allowed handled.
Proof.
  intros Hh. unfold Abi.rule_access_ok. destruct (_ && _); [done|]. destruct (negb (Z.lor _ _ =? _)) eqn:E; [done|]. intros _. by apply lor_within.
Qed.

Lemma absolute_within allowed handled : within allowed handled -> within handled MASK_ACCESS_FS -> within (Abi.absolute_access allowed handled) MASK_ACCESS_FS.
Proof.
  intros H1 H2. apply within_lor; [by eapply within_trans|]. split; [apply Z.land_nonneg; by left|]. intros r. rewrite Z.land_spec, andb_true_iff. tauto.
Qed.

Lemma add_fs_ok r inode dir allowed flags r' : ruleset_ok r -> Rs.add_fs r inode dir allowed flags = Ok r' -> ruleset_ok r'.
Proof.
  intros Hr. unfold Rs.add_fs. destruct (Abi.rule_access_ok _ _ _ _) as [[]|] eqn:E1; [|done]. cbn [rbind].
  destruct (Abi.path_target_ok _ _); [|done]. cbn [rbind]. intros [= <-]. destruct Hr as [H1 H2 H3 H4 H5 H6 H7 H8 H9].
  apply rule_access_within in E1; [|apply H1]. constructor; cbn; try done.
  intros x [Hx|Hx%list_elem_of_singleton]%elem_of_app; [by apply H8|subst x]. cbn. by apply absolute_within.
Qed.

Lemma add_net_ok r port allowed flags r' : ruleset_ok r -> Rs.add_net r port allowed flags = Ok r' -> ruleset_ok r'.
Proof.
  intros Hr. unfold Rs.add_net. destruct (Abi.rule_access_ok _ _ _ _) as [[]|] eqn:E1; [|done]. cbn [rbind].
  destruct (Abi.net_port_ok _); [|done]. cbn [rbind]. intros [= <-]. destruct Hr as [H1 H2 H3 H4 H5 H6 H7 H8 H9].
  apply rule_access_within in E1; [|apply H2]. constructor; cbn; try done.
  intros x [Hx|Hx%list_elem_of_singleton]%elem_of_app; [by apply H9|subst x]. cbn. split; [done|].
  pose proof (Z.mod_pos_bound port (2 ^ 16)). unfold PORT_MAX. lia.
Qed.

(** ** Tables *)

(** The slots hold files of a set. *)
Definition known (P : Z -> Prop) (a : Slots) : Prop := forall fd f c, a fd = Opened f c -> P f.

(** The files a call brings with it. *)
Definition brings (c : Call) : list Z :=
  match c with
  | CAlloc f _ | CInstall f _ _ | CPublish _ f | CScm f _ _ | CDupFile f _ _ _ | CReplace _ f _ _ => [f]
  | _ => []
  end.

Section known.
Context (flush copyout : Z -> result unit) (P : Z -> Prop) (a : Slots) (Ha : known P a).

Lemma known_upd k v : (forall f c, v = Opened f c -> P f) -> known P (upd a k v).
Proof. intros Hv fd f c. unfold upd. destruct (decide (fd = k)); [apply Hv|apply Ha]. Qed.

Lemma known_copy f o : known P o.1.2 -> known P (Spec.copy f o).1.2.
Proof. destruct o as [[[x|e] b] ev]; done. Qed.

Lemma known_coded o : known P o.1.2 -> known P (coded o).1.2.
Proof. by destruct o as [[x b] ev]. Qed.

Lemma known_get fd f : Spec.get fd a = Ok f -> P f.
Proof. unfold Spec.get. destruct (fd <? 0); [done|]. destruct (a (index fd)) eqn:E; [done..|]. intros [= <-]. by eapply Ha. Qed.

Lemma known_alloc f min max c : P f -> known P (Spec.alloc f min max c a).1.2.
Proof. intros Hf. unfold Spec.alloc. destruct (lowest_free _ _ _); [|done]. apply known_upd. by intros ? ? [= <- _]. Qed.

Lemma known_place nf f c : P f -> known P (Spec.place nf f c a).1.2.
Proof. intros Hf. unfold Spec.place. destruct (a nf); [|done|]; apply known_upd; by intros ? ? [= <- _]. Qed.

Lemma known_dup f min c limit : P f -> known P (dup_spec f min c limit a).1.2.
Proof. intros Hf. unfold dup_spec. destruct (_ || _); [done|]. by apply known_copy, known_alloc. Qed.

Lemma call_known c : Forall P (brings c) -> known P (spec flush copyout c a).1.2.
Proof.
  destruct c as [h l|h fl l|fl l|fd h|fd|h fl l|fd|fd|fd l|fd m l|h m c l|o n l|o n fl l|n h fl l|fd on|fd| |fi la co]; cbn [spec brings];
    intros Hb; rewrite ?Forall_singleton in Hb; try (by apply known_alloc); try exact Ha.
  - unfold Spec.reserve. destruct (lowest_free _ _ _); [|done]. by apply known_upd.
  - apply known_coded. unfold Spec.publish. destruct (fd <? 0); [done|]. destruct (a (index fd)); [done| |done]. apply known_upd. by intros ? ? [= <- _].
  - unfold Spec.cancel. cbn [keep fst snd]. destruct (fd <? 0); [done|]. destruct (a (index fd)); [done| |done]. by apply known_upd.
  - destruct (lowest_free _ _ _); [|done]. destruct (copyout _); [|done]. apply known_upd. by intros ? ? [= <- _].
  - apply known_coded. unfold Spec.close. destruct (fd <? 0); [done|]. destruct (a (index fd)); [done..|]. by apply known_upd.
  - destruct (Spec.get fd a) eqn:E; [|done]. apply known_copy, known_alloc. by eapply known_get.
  - destruct (Spec.get fd a) eqn:E; [|done]. apply known_dup. by eapply known_get.
  - by apply known_dup.
  - destruct (_ || _ || _); [done|]. destruct (o =? n); [done|]. destruct (_ <=? _)%nat; [done|]. destruct (Spec.get o a) eqn:E; [|done].
    apply known_place. by eapply known_get.
  - destruct (Fd.other_flags fl); [done|]. destruct (o =? n); [done|]. destruct (_ || _); [done|]. destruct (_ <=? _)%nat; [done|].
    destruct (Spec.get o a) eqn:E; [|done]. apply known_place. by eapply known_get.
  - destruct (Fd.other_flags fl); [done|]. destruct (_ || _); [done|]. destruct (_ <=? _)%nat; [done|]. by apply known_place.
  - apply known_coded. unfold Spec.set_cloexec. destruct (fd <? 0); [done|]. destruct (a (index fd)) eqn:E; [done..|]. apply known_upd. intros ? ? [= <- _]. by eapply Ha.
  - intros fd f c. cbn. unfold exec_slots. destruct (a fd) as [| |g [|]] eqn:E; try done. intros [= <- _]. by eapply Ha.
  - intros fd f c. cbn. unfold range_slots. destruct (a fd) as [| |g cc] eqn:E; try done.
    destruct (in_range _ _ _), co; try done; intros [= <- _]; by eapply Ha.
Qed.

End known.

(** Any call on a table with known files leaves one. *)
Lemma call_table flush copyout c n t :
  call_ok c -> Forall (fun f => 0 <= f < Z.of_nat n) (brings c) -> table_ok n t -> wp (exec flush copyout c) (fun _ t' => table_ok n t') t.
Proof.
  intros Hc Hb [Ht Hk]. eapply wp_mono; [exact (call_refines flush copyout c Hc t Ht)|]. intros r t' [_ (Ht' & Hs & _)]. constructor; [done|].
  intros fd f cc. rewrite Hs. apply (call_known flush copyout (fun f => 0 <= f < Z.of_nat n) (slot t) Hk c Hb).
Qed.

Lemma table_mono n n' t : (n <= n')%nat -> table_ok n t -> table_ok n' t.
Proof. intros Hn [Ht Hk]. constructor; [done|]. intros fd f c E. specialize (Hk fd f c E). lia. Qed.

Lemma fork_table n t : table_ok n t -> table_ok n (Fd.fork_clone t).
Proof.
  intros [Ht Hk]. destruct (fork_clone_ok t Ht) as [H1 H2]. constructor; [done|]. intros fd f c. rewrite H2. unfold child_slots.
  destruct (slot t fd) eqn:E; try done. intros [= <- <-]. by eapply Hk.
Qed.
