(* ===== verification/LandlockSteps.v ===== *)
(** * Landlock: every operation keeps the world well-typed *)

From stdpp Require Import list.
From S2P Require Import Prelude Words Result FdTable FdTableSpec FdTableInv FdTableRefine FdTableBulk FdTableFork FdTableTheorems FdTableRefs.
From S2P Require Import Landlock LandlockDomain LandlockAccess LandlockSpec LandlockCheck LandlockCalls LandlockWorld.

Lemma task_mono w w' t :
  (length (w_tables w) <= length (w_tables w'))%nat -> (length (logs (w_logs w)) <= length (logs (w_logs w')))%nat -> task_ok w t -> task_ok w' t.
Proof.
  intros Hl Hg [H1 H2 H3]. constructor; [done| |].
  - intros i Hi. specialize (H2 i Hi). lia.
  - intros d Hd. by eapply domain_typed_mono, H3.
Qed.

Lemma tasks_mono w w' l :
  (length (w_tables w) <= length (w_tables w'))%nat -> (length (logs (w_logs w)) <= length (logs (w_logs w')))%nat ->
  Forall (task_ok w) l -> Forall (task_ok w') l.
Proof. intros Hl Hg H. eapply Forall_impl; [exact H|]. intros t. by apply task_mono. Qed.

(** ** Parts of the world *)

Lemma put_tasks_ok x w : Forall (task_ok w) x -> world_ok w -> world_ok (put_tasks x w).
Proof. intros Hx [H1 H2 H3 H4]. constructor; [|done..]. by eapply tasks_mono, Hx. Qed.

Lemma put_wlogs_ok x w : (length (logs (w_logs w)) <= length (logs x))%nat -> world_ok w -> world_ok (put_wlogs x w).
Proof. intros Hx [H1 H2 H3 H4]. constructor; [|done..]. by eapply tasks_mono, H1. Qed.

Lemma put_source_ok b w : world_ok w -> world_ok (put_source b w).
Proof. intros [H1 H2 H3 H4]. constructor; [|done..]. by eapply tasks_mono, H1. Qed.

Lemma put_next_ok x w : world_ok w -> world_ok (put_next_id x w).
Proof. intros [H1 H2 H3 H4]. constructor; [|done..]. by eapply tasks_mono, H1. Qed.

Lemma put_table_ok i t w : table_ok (length (w_files w)) t -> world_ok w -> world_ok (put_tables (<[i := t]> (w_tables w)) w).
Proof.
  intros Ht [H1 H2 H3 H4]. constructor; [|by apply Forall_insert|done..]. eapply tasks_mono, H1; [cbn; by rewrite length_insert|done].
Qed.

Lemma push_table_ok t w : table_ok (length (w_files w)) t -> world_ok w -> world_ok (put_tables (w_tables w ++ [t]) w).
Proof.
  intros Ht [H1 H2 H3 H4]. constructor; [|apply Forall_app; split; [done|by apply Forall_singleton]|done..].
  eapply tasks_mono, H1; [cbn; rewrite length_app; lia|done].
Qed.

Lemma push_file_ok f w : (forall r, fo_ruleset f = Some r -> (r < length (w_rulesets w))%nat) -> world_ok w -> world_ok (put_wfiles (w_files w ++ [f]) w).
Proof.
  intros Hf [H1 H2 H3 H4]. constructor; [by eapply tasks_mono, H1| |apply Forall_app; split; [done|by apply Forall_singleton]|done].
  eapply Forall_impl; [exact H2|]. intros t. apply table_mono. cbn. rewrite length_app. lia.
Qed.

Lemma rulesets_ok x w : (length (w_rulesets w) <= length x)%nat -> Forall ruleset_ok x -> world_ok w -> world_ok (put_rulesets x w).
Proof.
  intros Hl Hx [H1 H2 H3 H4]. constructor; [by eapply tasks_mono, H1|done| |done].
  eapply Forall_impl; [exact H3|]. intros f Hf r Hr. specialize (Hf r Hr). cbn. lia.
Qed.

Lemma on_task_ok tid f w :
  world_ok w -> (forall t, w_tasks w !! tid = Some t -> task_ok w t -> task_ok w (f t)) -> wp (on_task tid f) (fun _ w' => world_ok w') w.
Proof.
  intros Hw Hf. unfold on_task. wp_step. apply put_tasks_ok; [|done]. apply Forall_alter; [apply Hw|]. intros t Ht. by apply Hf.
Qed.

(** A computation on a table of the world. *)
Lemma on_table_ok {A} i (m : M Tab A) (P : A -> Prop) w :
  world_ok w -> (i < length (w_tables w))%nat ->
  (forall t, table_ok (length (w_files w)) t -> wp m (fun a t' => table_ok (length (w_files w)) t' /\ P a) t) ->
  wp (on_table i m) (fun a w' => world_ok w' /\ P a /\ length (w_tables w') = length (w_tables w)) w.
Proof.
  intros Hw Hi Hm. unfold on_table. wp_step. wp_step. wp_step. destruct (lookup_lt_is_Some_2 _ _ Hi) as [t Ht]. rewrite Ht. wp_step.
  apply wp_zoom. eapply wp_mono; [apply Hm; exact (Forall_lookup_1 _ _ _ _ (wo_tables _ Hw) Ht)|]. intros a t' [Ht' Ha].
  split_and!; [by apply put_table_ok|done|apply length_insert].
Qed.

Lemma on_table_call {A} flush copyout c i (m : M Tab A) w :
  world_ok w -> (i < length (w_tables w))%nat -> call_ok c -> Forall (fun f => 0 <= f < Z.of_nat (length (w_files w))) (brings c) ->
  (forall t Q, wp (exec flush copyout c) (fun _ t' => Q t') t -> wp m (fun _ t' => Q t') t) ->
  wp (on_table i m) (fun _ w' => world_ok w' /\ length (w_tables w') = length (w_tables w)) w.
Proof.
  intros Hw Hi Hc Hb Hm. eapply wp_mono; [eapply (on_table_ok i m (fun _ => True) w Hw Hi)|].
  - intros t Ht. eapply wp_mono; [apply (Hm t (table_ok (length (w_files w))))|intros a t' H; by split]. by apply call_table.
  - by intros a w' (H1 & _ & H2).
Qed.

Lemma exec_unit flush copyout c {A} (m : M Tab A) (g : A -> result Z) t (Q : Tab -> Prop) :
  exec flush copyout c = (a ← m; ret (g a)) -> wp (exec flush copyout c) (fun _ t' => Q t') t -> wp m (fun _ t' => Q t') t.
Proof. intros ->. unfold wp, mbind, M_bind, bind. by destruct (m t) as [[a t']|]. Qed.

Lemma task_of w tid t : world_ok w -> w_tasks w !! tid = Some t -> task_ok w t.
Proof. intros Hw Ht. exact (Forall_lookup_1 _ _ _ _ (wo_tasks _ Hw) Ht). Qed.

(** ** Creating a ruleset *)

Lemma install_ok nofile tid a w :
  world_ok w -> Abi.validate a = Ok tt -> wp (install_ruleset nofile tid a) (fun _ w' => world_ok w') w.
Proof.
  intros Hw Ha. unfold install_ruleset. wp_step. wp_step. wp_step. wp_step.
  set (w1 := put_wfiles _ _). assert (Hw1 : world_ok w1).
  { unfold w1. apply (push_file_ok (ruleset_file w) (put_rulesets (w_rulesets w ++ [Rs.new a]) w)).
    - intros r [= <-]. cbn. rewrite length_app. cbn. lia.
    - apply rulesets_ok; [rewrite length_app; lia| |done]. apply Forall_app. split; [apply Hw|]. by apply Forall_singleton, validate_ok. }
  assert (Hlen : length (w_files w1) = S (length (w_files w))) by (cbn; rewrite length_app; cbn; lia).
  destruct (w_tasks w !! tid) as [task|] eqn:Et; [|by wp_step]. destruct (tk_table task) as [i|] eqn:Ei; [|by wp_step].
  assert (Hi : (i < length (w_tables w1))%nat) by exact (to_table _ _ (task_of _ _ _ Hw Et) i Ei). clearbody w1.
  wp_step. eapply wp_mono; [eapply (on_table_call ok_hook ok_hook (CAlloc (Z.of_nat (length (w_files w))) nofile) i _ w1 Hw1 Hi I)|].
  { cbn [brings]. apply Forall_singleton. lia. }
  { intros t Q H. exact H. }
  intros r w2 [Hw2 Hl2]. destruct r as [fd|e]; [|by wp_step].
  wp_step. eapply wp_mono; [eapply (on_table_call ok_hook ok_hook (CSetCloexec fd true) i _ w2 Hw2 ltac:(lia) I); [by constructor|]|].
  { intros t Q. by apply exec_unit with (g := code). }
  intros _ w3 [Hw3 _]. by wp_step.
Qed.

Lemma create_ok mem nofile tid a0 a1 a2 w :
  world_ok w -> wp (sys_landlock_create_ruleset mem nofile tid a0 a1 a2) (fun _ w' => world_ok w') w.
Proof.
  intros Hw. unfold sys_landlock_create_ruleset. destruct (Abi.create_intent _ _ _) as [[| |]|]; try by wp_step.
  destruct (Abi.attr_buffer_ok _ _ _); [|by wp_step]. destruct (read_attr _ _ _); [|by wp_step].
  destruct (Abi.validate _) as [[]|] eqn:E; [|by wp_step]. by apply install_ok.
Qed.

(** ** Adding a rule *)

Lemma file_of_in w task fd f : Ll.file_of w task fd = Ok f -> f ∈ w_files w.
Proof.
  unfold Ll.file_of. destruct (tk_table task); [|done]. destruct (Fd.fget _ _) as [x|]; [|done].
  destruct (w_files w !! Z.to_nat x) eqn:E; [|done]. intros [= <-]. by eapply list_elem_of_lookup_2.
Qed.

Lemma ruleset_in w tid fd rs : world_ok w -> Ll.ruleset_from_fd w tid fd = Ok rs -> (rs < length (w_rulesets w))%nat.
Proof.
  intros Hw. unfold Ll.ruleset_from_fd. destruct (w_tasks w !! tid) as [task|]; [|done].
  destruct (Ll.file_of w task fd) as [f|] eqn:E; cbn [rbind]; [|done]. destruct (fo_ruleset f) as [r|] eqn:Er; [|done]. intros [= <-].
  exact (proj1 (Forall_forall _ _) (wo_files _ Hw) f (file_of_in _ _ _ _ E) r Er).
Qed.

Lemma store_rule_ok rs r w : world_ok w -> (forall x, r = Ok x -> ruleset_ok x) -> wp (store_rule rs r) (fun _ w' => world_ok w') w.
Proof.
  intros Hw Hr. unfold store_rule. destruct r as [x|e]; [|by wp_step]. wp_step. wp_step. wp_step.
  apply rulesets_ok; [by rewrite length_insert| |done]. apply Forall_insert; [apply Hw|by apply Hr].
Qed.

Lemma add_rule_ok mem tid a0 a1 a2 a3 w : world_ok w -> wp (sys_landlock_add_rule mem tid a0 a1 a2 a3) (fun _ w' => world_ok w') w.
Proof.
  intros Hw. unfold sys_landlock_add_rule. destruct (Abi.add_rule_flags_ok _); [|by wp_step]. wp_step. wp_step.
  destruct (Ll.ruleset_from_fd w tid _) as [rs|] eqn:E; [|by wp_step].
  destruct (lookup_lt_is_Some_2 _ _ (ruleset_in _ _ _ _ Hw E)) as [r Hr]. pose proof (Forall_lookup_1 _ _ _ _ (wo_rulesets _ Hw) Hr) as Hok.
  destruct (a1 =? RULE_PATH_BENEATH).
  - unfold add_path_beneath. destruct (read_rule _ _ _) as [buf|]; [|by wp_step]. wp_step. wp_step. wp_step. rewrite Hr. wp_step.
    destruct (Abi.rule_access_ok _ _ _ _); [|by wp_step]. destruct (w_tasks w !! tid); [|by wp_step]. destruct (Ll.file_of _ _ _); [|by wp_step].
    destruct (Abi.rule_target_fd_ok _); [|by wp_step]. apply store_rule_ok; [done|]. intros x. by apply add_fs_ok.
  - destruct (a1 =? RULE_NET_PORT); [|by wp_step]. unfold add_net_port. destruct (read_rule _ _ _) as [buf|]; [|by wp_step].
    wp_step. wp_step. wp_step. rewrite Hr. wp_step. apply store_rule_ok; [done|]. intros x. by apply add_net_ok.
Qed.

(** ** Enforcing a ruleset *)

Lemma with_domain_ok w t d : domain_typed (length (logs (w_logs w))) d -> task_ok w t -> task_ok w (with_domain (Some d) t).
Proof. intros Hd [H1 H2 H3]. constructor; [done..|]. by intros x [= <-]. Qed.

Lemma with_nnp_ok w t b : task_ok w t -> task_ok w (with_nnp b t).
Proof. by intros [H1 H2 H3]. Qed.

Lemma with_log_ok w t x : 0 <= x < 2 ^ 32 -> task_ok w t -> task_ok w (with_log_state x t).
Proof. by intros Hx [H1 H2 H3]. Qed.

Lemma siblings_ok start cur domain set_nnp w :
  world_ok w -> (forall d, domain = Some d -> domain_typed (length (logs (w_logs w))) d) ->
  wp (restrict_siblings start cur domain set_nnp) (fun _ w' => world_ok w') w.
Proof.
  intros Hw Hd. unfold restrict_siblings. destruct (negb start); [by wp_step|]. wp_step. wp_step. wp_step. apply put_tasks_ok; [|done].
  apply Forall_map, (Forall_impl _ _ _ (wo_tasks _ Hw)). intros t Ht. cbn. destruct (_ =? _); [|done].
  unfold commit. destruct domain as [d|]; destruct set_nnp; auto using with_nnp_ok, with_domain_ok.
Qed.

Lemma u32_lor a b : 0 <= a < 2 ^ 32 -> 0 <= b < 2 ^ 32 -> 0 <= Z.lor a b < 2 ^ 32.
Proof.
  intros Ha Hb. split; [apply Z.lor_nonneg; lia|]. destruct (decide (Z.lor a b = 0)) as [->|Hn]; [lia|].
  assert (0 <= Z.lor a b) by (apply Z.lor_nonneg; lia). apply Z.log2_lt_pow2; [lia|]. rewrite Z.log2_lor by lia.
  destruct (decide (a = 0)) as [->|], (decide (b = 0)) as [->|]; rewrite ?Z.lor_0_r in Hn; try done; apply Z.max_lub_lt;
    try (apply Z.log2_lt_pow2; lia); cbn; lia.
Qed.

Lemma log_state_ok x flags layer : 0 <= x < 2 ^ 32 -> 0 <= Log.state_after_restrict x flags layer < 2 ^ 32.
Proof.
  intros Hx. unfold Log.state_after_restrict. set (out := if negb _ then _ else _).
  assert (Ho : 0 <= out < 2 ^ 32) by (unfold out; destruct (negb _); [apply u32_lor; [done|by vm_compute]|done]). clearbody out.
  destruct layer as [l|]; [|done]. destruct (l <? MAX_NUM_LAYERS)%nat eqn:E; [|done]. to_prop. apply u32_lor; [done|].
  rewrite Z.shiftl_mul_pow2, Z.mul_1_l by lia. split; [lia|]. apply Z.pow_lt_mono_r; unfold MAX_NUM_LAYERS in *; lia.
Qed.

Lemma exec_state_ok x : 0 <= x < 2 ^ 32 -> 0 <= Log.state_after_exec x < 2 ^ 32.
Proof.
  intros Hx. unfold Log.state_after_exec. split; [apply Z.land_nonneg; lia|]. destruct (decide (Z.land x (not32 Log.EXEC_LAYERS_MASK) = 0)) as [->|Hn]; [lia|].
  assert (0 <= Z.land x (not32 Log.EXEC_LAYERS_MASK)) by (apply Z.land_nonneg; lia). apply Z.log2_lt_pow2; [lia|].
  eapply Z.le_lt_trans; [apply Z.log2_land; [lia|done]|]. apply Z.min_lt_iff. left. destruct (decide (x = 0)) as [->|]; [done|].
  apply Z.log2_lt_pow2; lia.
Qed.

(** The domain [d] is the domain [parent] and one more layer, of identity
    [id]. *)
Definition stacked (parent : option Domain) (id : Z) (d : Domain) : Prop :=
  exists l, d_layers d = match parent with Some p => d_layers p | None => [] end ++ [l] /\
    ancestry d = match parent with Some p => ancestry p | None => [] end ++ [id].

Lemma stack_ok parent r log det w :
  world_ok w -> ruleset_ok r -> (forall p, parent = Some p -> domain_typed (length (logs (w_logs w))) p) ->
  wp (stack_layer parent r log det) (fun x w' => world_ok w' /\ w_tasks w' = w_tasks w /\ w_tables w' = w_tables w /\
    (forall d, x = Ok d -> domain_typed (length (logs (w_logs w'))) d /\ stacked parent (w_next_id w) d /\ w_next_id w' = wrap64 (w_next_id w + 1)) /\
    (forall e, x = Err e -> w' = w)) w.
Proof.
  intros Hw Hr Hp. unfold stack_layer, Dom.merge_logged. wp_step. wp_step.
  destruct (match parent with Some p => Abi.may_stack_layer _ | None => Ok tt end) as [[]|e] eqn:Em.
  2:{ wp_step. apply wp_zoom. wp_step. wp_step. split_and!; [by destruct w..|done|by destruct w]. }
  assert (Hlen : (length (match parent with Some p => d_layers p | None => [] end) < MAX_NUM_LAYERS)%nat).
  { destruct parent as [p|]; [|cbn; unfold MAX_NUM_LAYERS; lia]. unfold Abi.may_stack_layer in Em. destruct (_ <=? _)%nat eqn:E in Em; [done|]. to_prop. lia. }
  wp_step. apply wp_zoom. wp_step. wp_step. wp_step. wp_step. wp_step. wp_step. wp_step. wp_step.
  set (w' := put_next_id _ _). assert (Hw' : world_ok w').
  { apply put_next_ok, put_wlogs_ok; [cbn; rewrite length_app; lia|done]. }
  split_and!; [done..| |done]. intros d [= <-]. split_and!; [|eexists; split; reflexivity|done].
  assert (Hn : length (logs (w_logs w')) = S (length (logs (w_logs w)))) by (cbn; rewrite length_app; cbn; lia). rewrite Hn.
  constructor; cbn [d_layers ancestry].
  - by intros [_ ?]%app_eq_nil.
  - rewrite length_app. cbn. lia.
  - rewrite !length_app. f_equal. destruct parent as [p|]; [|done]. exact (dt_ids _ _ (Hp p eq_refl)).
  - intros l [Hl|Hl%list_elem_of_singleton]%elem_of_app; [|subst l; split; [exact Hr|cbn; lia]].
    destruct parent as [p|]; [|by apply elem_of_nil in Hl]. destruct (dt_layers _ _ (Hp p eq_refl) l Hl). split; [done|lia].
Qed.

Lemma restrict_ok start cap det tid a0 a1 w :
  world_ok w -> wp (sys_landlock_restrict_self start cap det tid a0 a1) (fun _ w' => world_ok w') w.
Proof.
  intros Hw. unfold sys_landlock_restrict_self. wp_step. wp_step. destruct (w_tasks w !! tid) as [cur|] eqn:Et; [|by wp_step].
  pose proof (task_of _ _ _ Hw Et) as Hcur. destruct (Abi.restrict_self_precheck _ _ _); [|by wp_step].
  wp_step. wp_step. set (w1 := put_source true w). assert (Hw1 : world_ok w1) by by apply put_source_ok.
  assert (Hst : forall layer, 0 <= Log.state_after_restrict (tk_log_state cur) (as_u32 a1) layer < 2 ^ 32) by (intros layer; apply log_state_ok, Hcur).
  destruct (negb (Abi.needs_ruleset _)).
  - wp_step. eapply wp_mono; [apply on_task_ok; [done|]; intros t _; by apply with_log_ok|]. intros [] w2 Hw2.
    destruct (Abi.propagate_no_new_privs _); [|by wp_step]. wp_step. eapply wp_mono; [by apply siblings_ok|]. intros ok w3 Hw3. by wp_step.
  - destruct (Ll.ruleset_from_fd w tid _) as [rs|] eqn:E; [|by wp_step].
    destruct (lookup_lt_is_Some_2 _ _ (ruleset_in _ _ _ _ Hw E)) as [r Hr]. wp_step. rewrite Hr. wp_step.
    wp_step. eapply wp_mono; [apply (stack_ok _ r _ _ w1 Hw1 (Forall_lookup_1 _ _ _ _ (wo_rulesets _ Hw) Hr)), Hcur|].
    intros x w2 (Hw2 & Ht2 & _ & Hx & _). destruct x as [d|e]; [|by wp_step]. destruct (Hx d eq_refl) as (Hd & _ & _).
    wp_step. unfold on_task. wp_step. set (w3 := put_tasks _ w2). assert (Hw3 : world_ok w3).
    { apply put_tasks_ok; [|done]. apply Forall_alter; [apply Hw2|]. intros t _. by apply with_log_ok. }
    destruct (Abi.tsync _).
    + wp_step. eapply wp_mono; [apply siblings_ok; [done|]; by intros x [= <-]|]. intros ok w4 Hw4. by wp_step.
    + unfold Ll.set_current_domain. wp_step. wp_step. wp_step. destruct (w_tasks w3 !! tid); [|wp_step; by wp_step].
      wp_step. eapply wp_mono; [apply on_task_ok; [done|]; intros t' _; by apply with_domain_ok|]. intros [] w4 Hw4. wp_step. by wp_step.
Qed.

(** ** Threads and descriptors *)

Lemma nnp_ok tid w : world_ok w -> wp (set_no_new_privs tid) (fun _ w' => world_ok w') w.
Proof.
  intros Hw. unfold set_no_new_privs. wp_step. eapply wp_mono; [apply on_task_ok; [done|]; intros t _; apply with_nnp_ok|]. intros [] w' H. by wp_step.
Qed.

Lemma inherit_ok parent files w :
  world_ok w -> task_ok w parent ->
  wp (inherit_table parent files) (fun r w' => world_ok w' /\ w_tasks w' = w_tasks w /\ w_logs w' = w_logs w /\
    forall i, r = Some i -> (i < length (w_tables w'))%nat) w.
Proof.
  intros Hw Hp. unfold inherit_table. destruct (tk_table parent) as [i|] eqn:Ei; [|by wp_step]. pose proof (to_table _ _ Hp i Ei) as Hi.
  destruct files; [wp_step; by split_and!; [..|intros ? [= <-]]|]. wp_step. wp_step. wp_step.
  destruct (lookup_lt_is_Some_2 _ _ Hi) as [t Ht]. rewrite Ht. wp_step. wp_step. wp_step. wp_step.
  split_and!; [|done..|intros ? [= <-]; cbn; rewrite length_app; cbn; lia].
  apply push_table_ok; [|done]. apply fork_table. exact (Forall_lookup_1 _ _ _ _ (wo_tables _ Hw) Ht).
Qed.

Lemma clone_ok tid tgid files w : world_ok w -> wp (clone_task tid tgid files) (fun _ w' => world_ok w') w.
Proof.
  intros Hw. unfold clone_task. wp_step. wp_step. destruct (w_tasks w !! tid) as [p|] eqn:Et; [|by wp_step]. pose proof (task_of _ _ _ Hw Et) as Hp.
  wp_step. eapply wp_mono; [by apply inherit_ok|]. intros table w1 (Hw1 & Htk & Hlg & Htab). wp_step. wp_step. wp_step.
  apply put_tasks_ok; [|done]. apply Forall_app. split; [apply Hw1|]. apply Forall_singleton. constructor; cbn; [lia|exact Htab|].
  intros d Hd. rewrite Hlg. exact (to_domain _ _ Hp d Hd).
Qed.

Lemma exec_ok flush tid w : world_ok w -> wp (exec_task flush tid) (fun _ w' => world_ok w') w.
Proof.
  intros Hw. unfold exec_task. wp_step. wp_step. destruct (w_tasks w !! tid) as [task|] eqn:Et; [|by wp_step]. pose proof (task_of _ _ _ Hw Et) as Hp.
  wp_step. unfold on_task. wp_step. set (w1 := put_tasks _ w). assert (Hw1 : world_ok w1).
  { apply put_tasks_ok; [|done]. apply Forall_alter; [apply Hw|]. intros t _. apply with_log_ok, exec_state_ok, Hp. }
  destruct (tk_table task) as [i|] eqn:Ei; [|by wp_step]. assert (Hi : (i < length (w_tables w1))%nat) by exact (to_table _ _ Hp i Ei). clearbody w1.
  wp_step. eapply wp_mono; [eapply (on_table_call flush ok_hook CCloseOnExec i _ w1 Hw1 Hi I); [by constructor|]|].
  { intros t Q. by apply exec_unit with (g := fun _ => Ok 0). }
  intros [] w2 [Hw2 _]. by wp_step.
Qed.

Lemma open_ok nofile tid f flags w : world_ok w -> fo_ruleset f = None -> wp (open_file nofile tid f flags) (fun _ w' => world_ok w') w.
Proof.
  intros Hw Hf. unfold open_file. wp_step. wp_step. destruct (w_tasks w !! tid) as [task|] eqn:Et; [|by wp_step].
  destruct (tk_table task) as [i|] eqn:Ei; [|by wp_step]. pose proof (to_table _ _ (task_of _ _ _ Hw Et) i Ei) as Hi. wp_step. wp_step.
  set (w1 := put_wfiles _ w). assert (Hw1 : world_ok w1) by (apply push_file_ok; [by rewrite Hf|done]).
  wp_step. eapply wp_mono; [eapply (on_table_call ok_hook ok_hook (CInstall (Z.of_nat (length (w_files w))) flags nofile) i _ w1 Hw1 Hi I)|].
  { cbn [brings]. apply Forall_singleton. cbn. rewrite length_app. cbn. lia. }
  { intros t Q H. exact H. }
  intros r w2 [Hw2 _]. by wp_step.
Qed.

(** A call of the thread on its own table. *)
Definition table_call (flush copyout : Z -> result unit) (tid : nat) (c : Call) : M World (result Z) :=
  w ← get;
  match w_tasks w !! tid with
  | None => ret (Err Esrch)
  | Some task => match tk_table task with None => ret (Err Ebadf) | Some i => on_table i (exec flush copyout c) end
  end.

Lemma table_call_ok flush copyout tid c w :
  world_ok w -> call_ok c -> brings c = [] -> wp (table_call flush copyout tid c) (fun _ w' => world_ok w') w.
Proof.
  intros Hw Hc Hb. unfold table_call. wp_step. wp_step. destruct (w_tasks w !! tid) as [task|] eqn:Et; [|by wp_step].
  destruct (tk_table task) as [i|] eqn:Ei; [|by wp_step]. pose proof (to_table _ _ (task_of _ _ _ Hw Et) i Ei) as Hi.
  eapply wp_mono; [eapply (on_table_call flush copyout c i _ w Hw Hi Hc); [rewrite Hb; by constructor|]|].
  { intros t Q H. exact H. }
  by intros r w' [H _].
Qed.

(** ** Checks *)

Lemma domain_of w tid d : world_ok w -> Ll.current_domain w tid = Some d -> domain_typed (length (logs (w_logs w))) d.
Proof.
  intros Hw. unfold Ll.current_domain. destruct (w_tasks w !! tid) as [t|] eqn:Et; [|done]. exact (to_domain _ _ (task_of _ _ _ Hw Et) d).
Qed.

(** The logs a check by the thread works on. *)
Definition view_logs (w : World) (tid : nat) : Logs :=
  {| logs := logs (w_logs w); audit_enabled := audit_enabled (w_logs w);
     exec_source := if w_source w then Some (Ll.current_exec_layers w tid) else None; records := records (w_logs w) |}.

Lemma by_thread_wp {A} tid (m : M Logs A) w Q :
  wp m (fun a s => Q a (put_wlogs s w)) (view_logs w tid) -> wp (Ll.by_thread tid m) Q w.
Proof. intros H. unfold Ll.by_thread. wp_step. wp_step. apply wp_zoom. exact H. Qed.

Lemma by_thread_ok {A} tid d (m : M Logs A) w :
  world_ok w -> domain_typed (length (logs (w_logs w))) d -> tame d m -> wp (Ll.by_thread tid m) (fun _ w' => world_ok w') w.
Proof.
  intros Hw Hd Hm. apply by_thread_wp. destruct (domain_typed_ok _ d (view_logs w tid) Hd eq_refl) as [_ Hl].
  eapply wp_mono; [exact (Hm _ Hl)|]. intros a s E. cbn in E. apply put_wlogs_ok; [lia|done].
Qed.

Lemma checked_ok {A B} tid (m : Domain -> M Logs A) (k : A -> M World B) (dflt : B) w :
  world_ok w -> (forall d, tame d (m d)) -> (forall a w', world_ok w' -> wp (k a) (fun _ w'' => world_ok w'') w') ->
  wp (w ← get; match Ll.current_domain w tid with None => ret dflt | Some d => a ← Ll.by_thread tid (m d); k a end) (fun _ w' => world_ok w') w.
Proof.
  intros Hw Hm Hk. wp_step. wp_step. destruct (Ll.current_domain w tid) as [d|] eqn:Ed; [|by wp_step].
  wp_step. eapply wp_mono; [apply (by_thread_ok tid d _ w Hw (domain_of _ _ _ Hw Ed) (Hm d))|]. intros a w' Hw'. by apply Hk.
Qed.
