(* ===== verification/LandlockTrace.v ===== *)
(** * Landlock: sequences of operations

    Any thread may make any call; a world is reached from the boot of the
    system. *)

From stdpp Require Import list.
From S2P Require Import Prelude Words Result FdTable FdTableSpec FdTableInv FdTableRefine FdTableBulk FdTableFork FdTableTheorems FdTableRefs.
From S2P Require Import Landlock LandlockDomain LandlockAccess LandlockSpec LandlockCheck LandlockCalls LandlockWorld LandlockSteps.

Inductive Sys :=
| SCreate (mem : UserMem) (nofile : nat) (tid : nat) (a0 a1 a2 : Z)
| SAddRule (mem : UserMem) (tid : nat) (a0 a1 a2 a3 : Z)
| SRestrict (start cap : bool) (det : DomainDetails) (tid : nat) (a0 a1 : Z)
| SNoNewPrivs (tid : nat)
| SClone (tid : nat) (tgid : Z) (clone_files : bool)
| SExec (flush : Z -> result unit) (tid : nat)
| SOpen (nofile : nat) (tid : nat) (f : FileObj) (flags : Z)
| STable (flush copyout : Z -> result unit) (tid : nat) (c : Call)
| SCheck (v : Vfs) (tid : nat) (path : VfsPath) (op : Z)
| SOpenCheck (v : Vfs) (tid : nat) (path : VfsPath) (open_req : Z) (is_device : bool)
| SRefer (v : Vfs) (tid : nat) (old_dir : VfsPath) (old : Target) (new_dir : VfsPath) (new : option Target) (removable exchange : bool)
| SNet (tid : nat) (port op : Z)
| SSocket (tid : nat) (proto : Net.Proto) (op : Net.Op) (bs : list Z) (sock_family : Z)
| SScope (tid : nat) (scope : Z) (peer : option Domain).

Definition do_sys (c : Sys) : M World unit :=
  match c with
  | SCreate mem nofile tid a0 a1 a2 => sys_landlock_create_ruleset mem nofile tid a0 a1 a2 ;; ret tt
  | SAddRule mem tid a0 a1 a2 a3 => sys_landlock_add_rule mem tid a0 a1 a2 a3 ;; ret tt
  | SRestrict start cap det tid a0 a1 => sys_landlock_restrict_self start cap det tid a0 a1 ;; ret tt
  | SNoNewPrivs tid => set_no_new_privs tid ;; ret tt
  | SClone tid tgid files => clone_task tid tgid files ;; ret tt
  | SExec flush tid => exec_task flush tid ;; ret tt
  | SOpen nofile tid f flags => open_file nofile tid f flags ;; ret tt
  | STable flush copyout tid c => table_call flush copyout tid c ;; ret tt
  | SCheck v tid path op => Ll.check v tid path op ;; ret tt
  | SOpenCheck v tid path req dev => Ll.open_decide v tid path req dev ;; ret tt
  | SRefer v tid old_dir old new_dir new removable exchange => Ll.check_refer v tid old_dir old new_dir new removable exchange ;; ret tt
  | SNet tid port op => Ll.check_net tid port op ;; ret tt
  | SSocket tid proto op bs fam => Ll.check_socket tid proto op bs fam ;; ret tt
  | SScope tid scope peer => Ll.scope_denies tid scope peer ;; ret tt
  end.

(** Only [landlock_create_ruleset] makes ruleset files, and calls on a table
    bring no file of their own. *)
Definition sys_ok (c : Sys) : Prop :=
  match c with
  | SOpen _ _ f _ => fo_ruleset f = None
  | STable _ _ _ c => call_ok c /\ brings c = []
  | _ => True
  end.

Fixpoint run_sys (l : list Sys) : M World unit :=
  match l with [] => ret tt | c :: l' => do_sys c ;; run_sys l' end.

(** The first thread, with an empty descriptor table. *)
Definition boot (audit : bool) : World :=
  {| w_tasks := [{| tk_tgid := 1; tk_nnp := false; tk_log_state := 0; tk_domain := None; tk_table := Some 0%nat |}];
     w_tables := [new_table]; w_files := []; w_rulesets := [];
     w_logs := {| logs := []; audit_enabled := audit; exec_source := None; records := [] |}; w_source := false; w_next_id := 1 |}.

Lemma boot_ok audit : world_ok (boot audit).
Proof.
  constructor; cbn; [..|by constructor|by constructor].
  - apply Forall_singleton. constructor; cbn; [lia|intros i [= <-]; lia|done].
  - apply Forall_singleton. constructor; [apply new_ok|]. intros fd f c. by rewrite new_slot.
Qed.

Lemma then_ok {A} (m : M World A) w (Q : World -> Prop) : wp m (fun _ w' => Q w') w -> wp (m ;; ret tt) (fun _ w' => Q w') w.
Proof. intros H. wp_step. eapply wp_mono; [exact H|]. intros a w' Hw'. by wp_step. Qed.

Lemma do_sys_ok c w : sys_ok c -> world_ok w -> wp (do_sys c) (fun _ w' => world_ok w') w.
Proof.
  destruct c as [mem nf tid a0 a1 a2|mem tid a0 a1 a2 a3|st cap det tid a0 a1|tid|tid tg fs|fl tid|nf tid f fg|fl co tid c|v tid p op|v tid p rq dv
    |v tid od o nd n rm ex|tid pt op|tid pr op bs fam|tid sc peer]; cbn [sys_ok do_sys]; intros Hc Hw; apply then_ok.
  - by apply create_ok.
  - by apply add_rule_ok.
  - by apply restrict_ok.
  - by apply nnp_ok.
  - by apply clone_ok.
  - by apply exec_ok.
  - by apply open_ok.
  - destruct Hc. by apply table_call_ok.
  - apply checked_ok; [done|intros d; apply check_fs_tame|]. intros a w' Hw'. by wp_step.
  - apply checked_ok; [done|intros d; apply open_tame|]. intros a w' Hw'. by wp_step.
  - apply checked_ok; [done|intros d; apply refer_tame|]. intros a w' Hw'. by wp_step.
  - apply checked_ok; [done|intros d; apply check_net_tame|]. intros a w' Hw'. by wp_step.
  - unfold Ll.check_socket. wp_step. wp_step. destruct (Ll.current_domain w tid) as [d|] eqn:Ed.
    + wp_step. eapply wp_mono; [apply (by_thread_ok tid d _ w Hw (domain_of _ _ _ Hw Ed)), addr_tame|]. intros r w' Hw'. by wp_step.
    + wp_step. apply by_thread_wp. cbn [Net.addr_verdict]. wp_step. wp_step. by apply put_wlogs_ok.
  - unfold Ll.scope_denies. wp_step. wp_step. destruct (Ll.current_domain w tid) as [d|] eqn:Ed; [|by wp_step].
    apply (by_thread_ok tid d _ w Hw (domain_of _ _ _ Hw Ed)), scope_tame.
Qed.

Lemma run_sys_ok l w : Forall sys_ok l -> world_ok w -> wp (run_sys l) (fun _ w' => world_ok w') w.
Proof.
  revert w. induction l as [|c l IH]; intros w Hl Hw; cbn [run_sys]; [by wp_step|]. apply Forall_cons in Hl as [Hc Hl].
  wp_step. eapply wp_mono; [by apply do_sys_ok|]. intros [] w' Hw'. by apply IH.
Qed.

(** Worlds the system gets to. *)
Definition reached (w : World) : Prop := exists audit l, Forall sys_ok l /\ run_sys l (boot audit) = Done (tt, w).

Lemma reached_ok w : reached w -> world_ok w.
Proof.
  intros (audit & l & Hl & E). pose proof (run_sys_ok l (boot audit) Hl (boot_ok audit)) as H. unfold wp in H. by rewrite E in H.
Qed.
