(* ===== verification/LandlockNarrow.v ===== *)
(** * Landlock: how domains change

    What each operation does to the domains of the threads, the identities of
    domains, and the accesses a thread may make. *)

From stdpp Require Import list.
From S2P Require Import Prelude Words Result FdTable FdTableSpec FdTableInv FdTableRefine FdTableBulk FdTableFork FdTableTheorems FdTableRefs.
From S2P Require Import Landlock LandlockDomain LandlockAccess LandlockSpec LandlockCheck LandlockCalls LandlockWorld LandlockSteps LandlockTrace.

(** The domain of every thread. *)
Definition doms (w : World) : list (option Domain) := map tk_domain (w_tasks w).

Lemma doms_lookup w i : doms w !! i = tk_domain <$> w_tasks w !! i.
Proof. apply list_lookup_fmap. Qed.

Lemma current_doms w i : Ll.current_domain w i = default None (doms w !! i).
Proof. rewrite doms_lookup. unfold Ll.current_domain. by destruct (w_tasks w !! i). Qed.

(** ** Operations that leave the domains alone *)

Definition same_doms (w w' : World) : Prop := doms w' = doms w /\ w_next_id w' = w_next_id w.

Definition keeps {A} (m : M World A) : Prop := forall w a w', m w = Done (a, w') -> same_doms w w'.

Lemma keeps_ret {A} (a : A) : keeps (ret a).
Proof. by intros w b w' [= _ <-]. Qed.

Lemma keeps_bind {A B} (m : M World A) (k : A -> M World B) : keeps m -> (forall a, keeps (k a)) -> keeps (a ← m; k a).
Proof.
  intros Hm Hk w b w'. unfold mbind, M_bind, bind. destruct (m w) as [[a w1]|] eqn:E; [|done]. intros E2.
  destruct (Hm _ _ _ E), (Hk _ _ _ _ E2). split; congruence.
Qed.

Lemma keeps_get {A} (k : World -> M World A) : (forall w, keeps (k w)) -> keeps (w ← get; k w).
Proof. intros H. apply keeps_bind; [|done]. by intros w a w' [= _ <-]. Qed.

Lemma keeps_modify f : (forall w, same_doms w (f w)) -> keeps (modify f).
Proof. intros H w a w' [= _ <-]. apply H. Qed.

Lemma keeps_expect {A} (o : option A) msg : keeps (expect o msg).
Proof. destruct o; [apply keeps_ret|]. by intros w a w'. Qed.

Lemma keeps_zoom {T A} (g : World -> T) h (m : M T A) : (forall t w, same_doms w (h t w)) -> keeps (zoom g h m).
Proof. intros H w a w'. unfold zoom. destruct (m (g w)) as [[b t]|]; [|done]. intros [= _ <-]. apply H. Qed.

Lemma keeps_table {A} i (m : M Tab A) : keeps (on_table i m).
Proof. apply keeps_get. intros w. apply keeps_bind; [apply keeps_expect|]. intros t. by apply keeps_zoom. Qed.

Lemma keeps_thread {A} tid (m : M Logs A) : keeps (Ll.by_thread tid m).
Proof. apply keeps_get. intros w. by apply keeps_zoom. Qed.

Lemma doms_alter f i w : (forall t, tk_domain (f t) = tk_domain t) -> doms (put_tasks (alter f i (w_tasks w)) w) = doms w.
Proof.
  intros Hf. unfold doms. cbn. apply list_eq. intros j. rewrite !list_lookup_fmap, list_lookup_alter. destruct (decide (i = j)) as [<-|]; [|done].
  destruct (w_tasks w !! i); cbn; [|done]. by rewrite Hf.
Qed.

Lemma keeps_task tid f : (forall t, tk_domain (f t) = tk_domain t) -> keeps (on_task tid f).
Proof. intros Hf. apply keeps_modify. intros w. split; [by apply doms_alter|done]. Qed.

Create HintDb keeps discriminated.
#[export] Hint Resolve keeps_ret keeps_bind keeps_get keeps_expect keeps_table keeps_thread keeps_task : keeps.

Lemma create_keeps mem nofile tid a0 a1 a2 : keeps (sys_landlock_create_ruleset mem nofile tid a0 a1 a2).
Proof.
  unfold sys_landlock_create_ruleset. destruct (Abi.create_intent _ _ _) as [[| |]|]; auto with keeps.
  destruct (Abi.attr_buffer_ok _ _ _); [|auto with keeps]. destruct (read_attr _ _ _); [|auto with keeps]. destruct (Abi.validate _); [|auto with keeps].
  unfold install_ruleset. apply keeps_get. intros w. apply keeps_bind; [by apply keeps_modify|]. intros _.
  destruct (w_tasks w !! tid) as [task|]; [|auto with keeps]. destruct (tk_table task); [|auto with keeps].
  apply keeps_bind; [auto with keeps|]. intros [fd|e]; auto with keeps.
Qed.

Lemma store_keeps rs r : keeps (store_rule rs r).
Proof. unfold store_rule. destruct r; [|auto with keeps]. apply keeps_bind; [by apply keeps_modify|auto with keeps]. Qed.

Lemma add_rule_keeps mem tid a0 a1 a2 a3 : keeps (sys_landlock_add_rule mem tid a0 a1 a2 a3).
Proof.
  unfold sys_landlock_add_rule. destruct (Abi.add_rule_flags_ok _); [|auto with keeps]. apply keeps_get. intros w.
  destruct (Ll.ruleset_from_fd _ _ _) as [rs|]; [|auto with keeps]. destruct (_ =? _).
  - unfold add_path_beneath. destruct (read_rule _ _ _); [|auto with keeps]. apply keeps_get. intros w1. apply keeps_bind; [auto with keeps|]. intros r.
    destruct (Abi.rule_access_ok _ _ _ _); [|auto with keeps]. destruct (w_tasks w1 !! tid); [|auto with keeps].
    destruct (Ll.file_of _ _ _); [|auto with keeps]. destruct (Abi.rule_target_fd_ok _); [|auto with keeps]. apply store_keeps.
  - destruct (_ =? _); [|auto with keeps]. unfold add_net_port. destruct (read_rule _ _ _); [|auto with keeps].
    apply keeps_get. intros w1. apply keeps_bind; [auto with keeps|]. intros r. apply store_keeps.
Qed.

(** Whether the operation may change domains. *)
Definition changes (c : Sys) : bool := match c with SRestrict _ _ _ _ _ _ | SClone _ _ _ => true | _ => false end.

Lemma do_keeps c : changes c = false -> keeps (do_sys c).
Proof.
  destruct c as [mem nf tid a0 a1 a2|mem tid a0 a1 a2 a3|st cap det tid a0 a1|tid|tid tg fs|fl tid|nf tid f fg|fl co tid c|v tid p op|v tid p rq dv
    |v tid od o nd n rm ex|tid pt op|tid pr op bs fam|tid sc peer]; cbn [changes do_sys]; intros Hc; try done; (apply keeps_bind; [|auto with keeps]).
  - apply create_keeps.
  - apply add_rule_keeps.
  - apply keeps_bind; [|auto with keeps]. by apply keeps_task.
  - apply keeps_get. intros w. destruct (w_tasks w !! tid) as [task|]; [|auto with keeps]. apply keeps_bind; [by apply keeps_task|]. intros _.
    destruct (tk_table task); auto with keeps.
  - apply keeps_get. intros w. destruct (w_tasks w !! tid) as [task|]; [|auto with keeps]. destruct (tk_table task); [|auto with keeps].
    apply keeps_bind; [by apply keeps_modify|]. intros _. apply keeps_bind; auto with keeps.
  - apply keeps_get. intros w. destruct (w_tasks w !! tid) as [task|]; [|auto with keeps]. destruct (tk_table task); auto with keeps.
  - apply keeps_get. intros w. destruct (Ll.current_domain w tid); auto with keeps.
  - apply keeps_get. intros w. destruct (Ll.current_domain w tid); auto with keeps.
  - apply keeps_get. intros w. destruct (Ll.current_domain w tid); auto with keeps.
  - apply keeps_get. intros w. destruct (Ll.current_domain w tid); auto with keeps.
  - apply keeps_get. intros w. auto with keeps.
  - apply keeps_get. intros w. destruct (Ll.current_domain w tid); auto with keeps.
Qed.

(** ** The operations that change them *)

(** The call asks for every thread of the process. *)
Definition for_group (a1 : Z) : bool := negb (Z.land (as_u32 a1) RESTRICT_SELF_TSYNC =? 0).

(** The thread [tid], and its group if [group], take the domain [d]. *)
Definition entered (tid : nat) (group : bool) (d : Domain) (w w' : World) : Prop :=
  length (doms w') = length (doms w) /\
  forall i, doms w' !! i = doms w !! i \/ (is_Some (doms w !! i) /\ doms w' !! i = Some (Some d) /\ (i = tid \/ group = true)).

(** What an operation does to the domains. *)
Definition dom_step (c : Sys) (w w' : World) : Prop :=
  (doms w' = doms w /\ (w_next_id w' = w_next_id w \/ w_next_id w' = wrap64 (w_next_id w + 1))) \/
  (exists p, p ∈ doms w /\ doms w' = doms w ++ [p] /\ w_next_id w' = w_next_id w) \/
  (exists start cap det tid a0 a1 d, c = SRestrict start cap det tid a0 a1 /\ stacked (Ll.current_domain w tid) (w_next_id w) d /\
     w_next_id w' = wrap64 (w_next_id w + 1) /\ entered tid (for_group a1) d w w').

Lemma entered_group w tid cur d nnp :
  w_tasks w !! tid = Some cur ->
  entered tid true d w (put_tasks (map (fun t => if tk_tgid t =? tk_tgid cur then commit (Some d) nnp t else t) (w_tasks w)) w).
Proof.
  intros Ht. unfold entered, doms. cbn. rewrite !length_map. split; [done|]. intros i. rewrite !list_lookup_fmap.
  destruct (w_tasks w !! i) as [t|]; [|by left]. cbn. destruct (_ =? _); [|by left]. right. split_and!; [by eexists| |by right].
  unfold commit. by destruct nnp.
Qed.

Lemma entered_one w tid d : entered tid false d w (put_tasks (alter (with_domain (Some d)) tid (w_tasks w)) w).
Proof.
  unfold entered, doms. cbn. rewrite !length_map, length_alter. split; [done|]. intros i. rewrite !list_lookup_fmap, list_lookup_alter.
  destruct (decide (tid = i)) as [<-|]; [|by left]. destruct (w_tasks w !! tid) as [t|]; [|by left]. right. split_and!; [by eexists|done|by left].
Qed.

Lemma entered_from tid g d w0 w w' : doms w = doms w0 -> entered tid g d w w' -> entered tid g d w0 w'.
Proof. unfold entered. by intros ->. Qed.

Lemma siblings_none start cur nnp w : wp (restrict_siblings start cur None nnp) (fun _ w' => same_doms w w') w.
Proof.
  unfold restrict_siblings. destruct (negb start); [by wp_step|]. wp_step. wp_step. wp_step. split; [|done]. unfold doms. cbn. rewrite map_map.
  apply map_ext. intros t. destruct (_ =? _); [|done]. by destruct nnp.
Qed.

Lemma restrict_step start cap det tid a0 a1 w :
  world_ok w -> wp (sys_landlock_restrict_self start cap det tid a0 a1) (fun _ w' => dom_step (SRestrict start cap det tid a0 a1) w w') w.
Proof.
  intros Hw. unfold sys_landlock_restrict_self. wp_step. wp_step. destruct (w_tasks w !! tid) as [cur|] eqn:Et; [|wp_step; left; auto].
  destruct (Abi.restrict_self_precheck _ _ _); [|wp_step; left; auto]. wp_step. wp_step. set (w1 := put_source true w).
  destruct (negb (Abi.needs_ruleset _)).
  - wp_step. unfold on_task. wp_step. set (w2 := put_tasks _ w1). assert (Hd2 : doms w2 = doms w) by by apply (doms_alter _ _ w1).
    destruct (Abi.propagate_no_new_privs _); [|wp_step; left; auto]. wp_step. eapply wp_mono; [apply siblings_none|].
    intros ok w3 [H1 H2]. wp_step. left. rewrite H1, H2. auto.
  - destruct (Ll.ruleset_from_fd w tid _) as [rs|] eqn:E; [|wp_step; left; auto].
    destruct (lookup_lt_is_Some_2 _ _ (ruleset_in _ _ _ _ Hw E)) as [r Hr]. wp_step. rewrite Hr. wp_step.
    wp_step. eapply wp_mono; [apply (stack_ok _ r _ _ w1 (put_source_ok true w Hw) (Forall_lookup_1 _ _ _ _ (wo_rulesets _ Hw) Hr)), (task_of _ _ _ Hw Et)|].
    intros x w2 (Hw2 & Ht2 & _ & Hx & He). destruct x as [d|e]; [|wp_step; left; rewrite (He e eq_refl); auto]. destruct (Hx d eq_refl) as (_ & Hst & Hn).
    assert (Hcur : stacked (Ll.current_domain w tid) (w_next_id w) d) by (unfold Ll.current_domain; by rewrite Et).
    wp_step. unfold on_task. wp_step. set (w3 := put_tasks _ w2). assert (Hd3 : doms w3 = doms w).
    { unfold w3. rewrite doms_alter by done. unfold doms. by rewrite Ht2. }
    assert (Ht3 : exists t, w_tasks w3 !! tid = Some t /\ tk_tgid t = tk_tgid cur).
    { cbn. rewrite list_lookup_alter_eq, Ht2. cbn. rewrite Et. cbn. eauto. }
    change (Abi.tsync (Abi.restrict_plan (as_i32 a0) (as_u32 a1) (tk_nnp cur))) with (for_group a1).
    assert (Hfin : forall w4, w_next_id w4 = w_next_id w3 -> entered tid (for_group a1) d w3 w4 -> dom_step (SRestrict start cap det tid a0 a1) w w4).
    { intros w4 H1 H2. right. right. do 7 eexists. split_and!; [reflexivity|exact Hcur|by rewrite H1|by eapply entered_from, H2]. }
    destruct Ht3 as (t & Ht3 & Hg3). destruct (for_group a1) eqn:Eg.
    + wp_step. unfold restrict_siblings. destruct (negb start); [wp_step; wp_step; left; auto|]. wp_step. wp_step. wp_step. wp_step.
      apply Hfin; [done|]. rewrite <- Hg3. by apply entered_group.
    + unfold Ll.set_current_domain. wp_step. wp_step. wp_step. rewrite Ht3. unfold on_task. wp_step. wp_step. wp_step. wp_step.
      apply Hfin; [done|]. apply entered_one.
Qed.

Lemma clone_task_step tid tgid files w : world_ok w -> wp (clone_task tid tgid files) (fun _ w' => dom_step (SClone tid tgid files) w w') w.
Proof.
  intros Hw. unfold clone_task. wp_step. wp_step. destruct (w_tasks w !! tid) as [p|] eqn:Et; [|wp_step; left; auto].
  wp_step. assert (H : wp (inherit_table p files) (fun _ w1 => w_tasks w1 = w_tasks w /\ w_next_id w1 = w_next_id w) w).
  { unfold inherit_table. destruct (tk_table p) as [i|] eqn:Ei; [|by wp_step]. destruct files; [by wp_step|]. wp_step. wp_step. wp_step.
    destruct (lookup_lt_is_Some_2 _ _ (to_table _ _ (task_of _ _ _ Hw Et) i Ei)) as [t Ht]. rewrite Ht. wp_step. wp_step. wp_step. by wp_step. }
  eapply wp_mono; [exact H|]. intros table w1 [Ht1 Hn1]. wp_step. wp_step. wp_step. right. left. exists (tk_domain p).
  split_and!; [|unfold doms; cbn; by rewrite Ht1, map_app|done]. unfold doms. apply list_elem_of_fmap. exists p. split; [done|]. by eapply list_elem_of_lookup_2.
Qed.

Lemma do_step c w : world_ok w -> sys_ok c -> wp (do_sys c) (fun _ w' => world_ok w' /\ dom_step c w w') w.
Proof.
  intros Hw Hc. assert (Hs : wp (do_sys c) (fun _ w' => dom_step c w w') w).
  { destruct (changes c) eqn:E.
    - destruct c; try done; cbn [do_sys]; apply then_ok; [by apply restrict_step|by apply clone_task_step].
    - pose proof (do_sys_ok c w Hc Hw) as H. unfold wp in *. destruct (do_sys c w) as [[a w']|] eqn:Ew; [|done].
      destruct (do_keeps c E _ _ _ Ew). left. auto. }
  pose proof (do_sys_ok c w Hc Hw) as H. unfold wp in *. by destruct (do_sys c w) as [[a w']|].
Qed.

(** ** Domains only grow *)

(** The second domain has the layers of the first, and maybe more. *)
Definition extends (o o' : option Domain) : Prop :=
  match o with
  | None => True
  | Some d => exists d', o' = Some d' /\ d_layers d `prefix_of` d_layers d' /\ ancestry d `prefix_of` ancestry d'
  end.

#[export] Instance extends_preorder : PreOrder extends.
Proof.
  split.
  - intros [d|]; [|done]. by exists d.
  - intros [d|] o2 o3; [|done]. intros (d2 & -> & H1 & H2) (d3 & -> & H3 & H4). exists d3. split_and!; [done|by etrans..].
Qed.

Lemma stacked_extends o id d : stacked o id d -> extends o (Some d).
Proof. intros (l & E1 & E2). destruct o as [p|]; [|done]. exists d. split_and!; [done|by eexists..]. Qed.

(** The operation is not another thread's enforcement for the whole group. *)
Definition own (tid : nat) (c : Sys) : Prop := match c with SRestrict _ _ _ t _ a1 => t = tid \/ for_group a1 = false | _ => True end.

Lemma step_extends tid c w w' : own tid c -> dom_step c w w' -> extends (Ll.current_domain w tid) (Ll.current_domain w' tid).
Proof.
  intros Ho [[E _]|[(p & _ & E & _)|(st & cap & det & t & a0 & a1 & d & -> & Hst & _ & _ & He)]]; rewrite !current_doms.
  - by rewrite E.
  - rewrite E. destruct (doms w !! tid) as [x|] eqn:Ex; [|done]. by rewrite (lookup_app_l_Some _ _ _ _ Ex).
  - destruct (He tid) as [->|(_ & -> & Hor)]; [done|]. assert (t = tid) as ->.
    { cbn in Ho. destruct Hor as [?|Hg]; [done|]. destruct Ho as [?|Hf]; [done|congruence]. }
    rewrite <- current_doms. by eapply stacked_extends.
Qed.

Lemma run_extends tid l w :
  world_ok w -> Forall sys_ok l -> Forall (own tid) l ->
  wp (run_sys l) (fun _ w' => world_ok w' /\ extends (Ll.current_domain w tid) (Ll.current_domain w' tid)) w.
Proof.
  revert w. induction l as [|c l IH]; intros w Hw Hl Ho; cbn [run_sys]; [wp_step; split; [done|reflexivity]|].
  apply Forall_cons in Hl as [Hc Hl], Ho as [Hco Ho]. wp_step. eapply wp_mono; [exact (do_step c w Hw Hc)|]. intros [] w1 [Hw1 Hst].
  eapply wp_mono; [exact (IH w1 Hw1 Hl Ho)|]. intros [] w2 [Hw2 He]. split; [done|]. etrans; [by eapply step_extends|done].
Qed.

(** What the larger domain grants, the smaller one grants. *)
Lemma extends_allows d o' chain access : extends (Some d) o' -> exists d', o' = Some d' /\ (allows d' chain access -> allows d chain access).
Proof.
  intros (d' & -> & [k Hk] & _). exists d'. split; [done|]. intros H l r Hl. apply H. rewrite Hk. apply elem_of_app. by left.
Qed.
