(* ===== verification/LandlockIds.v ===== *)
(** * Landlock: the identities of domains

    Two domains with the same identity at a level have the same layers up to
    that level: an identity stands for the stack of layers that existed when
    it was made. *)

From stdpp Require Import list.
From S2P Require Import Prelude Words Result FdTable FdTableSpec FdTableInv FdTableRefine FdTableBulk FdTableFork FdTableTheorems FdTableRefs.
From S2P Require Import Landlock LandlockDomain LandlockAccess LandlockSpec LandlockCheck LandlockCalls LandlockWorld LandlockSteps LandlockTrace LandlockNarrow.

(** The domains agree up to the level [k]. *)
Definition agree (k : nat) (d1 d2 : Domain) : Prop :=
  take (S k) (d_layers d1) = take (S k) (d_layers d2) /\ take (S k) (ancestry d1) = take (S k) (ancestry d2).

Record ids_ok (w : World) : Prop := {
  io_next : 0 < w_next_id w;
  io_below : forall d id, Some d ∈ doms w -> id ∈ ancestry d -> 0 < id < w_next_id w;
  io_agree : forall d1 d2 k id, Some d1 ∈ doms w -> Some d2 ∈ doms w ->
    ancestry d1 !! k = Some id -> ancestry d2 !! k = Some id -> agree k d1 d2;
}.

Lemma ids_same w w' :
  (forall x, x ∈ doms w' -> x ∈ doms w) -> w_next_id w <= w_next_id w' -> ids_ok w -> ids_ok w'.
Proof.
  intros Hs Hn [H1 H2 H3]. constructor; [lia| |].
  - intros d id Hd Hid. specialize (H2 d id (Hs _ Hd) Hid). lia.
  - intros d1 d2 k id Hd1 Hd2. apply H3; auto.
Qed.

Lemma domain_lens w d : world_ok w -> Some d ∈ doms w -> length (ancestry d) = length (d_layers d).
Proof.
  intros Hw Hd. unfold doms in Hd. apply list_elem_of_fmap in Hd as (t & Et & Hd). apply (proj1 (Forall_forall _ _) (wo_tasks _ Hw)) in Hd.
  exact (dt_ids _ _ (to_domain _ _ Hd d (eq_sym Et))).
Qed.

Section stack.
Context (w : World) (p : option Domain) (d : Domain) (Hw : world_ok w) (Hids : ids_ok w)
  (Hp : forall x, p = Some x -> Some x ∈ doms w) (Hd : stacked p (w_next_id w) d).

(** The parts of the new domain below its last layer. *)
Lemma stacked_lookup k id : ancestry d !! k = Some id ->
  id = w_next_id w \/ exists x, p = Some x /\ ancestry x !! k = Some id /\ agree k d x.
Proof.
  destruct Hd as (l & El & Ei). destruct p as [x|]; rewrite Ei.
  - pose proof (domain_lens w x Hw (Hp x eq_refl)) as Hlen. intros H. apply lookup_app_Some in H as [H|[_ H]].
    + right. exists x. pose proof (lookup_lt_Some _ _ _ H). unfold agree. rewrite El, Ei, !take_app_le by lia. done.
    + left. apply list_lookup_singleton_Some in H as [_ ?]. done.
  - intros H. left. apply list_lookup_singleton_Some in H as [_ ?]. done.
Qed.

Lemma fresh_id d' k : Some d' ∈ doms w -> ancestry d' !! k <> Some (w_next_id w).
Proof. intros Hd' H%list_elem_of_lookup_2. apply (io_below _ Hids d' _ Hd') in H. lia. Qed.

Lemma stacked_agree d' k id : Some d' ∈ doms w -> ancestry d !! k = Some id -> ancestry d' !! k = Some id -> agree k d d'.
Proof.
  intros Hd' H1 H2. destruct (stacked_lookup k id H1) as [->|(x & -> & Hx & [E1 E2])]; [by apply fresh_id in H2|].
  destruct (io_agree _ Hids x d' k id (Hp x eq_refl) Hd' Hx H2). split; congruence.
Qed.

Lemma stacked_below id : id ∈ ancestry d -> 0 < id < w_next_id w + 1.
Proof.
  intros (k & Hk)%list_elem_of_lookup. destruct (stacked_lookup k id Hk) as [->|(x & -> & Hx%list_elem_of_lookup_2 & _)].
  - pose proof (io_next _ Hids). lia.
  - pose proof (io_below _ Hids x id (Hp x eq_refl) Hx). lia.
Qed.

Lemma stack_ids w' :
  w_next_id w' = w_next_id w + 1 -> (forall x, x ∈ doms w' -> x ∈ doms w \/ x = Some d) -> ids_ok w'.
Proof.
  intros Hn Hx. pose proof (io_next _ Hids). constructor; [lia| |].
  - intros d0 id [H0|[= ->]]%Hx Hid; rewrite Hn; [|by apply stacked_below]. pose proof (io_below _ Hids d0 id H0 Hid). lia.
  - intros d1 d2 k id [H1|[= ->]]%Hx [H2|[= ->]]%Hx E1 E2; [by eapply io_agree| |by eapply stacked_agree|done].
    destruct (stacked_agree d1 k id H1 E2 E1). split; congruence.
Qed.

End stack.

Lemma wrap_next n : 0 < n < U64_MAX -> wrap64 (n + 1) = n + 1.
Proof. intros H. unfold wrap64, U64_MAX in *. apply Z.mod_small. lia. Qed.

Lemma step_ids c w w' :
  world_ok w -> ids_ok w -> w_next_id w < U64_MAX -> dom_step c w w' -> ids_ok w' /\ w_next_id w' <= w_next_id w + 1.
Proof.
  intros Hw Hi Hn Hs. pose proof (io_next _ Hi) as H0. pose proof (wrap_next (w_next_id w) ltac:(lia)) as Hwr.
  destruct Hs as [[E [En|En]]|[(p & Hp & E & En)|(st & cap & det & t & a0 & a1 & d & -> & Hst & En & Hl & He)]].
  - split; [|lia]. apply (ids_same w); [by rewrite E|lia|done].
  - split; [|lia]. apply (ids_same w); [by rewrite E|lia|done].
  - split; [|lia]. apply (ids_same w); [|lia|done]. rewrite E. intros x [?|Hx%list_elem_of_singleton]%elem_of_app; [done|by subst].
  - split; [|lia]. refine (stack_ids w _ d Hw Hi _ Hst w' ltac:(lia) _).
    + intros x Hx. rewrite current_doms in Hx. destruct (doms w !! t) eqn:Et; [|done]. cbn in Hx. subst. by eapply list_elem_of_lookup_2.
    + intros x (i & Hx)%list_elem_of_lookup. destruct (He i) as [Es|(_ & Es & _)]; rewrite Es in Hx; [left; by eapply list_elem_of_lookup_2|]. right. congruence.
Qed.

Lemma run_ids l w :
  world_ok w -> ids_ok w -> Forall sys_ok l -> w_next_id w + Z.of_nat (length l) <= U64_MAX ->
  wp (run_sys l) (fun _ w' => world_ok w' /\ ids_ok w') w.
Proof.
  revert w. induction l as [|c l IH]; intros w Hw Hi Hl Hn; cbn [run_sys]; [by wp_step|]. apply Forall_cons in Hl as [Hc Hl]. cbn [length] in Hn.
  wp_step. eapply wp_mono; [exact (do_step c w Hw Hc)|]. intros [] w1 [Hw1 Hst]. destruct (step_ids c w w1 Hw Hi ltac:(lia) Hst) as [Hi1 Hn1].
  apply IH; [done..|lia].
Qed.

Lemma boot_ids audit : ids_ok (boot audit).
Proof.
  constructor; cbn; [lia| |].
  - intros d id Hd. by apply list_elem_of_singleton in Hd.
  - intros d1 d2 k id Hd. by apply list_elem_of_singleton in Hd.
Qed.

(** ** What an identity tells *)

(** The domain of the peer was built on the layers of [d] up to [i]. *)
Definition built_on (d : Domain) (i : nat) (peer : option Domain) : Prop :=
  exists p, peer = Some p /\ (i < length (d_layers p))%nat /\ agree i p d.

Lemma inside_built w d peer i :
  world_ok w -> ids_ok w -> Some d ∈ doms w -> peer ∈ doms w -> (i < length (d_layers d))%nat ->
  Dom.peer_inside_at d peer i = true <-> built_on d i peer.
Proof.
  intros Hw Hi Hd Hp Hlen. unfold Dom.peer_inside_at, built_on. destruct peer as [p|]; [|split; [done|by intros (p & ? & _)]].
  pose proof (domain_lens w d Hw Hd) as L1. pose proof (domain_lens w p Hw Hp) as L2.
  destruct (lookup_lt_is_Some_2 (ancestry d) i ltac:(lia)) as [id Hid]. rewrite andb_true_iff, Hid. cbn. split.
  - intros [H1%Nat.ltb_lt H2%Z.eqb_eq]. exists p. split_and!; [done|lia|]. destruct (lookup_lt_is_Some_2 (ancestry p) i H1) as [id' Hid'].
    rewrite Hid' in H2. cbn in H2. subst id'. by apply (io_agree _ Hi p d i id).
  - intros (p' & [= <-] & Hl & _ & E). assert (Hi' : ancestry p !! i = Some id).
    { rewrite <- Hid, <- (lookup_take_lt (ancestry p) (S i)), <- (lookup_take_lt (ancestry d) (S i)) by lia. by rewrite E. }
    rewrite Hi'. cbn. split; [apply Nat.ltb_lt; lia|apply Z.eqb_refl].
Qed.
