(* ===== verification/LandlockCreate.v ===== *)
(** * Landlock: from the attributes in user memory to the ruleset *)

From stdpp Require Import list.
From S2P Require Import Prelude Words Result FdTable FdTableSpec FdTableInv FdTableRefine FdTableBulk FdTableFork FdTableTheorems FdTableRefs Vma.
From S2P Require Import Landlock LandlockDomain LandlockAccess LandlockCalls LandlockWorld LandlockSteps LandlockTrace.

(** ** Little-endian words *)

(** The [n] bytes of [x], least significant first. *)
Fixpoint le_bytes (n : nat) (x : Z) : list Z := match n with O => [] | S n' => x mod 256 :: le_bytes n' (x / 256) end.

Lemma le_bytes_length n x : length (le_bytes n x) = n.
Proof. revert x. induction n as [|n IH]; intros x; cbn; [done|]. by rewrite IH. Qed.

Lemma from_le_bytes_le n x : 0 <= x < 256 ^ Z.of_nat n -> Abi.from_le_bytes (le_bytes n x) = x.
Proof.
  revert x. induction n as [|n IH]; intros x Hx; cbn [le_bytes Abi.from_le_bytes].
  { cbn in Hx. lia. }
  rewrite Nat2Z.inj_succ, Z.pow_succ_r in Hx by lia. rewrite IH.
  - pose proof (Z.div_mod x 256). lia.
  - split; [apply Z.div_pos; lia|]. apply Z.div_lt_upper_bound; lia.
Qed.

(** [struct landlock_ruleset_attr] as a program writes it. *)
Definition encode (a : Abi.RulesetAttr) : list Z :=
  le_bytes 8 (Abi.ra_handled_fs a) ++ le_bytes 8 (Abi.ra_handled_net a) ++ le_bytes 8 (Abi.ra_scoped a) ++
  le_bytes 8 (Abi.ra_quiet_fs a) ++ le_bytes 8 (Abi.ra_quiet_net a) ++ le_bytes 8 (Abi.ra_quiet_scoped a).

Definition attr_u64 (a : Abi.RulesetAttr) : Prop :=
  Forall u64 [Abi.ra_handled_fs a; Abi.ra_handled_net a; Abi.ra_scoped a; Abi.ra_quiet_fs a; Abi.ra_quiet_net a; Abi.ra_quiet_scoped a].

Lemma encode_length a : length (encode a) = RULESET_ATTR_SIZE.
Proof. unfold encode. by rewrite !length_app, !le_bytes_length. Qed.

Lemma word_skip k x l : Abi.word (le_bytes 8 x ++ l) (S k) = Abi.word l k.
Proof.
  unfold Abi.word. replace (S k * 8)%nat with (length (le_bytes 8 x) + k * 8)%nat by (rewrite le_bytes_length; lia). by rewrite drop_app_add.
Qed.

Lemma word_head x l : u64 x -> Abi.word (le_bytes 8 x ++ l) 0 = x.
Proof.
  intros Hx. unfold Abi.word. rewrite Nat.mul_0_l, drop_0, take_app_length' by (by rewrite le_bytes_length). apply from_le_bytes_le.
  unfold u64, U64_MAX in Hx. change (256 ^ Z.of_nat 8) with (2 ^ 64). lia.
Qed.

Lemma decode_encode a : attr_u64 a -> Abi.decode (encode a) = a.
Proof.
  intros H. unfold attr_u64 in H. rewrite !Forall_cons in H. destruct H as (H1 & H2 & H3 & H4 & H5 & H6 & _).
  unfold Abi.decode, encode. rewrite !word_skip, !word_head by done.
  rewrite <- (app_nil_r (le_bytes 8 (Abi.ra_quiet_scoped a))), word_head by done. by destruct a.
Qed.

(** ** User memory *)

Definition holds (mem : UserMem) (addr : Z) (bs : list Z) : Prop := forall i b, bs !! i = Some b -> mem (addr + Z.of_nat i) = Some b.

Lemma holds_drop mem addr bs n : holds mem addr bs -> holds mem (addr + Z.of_nat n) (drop n bs).
Proof. intros H i b. rewrite lookup_drop. intros Hi. rewrite <- (H _ _ Hi). f_equal. lia. Qed.

Lemma read_holds mem addr bs n : holds mem addr bs -> (n <= length bs)%nat -> read_bytes mem addr n = Some (take n bs).
Proof.
  revert addr bs. induction n as [|n IH]; intros addr bs H Hn; cbn [read_bytes]; [done|]. destruct bs as [|b bs]; cbn in Hn; [lia|].
  pose proof (H 0%nat b eq_refl) as Hb. rewrite Z.add_0_r in Hb. rewrite Hb, (IH (addr + 1) bs); [done| |lia].
  intros i x Hi. rewrite <- (H (S i) x Hi). f_equal. lia.
Qed.

Lemma copy_holds mem addr bs n :
  holds mem addr bs -> (n <= length bs)%nat -> 0 < addr -> addr + Z.of_nat n <= USER_VA_END -> copy_from_user mem addr n = Ok (take n bs).
Proof.
  intros H Hn Ha Hend. unfold copy_from_user. assert (Hok : access_ok addr n = true).
  { unfold access_ok. destruct (n =? 0)%nat eqn:E; to_prop; [apply Z.leb_le; lia|].
    rewrite (proj2 (Z.eqb_neq addr 0)) by lia. cbn [negb andb]. apply andb_true_iff. split; apply Z.leb_le; [|done].
    unfold USER_VA_END, U64_MAX in *. lia. }
  by rewrite Hok, (read_holds mem addr bs n H Hn).
Qed.

Lemma tail_zero mem addr len fuel :
  holds mem addr (replicate len 0) -> 0 < addr -> addr + Z.of_nat len <= USER_VA_END -> (len < fuel)%nat -> tail_loop mem fuel addr len = Ok true.
Proof.
  revert addr len. induction fuel as [|fuel IH]; intros addr len H Ha Hend Hf; [lia|]. cbn [tail_loop]. destruct (len =? 0)%nat eqn:E; [done|]. to_prop.
  set (n := Nat.min len 64). rewrite (copy_holds mem addr (replicate len 0) n); [|done|rewrite length_replicate; lia|done|lia].
  rewrite take_replicate. assert (Hz : existsb (fun b => negb (b =? 0)) (replicate (Nat.min n len) 0) = false).
  { apply not_true_iff_false. intros (x & Hx & Hb)%existsb_exists. apply list_elem_of_In, elem_of_replicate in Hx as [-> _]. done. }
  rewrite Hz. apply IH; [|lia..]. rewrite <- drop_replicate. by apply holds_drop.
Qed.

(** A caller whose header has the first [size] bytes of the attributes, or
    more bytes than the kernel knows, all zero. *)
Definition wire (a : Abi.RulesetAttr) (size : nat) : list Z := take size (encode a ++ replicate (size - RULESET_ATTR_SIZE) 0).

Lemma read_attr_wire mem a attr size :
  holds mem attr (wire a size) -> Forall (eq 0) (drop size (encode a)) -> 0 < attr -> attr + Z.of_nat size <= USER_VA_END ->
  read_attr mem attr (Z.of_nat size) = Ok (encode a).
Proof.
  intros H Hz Ha Hend. unfold read_attr. rewrite Nat2Z.id. set (head := Nat.min size RULESET_ATTR_SIZE).
  assert (Hlen : length (wire a size) = size) by (unfold wire; rewrite length_take, length_app, encode_length, length_replicate; lia).
  rewrite (copy_holds mem attr (wire a size) head); [|done|lia|done|lia].
  assert (Hbuf : take head (wire a size) ++ replicate (RULESET_ATTR_SIZE - head) 0 = encode a).
  { unfold wire. rewrite take_take, take_app_le by (rewrite encode_length; lia). replace (Nat.min head size) with head by lia.
    rewrite <- (take_drop head (encode a)) at 2. f_equal. destruct (decide (size < RULESET_ATTR_SIZE)%nat).
    - replace head with size by lia. rewrite <- (encode_length a), <- length_drop. by apply replicate_as_Forall.
    - replace head with RULESET_ATTR_SIZE by lia. rewrite Nat.sub_diag, <- (encode_length a), drop_all. done. }
  rewrite Hbuf. destruct (Z.of_nat RULESET_ATTR_SIZE <? Z.of_nat size) eqn:E; to_prop; [|done].
  unfold tail_is_zero. rewrite tail_zero; [done| |lia| |lia].
  - pose proof (holds_drop _ _ _ RULESET_ATTR_SIZE H) as Hd. unfold wire in Hd. rewrite take_ge in Hd by (rewrite length_app, encode_length, length_replicate; lia).
    by rewrite <- (encode_length a) in Hd at 2; rewrite drop_app_length in Hd.
  - lia.
Qed.

(** ** The descriptor of the ruleset *)

Lemma on_table_exact {A} i t (m : M Tab A) (Q : A -> Tab -> Prop) w :
  w_tables w !! i = Some t -> wp m Q t -> wp (on_table i m) (fun a w' => exists t', Q a t' /\ w' = put_tables (<[i := t']> (w_tables w)) w) w.
Proof.
  intros Ht Hm. unfold on_table. wp_step. wp_step. wp_step. rewrite Ht. wp_step. apply wp_zoom. eapply wp_mono; [exact Hm|]. intros a t' HQ. by exists t'.
Qed.

(** Allocate a descriptor, and mark it. *)
Lemma alloc_marked t f nofile fd :
  fd_ok t -> lowest_free (slot t) 0 (limit_max nofile) = Some fd ->
  wp (Fd.alloc_limit f nofile) (fun r t1 => r = Ok (Z.of_nat fd) /\
    wp (Fd.set_cloexec (Z.of_nat fd) true) (fun _ t2 => fd_ok t2 /\ slot t2 fd = Opened f true) t1) t.
Proof.
  intros Ht Hfd. pose proof (call_refines ok_hook ok_hook (CAlloc f nofile) I t Ht) as H. cbn [exec spec] in H. unfold Spec.alloc in H. rewrite Hfd in H.
  eapply wp_mono; [exact H|]. intros r t1 [-> (Ht1 & Hs1 & _)]. split; [done|].
  pose proof (set_cloexec_refines (Z.of_nat fd) true t1 Ht1) as H2. unfold Spec.set_cloexec in H2.
  rewrite (proj2 (Z.ltb_ge _ _)), Hs1 in H2 by lia. unfold index in H2. rewrite Nat2Z.id in H2. cbn [fst snd] in H2. rewrite slot_upd_eq in H2. cbn [fst snd] in H2.
  eapply wp_mono; [exact H2|]. intros r' t2 [_ (Ht2 & Hs2 & _)]. split; [done|]. rewrite Hs2. apply slot_upd_eq.
Qed.

Lemma install_exact nofile tid task i t a fd w :
  w_tasks w !! tid = Some task -> tk_table task = Some i -> w_tables w !! i = Some t -> fd_ok t ->
  lowest_free (slot t) 0 (limit_max nofile) = Some fd ->
  wp (install_ruleset nofile tid a) (fun r w' => r = Z.of_nat fd /\ exists t2,
    w' = put_tables (<[i := t2]> (w_tables w)) (put_wfiles (w_files w ++ [ruleset_file w]) (put_rulesets (w_rulesets w ++ [Rs.new a]) w)) /\
    fd_ok t2 /\ slot t2 fd = Opened (Z.of_nat (length (w_files w))) true) w.
Proof.
  intros Htask Hi Ht Hok Hfd. unfold install_ruleset. wp_step. wp_step. wp_step. wp_step. rewrite Htask, Hi.
  set (w1 := put_wfiles _ _). wp_step.
  eapply wp_mono; [apply (on_table_exact i t _ _ w1 Ht (alloc_marked t (Z.of_nat (length (w_files w))) nofile fd Hok Hfd))|].
  intros r w2 (t1 & (-> & Hm) & ->). wp_step.
  eapply wp_mono; [eapply (on_table_exact i t1); [|exact Hm]|].
  - cbn. apply list_lookup_insert_eq. by eapply lookup_lt_Some.
  - intros x w3 (t2 & (Ht2 & Hs2) & ->). wp_step. split; [done|]. exists t2. split_and!; [|done..]. cbn. by rewrite list_insert_insert_eq.
Qed.
