(* ===== verification/LandlockSample.v ===== *)
(** * Landlock: concrete runs

    A small file system, user memory with encoded attributes and rules, and
    the worlds some calls lead to. *)

From stdpp Require Import list.
From S2P Require Import Prelude Words Result FdTable FdTableSpec FdTableRefine FdTableTheorems FdTableRefs.
From S2P Require Import Landlock LandlockDomain LandlockAccess LandlockCheck LandlockRefer.
From S2P Require Import LandlockCalls LandlockWorld LandlockSteps LandlockTrace LandlockNarrow LandlockIds LandlockCreate.

(** Attributes at 4096 and at 4608, rules at 8192 and 8224. *)
Definition sample_attr : Abi.RulesetAttr :=
  {| Abi.ra_handled_fs := 0x2006; Abi.ra_handled_net := 1; Abi.ra_scoped := 2; Abi.ra_quiet_fs := 0; Abi.ra_quiet_net := 0; Abi.ra_quiet_scoped := 0 |}.
Definition lax_attr : Abi.RulesetAttr :=
  {| Abi.ra_handled_fs := 0; Abi.ra_handled_net := 0; Abi.ra_scoped := 2; Abi.ra_quiet_fs := 0; Abi.ra_quiet_net := 0; Abi.ra_quiet_scoped := 0 |}.

Definition at_address (base : Z) (bs : list Z) : UserMem := fun a => if a <? base then None else bs !! Z.to_nat (a - base).
Definition sample_mem : UserMem := fun a =>
  if a <? 4608 then at_address 4096 (encode sample_attr) a
  else if a <? 8192 then at_address 4608 (encode lax_attr) a
  else if a <? 8224 then at_address 8192 (le_bytes 8 0x2004 ++ le_bytes 4 0) a
  else at_address 8224 (le_bytes 8 1 ++ le_bytes 8 80) a.

Definition sample_details : DomainDetails := {| dd_pid := 1; dd_uid := 0; dd_exe := []; dd_comm := [] |}.
Definition sample_dir : FileObj := {| fo_ruleset := None; fo_mnt_id := 1; fo_inode := 300; fo_dir := true; fo_anon := false; fo_nouser := false |}.

(** The root 1 of mount 1 holds the directories 2 and 3, and 2 the file 4. *)
Definition sample_vfs : Vfs := {|
  d_parent := fun d => if (d =? 2) || (d =? 3) then Some 1 else if d =? 4 then Some 2 else None;
  d_inode := fun d => if d =? 1 then Some 300 else if d =? 2 then Some 100 else if d =? 3 then Some 200 else if d =? 4 then Some 400 else None;
  mountpoint_of := fun _ => None;
  root_dentry_for_mount_id := fun _ => Some 1;
  file_type := fun i => if i =? 400 then Regular else Directory;
|}.
Definition at_dentry (d : Z) : VfsPath := {| p_mnt := 1; p_dentry := d |}.

(** The first thread confines itself: it may read, link and rename
    below the root, and bind port 80. *)
Definition sample_trace : list Sys :=
  [SNoNewPrivs 0; SOpen 64 0 sample_dir 0; SCreate sample_mem 64 0 4096 48 0; SAddRule sample_mem 0 1 1 8192 0;
   SAddRule sample_mem 0 1 2 8224 0; SRestrict true false sample_details 0 1 0].

Definition after (l : list Sys) : World := match run_sys l (boot true) with Done (_, w) => w | Panic _ => boot true end.
Definition sample_world : World := after sample_trace.

Definition sample_layer : Layer := {|
  l_handled_fs := 0x2006; l_handled_net := 1; l_scoped := 2; l_quiet_fs := 0; l_quiet_net := 0; l_quiet_scoped := 0;
  l_fs := [{| fr_inode := 300; fr_allowed := 0x1fffd; fr_quiet := false |}];
  l_net := [{| nr_port := 80; nr_allowed := 1; nr_quiet := false |}]; l_log := 0 |}.
Definition sample_domain : Domain := {| d_layers := [sample_layer]; ancestry := [1] |}.

Lemma sample_run : run_sys sample_trace (boot true) = Done (tt, sample_world).
Proof. vm_compute. reflexivity. Qed.

Lemma sample_sys_ok : Forall sys_ok sample_trace.
Proof. repeat constructor. Qed.

Lemma sample_reached : reached sample_world.
Proof. exists true, sample_trace. split; [apply sample_sys_ok|apply sample_run]. Qed.

Lemma sample_current : Ll.current_domain sample_world 0 = Some sample_domain.
Proof. vm_compute. reflexivity. Qed.

Lemma sample_denied : exists w, Ll.check sample_vfs 0 (at_dentry 4) ACCESS_FS_WRITE_FILE sample_world = Done (inr (-13), w).
Proof. eexists. vm_compute. reflexivity. Qed.

Lemma sample_passed : exists w, Ll.check sample_vfs 0 (at_dentry 4) ACCESS_FS_READ_FILE sample_world = Done (inl tt, w).
Proof. eexists. vm_compute. reflexivity. Qed.

(** A thread shares the descriptors of the first, confines itself, and is
    then taken along by the first thread's enforcement of a ruleset that
    handles no file access. *)
Definition widen_trace : list Sys :=
  [SNoNewPrivs 0; SCreate sample_mem 64 0 4096 48 0; SCreate sample_mem 64 0 4608 48 0; SClone 0 1 true;
   SRestrict true false sample_details 1 0 0].
Definition widen_call : Sys := SRestrict true false sample_details 0 1 RESTRICT_SELF_TSYNC.

(** The thread of the sample enforces another layer. *)
Definition narrow_trace : list Sys := [SClone 0 2 false; SRestrict true false sample_details 0 1 0].
Definition narrow_world : World := after (sample_trace ++ narrow_trace).

Lemma narrow_run : run_sys narrow_trace sample_world = Done (tt, narrow_world).
Proof. vm_compute. reflexivity. Qed.

Lemma narrow_ok : Forall sys_ok narrow_trace /\ Forall (own 0) narrow_trace.
Proof. split; repeat constructor. Qed.

(** An IPv4 address with port 80. *)
Definition sample_addr : list Z := [2; 0; 0; 80; 0; 0; 0; 0; 0; 0; 0; 0; 0; 0; 0; 0].
