(* ===== verification/LandlockTheorems.v ===== *)
(** * Landlock: properties of the system calls and the checks *)

From stdpp Require Import list.
From S2P Require Import Prelude Words Result FdTable FdTableSpec FdTableInv FdTableRefine FdTableBulk FdTableFork FdTableTheorems FdTableRefs Vma.
From S2P Require Import Landlock LandlockDomain LandlockAccess LandlockSpec LandlockCheck LandlockRefer.
From S2P Require Import LandlockCalls LandlockWorld LandlockSteps LandlockTrace LandlockNarrow LandlockIds LandlockCreate LandlockSample.

Lemma reached_domain w tid d : reached w -> Ll.current_domain w tid = Some d -> domain_ok d /\ logged d (view_logs w tid).
Proof. intros Hw%reached_ok Hd. exact (domain_typed_ok _ d (view_logs w tid) (domain_of _ _ _ Hw Hd) eq_refl). Qed.

(** A check by a confined thread. *)
Lemma confined_wp {A B} tid d (m : Domain -> M Logs A) (f : A -> B) dflt w Q :
  Ll.current_domain w tid = Some d -> wp (m d) (fun a s => Q (f a) (put_wlogs s w)) (view_logs w tid) ->
  wp (w ← get; match Ll.current_domain w tid with None => ret dflt | Some d => a ← Ll.by_thread tid (m d); ret (f a) end) Q w.
Proof.
  intros Hd H. wp_step. wp_step. rewrite Hd. wp_step. apply by_thread_wp. eapply wp_mono; [exact H|]. intros a s Hs. by wp_step.
Qed.

(** ** Types *)

(** Whatever calls the threads of the system make, with
    whatever arguments and user memory, no call panics and the state stays
    well-typed: at most sixteen layers to a domain with as many identities,
    rights, scopes and quiet flags within what the kernel knows and the layer
    handles, ports of sixteen bits, a log for every layer, a ruleset for every
    ruleset file, and sound descriptor tables. *)
Theorem landlock_typed audit l : Forall sys_ok l -> wp (run_sys l) (fun _ w => world_ok w) (boot audit).
Proof. intros Hl. apply run_sys_ok; [done|apply boot_ok]. Qed.

(** ** Paths *)


(** An open passes exactly when the requested rights
    are granted, and the rights recorded on the description, which later
    decide truncation and device control, are exactly those granted of the
    requested and the optional ones. *)
Theorem landlock_open_rights w v tid d path open_req dev :
  reached w -> Ll.current_domain w tid = Some d -> u64 open_req ->
  wp (Ll.open_decide v tid path open_req dev) (fun r _ =>
    let chain := Walk.ancestors v path in
    (allows d chain open_req /\ exists a, r = inl a /\
       forall x, Z.testbit a x = true <-> Z.testbit (open_full open_req dev) x = true /\ allows_right d chain x) \/
    (~ allows d chain open_req /\ r = inr (-13))) w.
Proof.
  intros Hw Ed Hop. destruct (reached_domain w tid d Hw Ed) as [Hd Hl].
  apply (confined_wp tid d (fun d => Access.open_decide v d path open_req dev) Ll.answer (inl U64_MAX) w _ Ed).
  eapply wp_mono; [exact (open_spec d Hd _ Hl v path open_req dev Hop)|].
  intros r s [(H & _ & a & -> & Ha)|(H & -> & _)]; [left|right]; split; try done. by exists a.
Qed.

(** ** Reparenting *)

Lemma answered {A} tid d (m : Domain -> M Logs (result A)) (dflt : A + Z) w (a : A) w' :
  Ll.current_domain w tid = Some d ->
  (w ← get; match Ll.current_domain w tid with None => ret dflt | Some d => r ← Ll.by_thread tid (m d); ret (Ll.answer r) end) w = Done (inl a, w') ->
  exists s, m d (view_logs w tid) = Done (Ok a, s).
Proof.
  intros Ed. unfold Ll.by_thread, mbind, M_bind, bind, get, zoom. rewrite Ed. fold (view_logs w tid).
  destruct (m d (view_logs w tid)) as [[[x|e] s]|]; cbn; [|done..]. intros [= -> _]. by exists s.
Qed.



(** ** Ports *)

Lemma unhandled_net d port req : domain_ok d -> Dom.handles_net d req = false -> allows_net d port req.
Proof.
  intros Hd Hn l r Hl Hr Hf. exfalso. unfold Dom.handles_net in Hn. pose proof (lo_net l (do_layers d Hd l Hl)) as [H0 _].
  assert (Hx : existsb (fun l => negb (Z.land (l_handled_net l) req =? 0)) (d_layers d) = true); [|congruence].
  apply existsb_exists. exists l. split; [by apply list_elem_of_In|]. apply land_some; [done|]. by exists r.
Qed.

(** The right an operation on a socket needs. *)
Definition socket_request (proto : Net.Proto) (op : Net.Op) : option Z :=
  if decide (op = Net.Bind) then Net.bind_request proto else Net.connect_request proto.

Lemma socket_request_u64 proto op req : socket_request proto op = Some req -> u64 req.
Proof. unfold socket_request. destruct (decide _), proto; cbn; by intros [= <-]. Qed.

Lemma classify_inet req op bs fam :
  (Net.sa_family (Net.parse bs) = Net.AF_INET /\ Net.SOCKADDR_IN_LEN <= Z.of_nat (length bs)) \/
  (Net.sa_family (Net.parse bs) = Net.AF_INET6 /\ Net.SOCKADDR_IN6_LEN <= Z.of_nat (length bs)) ->
  Net.classify req op (Net.parse bs) fam = Net.CheckPort (Net.port (Net.parse bs)).
Proof.
  intros H. unfold Net.classify. change (Net.addrlen (Net.parse bs)) with (Z.of_nat (length bs)).
  unfold Net.SOCKADDR_FAMILY_LEN, Net.SOCKADDR_IN_LEN, Net.SOCKADDR_IN6_LEN in *.
  destruct H as [[-> Hl]|[-> Hl]]; cbn [Z.eqb]; rewrite !(proj2 (Z.ltb_ge _ _)) by lia; done.
Qed.

(** A bind, connect or send that names an internet
    address passes exactly when every layer that handles the right has a rule
    for the port of the address that grants it; otherwise it answers
    [EACCES]. *)
Theorem landlock_net_exact w tid d proto op bs fam :
  reached w -> Ll.current_domain w tid = Some d ->
  (Net.sa_family (Net.parse bs) = Net.AF_INET /\ Net.SOCKADDR_IN_LEN <= Z.of_nat (length bs)) \/
  (Net.sa_family (Net.parse bs) = Net.AF_INET6 /\ Net.SOCKADDR_IN6_LEN <= Z.of_nat (length bs)) ->
  let policy := forall req, socket_request proto op = Some req -> allows_net d (Net.port (Net.parse bs)) req in
  wp (Ll.check_socket tid proto op bs fam) (fun r _ => (policy /\ r = inl tt) \/ (~ policy /\ r = inr (-13))) w.
Proof.
  intros Hw Ed Hbs policy. destruct (reached_domain w tid d Hw Ed) as [Hd Hl]. unfold Ll.check_socket. wp_step. wp_step. rewrite Ed. wp_step.
  apply by_thread_wp. unfold Net.addr_verdict. fold (socket_request proto op). destruct (socket_request proto op) as [req|] eqn:Er.
  2:{ wp_step. wp_step. left. split; [|done]. by intros req [= ]. }
  destruct (Dom.handles_net d req) eqn:Eh; cbn [negb].
  2:{ wp_step. wp_step. left. split; [|done]. intros req' [= <-]. by apply unhandled_net. }
  rewrite (classify_inet req op bs fam Hbs). wp_step.
  eapply wp_mono; [exact (check_net_spec d Hd _ Hl (Net.port (Net.parse bs)) req (socket_request_u64 _ _ _ Er))|].
  intros r s [(H & -> & _)|(H & -> & _)]; wp_step; wp_step; [left|right]; split; try done.
  - by intros req' [= <-].
  - intros Hp. by apply H, Hp.
Qed.

(** ** Scopes *)

(** As long as the counter of domains has not
    wrapped, a scoped operation on a thread is refused exactly when some
    layer of the caller's domain scopes the operation and the domain of the
    other thread was not built on the layers up to it: identities decide what
    they stand for. *)
Theorem landlock_scope_exact audit l w tid d peer scope :
  Forall sys_ok l -> Z.of_nat (length l) < U64_MAX -> run_sys l (boot audit) = Done (tt, w) -> Ll.current_domain w tid = Some d ->
  wp (Ll.scope_denies tid scope (Ll.current_domain w peer)) (fun b _ =>
    b = true <-> exists i lay, d_layers d !! i = Some lay /\ Z.land (l_scoped lay) scope <> 0 /\ ~ built_on d i (Ll.current_domain w peer)) w.
Proof.
  intros Hl Hn E Ed. destruct (reached_domain w tid d (ex_intro _ audit (ex_intro _ l (conj Hl E))) Ed) as [Hd Hlg].
  pose proof (run_ids l (boot audit) (boot_ok audit) (boot_ids audit) Hl ltac:(cbn; lia)) as Hr. unfold wp in Hr. rewrite E in Hr. destruct Hr as [Hw Hids].
  assert (Hin : forall t x, Ll.current_domain w t = Some x -> Some x ∈ doms w).
  { intros t x Hx. rewrite current_doms in Hx. destruct (doms w !! t) eqn:Et; [|done]. cbn in Hx. subst. by eapply list_elem_of_lookup_2. }
  assert (Ho : forall i, outside d scope (Ll.current_domain w peer) i = true <->
    exists lay, d_layers d !! i = Some lay /\ Z.land (l_scoped lay) scope <> 0 /\ ~ built_on d i (Ll.current_domain w peer)).
  { intros i. unfold outside. destruct (d_layers d !! i) as [lay|] eqn:Ei; [|by split; [|intros (x & ? & _)]].
    assert (Hb : Dom.peer_inside_at d (Ll.current_domain w peer) i = true <-> built_on d i (Ll.current_domain w peer)).
    { destruct (Ll.current_domain w peer) as [p|] eqn:Ep; [|split; [done|by intros (p & ? & _)]].
      apply (inside_built w); [done|done|by eapply Hin|by eapply Hin|by eapply lookup_lt_Some]. }
    rewrite andb_true_iff, !negb_true_iff, Z.eqb_neq, <- not_true_iff_false, Hb. split; [intros [? ?]; eauto|]. intros (x & [= <-] & ? & ?). done. }
  unfold Ll.scope_denies. wp_step. wp_step. rewrite Ed. apply by_thread_wp.
  eapply wp_mono; [apply (scope_loop_spec d _ Hlg scope (Ll.current_domain w peer) 0 (d_layers d)); [done|intros i Hi; lia]|].
  intros b s [(-> & _ & H)|(-> & i & lay & log & H & _)].
  - split; [done|]. intros (i & Hi%Ho). by rewrite H in Hi.
  - split; [|done]. intros _. exists i. by apply Ho.
Qed.

(** ** Confinement *)

(** C14. What a thread may do only shrinks: after any calls,
    its own or other threads', except another thread's enforcement for the
    whole process, a path check that passes would have passed before. *)
Theorem landlock_narrows audit l0 w l w' tid v path op :
  Forall sys_ok l0 -> run_sys l0 (boot audit) = Done (tt, w) -> Forall sys_ok l -> Forall (own tid) l -> run_sys l w = Done (tt, w') -> u64 op ->
  (exists w2, Ll.check v tid path op w' = Done (inl tt, w2)) -> exists w1, Ll.check v tid path op w = Done (inl tt, w1).
Proof.
  intros Hl0 E0 Hl Ho E Hop [w2 H2]. pose proof (reached_ok w (ex_intro _ audit (ex_intro _ l0 (conj Hl0 E0)))) as Hw.
  pose proof (run_extends tid l w Hw Hl Ho) as Hr. unfold wp in Hr. rewrite E in Hr. destruct Hr as [Hw' He].
  destruct (Ll.current_domain w tid) as [d|] eqn:Ed.
  2:{ exists w. unfold Ll.check, mbind, M_bind, bind, get. by rewrite Ed. }
  destruct (extends_allows d _ (Walk.ancestors v path) op He) as (d' & Ed' & Hal).
  destruct (domain_typed_ok _ d (view_logs w tid) (domain_of _ _ _ Hw Ed) eq_refl) as [Hd Hlg].
  destruct (domain_typed_ok _ d' (view_logs w' tid) (domain_of _ _ _ Hw' Ed') eq_refl) as [Hd' Hlg'].
  destruct (answered tid d' (fun d => Dom.check_fs v d path op) (inl tt) w' tt w2 Ed' H2) as [s Hs].
  apply (check_fs_chain_ok d' Hd' _ op _ s Hop) in Hs. apply Hal in Hs.
  pose proof (check_fs_spec d Hd _ Hlg (Walk.ancestors v path) op Hop) as Hc.
  assert (Hwp : wp (Ll.check v tid path op) (fun r _ => r = inl tt) w).
  { apply (confined_wp tid d (fun d => Dom.check_fs v d path op) Ll.answer (inl tt) w _ Ed). eapply wp_mono; [exact Hc|].
    intros r s1 [(_ & -> & _)|(H & _)]; done. }
  unfold wp in Hwp. destruct (Ll.check v tid path op w) as [[r w1]|]; [|done]. subst r. by exists w1.
Qed.

(** Enforcement for the whole process replaces the
    domains of the other threads: a thread that had confined itself further
    passes, after a sibling's call, a check it was refused before. *)
Theorem landlock_tsync_widens :
  exists l c w w', Forall sys_ok (l ++ [c]) /\ run_sys l (boot true) = Done (tt, w) /\ do_sys c w = Done (tt, w') /\
    (exists w1, Ll.check sample_vfs 1 (at_dentry 4) ACCESS_FS_READ_FILE w = Done (inr (-13), w1)) /\
    (exists w2, Ll.check sample_vfs 1 (at_dentry 4) ACCESS_FS_READ_FILE w' = Done (inl tt, w2)).
Proof.
  exists widen_trace, widen_call, (after widen_trace), (after (widen_trace ++ [widen_call])).
  split_and!; [repeat constructor|vm_compute; reflexivity..|eexists; vm_compute; reflexivity|eexists; vm_compute; reflexivity].
Qed.

(** ** Creating a ruleset *)

(** Attributes that a program encodes, from
    eight bytes of an older header to the largest structure with a zero tail,
    and that are admissible, come back as a ruleset of exactly these rights:
    the call returns the lowest free descriptor, closed on exec, and that
    descriptor resolves to the new ruleset. *)
Theorem landlock_create_roundtrip w mem nofile tid task i t a attr size fd :
  reached w -> w_tasks w !! tid = Some task -> tk_table task = Some i -> w_tables w !! i = Some t ->
  lowest_free (slot t) 0 (limit_max nofile) = Some fd ->
  attr_u64 a -> Abi.validate a = Ok tt ->
  RULESET_ATTR_MIN_SIZE <= Z.of_nat size <= ATTR_MAX_SIZE -> Forall (eq 0) (drop size (encode a)) ->
  holds mem attr (wire a size) -> 0 < attr -> attr + Z.of_nat size <= USER_VA_END ->
  wp (sys_landlock_create_ruleset mem nofile tid attr (Z.of_nat size) 0) (fun r w' =>
    r = Z.of_nat fd /\ Ll.ruleset_from_fd w' tid r = Ok (length (w_rulesets w)) /\
    w_rulesets w' !! length (w_rulesets w) = Some (Rs.new a) /\
    exists t', w_tables w' !! i = Some t' /\ slot t' fd = Opened (Z.of_nat (length (w_files w))) true) w.
Proof.
  intros Hw%reached_ok Htask Hi Ht Hfd Hu Hv Hsz Hz Hm Ha Hend. unfold sys_landlock_create_ruleset.
  assert (H1 : Abi.create_intent attr (Z.of_nat size) (as_u32 0) = Ok Abi.IntentRuleset) by done. rewrite H1.
  assert (H2 : Abi.attr_buffer_ok attr (Z.of_nat size) RULESET_ATTR_MIN_SIZE = Ok tt).
  { unfold Abi.attr_buffer_ok. rewrite (proj2 (Z.eqb_neq attr 0)), !(proj2 (Z.ltb_ge _ _)) by lia. done. }
  rewrite H2, (read_attr_wire mem a attr size Hm Hz Ha Hend), (decode_encode a Hu), Hv.
  pose proof (tb_ok _ _ (Forall_lookup_1 _ _ _ _ (wo_tables _ Hw) Ht)) as Hok.
  eapply wp_mono; [exact (install_exact nofile tid task i t a fd w Htask Hi Ht Hok Hfd)|]. intros r w' [-> (t2 & -> & Hok2 & Hs2)].
  pose proof (lookup_lt_Some _ _ _ Ht) as Hlt. split_and!; [done| | |].
  - unfold Ll.ruleset_from_fd. cbn [w_tasks put_tables put_wfiles put_rulesets]. rewrite Htask. unfold Ll.file_of. rewrite Hi.
    cbn [w_tables w_files put_tables put_wfiles put_rulesets]. rewrite list_lookup_insert_eq by done. cbn [default]. rewrite (fget_slot t2 _ Hok2). unfold Spec.get.
    rewrite (proj2 (Z.ltb_ge _ _)) by lia. unfold index. rewrite Nat2Z.id, Hs2, Nat2Z.id, lookup_app_r, Nat.sub_diag by lia. done.
  - cbn. by rewrite lookup_app_r, Nat.sub_diag by lia.
  - exists t2. split; [|done]. cbn. by apply list_lookup_insert_eq.
Qed.

(** ** Witnesses *)

Lemma landlock_typed_witness : Forall sys_ok sample_trace /\ wp (run_sys sample_trace) (fun _ w => world_ok w) (boot true).
Proof. split; [apply sample_sys_ok|]. apply (landlock_typed true sample_trace). repeat constructor. Defined.


Lemma landlock_open_rights_witness :
  wp (Ll.open_decide sample_vfs 0 (at_dentry 4) ACCESS_FS_READ_FILE true) (fun r _ =>
    let chain := Walk.ancestors sample_vfs (at_dentry 4) in
    (allows sample_domain chain ACCESS_FS_READ_FILE /\ exists a, r = inl a /\
       forall x, Z.testbit a x = true <-> Z.testbit (open_full ACCESS_FS_READ_FILE true) x = true /\ allows_right sample_domain chain x) \/
    (~ allows sample_domain chain ACCESS_FS_READ_FILE /\ r = inr (-13))) sample_world.
Proof. apply (landlock_open_rights sample_world sample_vfs 0 sample_domain (at_dentry 4) ACCESS_FS_READ_FILE true sample_reached sample_current). done. Defined.


Lemma landlock_net_exact_witness :
  let policy := forall req, socket_request Net.Tcp Net.Bind = Some req -> allows_net sample_domain (Net.port (Net.parse sample_addr)) req in
  wp (Ll.check_socket 0 Net.Tcp Net.Bind sample_addr 2) (fun r _ => (policy /\ r = inl tt) \/ (~ policy /\ r = inr (-13))) sample_world.
Proof. apply (landlock_net_exact sample_world 0 sample_domain Net.Tcp Net.Bind sample_addr 2 sample_reached sample_current). left. done. Defined.

Lemma landlock_scope_exact_witness :
  wp (Ll.scope_denies 0 SCOPE_SIGNAL (Ll.current_domain sample_world 1)) (fun b _ =>
    b = true <-> exists i lay, d_layers sample_domain !! i = Some lay /\ Z.land (l_scoped lay) SCOPE_SIGNAL <> 0 /\
      ~ built_on sample_domain i (Ll.current_domain sample_world 1)) sample_world.
Proof.
  apply (landlock_scope_exact true sample_trace sample_world 0 sample_domain 1 SCOPE_SIGNAL sample_sys_ok); [cbn; done|exact sample_run|exact sample_current].
Defined.

Lemma landlock_narrows_witness :
  run_sys narrow_trace sample_world = Done (tt, narrow_world) /\
  ((exists w2, Ll.check sample_vfs 0 (at_dentry 4) ACCESS_FS_READ_FILE narrow_world = Done (inl tt, w2)) ->
   exists w1, Ll.check sample_vfs 0 (at_dentry 4) ACCESS_FS_READ_FILE sample_world = Done (inl tt, w1)).
Proof.
  split; [exact narrow_run|]. intros H. refine (landlock_narrows true sample_trace sample_world narrow_trace narrow_world 0 sample_vfs (at_dentry 4)
    ACCESS_FS_READ_FILE sample_sys_ok sample_run (proj1 narrow_ok) (proj2 narrow_ok) narrow_run _ H). done.
Defined.

(** The attributes of the sample, read by the first thread at boot. *)
Lemma landlock_create_roundtrip_witness :
  wp (sys_landlock_create_ruleset sample_mem 64 0 4096 48 0) (fun r w' =>
    r = 0 /\ Ll.ruleset_from_fd w' 0 r = Ok 0%nat /\ w_rulesets w' !! 0%nat = Some (Rs.new sample_attr) /\
    exists t', w_tables w' !! 0%nat = Some t' /\ slot t' 0%nat = Opened 0 true) (boot true).
Proof.
  refine (landlock_create_roundtrip (boot true) sample_mem 64 0 _ 0 new_table sample_attr 4096 48 0 _ eq_refl eq_refl eq_refl _ _ _ _ _ _ _ _).
  - exists true, []. done.
  - vm_compute. reflexivity.
  - repeat constructor; done.
  - vm_compute. reflexivity.
  - done.
  - constructor.
  - intros i b H. assert (Hi : (i < 48)%nat) by (apply lookup_lt_Some in H; exact H). revert b H.
    do 48 (destruct i as [|i]; [intros b [= <-]; reflexivity|]). lia.
  - done.
  - done.
Defined.
